(** * eav-to-prisma: a shallow embedding of the model-to-schema pipeline

    The development follows the source tree:
    - [Js]        the JavaScript string primitives the code relies on;
    - [Naming]    src/utils/naming.ts;
    - data model  src/field-config-schema.ts (types) and src/utils/prisma-ast.ts;
    - [mapFieldToPrisma]  src/mappers/field-mapper.ts;
    - [buildModel]        src/core/schema-builder.ts;
    - [buildComponentTable], [buildComponentTranslationTable]
                          src/mappers/component-mapper.ts;
    - [buildJunctionTable] src/mappers/relation-mapper.ts;
    - [compileModels]     src/core/generator.ts (the loop of [generate]);
    - [writeSchemaSync]   src/core/schema-writer.ts;
    - [extractModelsFromString] src/utils/prisma-parser.ts;
    - [Zod]               the validation schemas of src/field-config-schema.ts.

    JavaScript strings are sequences of code units; they are modelled as
    [list ascii] (code units 0..255).  A thrown [Error] is the [Throw]
    constructor of [result]. *)

From Stdlib Require Import List Ascii Bool Arith ZArith Lia.
From Stdlib Require String DecimalString.
From Stdlib Require Import Strings.Byte.
Import ListNotations.

Set Implicit Arguments.

(* ================================================================= *)
(** ** JavaScript strings *)

Definition str : Set := list ascii.

Inductive str_lit : Set := lit_nil | lit_cons (a : ascii) (s : str_lit).

Fixpoint str_lit_parse (l : list Byte.byte) : str_lit :=
  match l with
  | [] => lit_nil
  | b :: l => lit_cons (ascii_of_byte b) (str_lit_parse l)
  end.

Fixpoint str_lit_print (s : str_lit) : list Byte.byte :=
  match s with
  | lit_nil => []
  | lit_cons a s => byte_of_ascii a :: str_lit_print s
  end.

Declare Scope js_scope.
Delimit Scope js_scope with js.
#[warnings="-via-type-remapping,-via-type-mismatch"]
String Notation str str_lit_parse str_lit_print
  (via str_lit mapping [[nil] => lit_nil, [cons] => lit_cons]) : js_scope.
Open Scope js_scope.
Open Scope list_scope.

(** Errors: a JavaScript function either returns a value or throws an
    [Error] carrying a message. *)
Inductive result (A : Type) : Type :=
| Ok (a : A)
| Throw (msg : str).
Arguments Ok {A} a.
Arguments Throw {A} msg.

Definition bind {A B} (r : result A) (k : A -> result B) : result B :=
  match r with
  | Ok a => k a
  | Throw m => Throw m
  end.

Notation "x <- r ;; k" := (bind r (fun x => k))
  (at level 61, r at next level, right associativity).

Definition isOk {A} (r : result A) : bool :=
  match r with Ok _ => true | Throw _ => false end.

(** [xs.flatMap(f)] where the callback may throw: the callbacks run in
    order and the first exception aborts the whole call. *)
Fixpoint flatMapR {A B} (f : A -> result (list B)) (xs : list A)
  : result (list B) :=
  match xs with
  | [] => Ok []
  | x :: xs =>
      ys <- f x ;;
      zs <- flatMapR f xs ;;
      Ok (ys ++ zs)
  end.

Module Js.

Fixpoint eqb (a b : str) : bool :=
  match a, b with
  | [], [] => true
  | x :: a, y :: b => Ascii.eqb x y && eqb a b
  | _, _ => false
  end.

(** [s.startsWith(p)] *)
Fixpoint startsWith (p s : str) : bool :=
  match p, s with
  | [], _ => true
  | x :: p, y :: s => Ascii.eqb x y && startsWith p s
  | _ :: _, [] => false
  end.

(** [s.endsWith(p)] *)
Definition endsWith (p s : str) : bool :=
  startsWith (rev p) (rev s).

(** [s.slice(0, -n)] *)
Definition dropEnd (n : nat) (s : str) : str :=
  firstn (length s - n) s.

(** [xs.includes(s)], [set.has(s)] *)
Definition includes (s : str) (xs : list str) : bool :=
  existsb (eqb s) xs.

(** [parts.join(sep)] *)
Fixpoint join (sep : str) (parts : list str) : str :=
  match parts with
  | [] => []
  | [p] => p
  | p :: ps => p ++ sep ++ join sep ps
  end.

(** [s.split(c)] for a separator recognised by [isSep] (one code unit):
    the result always has at least one segment. *)
Fixpoint splitOn (isSep : ascii -> bool) (s : str) : list str :=
  match s with
  | [] => [[]]
  | c :: s =>
      if isSep c then [] :: splitOn isSep s
      else match splitOn isSep s with
           | seg :: segs => (c :: seg) :: segs
           | [] => [[c]]
           end
  end.

Definition code (c : ascii) : nat := nat_of_ascii c.

Definition isUpper (c : ascii) : bool := (65 <=? code c) && (code c <=? 90).
Definition isLower (c : ascii) : bool := (97 <=? code c) && (code c <=? 122).
Definition isDigit (c : ascii) : bool := (48 <=? code c) && (code c <=? 57).

(** [\w] *)
Definition isWord (c : ascii) : bool :=
  isUpper c || isLower c || isDigit c || Ascii.eqb c "_"%char.

(** [\s], restricted to the code units below 256: TAB, LF, VT, FF, CR,
    SPACE and NBSP. *)
Definition isSpace (c : ascii) : bool :=
  ((9 <=? code c) && (code c <=? 13)) || (code c =? 32) || (code c =? 160).

(** [toUpperCase] and [toLowerCase] on the ASCII letters; the names the
    pipeline converts come from slugs, which are ASCII. *)
Definition upperChar (c : ascii) : ascii :=
  if isLower c then ascii_of_nat (code c - 32) else c.
Definition lowerChar (c : ascii) : ascii :=
  if isUpper c then ascii_of_nat (code c + 32) else c.

Definition toUpperCase (s : str) : str := map upperChar s.
Definition toLowerCase (s : str) : str := map lowerChar s.

(** [s.charAt(0)] and [s.slice(1)] *)
Definition charAt0 (s : str) : str := firstn 1 s.
Definition slice1 (s : str) : str := skipn 1 s.

(** [s.padEnd(n)] *)
Definition padEnd (n : nat) (s : str) : str :=
  s ++ repeat " "%char (n - length s).

Fixpoint trimStart (s : str) : str :=
  match s with
  | c :: s' => if isSpace c then trimStart s' else s
  | [] => []
  end.

Definition trimEnd (s : str) : str := rev (trimStart (rev s)).

Definition trim (s : str) : str := trimEnd (trimStart s).

(** [String(n)] for a number [n] with an integer value of magnitude
    below 10^21: the decimal digits, in full. *)
Definition ofNat (n : nat) : str :=
  String.list_ascii_of_string
    (DecimalString.NilZero.string_of_uint (Nat.to_uint n)).

Definition ofZ (z : Z) : str :=
  match z with
  | Zneg p => "-" ++ ofNat (Pos.to_nat p)
  | _ => ofNat (Z.to_nat z)
  end.

End Js.

(* ================================================================= *)
(** ** src/utils/naming.ts *)

Module Naming.

(** [str.replace(/[A-Z]/g, l => `_${l.toLowerCase()}`).replace(/^_/, '')] *)
Definition toSnakeCase (s : str) : str :=
  let replaced :=
    flat_map (fun c => if Js.isUpper c then ["_"%char; Js.lowerChar c]
                       else [c]) s in
  match replaced with
  | c :: rest => if Ascii.eqb c "_"%char then rest else replaced
  | [] => []
  end.

Definition isDashOrUnderscore (c : ascii) : bool :=
  Ascii.eqb c "-"%char || Ascii.eqb c "_"%char.

Definition capitalize (word : str) : str :=
  Js.toUpperCase (Js.charAt0 word) ++ Js.toLowerCase (Js.slice1 word).

Definition toPascalCase (s : str) : str :=
  Js.join "" (map capitalize (Js.splitOn isDashOrUnderscore s)).

Definition toCamelCase (s : str) : str :=
  let pascal := toPascalCase s in
  Js.toLowerCase (Js.charAt0 pascal) ++ Js.slice1 pascal.

End Naming.

(* ================================================================= *)
(** ** Definitions: src/field-config-schema.ts (the inferred types) *)

(** [FieldValidationType].  Numbers are integers here; a boolean flag
    that is absent reads as [false]. *)
Record FieldValidation : Set := {
  v_email : bool; v_url : bool; v_uuid : bool; v_cuid : bool;
  v_minLength : option Z; v_maxLength : option Z; v_pattern : option str;
  v_min : option Z; v_max : option Z;
  v_int : bool; v_positive : bool; v_negative : bool;
  v_minItems : option Z; v_maxItems : option Z;
  v_custom : option str
}.

(** [ComponentContextType]: only [abTesting.enabled] is read. *)
Record ComponentContext : Set := {
  abTesting : option bool   (* [context.abTesting?.enabled] *)
}.

(** [FieldConfigType]: the union discriminated by [config.type].  Of each
    variant only the properties read by the generation code are kept. *)
Inductive FieldConfig : Set :=
| TextConfig
| RichConfig
| NumberConfig (format : option str) (default : option Z)
| BooleanConfig (default : option bool)
| SelectConfig (multiple : bool)
| JsonConfig
| MediaConfig (multiple : bool)
| RelationConfig (relationType targetModel cascade : str)
| ComponentConfig (slug : str) (repeatable : bool)
                  (context : option ComponentContext)
| DateConfig.

(** [FieldDefinitionType].  [fd_type] is the runtime string; [fd_derived]
    is the passthrough property [derived] the generator looks at. *)
Record FieldDefinition : Set := {
  fd_key : str;
  fd_label : str;
  fd_type : str;
  fd_config : option FieldConfig;
  fd_required : bool;
  fd_translatable : option bool;
  fd_validation : option FieldValidation;
  fd_derived : bool
}.

Record ModelSettings : Set := {
  enableI18n : option bool;
  sortField : option str
}.

Record ModelConfig : Set := {
  m_slug : str;
  m_name : str;
  m_fields : list FieldDefinition;
  m_settings : option ModelSettings
}.

Record ComponentEntity : Set := {
  c_slug : str;
  c_name : str;
  c_fields : list FieldDefinition
}.

(* ================================================================= *)
(** ** src/utils/prisma-ast.ts *)

(** [string | number | boolean]; [DNumeral] is the number that
    [parseInt] or [parseFloat] reads from a decimal numeral. *)
Inductive DefaultValue : Set :=
| DString (s : str) | DNumber (z : Z) | DBool (b : bool)
| DNumeral (numeral : str).

Record Relation : Set := {
  r_name : option str;
  r_fields : option (list str);
  r_references : option (list str);
  r_onDelete : option str;
  r_onUpdate : option str
}.

(** [PrismaField].  The flags [optional] and [list] are read by
    truthiness only, so an absent flag is [false]. *)
Record PrismaField : Set := {
  name : str;
  type : str;
  optional : bool;
  list_ : bool;
  default : option DefaultValue;
  attributes : option (list str);
  relation : option Relation;
  map_ : option str;
  validation : option FieldValidation
}.

Record PrismaModel : Set := {
  pm_name : str;
  pm_fields : list PrismaField;
  pm_indexes : option (list (list str));
  pm_unique : option (list (list str));
  pm_map : option str
}.

(** A field literal that sets only [name] and [type]. *)
Definition field (n t : str) : PrismaField :=
  {| name := n; type := t; optional := false; list_ := false;
     default := None; attributes := None; relation := None;
     map_ := None; validation := None |}.

Definition withOptional (b : bool) (f : PrismaField) : PrismaField :=
  {| name := name f; type := type f; optional := b; list_ := list_ f;
     default := default f; attributes := attributes f;
     relation := relation f; map_ := map_ f; validation := validation f |}.

Definition withList (b : bool) (f : PrismaField) : PrismaField :=
  {| name := name f; type := type f; optional := optional f; list_ := b;
     default := default f; attributes := attributes f;
     relation := relation f; map_ := map_ f; validation := validation f |}.

Definition withDefault (d : option DefaultValue) (f : PrismaField)
  : PrismaField :=
  {| name := name f; type := type f; optional := optional f;
     list_ := list_ f; default := d; attributes := attributes f;
     relation := relation f; map_ := map_ f; validation := validation f |}.

Definition withAttributes (a : list str) (f : PrismaField) : PrismaField :=
  {| name := name f; type := type f; optional := optional f;
     list_ := list_ f; default := default f; attributes := Some a;
     relation := relation f; map_ := map_ f; validation := validation f |}.

Definition withRelation (r : Relation) (f : PrismaField) : PrismaField :=
  {| name := name f; type := type f; optional := optional f;
     list_ := list_ f; default := default f; attributes := attributes f;
     relation := Some r; map_ := map_ f; validation := validation f |}.

Definition withValidation (v : option FieldValidation) (f : PrismaField)
  : PrismaField :=
  {| name := name f; type := type f; optional := optional f;
     list_ := list_ f; default := default f; attributes := attributes f;
     relation := relation f; map_ := map_ f; validation := v |}.

(** [{ fields: [fk], references: ['id'], onDelete }] *)
Definition fkRelation (fk onDelete : str) : Relation :=
  {| r_name := None; r_fields := Some [fk]; r_references := Some ["id"];
     r_onDelete := Some onDelete; r_onUpdate := None |}.

(* ================================================================= *)
(** ** src/mappers/field-mapper.ts *)

Inductive Convention : Set := snake_case | camelCase | PascalCase.

(** [SchemaBuilderConfig]; [FieldMapperConfig] is its restriction to
    [convention] and [externalModelNames]. *)
Record SchemaBuilderConfig : Set := {
  convention : Convention;
  prefix : option str;
  i18nEnabled : bool;
  i18nTableNaming : str;
  externalModelNames : option (list str)
}.

Definition isHyphen (c : ascii) : bool := Ascii.eqb c "-"%char.

(** [slug.replace(/-/g, "_")] *)
Definition hyphensToUnderscores (s : str) : str :=
  map (fun c => if isHyphen c then "_"%char else c) s.

Definition toModelName (slug : str) (config : SchemaBuilderConfig) : str :=
  match convention config with
  | PascalCase => Naming.toPascalCase slug
  | camelCase => Naming.toCamelCase slug
  | snake_case => hyphensToUnderscores slug
  end.

Definition mapTextField (f : FieldDefinition) : PrismaField :=
  withValidation (fd_validation f)
    (withOptional (negb (fd_required f)) (field (fd_key f) "String")).

Definition mapRichTextField (f : FieldDefinition) : PrismaField :=
  withValidation (fd_validation f)
    (withOptional (negb (fd_required f)) (field (fd_key f) "String")).

Definition mapNumberField (f : FieldDefinition) : PrismaField :=
  let ty :=
    match fd_config f with
    | Some (NumberConfig (Some fmt) _) =>
        if Js.eqb fmt "integer" then "Int" else "Float"
    | _ => "Float"
    end in
  let dflt :=
    match fd_config f with
    | Some (NumberConfig _ (Some d)) => Some (DNumber d)
    | _ => None
    end in
  withValidation (fd_validation f)
    (withDefault dflt
       (withOptional (negb (fd_required f)) (field (fd_key f) ty))).

Definition mapBooleanField (f : FieldDefinition) : PrismaField :=
  let dflt :=
    match fd_config f with
    | Some (BooleanConfig (Some d)) => Some (DBool d)
    | _ => None
    end in
  withValidation (fd_validation f)
    (withDefault dflt
       (withOptional (negb (fd_required f)) (field (fd_key f) "Boolean"))).

Definition mapDateField (f : FieldDefinition) : PrismaField :=
  withValidation (fd_validation f)
    (withOptional (negb (fd_required f)) (field (fd_key f) "DateTime")).

(** Both branches of the source build the same column. *)
Definition mapSelectField (f : FieldDefinition) : PrismaField :=
  match fd_config f with
  | Some (SelectConfig true) =>
      withValidation (fd_validation f)
        (withOptional (negb (fd_required f)) (field (fd_key f) "String"))
  | _ =>
      withValidation (fd_validation f)
        (withOptional (negb (fd_required f)) (field (fd_key f) "String"))
  end.

Definition mapJsonField (f : FieldDefinition) : PrismaField :=
  withValidation (fd_validation f)
    (withOptional (negb (fd_required f)) (field (fd_key f) "String")).

Definition hasMediaModel (config : SchemaBuilderConfig) : bool :=
  match externalModelNames config with
  | Some names => Js.includes "Media" names
  | None => false
  end.

Definition mediaIsMultiple (f : FieldDefinition) : bool :=
  match fd_config f with
  | Some (MediaConfig multiple) => multiple
  | _ => false
  end.

Definition mapMediaField (f : FieldDefinition) (config : SchemaBuilderConfig)
  : list PrismaField :=
  if mediaIsMultiple f && hasMediaModel config then
    [withOptional true (withList true (field (fd_key f) "Media"))]
  else if hasMediaModel config then
    [withOptional (negb (fd_required f)) (field (fd_key f ++ "_id") "String")]
  else
    [withOptional (negb (fd_required f)) (field (fd_key f ++ "_id") "String")].

Definition mapRelationField (f : FieldDefinition)
    (config : SchemaBuilderConfig) : result (list PrismaField) :=
  match fd_config f with
  | Some (RelationConfig relationType targetModel _) =>
      let target := toModelName targetModel config in
      if Js.eqb relationType "oneToOne" then
        Ok [withAttributes ["@unique"]
              (withOptional (negb (fd_required f))
                 (field (fd_key f ++ "_id") "String"))]
      else if Js.eqb relationType "manyToOne" then
        Ok [withOptional (negb (fd_required f))
              (field (fd_key f ++ "_id") "String")]
      else if Js.eqb relationType "oneToMany" then
        Ok [withOptional true (withList true (field (fd_key f) target))]
      else if Js.eqb relationType "manyToMany" then
        Ok [withOptional true (withList true (field (fd_key f) target))]
      else Throw ("Unknown relation type: " ++ relationType)
  | _ => Throw "Invalid relation field"
  end.

Definition mapComponentField (f : FieldDefinition)
    (config : SchemaBuilderConfig) : result (list PrismaField) :=
  match fd_config f with
  | Some (ComponentConfig slug repeatable _) =>
      let componentModel := toModelName slug config in
      if repeatable then
        Ok [withOptional true (withList true (field (fd_key f) componentModel))]
      else
        Ok [withOptional (negb (fd_required f))
              (field (fd_key f) componentModel)]
  | _ => Throw "Invalid component field"
  end.

(** The [switch (field.type)] of [mapFieldToPrisma]. *)
Definition mapFieldToPrisma (f : FieldDefinition)
    (config : SchemaBuilderConfig) : result (list PrismaField) :=
  let t := fd_type f in
  if Js.eqb t "text" then Ok [mapTextField f]
  else if Js.eqb t "rich" then Ok [mapRichTextField f]
  else if Js.eqb t "number" then Ok [mapNumberField f]
  else if Js.eqb t "boolean" then Ok [mapBooleanField f]
  else if Js.eqb t "date" then Ok [mapDateField f]
  else if Js.eqb t "select" then Ok [mapSelectField f]
  else if Js.eqb t "json" then Ok [mapJsonField f]
  else if Js.eqb t "media" then Ok (mapMediaField f config)
  else if Js.eqb t "relation" then mapRelationField f config
  else if Js.eqb t "component" then mapComponentField f config
  else Throw ("Unknown field type: " ++ t).

(* ================================================================= *)
(** ** src/core/schema-builder.ts *)

Definition isComponentType (f : FieldDefinition) : bool :=
  Js.eqb (fd_type f) "component".
Definition isRelationType (f : FieldDefinition) : bool :=
  Js.eqb (fd_type f) "relation".

(** [field.translatable !== false] *)
Definition translatableFlag (f : FieldDefinition) : bool :=
  match fd_translatable f with
  | Some false => false
  | _ => true
  end.

Record Separated : Set := {
  translatable : list FieldDefinition;
  nonTranslatable : list FieldDefinition;
  components : list FieldDefinition
}.

(** The loop of [separateFields]; every bucket keeps declaration order. *)
Fixpoint separateFields (fields : list FieldDefinition) : Separated :=
  match fields with
  | [] => {| translatable := []; nonTranslatable := []; components := [] |}
  | f :: rest =>
      let r := separateFields rest in
      if isComponentType f then
        {| translatable := translatable r;
           nonTranslatable := nonTranslatable r;
           components := f :: components r |}
      else if isRelationType f then
        {| translatable := translatable r;
           nonTranslatable := f :: nonTranslatable r;
           components := components r |}
      else if translatableFlag f then
        {| translatable := f :: translatable r;
           nonTranslatable := nonTranslatable r;
           components := components r |}
      else
        {| translatable := translatable r;
           nonTranslatable := f :: nonTranslatable r;
           components := components r |}
  end.

(** [fieldKey.endsWith("s") ? fieldKey.slice(0, -1) : fieldKey] *)
Definition singularize (fieldKey : str) : str :=
  if Js.endsWith "s" fieldKey then Js.dropEnd 1 fieldKey else fieldKey.

Definition buildComponentTableName (parentModel fieldKey : str)
    (config : SchemaBuilderConfig) : str :=
  let fieldName := singularize fieldKey in
  match convention config with
  | snake_case => Naming.toSnakeCase parentModel ++ "_" ++ fieldName
  | _ => parentModel ++ Naming.toPascalCase fieldName
  end.

(** [config.prefix ? `${config.prefix}${name}` : name] *)
Definition buildModelName (slug : str) (config : SchemaBuilderConfig) : str :=
  let nm := Naming.toPascalCase slug in
  match prefix config with
  | Some (c :: p) => (c :: p) ++ nm
  | _ => nm
  end.

Definition buildIdField : PrismaField :=
  withAttributes ["@id"; "@default(cuid())"] (field "id" "String").

Definition buildTimestampFields : list PrismaField :=
  [ withAttributes ["@default(now())"] (field "created_at" "DateTime");
    withAttributes ["@updatedAt"] (field "updated_at" "DateTime") ].

Definition buildTranslationRelation (modelName : str) : PrismaField :=
  withOptional true (withList true
    (field "translations" (modelName ++ "Translation"))).

(** The replacement text of [s.replace(pat, rep)] for a string
    pattern: [$$] stands for a dollar sign, [$&] for the match, [$`] for
    the text before the match and [$'] for the text after it; a string
    pattern has no groups, so every other [$] stands for itself. *)
Fixpoint substitute (matched before after rep : str) : str :=
  match rep with
  | [] => []
  | c :: rep' =>
      if Ascii.eqb c "$"%char then
        match rep' with
        | d :: rep'' =>
            if Ascii.eqb d "$"%char
            then "$"%char :: substitute matched before after rep''
            else if Ascii.eqb d "&"%char
            then matched ++ substitute matched before after rep''
            else if Ascii.eqb d "`"%char
            then before ++ substitute matched before after rep''
            else if Ascii.eqb d "'"%char
            then after ++ substitute matched before after rep''
            else c :: substitute matched before after rep'
        | [] => [c]
        end
      else c :: substitute matched before after rep'
  end.

(** [s.replace(pat, rep)] with a string pattern: the first occurrence
    only; [before] is the text already passed. *)
Fixpoint replaceFrom (pat rep before s : str) : str :=
  if Js.startsWith pat s then
    substitute pat before (skipn (length pat) s) rep
    ++ skipn (length pat) s
  else match s with
       | [] => []
       | c :: s' => c :: replaceFrom pat rep (before ++ [c]) s'
       end.

Definition replaceFirst (pat rep s : str) : str := replaceFrom pat rep [] s.

Definition buildTranslationModel (baseModelName : str)
    (translatableFields : list FieldDefinition)
    (config : SchemaBuilderConfig) : result PrismaModel :=
  let tableName :=
    replaceFirst "${identifier}" (Naming.toSnakeCase baseModelName)
                 (i18nTableNaming config) in
  let fk := Naming.toSnakeCase baseModelName ++ "_id" in
  mapped <- flatMapR (fun f => mapFieldToPrisma f config) translatableFields ;;
  Ok {| pm_name := baseModelName ++ "Translation";
        pm_map := Some tableName;
        pm_fields :=
          [buildIdField; field fk "String"; field "lang" "String"]
          ++ mapped
          ++ [withRelation (fkRelation fk "Cascade")
                (field (Naming.toSnakeCase baseModelName) baseModelName)];
        pm_unique := Some [[fk; "lang"]];
        pm_indexes := None |}.

Definition hasKey (k : str) (fields : list FieldDefinition) : bool :=
  existsb (fun f => Js.eqb (fd_key f) k) fields.

Definition buildIndexes (fields : list FieldDefinition)
    (settings : option ModelSettings) : list (list str) :=
  let bySort :=
    match settings with
    | Some {| sortField := Some (c :: s) |} => [[c :: s]]
    | _ => []
    end in
  if hasKey "status" fields && hasKey "published_at" fields
  then bySort ++ [["status"; "published_at"]]
  else bySort.

(** The reference column pushed for a component field of the model. *)
Definition componentReference (modelName : str) (config : SchemaBuilderConfig)
    (f : FieldDefinition) : list PrismaField :=
  match fd_config f with
  | Some (ComponentConfig _ repeatable _) =>
      [withOptional true (withList repeatable
         (field (fd_key f)
                (buildComponentTableName modelName (fd_key f) config)))]
  | _ => []
  end.

Definition hasTranslation (config : SchemaBuilderConfig) (s : Separated)
  : bool :=
  i18nEnabled config && (0 <? length (translatable s)).

Definition buildModel (model : ModelConfig) (config : SchemaBuilderConfig)
  : result (list PrismaModel) :=
  let modelName := buildModelName (m_slug model) config in
  let s := separateFields (m_fields model) in
  let fieldsToInclude :=
    if i18nEnabled config then nonTranslatable s
    else nonTranslatable s ++ translatable s in
  mapped <- flatMapR (fun f => mapFieldToPrisma f config) fieldsToInclude ;;
  let mainFields :=
    [buildIdField] ++ mapped ++ buildTimestampFields
    ++ flat_map (componentReference modelName config) (components s)
    ++ (if hasTranslation config s
        then [buildTranslationRelation modelName] else []) in
  let mainModel :=
    {| pm_name := modelName;
       pm_fields := mainFields;
       pm_indexes := Some (buildIndexes (m_fields model) (m_settings model));
       pm_unique := None;
       pm_map := None |} in
  if hasTranslation config s then
    translationModel <- buildTranslationModel modelName (translatable s) config ;;
    Ok [mainModel; translationModel]
  else Ok [mainModel].

(* ================================================================= *)
(** ** src/mappers/component-mapper.ts *)

(** [separateComponentFields]: nested components and relations stay on
    the component table. *)
Fixpoint separateComponentFields (fields : list FieldDefinition)
  : list FieldDefinition * list FieldDefinition :=
  match fields with
  | [] => ([], [])
  | f :: rest =>
      let '(tr, non) := separateComponentFields rest in
      if isComponentType f || isRelationType f then (tr, f :: non)
      else if translatableFlag f then (f :: tr, non)
      else (tr, f :: non)
  end.

(** [context?.abTesting?.enabled] *)
Definition abTestingEnabled (context : option ComponentContext) : bool :=
  match context with
  | Some {| abTesting := Some true |} => true
  | _ => false
  end.

Definition buildComponentTable (parentModel fieldKey : str)
    (component : ComponentEntity) (repeatable : bool)
    (config : SchemaBuilderConfig) (context : option ComponentContext)
  : result PrismaModel :=
  let tableName := buildComponentTableName parentModel fieldKey config in
  let parentFk := Naming.toSnakeCase parentModel ++ "_id" in
  let '(tr, non) := separateComponentFields (c_fields component) in
  mapped <- flatMapR (fun f => mapFieldToPrisma f config)
              (if i18nEnabled config then non else non ++ tr) ;;
  let fields :=
    [ buildIdField;
      withAttributes (if repeatable then [] else ["@unique"])
        (field parentFk "String") ]
    ++ (if repeatable
        then [withOptional true (field "order" "Int")] else [])
    ++ (if abTestingEnabled context
        then [ withOptional true (field "variant_id" "String");
               withDefault (Some (DBool true))
                 (withOptional true (field "enabled" "Boolean")) ]
        else [])
    ++ mapped
    ++ [ withAttributes ["@default(now())"] (field "created_at" "DateTime");
         withAttributes ["@updatedAt"] (field "updated_at" "DateTime");
         withRelation (fkRelation parentFk "Cascade")
           (field (Naming.toSnakeCase parentModel) parentModel) ]
    ++ (if i18nEnabled config && (0 <? length tr)
        then [withList true (field "translations" (tableName ++ "Translation"))]
        else []) in
  Ok {| pm_name := tableName;
        pm_fields := fields;
        pm_indexes := if repeatable then Some [[parentFk]] else None;
        pm_unique := None;
        pm_map := None |}.

(** Returns [Ok None] for the source's [null]. *)
Definition buildComponentTranslationTable (parentModel fieldKey : str)
    (component : ComponentEntity) (config : SchemaBuilderConfig)
  : result (option PrismaModel) :=
  let '(tr, _) := separateComponentFields (c_fields component) in
  if length tr =? 0 then Ok None
  else
    let baseTableName := buildComponentTableName parentModel fieldKey config in
    let tableName := baseTableName ++ "Translation" in
    let baseFk := Naming.toSnakeCase baseTableName ++ "_id" in
    mapped <- flatMapR (fun f => mapFieldToPrisma f config) tr ;;
    Ok (Some
      {| pm_name := tableName;
         pm_map := Some (Naming.toSnakeCase tableName);
         pm_fields :=
           [buildIdField; field baseFk "String"; field "lang" "String"]
           ++ mapped
           ++ [withRelation (fkRelation baseFk "Cascade")
                 (field (Naming.toSnakeCase baseTableName) baseTableName)];
         pm_unique := Some [[baseFk; "lang"]];
         pm_indexes := None |}).

(* ================================================================= *)
(** ** src/mappers/relation-mapper.ts *)

Definition needsJunctionTable (f : FieldDefinition) : bool :=
  match fd_config f with
  | Some (RelationConfig relationType _ _) =>
      isRelationType f && Js.eqb relationType "manyToMany"
  | _ => false
  end.

Definition buildJunctionTableName (fromModel toModel : str)
    (config : SchemaBuilderConfig) : str :=
  match convention config with
  | snake_case =>
      Naming.toSnakeCase fromModel ++ "_" ++ Naming.toSnakeCase toModel
  | _ => fromModel ++ toModel
  end.

Definition buildJunctionTable (fromModel : str) (f : FieldDefinition)
    (config : SchemaBuilderConfig) : result PrismaModel :=
  match fd_config f with
  | Some (RelationConfig _ targetModel cascade) =>
      let toModel := Naming.toPascalCase targetModel in
      let tableName := buildJunctionTableName fromModel toModel config in
      let fromFk := Naming.toSnakeCase fromModel ++ "_id" in
      let toFk := Naming.toSnakeCase toModel ++ "_id" in
      Ok {| pm_name := tableName;
            pm_fields :=
              [ buildIdField;
                field fromFk "String";
                field toFk "String";
                withOptional true (field "order" "Int");
                withAttributes ["@default(now())"]
                  (field "created_at" "DateTime");
                withRelation
                  (fkRelation fromFk
                     (if Js.eqb cascade "cascade"
                      then "Cascade" else "Restrict"))
                  (field (Naming.toSnakeCase fromModel) fromModel);
                withRelation (fkRelation toFk "Cascade")
                  (field (Naming.toSnakeCase toModel) toModel) ];
            pm_unique := Some [[fromFk; toFk]];
            pm_indexes := Some [[fromFk]; [toFk]];
            pm_map := None |}
  | _ => Throw "Field must be a relation"
  end.

(* ================================================================= *)
(** ** src/core/generator.ts: the compilation loop of [generate] *)

Definition dq : str := ["034"%char].
Definition LF : ascii := "010"%char.

(** [Map<string, ComponentEntityType>] as filled by [readComponents]:
    [set] overwrites an existing slug. *)
Definition ComponentMap : Set := list (str * ComponentEntity).

Fixpoint Map_get (m : ComponentMap) (k : str) : option ComponentEntity :=
  match m with
  | [] => None
  | (k', v) :: m => if Js.eqb k k' then Some v else Map_get m k
  end.

Fixpoint Map_set (m : ComponentMap) (k : str) (v : ComponentEntity)
  : ComponentMap :=
  match m with
  | [] => [(k, v)]
  | (k', v') :: m =>
      if Js.eqb k k' then (k, v) :: m else (k', v') :: Map_set m k v
  end.

Definition readComponents (input : list ComponentEntity) : ComponentMap :=
  fold_left (fun m comp => Map_set m (c_slug comp) comp) input [].

(** Which step of the loop pushed a table (bookkeeping of the model, not
    part of the emitted table). *)
Inductive Origin : Set :=
| FromModel | FromComponent | FromComponentTranslation | FromJunction.

Record GenState : Set := {
  prismaModels : list (Origin * PrismaModel);
  junctionTables : list str;       (* [Set<string>] of emitted names *)
  warnings : list str
}.

Definition pushModel (o : Origin) (t : PrismaModel) (st : GenState)
  : GenState :=
  {| prismaModels := prismaModels st ++ [(o, t)];
     junctionTables := junctionTables st;
     warnings := warnings st |}.

Definition pushWarning (w : str) (st : GenState) : GenState :=
  {| prismaModels := prismaModels st;
     junctionTables := junctionTables st;
     warnings := warnings st ++ [w] |}.

Definition addJunction (n : str) (st : GenState) : GenState :=
  {| prismaModels := prismaModels st;
     junctionTables := junctionTables st ++ [n];
     warnings := warnings st |}.

(** The junction part of the per-field body (generator.ts, 138-149). *)
Definition emitJunction (owner : str) (config : SchemaBuilderConfig)
    (f : FieldDefinition) (st : GenState) : result GenState :=
  if needsJunctionTable f then
    junctionTable <- buildJunctionTable owner f config ;;
    if negb (Js.includes (pm_name junctionTable) (junctionTables st))
    then Ok (addJunction (pm_name junctionTable)
               (pushModel FromJunction junctionTable st))
    else Ok st
  else Ok st.

(** The body of [for (const field of model.fields)]. *)
Definition processField (owner modelSlug : str)
    (comps : ComponentMap) (config : SchemaBuilderConfig)
    (f : FieldDefinition) (st : GenState) : result GenState :=
  match isComponentType f, fd_config f with
  | true, Some (ComponentConfig slug repeatable context) =>
      match Map_get comps slug with
      | None =>
          (* warning, then [continue] *)
          Ok (pushWarning
                ("Component " ++ dq ++ slug ++ dq ++ " not found for field "
                 ++ dq ++ fd_key f ++ dq ++ " in model " ++ dq ++ modelSlug
                 ++ dq) st)
      | Some component =>
          componentTable <-
            buildComponentTable owner (fd_key f) component repeatable
                                config context ;;
          let st := pushModel FromComponent componentTable st in
          st <- (if i18nEnabled config then
                   translationTable <-
                     buildComponentTranslationTable owner (fd_key f)
                                                    component config ;;
                   match translationTable with
                   | Some t => Ok (pushModel FromComponentTranslation t st)
                   | None => Ok st
                   end
                 else Ok st) ;;
          emitJunction owner config f st
      end
  | _, _ => emitJunction owner config f st
  end.

Fixpoint processFields (owner modelSlug : str) (comps : ComponentMap)
    (config : SchemaBuilderConfig) (fields : list FieldDefinition)
    (st : GenState) : result GenState :=
  match fields with
  | [] => Ok st
  | f :: rest =>
      st' <- processField owner modelSlug comps config f st ;;
      processFields owner modelSlug comps config rest st'
  end.

(** [model.fields.filter(...)]: derived fields are dropped with a
    warning each. *)
Fixpoint dropDerived (modelSlug : str) (fields : list FieldDefinition)
    (st : GenState) : list FieldDefinition * GenState :=
  match fields with
  | [] => ([], st)
  | f :: rest =>
      if fd_derived f then
        dropDerived modelSlug rest
          (pushWarning ("Skipped derived field " ++ dq ++ fd_key f ++ dq
                        ++ " in model " ++ dq ++ modelSlug ++ dq) st)
      else
        let '(kept, st') := dropDerived modelSlug rest st in
        (f :: kept, st')
  end.

(** [generated[0]?.name!]: [buildModel] never returns an empty array. *)
Definition ownerName (generated : list PrismaModel) : str :=
  match generated with
  | t :: _ => pm_name t
  | [] => ""
  end.

(** The body of [for (const model of models)]. *)
Definition processModel (comps : ComponentMap) (config : SchemaBuilderConfig)
    (model : ModelConfig) (st : GenState) : result GenState :=
  let '(fieldsWithoutDerived, st) :=
    dropDerived (m_slug model) (m_fields model) st in
  let modelWithoutDerived :=
    {| m_slug := m_slug model; m_name := m_name model;
       m_fields := fieldsWithoutDerived;
       m_settings := m_settings model |} in
  generated <- buildModel modelWithoutDerived config ;;
  let st :=
    fold_left (fun st t => pushModel FromModel t st) generated st in
  processFields (ownerName generated) (m_slug model) comps config
                (m_fields model) st.

Fixpoint compileModels (comps : ComponentMap) (config : SchemaBuilderConfig)
    (models : list ModelConfig) (st : GenState) : result GenState :=
  match models with
  | [] => Ok st
  | m :: rest =>
      st' <- processModel comps config m st ;;
      compileModels comps config rest st'
  end.

Definition initialState : GenState :=
  {| prismaModels := []; junctionTables := []; warnings := [] |}.

(* ================================================================= *)
(** ** src/utils/zod-comments.ts *)

(** JavaScript truthiness of an optional string. *)
Definition truthy (o : option str) : bool :=
  match o with
  | Some (_ :: _) => true
  | _ => false
  end.

Definition whenSet (o : option Z) (render : Z -> str) : list str :=
  match o with
  | Some z => [render z]
  | None => []
  end.

Definition zodParts (v : FieldValidation) : list str :=
  (if v_email v then ["email()"] else [])
  ++ (if v_url v then ["url()"] else [])
  ++ (if v_uuid v then ["uuid()"] else [])
  ++ (if v_cuid v then ["cuid()"] else [])
  ++ whenSet (v_minLength v) (fun z => "min(" ++ Js.ofZ z ++ ")")
  ++ whenSet (v_maxLength v) (fun z => "max(" ++ Js.ofZ z ++ ")")
  ++ (match v_pattern v with
      | Some (c :: p) => ["regex(/" ++ (c :: p) ++ "/)"]
      | _ => []
      end)
  ++ whenSet (v_min v) (fun z => "min(" ++ Js.ofZ z ++ ")")
  ++ whenSet (v_max v) (fun z => "max(" ++ Js.ofZ z ++ ")")
  ++ (if v_int v then ["int()"] else [])
  ++ (if v_positive v then ["positive()"] else [])
  ++ (if v_negative v then ["negative()"] else [])
  ++ whenSet (v_minItems v) (fun z => "length(" ++ Js.ofZ z ++ ")")
  ++ whenSet (v_maxItems v) (fun z => "length(" ++ Js.ofZ z ++ ")")
  ++ (match v_custom v with
      | Some (c :: p) => [c :: p]
      | _ => []
      end).

Definition buildZodComment (validation : option FieldValidation)
  : option str :=
  match validation with
  | None => None
  | Some v =>
      match zodParts v with
      | [] => None
      | parts => Some ("/// @zod." ++ Js.join "." parts)
      end
  end.

(* ================================================================= *)
(** ** src/core/schema-writer.ts *)

Record PrismaDatasource : Set := {
  ds_provider : str;
  ds_url : str;
  ds_directUrl : option str
}.

(** The values of a generator's free-form [config]. *)
#[warnings="-register-all"]
Inductive ConfigValue : Set :=
| CString (s : str)
| CBoolean (b : bool)
| CNumber (z : Z)
| CArray (vs : list ConfigValue).

Record PrismaGenerator : Set := {
  g_name : str;
  g_provider : str;
  g_output : option str;
  g_config : option (list (str * ConfigValue))
}.

Record PrismaSchema : Set := {
  datasource : PrismaDatasource;
  generators : list PrismaGenerator;
  models : list PrismaModel
}.

Definition quoted (s : str) : str := dq ++ s ++ dq.

Definition envOrQuoted (url : str) : str :=
  if Js.startsWith "env(" url then url else quoted url.

Definition writeDatasource (d : PrismaDatasource) : str :=
  Js.join [LF]
    (["datasource db {";
      "provider = " ++ quoted (ds_provider d);
      "url = " ++ envOrQuoted (ds_url d)]
     ++ (match ds_directUrl d with
         | Some (c :: u) => ["directUrl = " ++ envOrQuoted (c :: u)]
         | _ => []
         end)
     ++ ["}"]).

Fixpoint formatConfigValue (v : ConfigValue) : str :=
  match v with
  | CString s => quoted s
  | CBoolean b => if b then "true" else "false"
  | CArray vs => "[" ++ Js.join ", " (map formatConfigValue vs) ++ "]"
  | CNumber z => Js.ofZ z
  end.

(** [`${v}`] *)
Fixpoint interpolate (v : ConfigValue) : str :=
  match v with
  | CString s => s
  | CBoolean b => if b then "true" else "false"
  | CArray vs => Js.join "," (map interpolate vs)
  | CNumber z => Js.ofZ z
  end.

Definition writeConfigEntry (kv : str * ConfigValue) : str :=
  let '(key, value) := kv in
  match Js.eqb key "previewFeatures", value with
  | true, CArray vs =>
      key ++ " = [" ++ Js.join ", " (map (fun v => quoted (interpolate v)) vs)
      ++ "]"
  | _, _ => key ++ " = " ++ formatConfigValue value
  end.

Definition writeGenerator (g : PrismaGenerator) : str :=
  Js.join [LF]
    (["generator " ++ g_name g ++ " {";
      "provider = " ++ quoted (g_provider g)]
     ++ (match g_output g with
         | Some (c :: o) => ["output = " ++ quoted (c :: o)]
         | _ => []
         end)
     ++ (match g_config g with
         | Some entries => map writeConfigEntry entries
         | None => []
         end)
     ++ ["}"]).

Definition formatFieldType (f : PrismaField) : str :=
  if list_ f then type f ++ "[]"
  else if optional f then type f ++ "?"
  else type f.

Definition formatRelation (r : Relation) : str :=
  let parts :=
    (match r_name r with Some (c :: n) => [quoted (c :: n)] | _ => [] end)
    ++ (match r_fields r with
        | Some fs => ["fields: [" ++ Js.join ", " fs ++ "]"]
        | None => []
        end)
    ++ (match r_references r with
        | Some rs => ["references: [" ++ Js.join ", " rs ++ "]"]
        | None => []
        end)
    ++ (match r_onDelete r with
        | Some (c :: a) => ["onDelete: " ++ (c :: a)]
        | _ => []
        end)
    ++ (match r_onUpdate r with
        | Some (c :: a) => ["onUpdate: " ++ (c :: a)]
        | _ => []
        end) in
  "@relation(" ++ Js.join ", " parts ++ ")".

(** What follows the padded type on a field line. *)
Definition fieldTrailer (f : PrismaField) : str :=
  (match attributes f with
   | Some (a :: l) => Js.join " " (a :: l)
   | _ => []
   end)
  ++ (match relation f with
      | Some r => " " ++ formatRelation r
      | None => []
      end)
  ++ (match map_ f with
      | Some (c :: m) => " @map(" ++ quoted (c :: m) ++ ")"
      | _ => []
      end).

Definition writeFieldAligned (f : PrismaField) (nameWidth typeWidth : nat)
  : str :=
  Js.trimEnd
    ("  " ++ Js.padEnd nameWidth (name f) ++ "  "
     ++ Js.padEnd typeWidth (formatFieldType f) ++ fieldTrailer f).

Definition maxWidth (measure : PrismaField -> nat) (fields : list PrismaField)
  : nat :=
  fold_left (fun w f => Nat.max w (measure f)) fields 0.

Definition fieldLines (nameWidth typeWidth : nat) (f : PrismaField)
  : list str :=
  (match buildZodComment (validation f) with
   | Some c => ["  " ++ c]
   | None => []
   end)
  ++ [writeFieldAligned f nameWidth typeWidth].

Definition nonEmptyRows (o : option (list (list str))) : list (list str) :=
  match o with
  | Some rows => rows
  | None => []
  end.

Definition isEmptyRows (o : option (list (list str))) : bool :=
  match nonEmptyRows o with
  | [] => true
  | _ => false
  end.

Definition blockAttributes (m : PrismaModel) : list str :=
  let indexes := nonEmptyRows (pm_indexes m) in
  let unique := nonEmptyRows (pm_unique m) in
  (match indexes with
   | [] => []
   | _ => [""] ++ map (fun ix => "  @@index([" ++ Js.join ", " ix ++ "])")
                      indexes
   end)
  ++ (match unique with
      | [] => []
      | _ => (if isEmptyRows (pm_indexes m) then [""] else [])
             ++ map (fun u => "  @@unique([" ++ Js.join ", " u ++ "])") unique
      end)
  ++ (match pm_map m with
      | Some (c :: n) =>
          (if isEmptyRows (pm_indexes m) && isEmptyRows (pm_unique m)
           then [""] else [])
          ++ ["  @@map(" ++ quoted (c :: n) ++ ")"]
      | _ => []
      end).

Definition writeModel (m : PrismaModel) : str :=
  let maxNameWidth :=
    maxWidth (fun f => length (name f)) (pm_fields m) + 2 in
  let maxTypeWidth :=
    maxWidth (fun f => length (formatFieldType f)) (pm_fields m) + 2 in
  Js.join [LF]
    (["model " ++ pm_name m ++ " {"]
     ++ flat_map (fieldLines maxNameWidth maxTypeWidth) (pm_fields m)
     ++ blockAttributes m
     ++ ["}"]).

Definition writeSchemaSync (schema : PrismaSchema) : str :=
  Js.join [LF; LF]
    ([writeDatasource (datasource schema)]
     ++ map writeGenerator (generators schema)
     ++ map writeModel (models schema))
  ++ [LF].

(* ================================================================= *)
(** ** src/utils/prisma-parser.ts *)

(** The longest prefix of [s] whose characters satisfy [p], and the rest. *)
Fixpoint span (p : ascii -> bool) (s : str) : str * str :=
  match s with
  | [] => ([], [])
  | c :: s' =>
      if p c then let '(a, b) := span p s' in (c :: a, b)
      else ([], s)
  end.

Definition notChar (x : ascii) (c : ascii) : bool := negb (Ascii.eqb c x).

(** One attempt of [/model\s+(\w+)\s*\{([^}]+)\}/] at the start of [s]:
    the captures and the length of the match.  Every quantifier of the
    pattern is followed by a character outside its class, so the greedy
    choice is the only one that can succeed. *)
Definition matchModelAt (s : str) : option (str * str * nat) :=
  if Js.startsWith "model" s then
    let s1 := skipn 5 s in
    let '(ws1, s2) := span Js.isSpace s1 in
    let '(modelName, s3) := span Js.isWord s2 in
    let '(ws2, s4) := span Js.isSpace s3 in
    match ws1, modelName, s4 with
    | _ :: _, _ :: _, open :: s5 =>
        if Ascii.eqb open "{"%char then
          let '(modelBody, s6) := span (notChar "}"%char) s5 in
          match modelBody, s6 with
          | _ :: _, _ :: _ =>
              Some (modelName, modelBody,
                    5 + length ws1 + length modelName + length ws2 + 1
                    + length modelBody + 1)
          | _, _ => None
          end
        else None
    | _, _, _ => None
    end
  else None.

(** The [while ((match = modelRegex.exec(schema)) !== null)] loop: all
    matches, left to right, each search resuming where the previous match
    ended.  [skip] counts the characters still covered by the last match. *)
Fixpoint execAll (skip : nat) (s : str) : list (str * str) :=
  match s with
  | [] => []
  | c :: s' =>
      match skip with
      | S k => execAll k s'
      | O =>
          match matchModelAt s with
          | Some (modelName, modelBody, len) =>
              (modelName, modelBody) :: execAll (len - 1) s'
          | None => execAll 0 s'
          end
      end
  end.

(** [s.split(/\s+/)] *)
Fixpoint splitWs (prevSpace : bool) (s : str) : list str :=
  match s with
  | [] => [[]]
  | c :: s' =>
      if Js.isSpace c then
        if prevSpace then splitWs true s' else [] :: splitWs true s'
      else
        match splitWs false s' with
        | seg :: segs => (c :: seg) :: segs
        | [] => [[c]]
        end
  end.

(** [s.match(/<open>([^<stop>]+)<close>/)?.[1]]: the leftmost position
    where [open], a non-empty run without [stop], and [close] follow each
    other. *)
Fixpoint capture (open : str) (stop : ascii) (close : str) (s : str)
  : option str :=
  let here :=
    if Js.startsWith open s then
      let '(run, rest) := span (notChar stop) (skipn (length open) s) in
      match run with
      | _ :: _ => if Js.startsWith close rest then Some run else None
      | [] => None
      end
    else None in
  match here with
  | Some run => Some run
  | None =>
      match s with
      | [] => None
      | _ :: s' => capture open stop close s'
      end
  end.

Definition isComma (c : ascii) : bool := Ascii.eqb c ","%char.

(** [m[1].split(',').map(f => f.trim())] *)
Definition columnList (s : str) : list str :=
  map Js.trim (Js.splitOn isComma s).

(** The state of the scanner of [extractAttributes]; [parenDepth] is a
    JavaScript number and may go below zero. *)
Record AttrState : Set := {
  attrs : list str;
  inAttribute : bool;
  currentAttr : str;
  parenDepth : Z
}.

Definition attrStep (st : AttrState) (c : ascii) : AttrState :=
  if Ascii.eqb c "@"%char && (parenDepth st =? 0)%Z && negb (inAttribute st)
  then
    {| attrs := (match currentAttr st with
                 | [] => attrs st
                 | cur => attrs st ++ [Js.trim cur]
                 end);
       inAttribute := true; currentAttr := "@";
       parenDepth := parenDepth st |}
  else if inAttribute st then
    if Ascii.eqb c "("%char then
      {| attrs := attrs st; inAttribute := true;
         currentAttr := currentAttr st ++ [c];
         parenDepth := (parenDepth st + 1)%Z |}
    else if Ascii.eqb c ")"%char then
      if (parenDepth st - 1 =? 0)%Z then
        {| attrs := attrs st ++ [currentAttr st ++ [c]];
           inAttribute := false; currentAttr := []; parenDepth := 0%Z |}
      else
        {| attrs := attrs st; inAttribute := true;
           currentAttr := currentAttr st ++ [c];
           parenDepth := (parenDepth st - 1)%Z |}
    else if (parenDepth st =? 0)%Z && Js.isSpace c then
      {| attrs := (match Js.trim (currentAttr st) with
                   | [] => attrs st
                   | cur => attrs st ++ [cur]
                   end);
         inAttribute := false; currentAttr := [];
         parenDepth := parenDepth st |}
    else
      {| attrs := attrs st; inAttribute := true;
         currentAttr := currentAttr st ++ [c];
         parenDepth := parenDepth st |}
  else st.

Definition extractAttributes (line : str) : list str :=
  let st := fold_left attrStep line
              {| attrs := []; inAttribute := false; currentAttr := [];
                 parenDepth := 0%Z |} in
  match currentAttr st, inAttribute st with
  | _ :: _, true => attrs st ++ [Js.trim (currentAttr st)]
  | _, _ => attrs st
  end.

(** [attr.match(/<key>\s*<open>([^<stop>]+)<close>/)?.[1]] *)
Fixpoint captureSpaced (key open : str) (stop : ascii) (close : str)
    (s : str) : option str :=
  let here :=
    if Js.startsWith key s then
      let rest := snd (span Js.isSpace (skipn (length key) s)) in
      if Js.startsWith open rest then
        let '(run, rest') := span (notChar stop) (skipn (length open) rest) in
        match run with
        | _ :: _ => if Js.startsWith close rest' then Some run else None
        | [] => None
        end
      else None
    else None in
  match here with
  | Some run => Some run
  | None =>
      match s with
      | [] => None
      | _ :: s' => captureSpaced key open stop close s'
      end
  end.

(** [attr.match(/<key>\s*(\w+)/)?.[1]] *)
Fixpoint captureWord (key : str) (s : str) : option str :=
  let here :=
    if Js.startsWith key s then
      match fst (span Js.isWord
                      (snd (span Js.isSpace (skipn (length key) s)))) with
      | [] => None
      | word => Some word
      end
    else None in
  match here with
  | Some word => Some word
  | None =>
      match s with
      | [] => None
      | _ :: s' => captureWord key s'
      end
  end.

Definition referentialActions : list str :=
  ["Cascade"; "SetNull"; "Restrict"; "NoAction"].

Definition parseAction (key attr : str) : option str :=
  match captureWord key attr with
  | Some value =>
      if Js.includes value referentialActions then Some value else None
  | None => None
  end.

Definition parseColumns (key attr : str) : list str :=
  match captureSpaced key "[" "]"%char "]" attr with
  | Some cols => columnList cols
  | None => []
  end.

Definition parseRelation (attr : str) : Relation :=
  {| r_name := None;
     r_fields := Some (parseColumns "fields:" attr);
     r_references := Some (parseColumns "references:" attr);
     r_onDelete := parseAction "onDelete:" attr;
     r_onUpdate := parseAction "onUpdate:" attr |}.

(** The [for (const attr of attributes)] loop: a later attribute
    overwrites what an earlier one set. *)
Definition mapOfAttributes (attributes : list str) : option str :=
  fold_left
    (fun found attr =>
       if Js.startsWith "@map" attr then
         match capture ("@map(" ++ dq) "034"%char (dq ++ ")") attr with
         | Some n => Some n
         | None => found
         end
       else found)
    attributes None.

Definition relationOfAttributes (attributes : list str) : option Relation :=
  fold_left
    (fun found attr =>
       if Js.startsWith "@relation" attr then Some (parseRelation attr)
       else found)
    attributes None.

(** The line terminators, which [.] of a regular expression does not
    match, among the code units below 256. *)
Definition isLineTerminator (c : ascii) : bool :=
  Ascii.eqb c LF || Ascii.eqb c "013"%char.

(** [attr.match(/@default\((.+)\)$/)?.[1]]: the leftmost [@default(]
    after which the text runs to the end of [attr] without a line
    terminator and closes with a parenthesis. *)
Fixpoint captureDefault (s : str) : option str :=
  let here :=
    if Js.startsWith "@default(" s then
      match rev (skipn 9 s) with
      | close :: (c :: body) =>
          if Ascii.eqb close ")"%char
             && forallb (fun x => negb (isLineTerminator x)) (c :: body)
          then Some (rev (c :: body)) else None
      | _ => None
      end
    else None in
  match here with
  | Some value => Some value
  | None =>
      match s with
      | [] => None
      | _ :: s' => captureDefault s'
      end
  end.

(** [/^\d+$/.test(s)] *)
Definition isDigits (s : str) : bool :=
  match s with
  | [] => false
  | _ => forallb Js.isDigit s
  end.

Definition unsigned (s : str) : str :=
  match s with
  | c :: s' => if Ascii.eqb c "-"%char then s' else s
  | [] => []
  end.

(** [/^-?\d+$/.test(s)] and [/^-?\d+\.\d+$/.test(s)] *)
Definition isIntegerNumeral (s : str) : bool := isDigits (unsigned s).
Definition isDecimalNumeral (s : str) : bool :=
  let '(whole, rest) := span Js.isDigit (unsigned s) in
  match whole, rest with
  | _ :: _, dot :: fraction => Ascii.eqb dot "."%char && isDigits fraction
  | _, _ => false
  end.

Definition extractDefaultValue (attr : str) : option DefaultValue :=
  match captureDefault attr with
  | None => None
  | Some text =>
      let value := Js.trim text in
      if Js.eqb value "true" then Some (DBool true)
      else if Js.eqb value "false" then Some (DBool false)
      else if isIntegerNumeral value then Some (DNumeral value)
      else if isDecimalNumeral value then Some (DNumeral value)
      else if Js.startsWith dq value && Js.endsWith dq value
      then Some (DString (Js.dropEnd 1 (skipn 1 value)))
      else if Js.startsWith "'" value && Js.endsWith "'" value
      then Some (DString (Js.dropEnd 1 (skipn 1 value)))
      else Some (DString value)
  end.

Definition defaultOfAttributes (attributes : list str)
  : option DefaultValue :=
  fold_left
    (fun found attr =>
       if Js.startsWith "@default" attr then
         match extractDefaultValue attr with
         | Some d => Some d
         | None => found
         end
       else found)
    attributes None.

Definition parseFieldLine (line : str) : option PrismaField :=
  match splitWs false line with
  | (c :: n) :: (t :: ts) :: _ =>
      let fieldName := c :: n in
      let typeStr := t :: ts in
      let isOptional := Js.endsWith "?" typeStr in
      let typeStr := if isOptional then Js.dropEnd 1 typeStr else typeStr in
      let isList := Js.endsWith "[]" typeStr in
      let typeStr := if isList then Js.dropEnd 2 typeStr else typeStr in
      let attributes := extractAttributes line in
      Some {| name := fieldName; type := typeStr;
              list_ := isList;
              optional := isOptional && negb isList;
              default := defaultOfAttributes attributes;
              attributes := (match attributes with
                             | [] => None
                             | l => Some l
                             end);
              relation := relationOfAttributes attributes;
              map_ := mapOfAttributes attributes;
              validation := None |}
  | _ => None
  end.

Definition pushRow (o : option (list (list str))) (row : list str)
  : option (list (list str)) :=
  Some (nonEmptyRows o ++ [row]).

(** The body of [for (const line of lines)]. *)
Definition parseLine (model : PrismaModel) (line : str) : PrismaModel :=
  if Js.startsWith "//" line then model
  else if Js.startsWith "@@index" line then
    match capture "@@index([" "]"%char "])" line with
    | Some cols =>
        {| pm_name := pm_name model; pm_fields := pm_fields model;
           pm_indexes := pushRow (pm_indexes model) (columnList cols);
           pm_unique := pm_unique model; pm_map := pm_map model |}
    | None => model
    end
  else if Js.startsWith "@@unique" line then
    match capture "@@unique([" "]"%char "])" line with
    | Some cols =>
        {| pm_name := pm_name model; pm_fields := pm_fields model;
           pm_indexes := pm_indexes model;
           pm_unique := pushRow (pm_unique model) (columnList cols);
           pm_map := pm_map model |}
    | None => model
    end
  else if Js.startsWith "@@map" line then
    match capture ("@@map(" ++ dq) "034"%char (dq ++ ")") line with
    | Some n =>
        {| pm_name := pm_name model; pm_fields := pm_fields model;
           pm_indexes := pm_indexes model; pm_unique := pm_unique model;
           pm_map := Some n |}
    | None => model
    end
  else
    match parseFieldLine line with
    | Some f =>
        {| pm_name := pm_name model; pm_fields := pm_fields model ++ [f];
           pm_indexes := pm_indexes model; pm_unique := pm_unique model;
           pm_map := pm_map model |}
    | None => model
    end.

Definition isLF (c : ascii) : bool := Ascii.eqb c LF.

Definition isNonEmpty (s : str) : bool :=
  match s with
  | [] => false
  | _ => true
  end.

(** [modelBody.split('\n').map(l => l.trim()).filter(l => l.length > 0)] *)
Definition bodyLines (modelBody : str) : list str :=
  filter isNonEmpty (map Js.trim (Js.splitOn isLF modelBody)).

Definition parseModel (modelName modelBody : str) : PrismaModel :=
  fold_left parseLine (bodyLines modelBody)
    {| pm_name := modelName; pm_fields := [];
       pm_indexes := None; pm_unique := None; pm_map := None |}.

Definition extractModelsFromString (schema : str) : list PrismaModel :=
  map (fun m => parseModel (fst m) (snd m)) (execAll 0 schema).

(* ================================================================= *)
(** ** Validation: the zod schemas of src/field-config-schema.ts

    The schemas are data ([schema]); [parse] gives them the meaning the
    validation library gives them: type tests that stop the checks of the
    value they fail on, checks whose issues let later checks run, and
    refinements that are skipped once an issue of the first kind has been
    recorded for the value or for one of its parts. *)

Module Zod.

#[warnings="-register-all"]
Inductive json : Set :=
| JUndefined
| JNull
| JBool (b : bool)
| JNum (num : Z) (den : positive)   (* a finite number, [num / den] *)
| JStr (s : str)
| JArr (items : list json)
| JObj (props : list (str * json)).

(** [input[key]] *)
Fixpoint lookup (key : str) (props : list (str * json)) : json :=
  match props with
  | [] => JUndefined
  | (k, v) :: props => if Js.eqb key k then v else lookup key props
  end.

Inductive PathSeg : Set := Key (k : str) | Index (i : nat).

(** The built-in failures; their wording belongs to the library and is
    supplied by a locale. *)
Inductive IssueKind : Set :=
| InvalidType (expected : str)
| TooSmall (minimum : nat)
| InvalidFormat (pattern : str)
| InvalidValue (values : list str)
| InvalidUnion
| NotInteger
| IntegerTooSmall          (* below [Number.MIN_SAFE_INTEGER] *)
| IntegerTooBig            (* above [Number.MAX_SAFE_INTEGER] *)
| NumberTooSmall (minimum : Z)
| NumberTooBig (maximum : Z).

Inductive Message : Set :=
| Custom (text : str)
| Builtin (kind : IssueKind).

Record issue : Set := {
  path : list PathSeg;
  message : Message;
  continue : bool
}.

Inductive check : Set :=
| MinLength (minimum : nat)
| Regex (source : str) (test : str -> bool)
| Refine (holds : json -> bool) (text : str) (at_ : list PathSeg)
| Int
| Min (minimum : Z)
| Max (maximum : Z).

#[warnings="-register-all"]
Inductive schema : Type :=
| ZString
| ZNumber
| ZBoolean
| ZEnum (values : list str)
| ZLiteral (value : str)
| ZArray (element : schema)
| ZObject (shape : list (str * schema))
| ZOptional (inner : schema)
| ZDefault (inner : schema) (value : json)
| ZUnion (options : list schema)
| ZDiscriminatedUnion (discriminator : str) (options : list (str * schema))
| ZChecked (inner : schema) (checks : list check).

Definition abortIssue (k : IssueKind) : issue :=
  {| path := []; message := Builtin k; continue := false |}.

Definition prefixIssue (seg : PathSeg) (i : issue) : issue :=
  {| path := seg :: path i; message := message i; continue := continue i |}.

Definition prefixIssues (seg : PathSeg) (l : list issue) : list issue :=
  map (prefixIssue seg) l.

(** [util.aborted]: some recorded issue does not let checks continue. *)
Definition aborted (l : list issue) : bool :=
  existsb (fun i => negb (continue i)) l.

(** The [when] of the length checks: the value has a length. *)
Definition lengthOf (input : json) : option nat :=
  match input with
  | JStr s => Some (length s)
  | JArr items => Some (length items)
  | _ => None
  end.

(** [Number.isInteger(n)], [n < m] and [n > m] for the number
    [num / den] and an integer [m]. *)
Definition isInteger (num : Z) (den : positive) : bool :=
  (num mod Zpos den =? 0)%Z.
Definition below (num : Z) (den : positive) (m : Z) : bool :=
  (num <? m * Zpos den)%Z.
Definition above (num : Z) (den : positive) (m : Z) : bool :=
  (m * Zpos den <? num)%Z.

(** [Number.MAX_SAFE_INTEGER]; [Number.MIN_SAFE_INTEGER] is its
    opposite. *)
Definition MAX_SAFE_INTEGER : Z := 9007199254740991.

(** The issues one check adds.  [skip] tells that an issue recorded so
    far stops the checks; the length checks run whenever the value has a
    length.  [int()] stops the checks on a number that is not an integer
    and records an issue that lets them continue on an integer outside
    the safe range. *)
Definition runCheck (ck : check) (input : json) (skip : bool)
  : list issue :=
  match ck with
  | MinLength n =>
      match lengthOf input with
      | Some len =>
          if len <? n
          then [{| path := []; message := Builtin (TooSmall n);
                   continue := true |}]
          else []
      | None => []
      end
  | Regex source test =>
      if skip then []
      else match input with
           | JStr s =>
               if test s then []
               else [{| path := []; message := Builtin (InvalidFormat source);
                        continue := true |}]
           | _ => []
           end
  | Refine holds text at_ =>
      if skip then []
      else if holds input then []
      else [{| path := at_; message := Custom text; continue := true |}]
  | Int =>
      if skip then []
      else match input with
           | JNum num den =>
               if negb (isInteger num den)
               then [{| path := []; message := Builtin NotInteger;
                        continue := false |}]
               else if above num den MAX_SAFE_INTEGER
               then [{| path := []; message := Builtin IntegerTooBig;
                        continue := true |}]
               else if below num den (- MAX_SAFE_INTEGER)
               then [{| path := []; message := Builtin IntegerTooSmall;
                        continue := true |}]
               else []
           | _ => []
           end
  | Min m =>
      if skip then []
      else match input with
           | JNum num den =>
               if below num den m
               then [{| path := []; message := Builtin (NumberTooSmall m);
                        continue := true |}]
               else []
           | _ => []
           end
  | Max m =>
      if skip then []
      else match input with
           | JNum num den =>
               if above num den m
               then [{| path := []; message := Builtin (NumberTooBig m);
                        continue := true |}]
               else []
           | _ => []
           end
  end.

(** [runChecks].  With [exhaustive] set no check is ever skipped: that
    is not the library's behaviour but the reading "every rule is
    evaluated" of the specification. *)
Fixpoint runChecks (exhaustive : bool) (cks : list check) (input : json)
    (sofar : list issue) : list issue :=
  match cks with
  | [] => sofar
  | ck :: cks =>
      runChecks exhaustive cks input
        (sofar ++ runCheck ck input (negb exhaustive && aborted sofar))
  end.

(** Issues of the elements of an array, each under its index. *)
Fixpoint parseItems (parseElement : json -> list issue) (i : nat)
    (items : list json) : list issue :=
  match items with
  | [] => []
  | item :: items =>
      prefixIssues (Index i) (parseElement item)
      ++ parseItems parseElement (S i) items
  end.

Fixpoint parseWith (exhaustive : bool) (s : schema) (input : json)
    {struct s} : list issue :=
  match s with
  | ZString =>
      match input with
      | JStr _ => []
      | _ => [abortIssue (InvalidType "string")]
      end
  | ZNumber =>
      match input with
      | JNum _ _ => []
      | _ => [abortIssue (InvalidType "number")]
      end
  | ZBoolean =>
      match input with
      | JBool _ => []
      | _ => [abortIssue (InvalidType "boolean")]
      end
  | ZEnum values =>
      match input with
      | JStr v =>
          if Js.includes v values then []
          else [abortIssue (InvalidValue values)]
      | _ => [abortIssue (InvalidValue values)]
      end
  | ZLiteral value =>
      match input with
      | JStr v =>
          if Js.eqb v value then []
          else [abortIssue (InvalidValue [value])]
      | _ => [abortIssue (InvalidValue [value])]
      end
  | ZArray element =>
      match input with
      | JArr items => parseItems (parseWith exhaustive element) 0 items
      | _ => [abortIssue (InvalidType "array")]
      end
  | ZObject shape =>
      match input with
      | JObj props =>
          (fix properties (shape : list (str * schema)) : list issue :=
             match shape with
             | [] => []
             | (key, el) :: shape =>
                 prefixIssues (Key key)
                   (parseWith exhaustive el (lookup key props))
                 ++ properties shape
             end) shape
      | _ => [abortIssue (InvalidType "object")]
      end
  | ZOptional inner =>
      match input with
      | JUndefined => []
      | _ => parseWith exhaustive inner input
      end
  | ZDefault inner _ =>
      match input with
      | JUndefined => []
      | _ => parseWith exhaustive inner input
      end
  | ZUnion options =>
      let someAccepts :=
        (fix attempt (options : list schema) : bool :=
           match options with
           | [] => false
           | o :: options =>
               match parseWith exhaustive o input with
               | [] => true
               | _ => attempt options
               end
           end) options in
      if someAccepts then [] else [abortIssue InvalidUnion]
  | ZDiscriminatedUnion discriminator options =>
      match input with
      | JObj props =>
          (fix select (options : list (str * schema)) : list issue :=
             match options with
             | [] =>
                 [{| path := [Key discriminator];
                     message := Builtin InvalidUnion; continue := false |}]
             | (tag, o) :: options =>
                 match lookup discriminator props with
                 | JStr v =>
                     if Js.eqb v tag then parseWith exhaustive o input
                     else select options
                 | _ => select options
                 end
             end) options
      | _ => [abortIssue (InvalidType "object")]
      end
  | ZChecked inner checks =>
      runChecks exhaustive checks input (parseWith exhaustive inner input)
  end.

(** The issues the library records. *)
Definition parse (s : schema) (input : json) : list issue :=
  parseWith false s input.

(** Every rule of the schema the value violates. *)
Definition violations (s : schema) (input : json) : list issue :=
  parseWith true s input.

(** Induction on schemas, through the lists of sub-schemas. *)
Section SchemaInduction.

Variable P : schema -> Prop.
Hypothesis HString : P ZString.
Hypothesis HNumber : P ZNumber.
Hypothesis HBoolean : P ZBoolean.
Hypothesis HEnum : forall values, P (ZEnum values).
Hypothesis HLiteral : forall value, P (ZLiteral value).
Hypothesis HArray : forall element, P element -> P (ZArray element).
Hypothesis HObject :
  forall shape, Forall (fun p => P (snd p)) shape -> P (ZObject shape).
Hypothesis HOptional : forall inner, P inner -> P (ZOptional inner).
Hypothesis HDefault : forall inner value, P inner -> P (ZDefault inner value).
Hypothesis HUnion : forall options, Forall P options -> P (ZUnion options).
Hypothesis HDiscriminated :
  forall discriminator options,
    Forall (fun p => P (snd p)) options ->
    P (ZDiscriminatedUnion discriminator options).
Hypothesis HChecked : forall inner checks, P inner -> P (ZChecked inner checks).

Fixpoint schema_induction (s : schema) : P s :=
  match s with
  | ZString => HString
  | ZNumber => HNumber
  | ZBoolean => HBoolean
  | ZEnum values => HEnum values
  | ZLiteral value => HLiteral value
  | ZArray element => HArray (schema_induction element)
  | ZObject shape =>
      HObject
        ((fix each (l : list (str * schema))
            : Forall (fun p => P (snd p)) l :=
            match l with
            | [] => Forall_nil _
            | p :: l => Forall_cons p (schema_induction (snd p)) (each l)
            end) shape)
  | ZOptional inner => HOptional (schema_induction inner)
  | ZDefault inner value => HDefault value (schema_induction inner)
  | ZUnion options =>
      HUnion
        ((fix each (l : list schema) : Forall P l :=
            match l with
            | [] => Forall_nil _
            | o :: l => Forall_cons o (schema_induction o) (each l)
            end) options)
  | ZDiscriminatedUnion discriminator options =>
      HDiscriminated discriminator
        ((fix each (l : list (str * schema))
            : Forall (fun p => P (snd p)) l :=
            match l with
            | [] => Forall_nil _
            | p :: l => Forall_cons p (schema_induction (snd p)) (each l)
            end) options)
  | ZChecked inner checks => HChecked checks (schema_induction inner)
  end.

End SchemaInduction.

(** *** The schemas, as declared *)

Definition RESERVED_SYSTEM : list str := ["id"; "created_at"; "updated_at"].
Definition RESERVED_COMPONENT_AB_TESTING : list str :=
  ["variant_id"; "enabled"].

Definition isSlugTail (c : ascii) : bool :=
  Js.isLower c || Js.isDigit c || Ascii.eqb c "_"%char
  || Ascii.eqb c "-"%char.

(** [/^[a-z][a-z0-9_-]*$/.test(s)] *)
Definition SLUG (s : str) : bool :=
  match s with
  | c :: rest => Js.isLower c && forallb isSlugTail rest
  | [] => false
  end.

Definition SLUG_SOURCE : str := "/^[a-z][a-z0-9_-]*$/".

Definition UNIQUE_FIELD_KEYS : str := "Field keys must be unique".
Definition RESERVED_FIELD_KEY : str := "Field key is reserved by the system".
Definition RESERVED_AB_FIELD : str :=
  "variant_id and enabled are reserved for A/B testing".

Definition FieldTypeEnum : schema :=
  ZEnum ["text"; "rich"; "json"; "relation"; "media"; "number"; "boolean";
         "date"; "select"; "component"].

Definition nonEmptyString : schema := ZChecked ZString [MinLength 1].
Definition slugString : schema :=
  ZChecked ZString [MinLength 1; Regex SLUG_SOURCE SLUG].

Definition FieldValidationSchema : schema :=
  ZOptional (ZObject
    [("minLength", ZOptional ZNumber); ("maxLength", ZOptional ZNumber);
     ("pattern", ZOptional ZString); ("email", ZOptional ZBoolean);
     ("url", ZOptional ZBoolean); ("uuid", ZOptional ZBoolean);
     ("cuid", ZOptional ZBoolean);
     ("min", ZOptional ZNumber); ("max", ZOptional ZNumber);
     ("int", ZOptional ZBoolean); ("positive", ZOptional ZBoolean);
     ("negative", ZOptional ZBoolean);
     ("minItems", ZOptional ZNumber); ("maxItems", ZOptional ZNumber);
     ("minDate", ZOptional ZString); ("maxDate", ZOptional ZString);
     ("custom", ZOptional ZString); ("errorMessage", ZOptional ZString)]).

Definition TextConfigShape : list (str * schema) :=
  [("multiline", ZOptional ZBoolean); ("default", ZOptional ZString)].
Definition RichConfigShape : list (str * schema) := [].
Definition NumberConfigShape : list (str * schema) :=
  [("step", ZOptional ZNumber); ("default", ZOptional ZNumber);
   ("format",
    ZOptional (ZEnum ["integer"; "decimal"; "currency"; "percentage"]))].
Definition SelectConfigShape : list (str * schema) :=
  [("multiple", ZOptional (ZDefault ZBoolean (JBool false)));
   ("options",
    ZChecked
      (ZArray (ZUnion [ZString;
                       ZObject [("value", ZString); ("label", ZString)]]))
      [MinLength 1]);
   ("default", ZOptional (ZUnion [ZString; ZArray ZString]))].
Definition JsonConfigShape : list (str * schema) := [].
Definition MediaConfigShape : list (str * schema) :=
  [("multiple", ZDefault ZBoolean (JBool false))].
Definition RelationConfigShape : list (str * schema) :=
  [("relationType",
    ZEnum ["oneToOne"; "oneToMany"; "manyToOne"; "manyToMany"]);
   ("targetModel", ZString);
   ("displayField", ZString);
   ("cascade",
    ZDefault (ZEnum ["restrict"; "cascade"; "setNull"]) (JStr "restrict"))].
Definition DateConfigShape : list (str * schema) :=
  [("format", ZDefault (ZEnum ["date"; "datetime"; "time"]) (JStr "date"));
   ("default", ZOptional ZString)].

Definition ComponentContextSchema : schema :=
  ZOptional (ZObject
    [("aiPrompt",
      ZOptional (ZObject
        [("template", ZString);
         ("autoGenerate", ZOptional (ZDefault ZBoolean (JBool false)));
         ("includeHistory", ZOptional (ZDefault ZBoolean (JBool true)))]));
     ("abTesting",
      ZOptional (ZObject
        [("enabled", ZDefault ZBoolean (JBool false));
         ("variantCount",
          ZOptional (ZDefault (ZChecked ZNumber [Int; Min 2; Max 5])
                              (JNum 3 1)))]))]).

Definition ComponentConfigShape : list (str * schema) :=
  [("slug", slugString);
   ("repeatable", ZDefault ZBoolean (JBool false));
   ("context", ComponentContextSchema)].

Definition variant (tag : str) (shape : list (str * schema))
  : str * schema :=
  (tag, ZObject (("type", ZLiteral tag) :: shape)).

Definition FieldConfigSchema : schema :=
  ZDiscriminatedUnion "type"
    [variant "text" TextConfigShape;
     variant "rich" RichConfigShape;
     variant "number" NumberConfigShape;
     variant "boolean" [("default", ZOptional ZBoolean)];
     variant "select" SelectConfigShape;
     variant "json" JsonConfigShape;
     variant "media" MediaConfigShape;
     variant "relation" RelationConfigShape;
     variant "component" ComponentConfigShape;
     variant "date" DateConfigShape].

Definition notReserved (key : json) : bool :=
  match key with
  | JStr k => negb (Js.includes k RESERVED_SYSTEM)
  | _ => true
  end.

Definition FieldDefinitionSchema : schema :=
  ZObject
    [("key",
      ZChecked ZString
        [MinLength 1; Regex SLUG_SOURCE SLUG;
         Refine notReserved RESERVED_FIELD_KEY []]);
     ("label", nonEmptyString);
     ("type", FieldTypeEnum);
     ("config", ZOptional FieldConfigSchema);
     ("required", ZDefault ZBoolean (JBool false));
     ("translatable", ZOptional (ZDefault ZBoolean (JBool true)));
     ("validation", FieldValidationSchema)].

Definition ModelConfigSchemaBase : schema :=
  ZObject
    [("slug", slugString);
     ("name", nonEmptyString);
     ("fields", ZChecked (ZArray FieldDefinitionSchema) [MinLength 1]);
     ("settings",
      ZOptional (ZObject [("enableI18n", ZOptional ZBoolean);
                          ("sortField", ZOptional ZString)]))].

(** [model.fields.map(f => f.key)]; the refinements below run only on
    values whose keys have passed the string test. *)
Definition keyOf (f : json) : list str :=
  match f with
  | JObj props =>
      match lookup "key" props with
      | JStr k => [k]
      | _ => []
      end
  | _ => []
  end.

Definition fieldKeys (definition : json) : list str :=
  match definition with
  | JObj props =>
      match lookup "fields" props with
      | JArr items => flat_map keyOf items
      | _ => []
      end
  | _ => []
  end.

(** [keys.length === new Set(keys).size] *)
Fixpoint distinct (keys : list str) : bool :=
  match keys with
  | [] => true
  | k :: keys => negb (Js.includes k keys) && distinct keys
  end.

Definition uniqueKeys (model : json) : bool := distinct (fieldKeys model).

Definition ModelConfigSchema : schema :=
  ZChecked ModelConfigSchemaBase [Refine uniqueKeys UNIQUE_FIELD_KEYS []].

Definition noReservedABFields (component : json) : bool :=
  negb (existsb (fun k => Js.includes k RESERVED_COMPONENT_AB_TESTING)
                (fieldKeys component)).

Definition ComponentEntitySchema : schema :=
  ZChecked
    (ZObject
       [("slug", slugString);
        ("name", nonEmptyString);
        ("fields", ZChecked (ZArray FieldDefinitionSchema) [MinLength 1])])
    [Refine noReservedABFields RESERVED_AB_FIELD [Key "fields"]].

(** [schema.parse(raw)] throws a [ZodError] exactly when issues were
    recorded. *)
Definition accepts (s : schema) (raw : json) : bool :=
  match parse s raw with
  | [] => true
  | _ => false
  end.

(** *** [getValidationErrors] *)

Definition renderSeg (seg : PathSeg) : str :=
  match seg with
  | Key k => k
  | Index i => Js.ofNat i
  end.

Section Locale.

(** The library's wording of its built-in issues. *)
Variable locale : IssueKind -> str.

Definition messageText (m : Message) : str :=
  match m with
  | Custom text => text
  | Builtin k => locale k
  end.

(** [`${err.path.join('.')}: ${err.message}`] *)
Definition renderIssue (i : issue) : str :=
  Js.join "." (map renderSeg (path i)) ++ ": " ++ messageText (message i).

Definition getValidationErrors (issues : list issue) : list str :=
  map renderIssue issues.

End Locale.

(** The issue recorded for a reserved key in the field at index [k]. *)
Definition reservedIssue (k : nat) : issue :=
  {| path := [Key "fields"; Index k; Key "key"];
     message := Custom RESERVED_FIELD_KEY; continue := true |}.

(** The issue recorded for field keys that are not unique. *)
Definition uniqueIssue : issue :=
  {| path := []; message := Custom UNIQUE_FIELD_KEYS; continue := true |}.

(** A locale for the examples (the theorems hold for every locale). *)
Definition sampleLocale (k : IssueKind) : str :=
  match k with
  | InvalidType expected => "Invalid input: expected " ++ expected
  | TooSmall minimum => "Too small: expected length >=" ++ Js.ofNat minimum
  | InvalidFormat pattern => "Invalid string: must match pattern " ++ pattern
  | InvalidValue values => "Invalid option: expected one of "
                           ++ Js.join "|" values
  | InvalidUnion => "Invalid input"
  | NotInteger => "Invalid input: expected int"
  | IntegerTooSmall => "Too small: expected int to be >-9007199254740991"
  | IntegerTooBig => "Too big: expected int to be <9007199254740991"
  | NumberTooSmall minimum => "Too small: expected number to be >="
                              ++ Js.ofZ minimum
  | NumberTooBig maximum => "Too big: expected number to be <="
                            ++ Js.ofZ maximum
  end.

Definition rawField (key label type : str) : json :=
  JObj [("key", JStr key); ("label", JStr label); ("type", JStr type)].

(** A field key failing the slug pattern, declared twice. *)
Definition rawBadKeyTwice : json :=
  JObj [("slug", JStr "post"); ("name", JStr "Post");
        ("fields", JArr [rawField "Bad" "First" "text";
                         rawField "Bad" "Second" "text"])].

(** No [name], and a key declared twice. *)
Definition rawNoNameKeyTwice : json :=
  JObj [("slug", JStr "post");
        ("fields", JArr [rawField "body" "First" "text";
                         rawField "body" "Second" "text"])].

Definition rawReservedKey : json :=
  JObj [("slug", JStr "post"); ("name", JStr "Post");
        ("fields", JArr [rawField "title" "Title" "text";
                         rawField "created_at" "Created" "date"])].

Definition rawReservedABKey : json :=
  JObj [("slug", JStr "hero"); ("name", JStr "Hero");
        ("fields", JArr [rawField "enabled" "Enabled" "boolean"])].

End Zod.

(* ================================================================= *)
(** ** src/core/reader.ts *)

(** [s.includes(sub)] *)
Fixpoint strIncludes (sub s : str) : bool :=
  Js.startsWith sub s
  || match s with
     | [] => false
     | _ :: s' => strIncludes sub s'
     end.

(** A row of the model table; [row_definition] is the outcome of the
    mapper, [JSON.parse(row.definition)], which throws a [SyntaxError] on
    a malformed payload. *)
Record EAVDatabaseRow : Set := {
  row_id : str;
  row_slug : str;
  row_definition : result Zod.json
}.

Section Reader.

Variable locale : Zod.IssueKind -> str.

(** The value [ModelConfigSchema.parse] returns for a definition it
    accepts: the definition with the defaults of the schema filled in.
    The reader passes it on as it is. *)
Variable parsed : Zod.json -> Zod.json.

Definition validationFailure (row : EAVDatabaseRow)
    (issues : list Zod.issue) : str :=
  "Validation failed for model " ++ dq ++ row_slug row ++ dq ++ " (id: "
  ++ row_id row ++ "):" ++ [LF]
  ++ Js.join [LF] (Zod.getValidationErrors locale issues).

(** The body of the [for (const row of rows)] loop with its [catch]. *)
Definition readRow (row : EAVDatabaseRow) : result Zod.json :=
  match row_definition row with
  | Throw m =>
      Throw ("Invalid JSON in model " ++ dq ++ row_slug row ++ dq
             ++ " (id: " ++ row_id row ++ "): " ++ m)
  | Ok transformed =>
      match Zod.parse Zod.ModelConfigSchema transformed with
      | [] => Ok (parsed transformed)
      | issues => Throw (validationFailure row issues)
      end
  end.

Fixpoint readRows (rows : list EAVDatabaseRow) : result (list Zod.json) :=
  match rows with
  | [] => Ok []
  | row :: rows =>
      validated <- readRow row ;;
      models <- readRows rows ;;
      Ok (validated :: models)
  end.

(** [readModels], with the outer [catch]. *)
Definition readModels (rows : list EAVDatabaseRow)
  : result (list Zod.json) :=
  match readRows rows with
  | Ok models => Ok models
  | Throw m =>
      if strIncludes "validation" m then Throw m
      else Throw ("Failed to read models from database: " ++ m)
  end.

End Reader.

(* ================================================================= *)
(** ** Validated definitions

    The schemas of [Zod], read on the typed records the generation code
    works with: what [ModelConfigSchema] and [ComponentEntitySchema]
    require of the properties kept in [FieldDefinition]. *)

Definition configValid (c : FieldConfig) : bool :=
  match c with
  | NumberConfig (Some fmt) _ =>
      Js.includes fmt ["integer"; "decimal"; "currency"; "percentage"]
  | RelationConfig relationType _ cascade =>
      Js.includes relationType
        ["oneToOne"; "oneToMany"; "manyToOne"; "manyToMany"]
      && Js.includes cascade ["restrict"; "cascade"; "setNull"]
  | ComponentConfig slug _ _ => (1 <=? length slug) && Zod.SLUG slug
  | _ => true
  end.

Definition recognizedKinds : list str :=
  ["text"; "rich"; "number"; "boolean"; "date"; "select"; "json"; "media";
   "relation"; "component"].

(** The kinds translated without looking at the discriminated config. *)
Definition scalarKinds : list str :=
  ["text"; "rich"; "number"; "boolean"; "date"; "select"; "json"; "media"].

Definition fieldValid (f : FieldDefinition) : bool :=
  (1 <=? length (fd_key f)) && Zod.SLUG (fd_key f)
  && negb (Js.includes (fd_key f) Zod.RESERVED_SYSTEM)
  && (1 <=? length (fd_label f))
  && Js.includes (fd_type f) recognizedKinds
  && match fd_config f with
     | Some c => configValid c
     | None => true
     end.

Definition modelValid (m : ModelConfig) : bool :=
  (1 <=? length (m_slug m)) && Zod.SLUG (m_slug m)
  && (1 <=? length (m_name m))
  && (1 <=? length (m_fields m))
  && forallb fieldValid (m_fields m)
  && Zod.distinct (map fd_key (m_fields m)).

Definition componentValid (c : ComponentEntity) : bool :=
  (1 <=? length (c_slug c)) && Zod.SLUG (c_slug c)
  && (1 <=? length (c_name c))
  && (1 <=? length (c_fields c))
  && forallb fieldValid (c_fields c)
  && negb (existsb (fun f => Js.includes (fd_key f)
                                Zod.RESERVED_COMPONENT_AB_TESTING)
                   (c_fields c)).

(** Fields whose value is content that may be translated: neither a
    relation nor a component, and [translatable] not [false]. *)
Definition isTranslatableContent (f : FieldDefinition) : bool :=
  negb (isComponentType f) && negb (isRelationType f) && translatableFlag f.

(** A relation-typed field carries a relation config. *)
Definition relationConfigured (f : FieldDefinition) : bool :=
  if isRelationType f then
    match fd_config f with
    | Some (RelationConfig _ _ _) => true
    | _ => false
    end
  else true.

(** A component-typed field carries a component config. *)
Definition componentConfigured (f : FieldDefinition) : bool :=
  if isComponentType f then
    match fd_config f with
    | Some (ComponentConfig _ _ _) => true
    | _ => false
    end
  else true.

(* ================================================================= *)
(** ** Sample definitions

    The inputs of the scenarios of the specification and of the test
    suite, used to run the pipeline on concrete data. *)

Module Samples.

Definition plain : SchemaBuilderConfig :=
  {| convention := PascalCase; prefix := None; i18nEnabled := false;
     i18nTableNaming := "${identifier}_translation";
     externalModelNames := None |}.

Definition withI18n : SchemaBuilderConfig :=
  {| convention := PascalCase; prefix := None; i18nEnabled := true;
     i18nTableNaming := "${identifier}_translation";
     externalModelNames := None |}.

Definition mkField (key type : str) (config : option FieldConfig)
    (required : bool) (translatable : option bool) : FieldDefinition :=
  {| fd_key := key; fd_label := key; fd_type := type; fd_config := config;
     fd_required := required; fd_translatable := translatable;
     fd_validation := None; fd_derived := false |}.

Definition mkModel (slug name : str) (fields : list FieldDefinition)
  : ModelConfig :=
  {| m_slug := slug; m_name := name; m_fields := fields;
     m_settings := None |}.

Definition title : FieldDefinition :=
  mkField "title" "text" None true None.

Definition views : FieldDefinition :=
  mkField "views" "number" (Some (NumberConfig (Some "integer") None))
          false (Some false).

(** A relation field whose [config] was left out: the schema accepts
    it, [config] being optional. *)
Definition author : FieldDefinition :=
  mkField "author" "relation" None false None.

Definition manyToMany (key target : str) : FieldDefinition :=
  mkField key "relation"
          (Some (RelationConfig "manyToMany" target "restrict"))
          false (Some false).

(** Scenario E: translatable and non-translatable fields. *)
Definition article : ModelConfig :=
  mkModel "article" "Article" [title; views].

Definition articleWithAuthor : ModelConfig :=
  mkModel "article" "Article" [title; author].

(** Scenario B. *)
Definition post : ModelConfig :=
  mkModel "post" "Post"
    [mkField "title" "text" None true (Some false);
     manyToMany "categories" "category"].


(** Scenario C. *)
Definition seo : ComponentEntity :=
  {| c_slug := "seo"; c_name := "SEO";
     c_fields := [mkField "meta_title" "text" None false None] |}.

Definition unknownKind : FieldDefinition :=
  mkField "price" "money" None false None.

(** The naming options of the test "applies prefix to model names". *)
Definition prefixed : SchemaBuilderConfig :=
  {| convention := PascalCase; prefix := Some "CMS"; i18nEnabled := false;
     i18nTableNaming := "${identifier}_translation";
     externalModelNames := None |}.

Definition category : ModelConfig :=
  mkModel "category" "Category"
    [mkField "name" "text" None true (Some false)].

(** [articleWithAuthor] as the raw definition it is validated from. *)
Definition rawArticleWithAuthor : Zod.json :=
  Zod.JObj
    [("slug", Zod.JStr "article"); ("name", Zod.JStr "Article");
     ("fields",
      Zod.JArr
        [Zod.JObj [("key", Zod.JStr "title"); ("label", Zod.JStr "title");
                   ("type", Zod.JStr "text"); ("required", Zod.JBool true)];
         Zod.JObj [("key", Zod.JStr "author"); ("label", Zod.JStr "author");
                   ("type", Zod.JStr "relation");
                   ("required", Zod.JBool false)]])].

Definition rowOf (raw : Zod.json) : EAVDatabaseRow :=
  {| row_id := "1"; row_slug := "post"; row_definition := Ok raw |}.

(** The schema [generate] assembles for Scenario B with the default
    datasource and the client generator. *)
Definition schemaOf (tables : list PrismaModel) : PrismaSchema :=
  {| datasource := {| ds_provider := "sqlite";
                      ds_url := "env(" ++ dq ++ "DATABASE_URL" ++ dq ++ ")";
                      ds_directUrl := None |};
     generators := [{| g_name := "client"; g_provider := "prisma-client-js";
                       g_output := None; g_config := None |}];
     models := tables |}.

Definition generatedTables (config : SchemaBuilderConfig)
    (models : list ModelConfig) : list PrismaModel :=
  match compileModels [] config models initialState with
  | Ok st => map snd (prismaModels st)
  | Throw _ => []
  end.

(** A field validated by a pattern that holds a closing brace. *)
Definition zipCode : FieldDefinition :=
  {| fd_key := "zip"; fd_label := "Zip"; fd_type := "text";
     fd_config := None; fd_required := true; fd_translatable := Some false;
     fd_validation :=
       Some {| v_email := false; v_url := false; v_uuid := false;
               v_cuid := false; v_minLength := None; v_maxLength := None;
               v_pattern := Some "^[0-9]{5}$";
               v_min := None; v_max := None; v_int := false;
               v_positive := false; v_negative := false;
               v_minItems := None; v_maxItems := None; v_custom := None |};
     fd_derived := false |}.

Definition address : ModelConfig :=
  mkModel "address" "Address"
    [zipCode; mkField "city" "text" None true (Some false)].

Definition scenarioB : PrismaSchema :=
  schemaOf (generatedTables plain [post; category]).

End Samples.

(* ================================================================= *)
(** ** Junction tables of a run

    What the specification says of a generation run, written down
    independently of the loop: the junction tables requested by the
    many-to-many fields, in run order, and the rule that of several
    requests with one name only the first is emitted. *)

Definition isJunctionOrigin (o : Origin) : bool :=
  match o with
  | FromJunction => true
  | _ => false
  end.

(** The junction tables among the generated tables, in output order. *)
Definition junctionsOf (st : GenState) : list PrismaModel :=
  map snd (filter (fun p => isJunctionOrigin (fst p)) (prismaModels st)).

Definition junctionRequest (owner : str) (config : SchemaBuilderConfig)
    (f : FieldDefinition) : list PrismaModel :=
  if needsJunctionTable f then
    match buildJunctionTable owner f config with
    | Ok t => [t]
    | Throw _ => []
    end
  else [].





(* ================================================================= *)
(** ** Schemas that survive a round trip

    The conditions under which the text written by [writeSchemaSync] is
    read back by [extractModelsFromString]: they hold of the tables the
    generator builds from validated definitions. *)

(** Text that stays inside one line of one model block. *)
Definition safeChar (c : ascii) : bool :=
  negb (Ascii.eqb c "}"%char) && negb (Ascii.eqb c LF).

Definition safeText (s : str) : bool := forallb safeChar s.

Definition tokenChar (c : ascii) : bool :=
  negb (Js.isSpace c) && negb (Ascii.eqb c "}"%char).

(** A non-empty word without white space or closing brace. *)
Definition isToken (s : str) : bool :=
  isNonEmpty s && forallb tokenChar s.

(** A column name does not open a comment or a block attribute. *)
Definition startsColumn (s : str) : bool :=
  match s with
  | c :: _ => negb (Ascii.eqb c "/"%char) && negb (Ascii.eqb c "@"%char)
  | [] => false
  end.

Definition wfColumn (f : PrismaField) : bool :=
  isToken (name f) && startsColumn (name f)
  && isToken (type f)
  && negb (Js.endsWith "?" (type f)) && negb (Js.endsWith "[]" (type f))
  && safeText (fieldTrailer f)
  && match buildZodComment (validation f) with
     | Some c => safeText c
     | None => true
     end.

Definition wfTable (m : PrismaModel) : bool :=
  isNonEmpty (pm_name m) && forallb Js.isWord (pm_name m)
  && forallb wfColumn (pm_fields m)
  && forallb safeText (blockAttributes m).

(** The datasource and generator blocks, as written. *)
Definition preamble (schema : PrismaSchema) : str :=
  Js.join [LF; LF]
    (writeDatasource (datasource schema)
     :: map writeGenerator (generators schema)).

Definition wfSchema (schema : PrismaSchema) : bool :=
  negb (strIncludes "model" (preamble schema))
  && forallb wfTable (models schema).

(** What the round trip preserves of a column and of a table: the
    optional flag read back is the flag of the rendered type, which a
    list column does not have. *)
Definition sameColumn (written parsed : PrismaField) : Prop :=
  name parsed = name written
  /\ type parsed = type written
  /\ list_ parsed = list_ written
  /\ optional parsed = optional written && negb (list_ written).

Definition sameTable (written parsed : PrismaModel) : Prop :=
  pm_name parsed = pm_name written
  /\ Forall2 sameColumn (pm_fields written) (pm_fields parsed).

(** The lines between the braces of a model block, and the text they
    make. *)
Definition innerLines (m : PrismaModel) : list str :=
  flat_map (fieldLines (maxWidth (fun f => length (name f)) (pm_fields m) + 2)
                       (maxWidth (fun f => length (formatFieldType f))
                                 (pm_fields m) + 2))
           (pm_fields m)
  ++ blockAttributes m.

Definition bodyOf (m : PrismaModel) : str :=
  LF :: concat (map (fun l => l ++ [LF]) (innerLines m)).

(** A line that leaves the name and the columns read so far as they
    are. *)
Definition keeps (m m' : PrismaModel) : Prop :=
  pm_name m' = pm_name m /\ pm_fields m' = pm_fields m.

(* ================================================================= *)
(** ** Names

    Characters of the names the pipeline derives from slugs. *)

(** [[A-Za-z0-9]] *)
Definition isAlnum (c : ascii) : bool :=
  Js.isUpper c || Js.isLower c || Js.isDigit c.

Definition notUnderscore (c : ascii) : bool := negb (Ascii.eqb c "_"%char).

(** [s] with its letters A to Z lowered; every other character, a
    capital letter outside ASCII too, stays as it is. *)
Definition lowerCapitals (s : str) : str :=
  map (fun c => if Js.isUpper c then Js.lowerChar c else c) s.

(* ================================================================= *)
(** ** Columns of the base table *)

(** The kinds whose column carries the field key as its name. *)
Definition plainKinds : list str :=
  ["text"; "rich"; "number"; "boolean"; "date"; "select"; "json"].

(** Fields that stay on the base table whatever the i18n setting. *)
Definition staysOnBase (f : FieldDefinition) : bool :=
  negb (isComponentType f) && negb (isTranslatableContent f).

(** One field, one column. *)
Definition columnOf (config : SchemaBuilderConfig) (f : FieldDefinition)
    (col : PrismaField) : Prop :=
  mapFieldToPrisma f config = Ok [col].

(** The columns the indexes of the base table name. *)
Definition indexedColumns (model : ModelConfig) : list str :=
  concat (buildIndexes (m_fields model) (m_settings model)).

(** Every field whose key an index names is of a plain kind. *)
Definition indexedFieldsPlain (model : ModelConfig) : bool :=
  forallb (fun f => negb (Js.includes (fd_key f) (indexedColumns model))
                    || Js.includes (fd_type f) plainKinds)
          (m_fields model).

(** The sort field, when set, is the key of a field of the model. *)
Definition sortFieldDeclared (model : ModelConfig) : bool :=
  match m_settings model with
  | Some {| sortField := Some (c :: s) |} => hasKey (c :: s) (m_fields model)
  | _ => true
  end.

(* ================================================================= *)
(** ** The tables and the warnings of a run

    What the loop of [generate] leaves in [prismaModels] and in
    [warnings], written as lists over the models and their fields. *)

(** The model as [buildModel] receives it. *)
Definition withoutDerived (model : ModelConfig) : ModelConfig :=
  {| m_slug := m_slug model; m_name := m_name model;
     m_fields := filter (fun f => negb (fd_derived f)) (m_fields model);
     m_settings := m_settings model |}.

(** The tables a component field asks for: its table and, with i18n,
    the table of its translations. *)
Definition componentRequests (owner : str) (comps : ComponentMap)
    (config : SchemaBuilderConfig) (f : FieldDefinition)
  : list (Origin * PrismaModel) :=
  match isComponentType f, fd_config f with
  | true, Some (ComponentConfig slug repeatable context) =>
      match Map_get comps slug with
      | Some component =>
          (match buildComponentTable owner (fd_key f) component repeatable
                                     config context with
           | Ok t => [(FromComponent, t)]
           | Throw _ => []
           end)
          ++ (if i18nEnabled config then
                match buildComponentTranslationTable owner (fd_key f)
                                                     component config with
                | Ok (Some t) => [(FromComponentTranslation, t)]
                | _ => []
                end
              else [])
      | None => []
      end
  | _, _ => []
  end.

Definition fieldRequests (owner : str) (comps : ComponentMap)
    (config : SchemaBuilderConfig) (f : FieldDefinition)
  : list (Origin * PrismaModel) :=
  componentRequests owner comps config f
  ++ map (pair FromJunction) (junctionRequest owner config f).

Definition modelRequests (comps : ComponentMap)
    (config : SchemaBuilderConfig) (model : ModelConfig)
  : list (Origin * PrismaModel) :=
  (match buildModel (withoutDerived model) config with
   | Ok generated => map (pair FromModel) generated
   | Throw _ => []
   end)
  ++ flat_map (fieldRequests (buildModelName (m_slug model) config)
                             comps config)
              (m_fields model).

(** Emission in request order; of the junction tables only the first of
    a name is emitted.  Returns the emitted tables and the junction
    names seen. *)
Fixpoint emitTables (seen : list str)
    (requests : list (Origin * PrismaModel))
  : list (Origin * PrismaModel) * list str :=
  match requests with
  | [] => ([], seen)
  | (o, t) :: rest =>
      if isJunctionOrigin o then
        if Js.includes (pm_name t) seen then emitTables seen rest
        else let '(out, seen') := emitTables (seen ++ [pm_name t]) rest in
             ((o, t) :: out, seen')
      else let '(out, seen') := emitTables seen rest in
           ((o, t) :: out, seen')
  end.

Definition derivedWarning (modelSlug : str) (f : FieldDefinition) : str :=
  "Skipped derived field " ++ dq ++ fd_key f ++ dq ++ " in model " ++ dq
  ++ modelSlug ++ dq.

Definition missingComponentWarning (comps : ComponentMap) (modelSlug : str)
    (f : FieldDefinition) : list str :=
  match isComponentType f, fd_config f with
  | true, Some (ComponentConfig slug _ _) =>
      match Map_get comps slug with
      | None =>
          ["Component " ++ dq ++ slug ++ dq ++ " not found for field "
           ++ dq ++ fd_key f ++ dq ++ " in model " ++ dq ++ modelSlug ++ dq]
      | Some _ => []
      end
  | _, _ => []
  end.

Definition modelWarnings (comps : ComponentMap) (model : ModelConfig)
  : list str :=
  map (derivedWarning (m_slug model)) (filter fd_derived (m_fields model))
  ++ flat_map (missingComponentWarning comps (m_slug model)) (m_fields model).

(** [st'] is [st] after the requests were emitted and the warnings
    pushed. *)
Definition advances (st : GenState) (requests : list (Origin * PrismaModel))
    (ws : list str) (st' : GenState) : Prop :=
  prismaModels st'
  = prismaModels st ++ fst (emitTables (junctionTables st) requests)
  /\ junctionTables st' = snd (emitTables (junctionTables st) requests)
  /\ warnings st' = warnings st ++ ws.

(** The fields a run translates: the model fields that are neither
    derived nor components, and the fields of the components. *)
Definition translates (f : FieldDefinition) : bool :=
  fieldValid f && relationConfigured f && componentConfigured f.

Definition modelTranslates (model : ModelConfig) : bool :=
  forallb (fun f => fd_derived f || isComponentType f || translates f)
          (m_fields model).

Definition componentTranslates (entry : str * ComponentEntity) : bool :=
  forallb translates (c_fields (snd entry)).

(* ================================================================= *)
(** ** src/core/generator.ts: external models *)

(** [config.externalModels]: a path, paths, or paths with the names to
    include and to exclude. *)
Inductive ExternalModels : Set :=
| ExternalPath (path : str)
| ExternalPaths (paths : list str)
| ExternalDetailed (path : str + list str)
                   (include exclude : option (list str)).

(** JavaScript truthiness of [config.externalModels]. *)
Definition externalConfigured (externalModels : option ExternalModels)
  : bool :=
  match externalModels with
  | None => false
  | Some (ExternalPath []) => false
  | Some _ => true
  end.

Definition resolveExternalPaths (externalModels : option ExternalModels)
  : list str :=
  if externalConfigured externalModels then
    match externalModels with
    | Some (ExternalPath p) => [p]
    | Some (ExternalPaths ps) => ps
    | Some (ExternalDetailed (inl p) _ _) => [p]
    | Some (ExternalDetailed (inr ps) _ _) => ps
    | None => []
    end
  else [].

Definition filterExternalModels (externalModels : option ExternalModels)
    (models : list PrismaModel) : list PrismaModel :=
  match externalModels with
  | Some (ExternalDetailed _ include exclude) =>
      let models :=
        match include with
        | Some includeSet =>
            filter (fun m => Js.includes (pm_name m) includeSet) models
        | None => models
        end in
      match exclude with
      | Some excludeSet =>
          filter (fun m => negb (Js.includes (pm_name m) excludeSet)) models
      | None => models
      end
  | _ => models
  end.

Section ExternalFiles.

(** [readFileSync(filePath, 'utf-8')]: the text of the file, or the
    error it throws. *)
Variable readFileSync : str -> result str.

Definition extractModelsFromPrismaFile (filePath : str)
  : result (list PrismaModel) :=
  schema <- readFileSync filePath ;;
  Ok (extractModelsFromString schema).

(** The body of [for (const filePath of paths)] with its [catch], on the
    models collected and the warnings of the generator. *)
Definition loadPath (externalModels : option ExternalModels)
    (acc : list PrismaModel * list str) (filePath : str)
  : list PrismaModel * list str :=
  match extractModelsFromPrismaFile filePath with
  | Ok extractedModels =>
      (fst acc ++ filterExternalModels externalModels extractedModels,
       snd acc)
  | Throw m =>
      (fst acc,
       snd acc ++ ["Failed to load external models from " ++ dq ++ filePath
                   ++ dq ++ ": " ++ m])
  end.

Definition loadExternalModels (externalModels : option ExternalModels)
    (warnings : list str) : list PrismaModel * list str :=
  if externalConfigured externalModels then
    fold_left (loadPath externalModels)
              (resolveExternalPaths externalModels) ([], warnings)
  else ([], warnings).

End ExternalFiles.

(* ================================================================= *)
(** ** src/core/schema-writer.ts: the unaligned field line *)

Definition writeField (f : PrismaField) : str :=
  (name f ++ " " ++ formatFieldType f)
  ++ (match attributes f with
      | Some (a :: l) => " " ++ Js.join " " (a :: l)
      | _ => []
      end)
  ++ (match relation f with
      | Some r => " " ++ formatRelation r
      | None => []
      end)
  ++ (match map_ f with
      | Some (c :: m) => " @map(" ++ quoted (c :: m) ++ ")"
      | _ => []
      end).

(** The words of a line: what white space separates. *)
Definition words (s : str) : list str :=
  filter isNonEmpty (splitWs false s).

(* ================================================================= *)
(** ** Block attributes that survive a round trip *)

(** A column name as an index or a unique constraint lists it. *)
Definition isColumnName (s : str) : bool :=
  isNonEmpty s && forallb Js.isWord s.

Definition wfRow (row : list str) : bool :=
  isNonEmpty (Js.join ", " row) && forallb isColumnName row.

Definition wfBlock (m : PrismaModel) : bool :=
  forallb wfRow (nonEmptyRows (pm_indexes m))
  && forallb wfRow (nonEmptyRows (pm_unique m))
  && match pm_map m with
     | Some n => forallb Js.isWord n
     | None => true
     end.

(** The index, unique and map sections of a table. *)
Definition blockOf (m : PrismaModel)
  : option (list (list str)) * option (list (list str)) * option str :=
  (pm_indexes m, pm_unique m, pm_map m).

(** What the round trip preserves of the block attributes: an absent
    section and an empty one are read back alike. *)
Definition sameBlock (written parsed : PrismaModel) : Prop :=
  nonEmptyRows (pm_indexes parsed) = nonEmptyRows (pm_indexes written)
  /\ nonEmptyRows (pm_unique parsed) = nonEmptyRows (pm_unique written)
  /\ pm_map parsed = (if truthy (pm_map written) then pm_map written
                      else None).

(* ================================================================= *)
(** ** src/field-config-schema.ts: the key helpers *)

(** The [context] argument of the helpers. *)
Inductive KeyContext : Set := ModelKey | ComponentKey.

Definition FIELD_KEY : str :=
  "Field key must be lowercase alphanumeric with underscores".

Definition isReservedFieldKey (key : str) (context : KeyContext) : bool :=
  let systemReserved := Js.includes key Zod.RESERVED_SYSTEM in
  let abReserved :=
    match context with
    | ComponentKey => Js.includes key Zod.RESERVED_COMPONENT_AB_TESTING
    | ModelKey => false
    end in
  systemReserved || abReserved.

Record KeyVerdict : Set := {
  valid : bool;
  error : option str
}.

Definition validateFieldKey (key : str) (context : KeyContext)
  : KeyVerdict :=
  if negb (Zod.SLUG key) then
    {| valid := false; error := Some FIELD_KEY |}
  else if isReservedFieldKey key context then
    {| valid := false;
       error := Some (match context with
                      | ComponentKey => Zod.RESERVED_AB_FIELD
                      | ModelKey => Zod.RESERVED_FIELD_KEY
                      end) |}
  else {| valid := true; error := None |}.

(** The schema an object schema declares for a property. *)
Definition propertySchema (key : str) (s : Zod.schema)
  : option Zod.schema :=
  match s with
  | Zod.ZObject shape =>
      option_map snd (find (fun p => Js.eqb key (fst p)) shape)
  | _ => None
  end.

(* ================================================================= *)
(** ** Accepted definitions *)

(** What [FieldDefinitionSchema] guarantees of a field it accepts. *)
Definition acceptedField (item : Zod.json) : Prop :=
  exists props key label kind,
    item = Zod.JObj props
    /\ Zod.lookup "key" props = Zod.JStr key
    /\ Zod.SLUG key = true
    /\ Js.includes key Zod.RESERVED_SYSTEM = false
    /\ Zod.lookup "label" props = Zod.JStr label /\ label <> []
    /\ Zod.lookup "type" props = Zod.JStr kind
    /\ Js.includes kind recognizedKinds = true.

(** A row whose definition is accepted. *)
Definition rowValid (row : EAVDatabaseRow) : bool :=
  match row_definition row with
  | Ok raw => Zod.accepts Zod.ModelConfigSchema raw
  | Throw _ => false
  end.

(** The characters of the decimal notation of an integer. *)
Definition isNumberChar (c : ascii) : bool :=
  Js.isDigit c || Ascii.eqb c "-"%char.

(** [Number.isSafeInteger(z)] *)
Definition isSafeInteger (z : Z) : bool :=
  (- Zod.MAX_SAFE_INTEGER <=? z)%Z && (z <=? Zod.MAX_SAFE_INTEGER)%Z.

(** The numbers of a validation. *)
Definition numbersOf (v : FieldValidation) : list Z :=
  flat_map (fun o => match o with Some z => [z] | None => [] end)
    [v_minLength v; v_maxLength v; v_min v; v_max v; v_minItems v;
     v_maxItems v].

(* ================================================================= *)
(** ** Tables that differ in the defaults of their columns *)

Definition withDefaults (d : PrismaField -> option DefaultValue)
    (m : PrismaModel) : PrismaModel :=
  {| pm_name := pm_name m;
     pm_fields := map (fun f => withDefault (d f) f) (pm_fields m);
     pm_indexes := pm_indexes m; pm_unique := pm_unique m;
     pm_map := pm_map m |}.

(* ================================================================= *)
(** ** Definitions whose tables survive a round trip

    What the tables of a run need of the definitions and of the naming
    options to satisfy [wfTable]. *)

(** The free texts of a validation stay inside a line of a block. *)
Definition validationSafe (v : option FieldValidation) : bool :=
  match v with
  | Some v =>
      match v_pattern v with Some p => safeText p | None => true end
      && match v_custom v with Some p => safeText p | None => true end
  | None => true
  end.

(** The names a field brings into the schema: its key, the model its
    relation targets, the component it embeds.  A component field names
    a table by its key, which under snake_case is used as it is. *)
Definition fieldNamesSafe (config : SchemaBuilderConfig)
    (f : FieldDefinition) : bool :=
  Zod.SLUG (fd_key f)
  && validationSafe (fd_validation f)
  && match fd_config f with
     | Some (RelationConfig _ targetModel _) => Zod.SLUG targetModel
     | Some (ComponentConfig slug _ _) => Zod.SLUG slug
     | _ => true
     end
  && match isComponentType f, convention config with
     | true, snake_case => forallb Js.isWord (fd_key f)
     | _, _ => true
     end.

Definition namingSafe (config : SchemaBuilderConfig) : bool :=
  match prefix config with
  | Some p => forallb Js.isWord p
  | None => true
  end
  && safeText (replaceFirst "${identifier}" "" (i18nTableNaming config)).

Definition modelNamesSafe (config : SchemaBuilderConfig)
    (model : ModelConfig) : bool :=
  Zod.SLUG (m_slug model)
  && forallb (fieldNamesSafe config) (m_fields model)
  && match m_settings model with
     | Some {| sortField := Some s |} => safeText s
     | _ => true
     end.

Definition componentNamesSafe (config : SchemaBuilderConfig)
    (entry : str * ComponentEntity) : bool :=
  forallb (fieldNamesSafe config) (c_fields (snd entry)).

(** A table name: word characters, one of them a capital letter. *)
Definition isTableName (s : str) : bool :=
  forallb Js.isWord s && existsb Js.isUpper s.

(* ================================================================= *)
(** ** Further sample definitions *)

Module Cases.

(** A page with one embedded, non-repeatable component. *)
Definition seoField : FieldDefinition :=
  Samples.mkField "seo" "component"
    (Some (ComponentConfig "seo" false None)) false None.

Definition page : ModelConfig :=
  Samples.mkModel "page" "Page" [seoField].

(** A model with a publication state, sorted by publication date. *)
Definition newsItem : ModelConfig :=
  {| m_slug := "news-item"; m_name := "News item";
     m_fields :=
       [Samples.mkField "status" "select" (Some (SelectConfig false)) true
                        (Some false);
        Samples.mkField "published_at" "date" None false (Some false)];
     m_settings := Some {| enableI18n := None;
                           sortField := Some "published_at" |} |}.

(** A schema file with three models. *)
Definition authSchema : str :=
  "model User {" ++ [LF] ++ "  id String @id" ++ [LF] ++ "}" ++ [LF; LF]
  ++ "model Session {" ++ [LF] ++ "  id String @id" ++ [LF] ++ "}"
  ++ [LF; LF]
  ++ "model Token {" ++ [LF] ++ "  id String @id" ++ [LF] ++ "}" ++ [LF].

(** A table with all three sections of block attributes. *)
Definition linkTable : PrismaModel :=
  {| pm_name := "PostTag";
     pm_fields := [buildIdField; field "post_id" "String";
                   field "tag_id" "String"];
     pm_indexes := Some [["post_id"]; ["tag_id"]];
     pm_unique := Some [["post_id"; "tag_id"]];
     pm_map := Some "post_tag" |}.

(** A column with attributes, a relation and a physical name. *)
Definition ownerColumn : PrismaField :=
  {| name := "post"; type := "Post"; optional := true; list_ := false;
     default := None; attributes := Some ["@unique"];
     relation := Some (fkRelation "post_id" "Cascade");
     map_ := Some "owner"; validation := None |}.

(** Naming options whose prefix is two dollar signs. *)
Definition dollars : SchemaBuilderConfig :=
  {| convention := PascalCase; prefix := Some "$$"; i18nEnabled := true;
     i18nTableNaming := "${identifier}_translation";
     externalModelNames := None |}.

(** A hero section with 2^53 variants: an integer outside the safe
    range, and above the maximum of five. *)
Definition rawManyVariants : Zod.json :=
  Zod.JObj
    [("slug", Zod.JStr "landing"); ("name", Zod.JStr "Landing");
     ("fields",
      Zod.JArr
        [Zod.JObj
           [("key", Zod.JStr "hero"); ("label", Zod.JStr "Hero");
            ("type", Zod.JStr "component");
            ("config",
             Zod.JObj
               [("type", Zod.JStr "component"); ("slug", Zod.JStr "hero");
                ("context",
                 Zod.JObj
                   [("abTesting",
                     Zod.JObj
                       [("enabled", Zod.JBool true);
                        ("variantCount",
                         Zod.JNum 9007199254740992 1)])])])]])].

(** A relation whose relation type is none of the four, and a component
    field without config. *)
Definition siblings : FieldDefinition :=
  Samples.mkField "siblings" "relation"
    (Some (RelationConfig "manyToAny" "post" "restrict")) false None.

Definition hero : FieldDefinition :=
  Samples.mkField "hero" "component" None false None.

(** Scenario D: an e-mail address of five to a hundred characters. *)
Definition emailRule : FieldValidation :=
  {| v_email := true; v_url := false; v_uuid := false; v_cuid := false;
     v_minLength := Some 5%Z; v_maxLength := Some 100%Z; v_pattern := None;
     v_min := None; v_max := None; v_int := false; v_positive := false;
     v_negative := false; v_minItems := None; v_maxItems := None;
     v_custom := None |}.

End Cases.

(* ================================================================= *)
(** * Verified properties *)

(** ** Strings *)

Lemma eqb_refl (a : str) : Js.eqb a a = true.
Proof.
  induction a as [|c a IH]; simpl; [reflexivity|].
  now rewrite Ascii.eqb_refl, IH.
Qed.

Lemma eqb_eq (a b : str) : Js.eqb a b = true <-> a = b.
Proof.
  split.
  - revert b; induction a as [|c a IH]; intros [|d b] H; simpl in H;
      try discriminate; [reflexivity|].
    apply andb_true_iff in H as [Hc Hr].
    apply Ascii.eqb_eq in Hc. apply IH in Hr. now subst.
  - intros ->. apply eqb_refl.
Qed.

Lemma eqb_neq (a b : str) : Js.eqb a b = false <-> a <> b.
Proof.
  split.
  - intros H E. apply eqb_eq in E. congruence.
  - intros H. destruct (Js.eqb a b) eqn:E; [|reflexivity].
    apply eqb_eq in E. contradiction.
Qed.

Lemma includes_In (s : str) (xs : list str) :
  Js.includes s xs = true <-> In s xs.
Proof.
  unfold Js.includes. rewrite existsb_exists. split.
  - intros [x [Hin He]]. apply eqb_eq in He. now subst.
  - intros H. exists s. split; [assumption|apply eqb_refl].
Qed.

Lemma app_neq_self (a b : str) : b <> [] -> a ++ b <> a.
Proof.
  intros Hb E. apply (f_equal (@length _)) in E.
  rewrite length_app in E. destruct b; [congruence|simpl in E; lia].
Qed.

(** ** [flatMap] with a throwing callback *)

Lemma flatMapR_Ok_In A B (f : A -> result (list B)) xs ys :
  flatMapR f xs = Ok ys ->
  forall x, In x xs -> exists cols, f x = Ok cols /\ incl cols ys.
Proof.
  revert ys; induction xs as [|a xs IH]; intros ys H x Hin; [contradiction|].
  simpl in H. destruct (f a) as [cols|] eqn:Ha; [|discriminate].
  simpl in H. destruct (flatMapR f xs) as [zs|] eqn:Hxs; [|discriminate].
  simpl in H. injection H as <-.
  destruct Hin as [->|Hin].
  - exists cols. split; [assumption|]. now apply incl_appl.
  - destruct (IH zs eq_refl x Hin) as [c [Hc Hi]].
    exists c. split; [assumption|]. now apply incl_appr.
Qed.

Lemma flatMapR_Ok_elim A B (f : A -> result (list B)) xs ys :
  flatMapR f xs = Ok ys ->
  forall y, In y ys -> exists x cols, In x xs /\ f x = Ok cols /\ In y cols.
Proof.
  revert ys; induction xs as [|a xs IH]; intros ys H y Hin.
  - simpl in H. injection H as <-. contradiction.
  - simpl in H. destruct (f a) as [cols|] eqn:Ha; [|discriminate].
    simpl in H. destruct (flatMapR f xs) as [zs|] eqn:Hxs; [|discriminate].
    simpl in H. injection H as <-.
    apply in_app_or in Hin as [Hin|Hin].
    + exists a, cols. simpl; auto.
    + destruct (IH zs eq_refl y Hin) as [x [c [Hx [Hc Hy]]]].
      exists x, c. simpl; auto.
Qed.

Lemma flatMapR_total A B (f : A -> result (list B)) xs :
  (forall x, In x xs -> isOk (f x) = true) ->
  exists ys, flatMapR f xs = Ok ys.
Proof.
  induction xs as [|a xs IH]; intros H; simpl.
  - now exists [].
  - assert (Ha : isOk (f a) = true) by (apply H; simpl; auto).
    destruct (f a) as [cols|]; [|discriminate]. simpl.
    destruct IH as [zs ->]; [intros x Hx; apply H; simpl; auto|].
    simpl. now eexists.
Qed.

Lemma flatMapR_throws A B (f : A -> result (list B)) xs x :
  In x xs -> isOk (f x) = false -> isOk (flatMapR f xs) = false.
Proof.
  induction xs as [|a xs IH]; intros Hin Hx; [contradiction|].
  simpl. destruct Hin as [->|Hin].
  - destruct (f x); [discriminate|reflexivity].
  - destruct (f a); [|reflexivity]. simpl.
    specialize (IH Hin Hx). destruct (flatMapR f xs); [discriminate|reflexivity].
Qed.

(** ** The field translator *)

Ltac kind_cases f :=
  unfold mapFieldToPrisma;
  repeat match goal with
  | |- context [Js.eqb (fd_type f) ?k] =>
      let E := fresh "E" in
      destruct (Js.eqb (fd_type f) k) eqn:E
  end.

Lemma mapFieldToPrisma_unknown f config :
  Js.includes (fd_type f) recognizedKinds = false ->
  mapFieldToPrisma f config = Throw ("Unknown field type: " ++ fd_type f).
Proof.
  unfold Js.includes, recognizedKinds. simpl. intros H.
  repeat (apply orb_false_iff in H as [?E H]).
  unfold mapFieldToPrisma.
  now rewrite E, E0, E1, E2, E3, E4, E5, E6, E7, E8.
Qed.

Lemma mapRelationField_isOk f config :
  isOk (mapRelationField f config) = true <->
  exists relationType targetModel cascade,
    fd_config f = Some (RelationConfig relationType targetModel cascade)
    /\ Js.includes relationType
         ["oneToOne"; "manyToOne"; "oneToMany"; "manyToMany"] = true.
Proof.
  unfold mapRelationField. split.
  - destruct (fd_config f) as [[]|]; try discriminate.
    intros H. do 3 eexists. split; [reflexivity|]. simpl.
    destruct (Js.eqb relationType "oneToOne"); [reflexivity|].
    destruct (Js.eqb relationType "manyToOne"); [reflexivity|].
    destruct (Js.eqb relationType "oneToMany"); [reflexivity|].
    destruct (Js.eqb relationType "manyToMany"); [reflexivity|].
    discriminate.
  - intros [rt [tm [c [-> H]]]]. simpl in H.
    destruct (Js.eqb rt "oneToOne"); [reflexivity|].
    destruct (Js.eqb rt "manyToOne"); [reflexivity|].
    destruct (Js.eqb rt "oneToMany"); [reflexivity|].
    destruct (Js.eqb rt "manyToMany"); [reflexivity|].
    discriminate.
Qed.

Lemma mapComponentField_isOk f config :
  isOk (mapComponentField f config) = true <->
  exists slug repeatable context,
    fd_config f = Some (ComponentConfig slug repeatable context).
Proof.
  unfold mapComponentField. split.
  - destruct (fd_config f) as [[]|]; try discriminate.
    intros _. now do 3 eexists.
  - intros [s [r [c ->]]]. now destruct r.
Qed.

Lemma mapFieldToPrisma_scalar f config :
  Js.includes (fd_type f) scalarKinds = true ->
  exists col, mapFieldToPrisma f config = Ok [col].
Proof.
  unfold Js.includes, scalarKinds. simpl. intros H.
  kind_cases f; try (eexists; reflexivity); try (simpl in H; discriminate).
  unfold mapMediaField.
  destruct (mediaIsMultiple f && hasMediaModel config);
    [|destruct (hasMediaModel config)]; eexists; reflexivity.
Qed.

(** Whatever its kind, a field that translates gives one column. *)
Lemma mapFieldToPrisma_one_column f config cols :
  mapFieldToPrisma f config = Ok cols -> exists col, cols = [col].
Proof.
  unfold mapFieldToPrisma, mapMediaField, mapRelationField, mapComponentField.
  intros H.
  repeat match type of H with
  | context [if ?b then _ else _] => destruct b
  | context [match fd_config f with _ => _ end] => destruct (fd_config f)
  | context [match ?c with TextConfig => _ | _ => _ end] => destruct c
  end;
  try discriminate; injection H as <-; now eexists.
Qed.

Lemma mapFieldToPrisma_relation f config :
  fd_type f = "relation" ->
  mapFieldToPrisma f config = mapRelationField f config.
Proof. intros E. unfold mapFieldToPrisma. now rewrite E. Qed.

Lemma mapFieldToPrisma_component f config :
  fd_type f = "component" ->
  mapFieldToPrisma f config = mapComponentField f config.
Proof. intros E. unfold mapFieldToPrisma. now rewrite E. Qed.

Lemma mapRelationField_invalid f config :
  (forall relationType targetModel cascade,
     fd_config f <> Some (RelationConfig relationType targetModel cascade)) ->
  mapRelationField f config = Throw "Invalid relation field".
Proof.
  unfold mapRelationField. intros H.
  destruct (fd_config f) as [[]|]; try reflexivity.
  now destruct (H relationType targetModel cascade).
Qed.

Lemma mapRelationField_unknown f config relationType targetModel cascade :
  fd_config f = Some (RelationConfig relationType targetModel cascade) ->
  Js.includes relationType
    ["oneToOne"; "manyToOne"; "oneToMany"; "manyToMany"] = false ->
  mapRelationField f config
  = Throw ("Unknown relation type: " ++ relationType).
Proof.
  unfold mapRelationField. intros -> H. simpl in H.
  repeat (apply orb_false_iff in H as [?E H]).
  now rewrite E, E0, E1, E2.
Qed.

Lemma mapComponentField_invalid f config :
  (forall slug repeatable context,
     fd_config f <> Some (ComponentConfig slug repeatable context)) ->
  mapComponentField f config = Throw "Invalid component field".
Proof.
  unfold mapComponentField. intros H.
  destruct (fd_config f) as [[]|]; try reflexivity.
  now destruct (H slug repeatable context).
Qed.

(** C5 (as amended).  An unrecognized [type] makes [mapFieldToPrisma]
    throw an error naming the type, so no column is returned; the eight
    scalar and media kinds return exactly one column; a [relation] field
    returns only when its config is a relation config with one of the
    four relation types: without a relation config it throws
    [Invalid relation field], and with a relation config of another
    relation type it throws [Unknown relation type: ] followed by that
    type; a [component] field returns only when its config is a
    component config, and throws [Invalid component field] otherwise. *)
Theorem mapFieldToPrisma_kinds (f : FieldDefinition)
    (config : SchemaBuilderConfig) :
  (Js.includes (fd_type f) recognizedKinds = false ->
   mapFieldToPrisma f config = Throw ("Unknown field type: " ++ fd_type f))
  /\ (Js.includes (fd_type f) scalarKinds = true ->
      exists col, mapFieldToPrisma f config = Ok [col])
  /\ (fd_type f = "relation" ->
      (isOk (mapFieldToPrisma f config) = true <->
       exists relationType targetModel cascade,
         fd_config f = Some (RelationConfig relationType targetModel cascade)
         /\ Js.includes relationType
              ["oneToOne"; "manyToOne"; "oneToMany"; "manyToMany"] = true)
      /\ ((forall relationType targetModel cascade,
             fd_config f
             <> Some (RelationConfig relationType targetModel cascade)) ->
          mapFieldToPrisma f config = Throw "Invalid relation field")
      /\ (forall relationType targetModel cascade,
            fd_config f
            = Some (RelationConfig relationType targetModel cascade) ->
            Js.includes relationType
              ["oneToOne"; "manyToOne"; "oneToMany"; "manyToMany"] = false ->
            mapFieldToPrisma f config
            = Throw ("Unknown relation type: " ++ relationType)))
  /\ (fd_type f = "component" ->
      (isOk (mapFieldToPrisma f config) = true <->
       exists slug repeatable context,
         fd_config f = Some (ComponentConfig slug repeatable context))
      /\ ((forall slug repeatable context,
             fd_config f
             <> Some (ComponentConfig slug repeatable context)) ->
          mapFieldToPrisma f config = Throw "Invalid component field")).
Proof.
  split; [apply mapFieldToPrisma_unknown|].
  split; [apply mapFieldToPrisma_scalar|].
  split; intros H.
  - rewrite (mapFieldToPrisma_relation f config H).
    split; [apply mapRelationField_isOk|].
    split; [apply mapRelationField_invalid|].
    intros rt tm c. apply mapRelationField_unknown.
  - rewrite (mapFieldToPrisma_component f config H).
    split; [apply mapComponentField_isOk | apply mapComponentField_invalid].
Qed.

(** The original second half of C5 fails: [relation] is a recognized
    kind, yet a relation field without config makes the translator
    throw. *)
Lemma mapFieldToPrisma_recognized_kind_throws :
  Js.includes (fd_type Samples.author) recognizedKinds = true
  /\ mapFieldToPrisma Samples.author Samples.plain
     = Throw "Invalid relation field".
Proof. split; reflexivity. Qed.

Lemma mapFieldToPrisma_kinds_witness :
  mapFieldToPrisma Samples.unknownKind Samples.plain
  = Throw "Unknown field type: money"
  /\ (exists col, mapFieldToPrisma Samples.title Samples.plain = Ok [col])
  /\ mapFieldToPrisma Cases.siblings Samples.plain
     = Throw "Unknown relation type: manyToAny"
  /\ mapFieldToPrisma Cases.hero Samples.plain
     = Throw "Invalid component field".
Proof.
  split; [|split; [|split]].
  - exact (proj1 (mapFieldToPrisma_kinds Samples.unknownKind Samples.plain)
             eq_refl).
  - exact (proj1 (proj2 (mapFieldToPrisma_kinds Samples.title Samples.plain))
             eq_refl).
  - destruct (mapFieldToPrisma_kinds Cases.siblings Samples.plain)
      as (_ & _ & Hrel & _).
    destruct (Hrel eq_refl) as (_ & _ & Hunknown).
    exact (Hunknown "manyToAny" "post" "restrict" eq_refl eq_refl).
  - destruct (mapFieldToPrisma_kinds Cases.hero Samples.plain)
      as (_ & _ & _ & Hcomp).
    destruct (Hcomp eq_refl) as (_ & Hinvalid).
    apply Hinvalid. intros slug repeatable context. discriminate.
Defined.

(** ** The model compiler *)

Lemma separateFields_translatable fields :
  translatable (separateFields fields) = filter isTranslatableContent fields.
Proof.
  induction fields as [|f fields IH]; [reflexivity|].
  simpl. unfold isTranslatableContent at 1.
  destruct (isComponentType f); simpl; [assumption|].
  destruct (isRelationType f); simpl; [assumption|].
  destruct (translatableFlag f); simpl; now rewrite IH.
Qed.

Lemma separateFields_nonTranslatable fields :
  nonTranslatable (separateFields fields)
  = filter (fun f => negb (isComponentType f) && negb (isTranslatableContent f))
           fields.
Proof.
  induction fields as [|f fields IH]; [reflexivity|].
  simpl. unfold isTranslatableContent at 1.
  destruct (isComponentType f); simpl; [assumption|].
  destruct (isRelationType f); simpl; [now rewrite IH|].
  destruct (translatableFlag f); simpl; now rewrite IH.
Qed.

Lemma separateFields_components fields :
  components (separateFields fields) = filter isComponentType fields.
Proof.
  induction fields as [|f fields IH]; [reflexivity|].
  simpl. destruct (isComponentType f); simpl; [now rewrite IH|].
  destruct (isRelationType f); simpl; [assumption|].
  destruct (translatableFlag f); simpl; assumption.
Qed.

Lemma filter_nonempty A (p : A -> bool) l :
  (0 <? length (filter p l)) = existsb p l.
Proof.
  induction l as [|a l IH]; [reflexivity|].
  simpl. destruct (p a); [reflexivity|assumption].
Qed.

Lemma hasTranslation_spec config fields :
  hasTranslation config (separateFields fields)
  = i18nEnabled config && existsb isTranslatableContent fields.
Proof.
  unfold hasTranslation.
  now rewrite separateFields_translatable, filter_nonempty.
Qed.

(** A validated non-component field translates without error as soon as
    its relation config, if it needs one, is there. *)
Lemma fieldValid_translates f config :
  fieldValid f = true -> isComponentType f = false ->
  relationConfigured f = true ->
  isOk (mapFieldToPrisma f config) = true.
Proof.
  unfold fieldValid, isComponentType, relationConfigured, isRelationType.
  intros Hv Hc Hr.
  repeat (apply andb_true_iff in Hv as [Hv ?H]).
  destruct (Js.eqb (fd_type f) "relation") eqn:Erel.
  - apply eqb_eq in Erel.
    rewrite (mapFieldToPrisma_relation f config Erel).
    apply mapRelationField_isOk.
    destruct (fd_config f) as [[]|]; try discriminate.
    do 3 eexists. split; [reflexivity|].
    simpl in H. apply andb_true_iff in H as [H _].
    unfold Js.includes in *. simpl in *.
    destruct (Js.eqb relationType "oneToOne"); [reflexivity|].
    destruct (Js.eqb relationType "oneToMany"); [now rewrite orb_true_r|].
    destruct (Js.eqb relationType "manyToOne"); [reflexivity|].
    simpl in *. exact H.
  - destruct (mapFieldToPrisma_scalar f config) as [col ->]; [|reflexivity].
    unfold Js.includes, recognizedKinds, scalarKinds in *. simpl in *.
    rewrite Erel, Hc in H0.
    repeat match goal with
    | |- context [Js.eqb (fd_type f) ?k] => destruct (Js.eqb (fd_type f) k)
    end; simpl in *; congruence.
Qed.

Lemma isTranslatableContent_scalar f :
  isTranslatableContent f = true ->
  isComponentType f = false /\ relationConfigured f = true.
Proof.
  unfold isTranslatableContent, relationConfigured. intros H.
  apply andb_true_iff in H as [H _]. apply andb_true_iff in H as [Hc Hr].
  apply negb_true_iff in Hc, Hr. now rewrite Hr.
Qed.

Lemma buildModel_throws model config f :
  In f (m_fields model) -> isComponentType f = false ->
  isOk (mapFieldToPrisma f config) = false ->
  isTranslatableContent f = false ->
  isOk (buildModel model config) = false.
Proof.
  intros Hin Hc Hf Ht. unfold buildModel.
  match goal with
  | |- context [flatMapR ?g ?xs] =>
      assert (E : isOk (flatMapR g xs) = false)
  end.
  { apply flatMapR_throws with (x := f); [|assumption].
    assert (Hn : In f (nonTranslatable (separateFields (m_fields model)))).
    { rewrite separateFields_nonTranslatable. apply filter_In.
      split; [assumption|]. now rewrite Hc, Ht. }
    destruct (i18nEnabled config); [assumption|].
    apply in_or_app. now left. }
  match goal with
  | |- context [flatMapR ?g ?xs] => destruct (flatMapR g xs)
  end; [discriminate|reflexivity].
Qed.

Lemma translation_name_differs (n : str) : n <> n ++ "Translation".
Proof. intros E. symmetry in E. revert E. now apply app_neq_self. Qed.

(** C1 (as amended).  For a validated model whose relation fields carry
    their relation config, [buildModel] returns; the result holds a
    second table, named [<Model>Translation], exactly when i18n is
    enabled and some field is translatable content; otherwise it is the
    base table alone; and with i18n disabled the columns of every
    non-component field are columns of the base table. *)
Theorem buildModel_translation_table (model : ModelConfig)
    (config : SchemaBuilderConfig) :
  modelValid model = true ->
  forallb relationConfigured (m_fields model) = true ->
  exists tables,
    buildModel model config = Ok tables
    /\ ((exists base tr,
           tables = [base; tr]
           /\ pm_name base = buildModelName (m_slug model) config
           /\ pm_name tr = buildModelName (m_slug model) config ++ "Translation")
        <-> i18nEnabled config
            && existsb isTranslatableContent (m_fields model) = true)
    /\ (i18nEnabled config
        && existsb isTranslatableContent (m_fields model) = false ->
        exists base,
          tables = [base]
          /\ pm_name base = buildModelName (m_slug model) config)
    /\ (i18nEnabled config = false ->
        exists base,
          tables = [base]
          /\ forall f, In f (m_fields model) -> isComponentType f = false ->
             exists col,
               mapFieldToPrisma f config = Ok [col]
               /\ In col (pm_fields base)).
Proof.
  intros Hvalid Hrel.
  assert (Hfields : forall f, In f (m_fields model) ->
            fieldValid f = true /\ relationConfigured f = true).
  { intros f Hin. unfold modelValid in Hvalid.
    repeat (apply andb_true_iff in Hvalid as [Hvalid ?H]).
    rewrite forallb_forall in H0, Hrel. auto. }
  set (s := separateFields (m_fields model)).
  assert (Hnon : forall f, In f (nonTranslatable s) ->
            isOk (mapFieldToPrisma f config) = true).
  { intros f Hin. unfold s in Hin.
    rewrite separateFields_nonTranslatable in Hin.
    apply filter_In in Hin as [Hin Hp].
    apply andb_true_iff in Hp as [Hc _]. apply negb_true_iff in Hc.
    destruct (Hfields f Hin). now apply fieldValid_translates. }
  assert (Htr : forall f, In f (translatable s) ->
            isOk (mapFieldToPrisma f config) = true).
  { intros f Hin. unfold s in Hin.
    rewrite separateFields_translatable in Hin.
    apply filter_In in Hin as [Hin Hp].
    destruct (isTranslatableContent_scalar f Hp).
    destruct (Hfields f Hin). now apply fieldValid_translates. }
  assert (Hall : forall f,
            In f (if i18nEnabled config then nonTranslatable s
                  else nonTranslatable s ++ translatable s) ->
            isOk (mapFieldToPrisma f config) = true).
  { intros f Hin. destruct (i18nEnabled config); [auto|].
    apply in_app_or in Hin as [?|?]; auto. }
  destruct (flatMapR_total (fun f => mapFieldToPrisma f config) _ Hall)
    as [mapped Hmapped].
  destruct (flatMapR_total (fun f => mapFieldToPrisma f config) _ Htr)
    as [trCols HtrCols].
  pose proof (hasTranslation_spec config (m_fields model)) as Hh. fold s in Hh.
  unfold buildModel. fold s. rewrite Hmapped. simpl bind. rewrite Hh.
  destruct (i18nEnabled config && existsb isTranslatableContent (m_fields model))
    eqn:Hcond.
  - unfold buildTranslationModel. fold s. rewrite HtrCols. simpl bind.
    eexists. split; [reflexivity|]. split; [|split].
    + split; [reflexivity|]. intros _. do 2 eexists. repeat split.
    + discriminate.
    + intros Hoff. rewrite Hoff in Hcond. discriminate.
  - eexists. split; [reflexivity|]. split; [|split].
    + split; [|discriminate]. intros [base [tr [E _]]]. discriminate.
    + intros _. eexists. split; reflexivity.
    + intros Hoff. eexists. split; [reflexivity|].
      intros f Hin Hc. rewrite Hoff in Hmapped.
      assert (Hf : In f (nonTranslatable s ++ translatable s)).
      { unfold s. rewrite separateFields_nonTranslatable,
          separateFields_translatable.
        apply in_or_app.
        destruct (isTranslatableContent f) eqn:Et.
        - right. apply filter_In. auto.
        - left. apply filter_In. split; [assumption|]. now rewrite Hc, Et. }
      destruct (flatMapR_Ok_In _ _ Hmapped f Hf) as [cols [Hcols Hincl]].
      destruct (mapFieldToPrisma_one_column _ _ Hcols) as [col ->].
      exists col. split; [assumption|].
      simpl pm_fields. right.
      apply in_or_app. left. apply Hincl. now left.
Qed.

Lemma buildModel_translation_table_witness :
  exists tables,
    buildModel Samples.article Samples.withI18n = Ok tables
    /\ exists base tr,
         tables = [base; tr] /\ pm_name base = "Article"
         /\ pm_name tr = "ArticleTranslation".
Proof.
  destruct (buildModel_translation_table Samples.article Samples.withI18n
              eq_refl eq_refl) as [tables [H [[_ Hiff] _]]].
  exists tables. split; [exact H|]. exact (Hiff eq_refl).
Defined.

(** The original C1 fails on a validated model: with a relation field
    that has no config, [buildModel] returns no table at all, although
    i18n is enabled and [title] is translatable. *)
Lemma buildModel_validated_model_throws :
  Zod.accepts Zod.ModelConfigSchema Samples.rawArticleWithAuthor = true
  /\ modelValid Samples.articleWithAuthor = true
  /\ i18nEnabled Samples.withI18n
     && existsb isTranslatableContent (m_fields Samples.articleWithAuthor)
     = true
  /\ buildModel Samples.articleWithAuthor Samples.withI18n
     = Throw "Invalid relation field"
  /\ buildModel Samples.articleWithAuthor Samples.plain
     = Throw "Invalid relation field".
Proof. repeat split; reflexivity. Qed.

(** ** The component table builder *)

Lemma separateComponentFields_translatable fields :
  fst (separateComponentFields fields) = filter isTranslatableContent fields.
Proof.
  induction fields as [|f fields IH]; [reflexivity|].
  simpl. destruct (separateComponentFields fields) as [tr non].
  simpl in IH. unfold isTranslatableContent at 1.
  destruct (isComponentType f); simpl; [assumption|].
  destruct (isRelationType f); simpl; [assumption|].
  destruct (translatableFlag f); simpl; now rewrite IH.
Qed.

Lemma separateComponentFields_In fields f :
  In f (fst (separateComponentFields fields))
  \/ In f (snd (separateComponentFields fields)) ->
  In f fields.
Proof.
  induction fields as [|g fields IH]; simpl; [tauto|].
  destruct (separateComponentFields fields) as [tr non]. simpl in IH.
  destruct (isComponentType g || isRelationType g); simpl;
    [|destruct (translatableFlag g); simpl]; intuition.
Qed.

Lemma mapFieldToPrisma_names f config cols :
  mapFieldToPrisma f config = Ok cols ->
  forall col, In col cols ->
    name col = fd_key f \/ name col = fd_key f ++ "_id".
Proof.
  unfold mapFieldToPrisma, mapMediaField, mapRelationField, mapComponentField.
  intros H col Hin.
  repeat match type of H with
  | context [if ?b then _ else _] => destruct b
  | context [match fd_config f with _ => _ end] => destruct (fd_config f)
  | context [match ?c with TextConfig => _ | _ => _ end] => destruct c
  end;
  try discriminate; injection H as <-;
  destruct Hin as [<-|[]]; simpl; auto.
  unfold mapSelectField. destruct (fd_config f) as [[| | | |[]| | | | |]|];
    simpl; auto.
Qed.

Lemma id_suffix_not_order (k : str) : k ++ "_id" <> "order".
Proof.
  destruct k as [|a [|b [|c [|d [|e k]]]]]; simpl; try discriminate.
  intros E. injection E as _ _ _ _ _ E. destruct k; discriminate.
Qed.

(** The columns of a component table, read off the builder. *)
Lemma buildComponentTable_columns parentModel fieldKey component repeatable
    config context table :
  buildComponentTable parentModel fieldKey component repeatable config context
  = Ok table ->
  exists mapped tail,
    pm_fields table
    = [ buildIdField;
        withAttributes (if repeatable then [] else ["@unique"])
          (field (Naming.toSnakeCase parentModel ++ "_id") "String") ]
      ++ (if repeatable then [withOptional true (field "order" "Int")] else [])
      ++ (if abTestingEnabled context
          then [ withOptional true (field "variant_id" "String");
                 withDefault (Some (DBool true))
                   (withOptional true (field "enabled" "Boolean")) ]
          else [])
      ++ mapped
      ++ [ withAttributes ["@default(now())"] (field "created_at" "DateTime");
           withAttributes ["@updatedAt"] (field "updated_at" "DateTime");
           withRelation
             (fkRelation (Naming.toSnakeCase parentModel ++ "_id") "Cascade")
             (field (Naming.toSnakeCase parentModel) parentModel) ]
      ++ tail
    /\ (forall col, In col mapped ->
          exists f, In f (c_fields component)
                    /\ (name col = fd_key f \/ name col = fd_key f ++ "_id"))
    /\ (forall col, In col tail -> name col = "translations")
    /\ pm_indexes table
       = (if repeatable
          then Some [[Naming.toSnakeCase parentModel ++ "_id"]] else None).
Proof.
  unfold buildComponentTable.
  pose proof (separateComponentFields_In (c_fields component)) as Hsep.
  destruct (separateComponentFields (c_fields component)) as [tr non].
  simpl in Hsep.
  match goal with
  | |- context [flatMapR ?g ?xs] => destruct (flatMapR g xs) as [mapped|] eqn:E
  end; [|discriminate].
  simpl bind. intros H. injection H as <-. simpl pm_fields. simpl pm_indexes.
  exists mapped. eexists. split; [reflexivity|]. split; [|split].
  - intros col Hin.
    destruct (flatMapR_Ok_elim _ _ E col Hin) as [f [cols [Hf [Hc Hcol]]]].
    exists f. split.
    + apply Hsep. destruct (i18nEnabled config); [now right|].
      apply in_app_or in Hf. tauto.
    + exact (mapFieldToPrisma_names _ _ Hc col Hcol).
  - intros col Hin.
    destruct (i18nEnabled config && (0 <? length tr)); [|contradiction].
    destruct Hin as [<-|[]]. reflexivity.
  - reflexivity.
Qed.

(** C3 (as amended).  In a table built by [buildComponentTable] the
    second column is the parent foreign key; it carries [@unique] when
    the field is not repeatable and an empty attribute list when it is.
    A repeatable table has the nullable [Int] column [order] right after
    it.  A non-repeatable table has no column named [order] unless the
    parent table's snake-cased name is [order] or a field of the
    component is keyed [order]. *)
Theorem buildComponentTable_repeatable (parentModel fieldKey : str)
    (component : ComponentEntity) (repeatable : bool)
    (config : SchemaBuilderConfig) (context : option ComponentContext)
    (table : PrismaModel) :
  buildComponentTable parentModel fieldKey component repeatable config context
  = Ok table ->
  (exists fk,
     nth_error (pm_fields table) 1 = Some fk
     /\ name fk = Naming.toSnakeCase parentModel ++ "_id"
     /\ attributes fk = Some (if repeatable then [] else ["@unique"]))
  /\ (repeatable = true ->
      nth_error (pm_fields table) 2
      = Some (withOptional true (field "order" "Int")))
  /\ (repeatable = false ->
      Naming.toSnakeCase parentModel <> "order" ->
      (forall f, In f (c_fields component) -> fd_key f <> "order") ->
      forall col, In col (pm_fields table) -> name col <> "order").
Proof.
  intros H.
  destruct (buildComponentTable_columns _ _ _ _ _ _ H)
    as [mapped [tail [Hcols [Hmapped [Htail _]]]]].
  rewrite Hcols. split; [|split].
  - eexists. split; [reflexivity|]. split; reflexivity.
  - intros ->. reflexivity.
  - intros -> Hparent Hkeys col Hin.
    simpl in Hin.
    destruct Hin as [<-|[<-|Hin]]; [discriminate|apply id_suffix_not_order|].
    apply in_app_or in Hin as [Hin|Hin].
    { destruct (abTestingEnabled context); [|contradiction].
      destruct Hin as [<-|[<-|[]]]; discriminate. }
    apply in_app_or in Hin as [Hin|Hin].
    { destruct (Hmapped col Hin) as [f [Hf [->| ->]]];
        [now apply Hkeys|apply id_suffix_not_order]. }
    simpl in Hin.
    destruct Hin as [<-|[<-|[<-|Hin]]]; try discriminate; [assumption|].
    rewrite (Htail col Hin). discriminate.
Qed.

Lemma buildComponentTable_repeatable_witness :
  exists table,
    buildComponentTable "Post" "seo" Samples.seo false Samples.plain None
    = Ok table
    /\ (exists fk,
          nth_error (pm_fields table) 1 = Some fk
          /\ name fk = "post_id" /\ attributes fk = Some ["@unique"])
    /\ forall col, In col (pm_fields table) -> name col <> "order".
Proof.
  eexists. split; [reflexivity|].
  destruct (buildComponentTable_repeatable "Post" "seo" Samples.seo false
              Samples.plain None eq_refl) as [Hfk [_ Hno]].
  split; [exact Hfk|].
  apply Hno; [reflexivity|discriminate|].
  intros f [<-|[]]. discriminate.
Defined.

(** The original C3 fails: the non-repeatable component table of a model
    named [Order] has a column [order], the relation back to its
    parent. *)
Lemma buildComponentTable_order_column :
  exists table,
    buildComponentTable "Order" "seo" Samples.seo false Samples.plain None
    = Ok table
    /\ existsb (fun col => Js.eqb (name col) "order") (pm_fields table) = true.
Proof. eexists. split; reflexivity. Qed.

(** C10.  A table built by [buildComponentTable] carries the
    single-column index on the parent foreign key exactly when the field
    is repeatable; otherwise it has no index list. *)
Theorem buildComponentTable_index (parentModel fieldKey : str)
    (component : ComponentEntity) (repeatable : bool)
    (config : SchemaBuilderConfig) (context : option ComponentContext)
    (table : PrismaModel) :
  buildComponentTable parentModel fieldKey component repeatable config context
  = Ok table ->
  (pm_indexes table = Some [[Naming.toSnakeCase parentModel ++ "_id"]]
   <-> repeatable = true)
  /\ (repeatable = false -> pm_indexes table = None).
Proof.
  intros H.
  destruct (buildComponentTable_columns _ _ _ _ _ _ H)
    as [mapped [tail [_ [_ [_ Hix]]]]].
  rewrite Hix. destruct repeatable; split; try split;
    try reflexivity; try discriminate; auto.
Qed.

Lemma buildComponentTable_index_witness :
  exists table,
    buildComponentTable "Post" "blocks" Samples.seo true Samples.plain None
    = Ok table
    /\ pm_indexes table = Some [["post_id"]].
Proof.
  eexists. split; [reflexivity|].
  exact (proj2 (proj1 (buildComponentTable_index "Post" "blocks" Samples.seo
                         true Samples.plain None eq_refl)) eq_refl).
Defined.

(** ** The component translation table *)

Lemma translatable_content_one_column f config cols :
  isTranslatableContent f = true ->
  mapFieldToPrisma f config = Ok cols -> exists col, cols = [col].
Proof.
  unfold isTranslatableContent, isComponentType, isRelationType.
  intros Ht H.
  apply andb_true_iff in Ht as [Ht _]. apply andb_true_iff in Ht as [Hc Hr].
  apply negb_true_iff in Hc, Hr.
  unfold mapFieldToPrisma, mapMediaField in H. rewrite Hc, Hr in H.
  repeat match type of H with
  | context [if ?b then _ else _] => destruct b
  end; try discriminate; injection H as <-; now eexists.
Qed.

Lemma flatMapR_columns (config : SchemaBuilderConfig) fields cols :
  flatMapR (fun f => mapFieldToPrisma f config) fields = Ok cols ->
  Forall2 (columnOf config) fields cols.
Proof.
  revert cols. induction fields as [|f fields IH]; intros cols H.
  - injection H as <-. constructor.
  - simpl in H.
    destruct (mapFieldToPrisma f config) as [c|] eqn:Ef; [|discriminate].
    simpl in H.
    destruct (flatMapR (fun f => mapFieldToPrisma f config) fields)
      as [zs|] eqn:Ez; [|discriminate].
    simpl in H. injection H as <-.
    destruct (mapFieldToPrisma_one_column _ _ Ef) as [col ->].
    constructor; [exact Ef | now apply IH].
Qed.

(** C4.  [buildComponentTranslationTable] returns [null] exactly when no
    field of the component is translatable content.  A table it returns
    is named after the component table, and holds the identifier, the
    foreign key to the component table, [lang], one column per
    translatable field in declaration order (at least one), and the
    relation to the component table; its unique constraint is
    (component foreign key, [lang]), both of them columns of the table.
    For a validated component with translatable content it does return
    a table. *)
Theorem buildComponentTranslationTable_null (parentModel fieldKey : str)
    (component : ComponentEntity) (config : SchemaBuilderConfig) :
  (buildComponentTranslationTable parentModel fieldKey component config
   = Ok None
   <-> existsb isTranslatableContent (c_fields component) = false)
  /\ (forall table,
        buildComponentTranslationTable parentModel fieldKey component config
        = Ok (Some table) ->
        let base := buildComponentTableName parentModel fieldKey config in
        let fk := Naming.toSnakeCase base ++ "_id" in
        exists cols,
          Forall2 (columnOf config)
                  (filter isTranslatableContent (c_fields component)) cols
          /\ cols <> []
          /\ table
             = {| pm_name := base ++ "Translation";
                  pm_fields :=
                    [buildIdField; field fk "String"; field "lang" "String"]
                    ++ cols
                    ++ [withRelation (fkRelation fk "Cascade")
                          (field (Naming.toSnakeCase base) base)];
                  pm_indexes := None;
                  pm_unique := Some [[fk; "lang"]];
                  pm_map := Some (Naming.toSnakeCase
                                    (base ++ "Translation")) |})
  /\ (componentValid component = true ->
      existsb isTranslatableContent (c_fields component) = true ->
      exists table,
        buildComponentTranslationTable parentModel fieldKey component config
        = Ok (Some table)).
Proof.
  unfold buildComponentTranslationTable.
  pose proof (separateComponentFields_translatable (c_fields component)) as Htr.
  destruct (separateComponentFields (c_fields component)) as [tr non].
  simpl in Htr.
  assert (Hlen : (length tr =? 0)
                 = negb (existsb isTranslatableContent (c_fields component))).
  { rewrite <- filter_nonempty, <- Htr. now destruct tr. }
  rewrite Hlen.
  destruct (existsb isTranslatableContent (c_fields component)) eqn:Hex; simpl.
  - split; [|split].
    + split; [|discriminate].
      destruct (flatMapR _ tr); simpl; discriminate.
    + intros table H.
      destruct (flatMapR (fun f => mapFieldToPrisma f config) tr)
        as [mapped|] eqn:E; [|discriminate].
      simpl in H. injection H as <-.
      pose proof (flatMapR_columns _ _ E) as Hcols.
      exists mapped. rewrite <- Htr.
      split; [exact Hcols|]. split; [|reflexivity].
      intros ->. inversion Hcols as [Hnil|]. subst tr.
      rewrite <- Hnil in Hlen. discriminate.
    + intros Hvalid _.
      assert (Hok : forall f, In f tr ->
                isOk (mapFieldToPrisma f config) = true).
      { intros f Hin. rewrite Htr in Hin. apply filter_In in Hin as [Hin Hp].
        destruct (isTranslatableContent_scalar f Hp).
        apply fieldValid_translates; try assumption.
        unfold componentValid in Hvalid.
        repeat (apply andb_true_iff in Hvalid as [Hvalid ?H]).
        rewrite forallb_forall in H2. auto. }
      destruct (flatMapR_total (fun f => mapFieldToPrisma f config) tr Hok)
        as [mapped ->].
      simpl. now eexists.
  - split; [|split].
    + split; reflexivity.
    + discriminate.
    + discriminate.
Qed.

Lemma buildComponentTranslationTable_null_witness :
  exists table,
    buildComponentTranslationTable "Post" "seo" Samples.seo Samples.withI18n
    = Ok (Some table)
    /\ pm_name table = "PostSeoTranslation"
    /\ map (fun f => (name f, type f)) (pm_fields table)
       = [("id", "String"); ("post_seo_id", "String"); ("lang", "String");
          ("meta_title", "String"); ("post_seo", "PostSeo")]
    /\ pm_unique table = Some [["post_seo_id"; "lang"]].
Proof.
  destruct (buildComponentTranslationTable_null "Post" "seo" Samples.seo
              Samples.withI18n) as [_ [Hlayout Htotal]].
  destruct (Htotal eq_refl eq_refl) as [table H].
  exists table. split; [exact H|].
  destruct (Hlayout table H) as (cols & Hcols & _ & ->).
  inversion Hcols as [|f col fs cs Hcol Hrest]; subst.
  inversion Hrest; subst. injection Hcol as <-.
  repeat split.
Defined.

(** ** Junction tables *)

Lemma needsJunctionTable_config f :
  needsJunctionTable f = true ->
  exists targetModel cascade,
    fd_config f = Some (RelationConfig "manyToMany" targetModel cascade)
    /\ fd_type f = "relation".
Proof.
  unfold needsJunctionTable, isRelationType.
  destruct (fd_config f) as [[]|]; try discriminate.
  intros H. apply andb_true_iff in H as [Ht Hr].
  apply eqb_eq in Ht, Hr. subst. now do 2 eexists.
Qed.



Lemma eqb_sym (a b : str) : Js.eqb a b = Js.eqb b a.
Proof.
  destruct (Js.eqb a b) eqn:E.
  - apply eqb_eq in E. subst. symmetry. apply eqb_refl.
  - symmetry. apply eqb_neq. apply eqb_neq in E. congruence.
Qed.





Lemma junctionRequest_component f owner config slug repeatable context :
  fd_config f = Some (ComponentConfig slug repeatable context) ->
  junctionRequest owner config f = [].
Proof.
  intros E. unfold junctionRequest, needsJunctionTable. now rewrite E.
Qed.





Lemma buildModel_ownerName model config generated :
  buildModel model config = Ok generated ->
  ownerName generated = buildModelName (m_slug model) config.
Proof.
  unfold buildModel.
  destruct (flatMapR _ _); [|discriminate]. simpl bind.
  destruct (hasTranslation config (separateFields (m_fields model))).
  - destruct (buildTranslationModel _ _ _); [|discriminate].
    simpl. intros H. injection H as <-. reflexivity.
  - intros H. injection H as <-. reflexivity.
Qed.






(** C2 (the code misses the prefix).  With the prefix [CMS] the models
    [post] and [category] get the tables [CMSPost] and [CMSCategory]:
    [buildModelName] puts the prefix before the PascalCase form of the
    slug.  For the many-to-many field of [post], [buildJunctionTable]
    and [mapRelationField] resolve the target to the PascalCase form
    alone: the junction table is [CMSPostCategory], not the two table
    names joined, and its relation column, like the list column of
    [CMSPost], has the type [Category], which no table of the run is
    named. *)
Theorem junction_name_omits_prefix :
  exists st base junction target,
    compileModels [] Samples.prefixed [Samples.post; Samples.category]
                  initialState = Ok st
    /\ map snd (prismaModels st) = [base; junction; target]
    /\ junctionsOf st = [junction]
    /\ pm_name base = buildModelName (m_slug Samples.post) Samples.prefixed
    /\ pm_name base = "CMSPost"
    /\ pm_name target
       = buildModelName (m_slug Samples.category) Samples.prefixed
    /\ pm_name target = "CMSCategory"
    /\ pm_name junction = "CMSPostCategory"
    /\ pm_name junction <> pm_name base ++ pm_name target
    /\ map (fun f => (name f, type f)) (pm_fields junction)
       = [("id", "String"); ("c_m_s_post_id", "String");
          ("category_id", "String"); ("order", "Int");
          ("created_at", "DateTime"); ("c_m_s_post", "CMSPost");
          ("category", "Category")]
    /\ In ("categories", "Category")
          (map (fun f => (name f, type f)) (pm_fields base))
    /\ Js.includes "Category"
         (map (fun p => pm_name (snd p)) (prismaModels st)) = false.
Proof.
  do 4 eexists. split; [reflexivity|]. cbn [prismaModels map snd].
  split; [reflexivity|].
  repeat split; try reflexivity.
  - discriminate.
  - cbn. auto.
Qed.

(** ** The serializer: field types *)

Lemma endsWith_app (p s : str) : Js.endsWith p (s ++ p) = true.
Proof.
  unfold Js.endsWith. rewrite rev_app_distr.
  induction (rev p) as [|c r IH]; [reflexivity|].
  simpl. now rewrite Ascii.eqb_refl.
Qed.

(** C8.  A list column renders as its type followed by the list suffix
    and does not end with the optional suffix, whatever its [optional]
    flag; the rendered token is the type followed by the optional suffix
    exactly when the column is optional and not a list. *)
Theorem formatFieldType_list_wins (f : PrismaField) :
  (list_ f = true ->
   formatFieldType f = type f ++ "[]"
   /\ Js.endsWith "[]" (formatFieldType f) = true
   /\ Js.endsWith "?" (formatFieldType f) = false)
  /\ (formatFieldType f = type f ++ "?"
      <-> optional f = true /\ list_ f = false).
Proof.
  unfold formatFieldType. split.
  - intros ->. split; [reflexivity|]. split; [apply endsWith_app|].
    unfold Js.endsWith. rewrite rev_app_distr. reflexivity.
  - destruct (list_ f), (optional f); split;
      try (intros [? ?]; discriminate); try (intros _; now split);
      try reflexivity; intros E.
    + apply app_inv_head in E. discriminate.
    + apply app_inv_head in E. discriminate.
    + symmetry in E. apply app_neq_self in E; [contradiction|discriminate].
Qed.

Lemma formatFieldType_list_wins_witness :
  formatFieldType
    (withOptional true (withList true (field "categories" "Category")))
  = "Category[]".
Proof.
  exact (proj1 (proj1 (formatFieldType_list_wins
                         (withOptional true
                            (withList true (field "categories" "Category"))))
                  eq_refl)).
Defined.

(** ** Validation *)

Lemma parse_object e shape props :
  Zod.parseWith e (Zod.ZObject shape) (Zod.JObj props)
  = flat_map (fun p => Zod.prefixIssues (Zod.Key (fst p))
                         (Zod.parseWith e (snd p) (Zod.lookup (fst p) props)))
             shape.
Proof.
  induction shape as [|[k el] shape IH]; [reflexivity|].
  simpl. simpl in IH. now rewrite IH.
Qed.

Lemma parse_checked e inner cks input :
  Zod.parseWith e (Zod.ZChecked inner cks) input
  = Zod.runChecks e cks input (Zod.parseWith e inner input).
Proof. reflexivity. Qed.

Lemma runChecks_extends e cks input : forall sofar,
  exists extra, Zod.runChecks e cks input sofar = sofar ++ extra.
Proof.
  induction cks as [|ck cks IH]; intros sofar; simpl.
  - exists []. now rewrite app_nil_r.
  - destruct (IH (sofar ++ Zod.runCheck ck input
                               (negb e && Zod.aborted sofar))) as [x ->].
    eexists. now rewrite <- app_assoc.
Qed.

Lemma aborted_app a b :
  Zod.aborted (a ++ b) = Zod.aborted a || Zod.aborted b.
Proof. apply existsb_app. Qed.

Lemma aborted_prefix seg l :
  Zod.aborted (Zod.prefixIssues seg l) = Zod.aborted l.
Proof.
  unfold Zod.aborted, Zod.prefixIssues.
  induction l as [|i l IH]; simpl; [reflexivity|now rewrite IH].
Qed.

Lemma object_property_issue e shape props key el i :
  In (key, el) shape ->
  In i (Zod.parseWith e el (Zod.lookup key props)) ->
  In (Zod.prefixIssue (Zod.Key key) i)
     (Zod.parseWith e (Zod.ZObject shape) (Zod.JObj props)).
Proof.
  intros Hs Hi. rewrite parse_object. apply in_flat_map.
  exists (key, el). split; [assumption|]. simpl.
  unfold Zod.prefixIssues. now apply in_map.
Qed.

Lemma checked_inner_issue e inner cks input i :
  In i (Zod.parseWith e inner input) ->
  In i (Zod.parseWith e (Zod.ZChecked inner cks) input).
Proof.
  intros H. simpl.
  destruct (runChecks_extends e cks input (Zod.parseWith e inner input))
    as [x ->].
  apply in_or_app. now left.
Qed.

Lemma array_item_issue (pe : Zod.json -> list Zod.issue) items item i :
  In item items -> In i (pe item) ->
  forall j, exists k,
    In (Zod.prefixIssue (Zod.Index k) i) (Zod.parseItems pe j items).
Proof.
  induction items as [|x items IH]; intros Hin Hi j; [contradiction|].
  simpl. destruct Hin as [->|Hin].
  - exists j. apply in_or_app. left. unfold Zod.prefixIssues. now apply in_map.
  - destruct (IH Hin Hi (S j)) as [k Hk]. exists k. apply in_or_app. now right.
Qed.

Lemma fieldKeys_In key raw :
  Js.includes key (Zod.fieldKeys raw) = true ->
  exists props items fprops,
    raw = Zod.JObj props
    /\ Zod.lookup "fields" props = Zod.JArr items
    /\ In (Zod.JObj fprops) items
    /\ Zod.lookup "key" fprops = Zod.JStr key.
Proof.
  intros H. apply includes_In in H. unfold Zod.fieldKeys in H.
  destruct raw as [| | | | | |props]; try contradiction.
  destruct (Zod.lookup "fields" props) as [| | | | |items|] eqn:Ef;
    try contradiction.
  apply in_flat_map in H as [item [Hitem Hk]].
  unfold Zod.keyOf in Hk.
  destruct item as [| | | | | |fprops]; try contradiction.
  destruct (Zod.lookup "key" fprops) as [| | | |k| |] eqn:Ek;
    try contradiction.
  destruct Hk as [->|[]].
  now exists props, items, fprops.
Qed.

Lemma accepts_false s raw i :
  In i (Zod.parse s raw) -> Zod.accepts s raw = false.
Proof. unfold Zod.accepts. now destruct (Zod.parse s raw). Qed.

Lemma reserved_key_issue key :
  In key Zod.RESERVED_SYSTEM ->
  In {| Zod.path := []; Zod.message := Zod.Custom Zod.RESERVED_FIELD_KEY;
        Zod.continue := true |}
     (Zod.parseWith false
        (Zod.ZChecked Zod.ZString
           [Zod.MinLength 1; Zod.Regex Zod.SLUG_SOURCE Zod.SLUG;
            Zod.Refine Zod.notReserved Zod.RESERVED_FIELD_KEY []])
        (Zod.JStr key)).
Proof.
  intros [<-|[<-|[<-|[]]]]; left; reflexivity.
Qed.

(** The fields entry of both schemas reports the reserved key. *)
Lemma fields_report_reserved_key key items fprops :
  In key Zod.RESERVED_SYSTEM ->
  In (Zod.JObj fprops) items ->
  Zod.lookup "key" fprops = Zod.JStr key ->
  exists k,
    In {| Zod.path := [Zod.Index k; Zod.Key "key"];
          Zod.message := Zod.Custom Zod.RESERVED_FIELD_KEY;
          Zod.continue := true |}
       (Zod.parseWith false
          (Zod.ZChecked (Zod.ZArray Zod.FieldDefinitionSchema)
                        [Zod.MinLength 1])
          (Zod.JArr items)).
Proof.
  intros Hkey Hitem Hk.
  pose proof (@reserved_key_issue key Hkey) as Hi. rewrite <- Hk in Hi.
  eapply (@object_property_issue false
            (match Zod.FieldDefinitionSchema with
                      | Zod.ZObject shape => shape
                      | _ => []
                      end)
            fprops "key" _ _) in Hi; [|left; reflexivity].
  destruct (@array_item_issue (Zod.parseWith false Zod.FieldDefinitionSchema)
              items _ _ Hitem Hi 0) as [k Hin].
  exists k. apply checked_inner_issue. exact Hin.
Qed.

(** C6.  A raw model definition with a field keyed [id], [created_at]
    or [updated_at] is rejected by model validation, with an issue
    recorded at the key of that field, and reading it throws; a raw
    component definition with a field keyed [variant_id] or [enabled] is
    rejected by component validation. *)
Theorem reserved_keys_rejected (raw : Zod.json) (key : str) :
  Js.includes key (Zod.fieldKeys raw) = true ->
  (In key Zod.RESERVED_SYSTEM ->
   (exists k, In (Zod.reservedIssue k) (Zod.parse Zod.ModelConfigSchema raw))
   /\ Zod.accepts Zod.ModelConfigSchema raw = false
   /\ forall locale parsed row,
        row_definition row = Ok raw ->
        isOk (readRow locale parsed row) = false)
  /\ (In key Zod.RESERVED_COMPONENT_AB_TESTING ->
      Zod.accepts Zod.ComponentEntitySchema raw = false).
Proof.
  intros Hkeyed.
  destruct (@fieldKeys_In key raw Hkeyed)
    as [props [items [fprops [-> [Hf [Hitem Hk]]]]]].
  split.
  - intros Hres.
    destruct (@fields_report_reserved_key key items fprops Hres Hitem Hk)
      as [k Hin].
    rewrite <- Hf in Hin.
    eapply (@object_property_issue false
              (match Zod.ModelConfigSchemaBase with
                        | Zod.ZObject shape => shape
                        | _ => []
                        end)
              props "fields" _ _) in Hin; [|right; right; left; reflexivity].
    apply (@checked_inner_issue false Zod.ModelConfigSchemaBase
             [Zod.Refine Zod.uniqueKeys Zod.UNIQUE_FIELD_KEYS []]) in Hin.
    assert (Hrej : Zod.accepts Zod.ModelConfigSchema (Zod.JObj props) = false)
      by exact (@accepts_false _ _ _ Hin).
    split; [exists k; exact Hin|]. split; [exact Hrej|].
    intros locale parsed row Hrow. unfold readRow. rewrite Hrow.
    unfold Zod.accepts, Zod.parse in *.
    now destruct (Zod.parseWith false Zod.ModelConfigSchema (Zod.JObj props)).
  - intros Hab. unfold Zod.accepts, Zod.parse, Zod.ComponentEntitySchema.
    rewrite parse_checked.
    match goal with
    | |- context [Zod.runChecks false _ _ ?issues] =>
        destruct issues as [|i rest]
    end.
    + cbn [Zod.runChecks Zod.runCheck Zod.aborted existsb negb andb app].
      unfold Zod.noReservedABFields.
      assert (Hex : existsb
                      (fun k => Js.includes k Zod.RESERVED_COMPONENT_AB_TESTING)
                      (Zod.fieldKeys (Zod.JObj props)) = true).
      { apply existsb_exists. exists key. split.
        - now apply includes_In.
        - now apply includes_In. }
      now rewrite Hex.
    + cbn [Zod.runChecks app]. reflexivity.
Qed.

Lemma reserved_keys_rejected_witness :
  Zod.accepts Zod.ModelConfigSchema Zod.rawReservedKey = false
  /\ Zod.accepts Zod.ComponentEntitySchema Zod.rawReservedABKey = false.
Proof.
  split.
  - exact (proj1 (proj2 (proj1 (reserved_keys_rejected Zod.rawReservedKey
                                  "created_at" eq_refl)
                           (or_intror (or_introl eq_refl))))).
  - exact (proj2 (reserved_keys_rejected Zod.rawReservedABKey "enabled"
                    eq_refl)
             (or_intror (or_introl eq_refl))).
Defined.

(** *** Every violated rule is reported, as long as no issue stops the
    checks *)

Lemma runChecks_agree cks input : forall sofar,
  Zod.aborted (Zod.runChecks false cks input sofar) = false ->
  Zod.runChecks false cks input sofar = Zod.runChecks true cks input sofar.
Proof.
  induction cks as [|ck cks IH]; intros sofar H; [reflexivity|].
  simpl in *.
  assert (Hs : Zod.aborted sofar = false).
  { destruct (runChecks_extends false cks input
                (sofar ++ Zod.runCheck ck input (Zod.aborted sofar)))
      as [x E].
    rewrite E, !aborted_app in H.
    now destruct (Zod.aborted sofar). }
  rewrite Hs in *. now apply IH.
Qed.

Lemma parseItems_agree (f g : Zod.json -> list Zod.issue) items :
  Forall (fun item => Zod.aborted (f item) = false -> f item = g item) items ->
  forall j,
    Zod.aborted (Zod.parseItems f j items) = false ->
    Zod.parseItems f j items = Zod.parseItems g j items.
Proof.
  induction 1 as [|item items Hitem _ IH]; intros j H; [reflexivity|].
  simpl in *. rewrite aborted_app, aborted_prefix in H.
  apply orb_false_iff in H as [H1 H2].
  now rewrite (Hitem H1), (IH _ H2).
Qed.

(** When the library records no issue that stops the checks, what it
    records is every violated rule. *)
Lemma parse_reports_all (s : Zod.schema) : forall input,
  Zod.aborted (Zod.parseWith false s input) = false ->
  Zod.parseWith false s input = Zod.parseWith true s input.
Proof.
  induction s using Zod.schema_induction; intros input Ha;
    try reflexivity.
  - (* array *)
    destruct input; try reflexivity. simpl in *.
    apply parseItems_agree; [|assumption].
    apply Forall_forall. intros item _. apply IHs.
  - (* object *)
    destruct input as [| | | | | |props]; try reflexivity.
    rewrite !parse_object in *.
    induction H as [|[k el] shape Hel _ IH]; [reflexivity|].
    simpl in *. rewrite aborted_app, aborted_prefix in Ha.
    apply orb_false_iff in Ha as [H1 H2].
    now rewrite (Hel _ H1), (IH H2).
  - (* optional *)
    destruct input; simpl in *; try reflexivity; now apply IHs.
  - (* default *)
    destruct input; simpl in *; try reflexivity; now apply IHs.
  - (* union *)
    simpl in *.
    match goal with
    | |- (if ?a then _ else _) = (if ?b then _ else _) =>
        assert (Ea : a = true) by
          (destruct a; [reflexivity|discriminate]);
        assert (Eb : b = true); [|now rewrite Ea, Eb]
    end.
    clear Ha. induction H as [|o options Ho _ IH]; [discriminate|].
    simpl in *.
    destruct (Zod.parseWith false o input) eqn:Ef.
    + rewrite <- (Ho input) by (now rewrite Ef). now rewrite Ef.
    + destruct (Zod.parseWith true o input); [reflexivity|now apply IH].
  - (* discriminated union *)
    destruct input as [| | | | | |props]; try reflexivity.
    simpl in *.
    induction H as [|[tag o] options Ho _ IH]; [reflexivity|].
    simpl in *.
    destruct (Zod.lookup discriminator props); try (now apply IH).
    destruct (Js.eqb s tag); [now apply Ho|now apply IH].
  - (* checked *)
    simpl in *.
    assert (Hi : Zod.aborted (Zod.parseWith false s input) = false).
    { destruct (runChecks_extends false checks input
                  (Zod.parseWith false s input)) as [x E].
      rewrite E, aborted_app in Ha. now apply orb_false_iff in Ha. }
    rewrite <- (IHs input Hi). now apply runChecks_agree.
Qed.

(** The issues of an object schema sit at its properties, and the one
    it records for a value that is no object is the library's own. *)
Lemma object_issue_not_custom shape input text :
  ~ In {| Zod.path := []; Zod.message := Zod.Custom text;
          Zod.continue := true |}
       (Zod.parseWith false (Zod.ZObject shape) input).
Proof.
  destruct input as [| | | | | |props];
    try (intros [H|[]]; discriminate).
  rewrite parse_object. intros H.
  apply in_flat_map in H as ([k el] & _ & H).
  apply in_map_iff in H as (i & E & _). discriminate.
Qed.

(** Once the properties have recorded an issue that stops the checks,
    the refinement of the whole object is not run. *)
Lemma refinement_skipped inner holds text at_ input :
  Zod.aborted (Zod.parseWith false inner input) = true ->
  Zod.parseWith false (Zod.ZChecked inner [Zod.Refine holds text at_]) input
  = Zod.parseWith false inner input.
Proof.
  intros H. rewrite parse_checked.
  cbn [Zod.runChecks Zod.runCheck negb andb]. rewrite H.
  apply app_nil_r.
Qed.

(** C9 (as amended).  When reading a raw model definition records no
    issue that stops the checks (no missing or wrongly typed property,
    no value outside an enumeration, no fraction where an integer is
    required), the validation failure lists every violated rule, one
    [path: message] line each; the error raised by [readModels] is that
    failure, possibly behind the prefix of the outer handler.  When the
    properties of the definition record an issue that stops the checks,
    the key-uniqueness rule of the whole definition is not evaluated:
    the failure lists the issues of the properties and nothing else. *)
Theorem validation_enumerates_violations (locale : Zod.IssueKind -> str)
    (parsed : Zod.json -> Zod.json) (row : EAVDatabaseRow) (raw : Zod.json) :
  row_definition row = Ok raw ->
  (Zod.aborted (Zod.parse Zod.ModelConfigSchema raw) = false ->
   Zod.violations Zod.ModelConfigSchema raw <> [] ->
   Zod.parse Zod.ModelConfigSchema raw
   = Zod.violations Zod.ModelConfigSchema raw
   /\ readRow locale parsed row
      = Throw ("Validation failed for model " ++ dq ++ row_slug row ++ dq
               ++ " (id: " ++ row_id row ++ "):" ++ [LF]
               ++ Js.join [LF]
                    (map (Zod.renderIssue locale)
                         (Zod.violations Zod.ModelConfigSchema raw)))
   /\ exists failure,
        readRow locale parsed row = Throw failure
        /\ (readModels locale parsed [row] = Throw failure
            \/ readModels locale parsed [row]
               = Throw ("Failed to read models from database: " ++ failure)))
  /\ (Zod.aborted (Zod.parse Zod.ModelConfigSchemaBase raw) = true ->
      Zod.parse Zod.ModelConfigSchema raw
      = Zod.parse Zod.ModelConfigSchemaBase raw
      /\ ~ In Zod.uniqueIssue (Zod.parse Zod.ModelConfigSchema raw)
      /\ readRow locale parsed row
         = Throw ("Validation failed for model " ++ dq ++ row_slug row ++ dq
                  ++ " (id: " ++ row_id row ++ "):" ++ [LF]
                  ++ Js.join [LF]
                       (map (Zod.renderIssue locale)
                            (Zod.parse Zod.ModelConfigSchemaBase raw)))).
Proof.
  intros Hrow. split.
  - intros Ha Hv.
    assert (E : Zod.parse Zod.ModelConfigSchema raw
                = Zod.violations Zod.ModelConfigSchema raw)
      by (apply parse_reports_all; exact Ha).
    assert (Hread : readRow locale parsed row
                    = Throw (validationFailure locale row
                               (Zod.violations Zod.ModelConfigSchema raw))).
    { unfold readRow. rewrite Hrow.
      fold (Zod.parse Zod.ModelConfigSchema raw). rewrite E.
      destruct (Zod.violations Zod.ModelConfigSchema raw);
        [contradiction|reflexivity]. }
    split; [exact E|]. split; [exact Hread|].
    eexists. split; [exact Hread|].
    unfold readModels. simpl readRows. rewrite Hread. simpl bind.
    cbv beta iota.
    match goal with
    | |- context [strIncludes ?a ?b] => destruct (strIncludes a b)
    end; [left|right]; reflexivity.
  - intros Ha.
    assert (E : Zod.parse Zod.ModelConfigSchema raw
                = Zod.parse Zod.ModelConfigSchemaBase raw)
      by (apply refinement_skipped; exact Ha).
    split; [exact E|]. split.
    + rewrite E. apply object_issue_not_custom.
    + unfold readRow. rewrite Hrow. rewrite E.
      destruct (Zod.parse Zod.ModelConfigSchemaBase raw);
        [discriminate|reflexivity].
Qed.

Lemma validation_enumerates_violations_witness :
  Zod.getValidationErrors Zod.sampleLocale
    (Zod.parse Zod.ModelConfigSchema Zod.rawBadKeyTwice)
  = ["fields.0.key: Invalid string: must match pattern /^[a-z][a-z0-9_-]*$/";
     "fields.1.key: Invalid string: must match pattern /^[a-z][a-z0-9_-]*$/";
     ": Field keys must be unique"]
  /\ Zod.getValidationErrors Zod.sampleLocale
       (Zod.parse Zod.ModelConfigSchema Cases.rawManyVariants)
     = ["fields.0.config.context.abTesting.variantCount: "
        ++ "Too big: expected int to be <9007199254740991";
        "fields.0.config.context.abTesting.variantCount: "
        ++ "Too big: expected number to be <=5"]
  /\ Zod.parse Zod.ModelConfigSchema Zod.rawNoNameKeyTwice
     = Zod.parse Zod.ModelConfigSchemaBase Zod.rawNoNameKeyTwice.
Proof.
  split; [|split].
  - rewrite (proj1 (proj1 (@validation_enumerates_violations
                             Zod.sampleLocale (fun raw => raw)
                             (Samples.rowOf Zod.rawBadKeyTwice)
                             Zod.rawBadKeyTwice eq_refl)
                      eq_refl (fun E => match E with eq_refl => I end))).
    reflexivity.
  - rewrite (proj1 (proj1 (@validation_enumerates_violations
                             Zod.sampleLocale (fun raw => raw)
                             (Samples.rowOf Cases.rawManyVariants)
                             Cases.rawManyVariants eq_refl)
                      eq_refl (fun E => match E with eq_refl => I end))).
    reflexivity.
  - exact (proj1 (proj2 (@validation_enumerates_violations
                           Zod.sampleLocale (fun raw => raw)
                           (Samples.rowOf Zod.rawNoNameKeyTwice)
                           Zod.rawNoNameKeyTwice eq_refl)
                    eq_refl)).
Defined.

(** The original C9 fails: with [name] missing and a key declared
    twice, the uniqueness rule is violated but the failure lists the
    missing name only. *)
Lemma uniqueness_violation_not_enumerated :
  Zod.uniqueKeys Zod.rawNoNameKeyTwice = false
  /\ In Zod.uniqueIssue
        (Zod.violations Zod.ModelConfigSchema Zod.rawNoNameKeyTwice)
  /\ Zod.getValidationErrors Zod.sampleLocale
       (Zod.parse Zod.ModelConfigSchema Zod.rawNoNameKeyTwice)
     = ["name: Invalid input: expected string"]
  /\ forall parsed,
       readRow Zod.sampleLocale parsed (Samples.rowOf Zod.rawNoNameKeyTwice)
       = Throw ("Validation failed for model " ++ dq ++ "post" ++ dq
                ++ " (id: 1):" ++ [LF]
                ++ "name: Invalid input: expected string").
Proof.
  split; [reflexivity|]. split; [right; left; reflexivity|].
  split; reflexivity.
Qed.

(** ** Reading defaults back *)

(** The default the parser decodes: a boolean, a numeral, a quoted
    string without its quotes, or the text as it is. *)
Lemma parseFieldLine_default_samples :
  option_map default (parseFieldLine "enabled Boolean? @default(true)")
  = Some (Some (DBool true))
  /\ option_map default (parseFieldLine "views Int @default(0) @unique")
     = Some (Some (DNumeral "0"))
  /\ option_map default
       (parseFieldLine ("kind String @default(" ++ dq ++ "page" ++ dq ++ ")"))
     = Some (Some (DString "page"))
  /\ option_map default (parseFieldLine "id String @id @default(cuid())")
     = Some (Some (DString "cuid()"))
  /\ option_map default (parseFieldLine "title String @unique")
     = Some None.
Proof. repeat split. Qed.

(** ** Round trip: strings *)

Lemma join_cons2 (sep a : str) (b : str) (rest : list str) :
  Js.join sep (a :: b :: rest) = a ++ sep ++ Js.join sep (b :: rest).
Proof. reflexivity. Qed.

Lemma join_lines (ls : list str) (x : str) :
  Js.join [LF] (ls ++ [x]) = concat (map (fun l => l ++ [LF]) ls) ++ x.
Proof.
  induction ls as [|l ls IH]; [reflexivity|].
  assert (H : exists h t, ls ++ [x] = h :: t)
    by (destruct ls; simpl; eauto).
  destruct H as [h [t E]].
  cbn [app map concat]. rewrite E in *.
  now rewrite join_cons2, IH, <- !app_assoc.
Qed.

Lemma span_app (p : ascii -> bool) (a : str) (c : ascii) (s : str) :
  forallb p a = true -> p c = false ->
  span p (a ++ c :: s) = (a, c :: s).
Proof.
  intros Ha Hc. induction a as [|x a IH]; simpl.
  - now rewrite Hc.
  - simpl in Ha. apply andb_true_iff in Ha as [Hx Ha].
    now rewrite Hx, (IH Ha).
Qed.

Lemma trimStart_app (x : str) (c : ascii) (y : str) :
  Js.isSpace c = false ->
  Js.trimStart (x ++ c :: y) = Js.trimStart x ++ c :: y.
Proof.
  intros Hc. induction x as [|a x IH]; simpl.
  - now rewrite Hc.
  - destruct (Js.isSpace a); [assumption|reflexivity].
Qed.

Lemma trimEnd_app (a : str) (c : ascii) (b : str) :
  Js.isSpace c = false ->
  Js.trimEnd (a ++ c :: b) = a ++ c :: Js.trimEnd b.
Proof.
  intros Hc. unfold Js.trimEnd.
  rewrite rev_app_distr. simpl rev. rewrite <- app_assoc. simpl app.
  rewrite trimStart_app by exact Hc. rewrite rev_app_distr. simpl rev.
  now rewrite rev_involutive, <- app_assoc.
Qed.

Lemma trimStart_suffix (s : str) : exists t, s = t ++ Js.trimStart s.
Proof.
  induction s as [|c s [t IH]]; [now exists []|].
  simpl. destruct (Js.isSpace c).
  - exists (c :: t). simpl. now rewrite <- IH.
  - now exists [].
Qed.

Lemma trimEnd_prefix (s : str) : exists t, s = Js.trimEnd s ++ t.
Proof.
  unfold Js.trimEnd. destruct (trimStart_suffix (rev s)) as [t E].
  exists (rev t). rewrite <- rev_app_distr, <- E. now rewrite rev_involutive.
Qed.

(** What remains of text that starts with a space, once trimmed at the
    end, is empty or still starts with that space. *)
Lemma trimEnd_head (c : ascii) (s : str) :
  Js.trimEnd (c :: s) = [] \/ exists z, Js.trimEnd (c :: s) = c :: z.
Proof.
  destruct (trimEnd_prefix (c :: s)) as [t E].
  destruct (Js.trimEnd (c :: s)) as [|d z]; [now left|].
  right. injection E as -> _. now exists z.
Qed.

Lemma forallb_app A (p : A -> bool) (a b : list A) :
  forallb p (a ++ b) = forallb p a && forallb p b.
Proof. induction a; simpl; [reflexivity|]. now rewrite IHa, andb_assoc. Qed.

Lemma safeText_trimEnd (s : str) :
  safeText s = true -> safeText (Js.trimEnd s) = true.
Proof.
  intros H. destruct (trimEnd_prefix s) as [t E].
  rewrite E in H. unfold safeText in *. rewrite forallb_app in H.
  now apply andb_true_iff in H.
Qed.

Lemma tokenChar_safe (c : ascii) : tokenChar c = true -> safeChar c = true.
Proof.
  unfold tokenChar, safeChar. intros H.
  apply andb_true_iff in H as [Hs Hb]. rewrite Hb. simpl.
  destruct (Ascii.eqb c LF) eqn:E; [|reflexivity].
  apply Ascii.eqb_eq in E. subst c. discriminate.
Qed.

Lemma token_safe (s : str) : forallb tokenChar s = true -> safeText s = true.
Proof.
  unfold safeText. induction s as [|c s IH]; [reflexivity|].
  simpl. intros H. apply andb_true_iff in H as [Hc Hs].
  now rewrite (tokenChar_safe c Hc), (IH Hs).
Qed.

Lemma safeText_repeat_space n : safeText (repeat " "%char n) = true.
Proof. induction n; [reflexivity|]. simpl. exact IHn. Qed.

Lemma isWord_not_space (c : ascii) :
  Js.isWord c = true -> Js.isSpace c = false.
Proof.
  destruct c as [[] [] [] [] [] [] [] []]; intros H;
    try reflexivity; discriminate.
Qed.

(** ** Round trip: finding the model blocks *)

Lemma writeModel_block (m : PrismaModel) :
  writeModel m = "model " ++ pm_name m ++ " {" ++ bodyOf m ++ "}".
Proof.
  unfold writeModel, bodyOf, innerLines.
  match goal with
  | |- Js.join _ ([?h] ++ ?fm ++ ?ba ++ [?e]) = _ =>
      replace ([h] ++ fm ++ ba ++ [e]) with ((h :: fm ++ ba) ++ [e])
        by (simpl; now rewrite <- app_assoc)
  end.
  rewrite join_lines. cbn [map concat].
  now rewrite <- !app_assoc.
Qed.

Lemma startsWith_model_before_LF (q rest : str) :
  Js.startsWith "model" (q ++ LF :: rest) = true ->
  Js.startsWith "model" q = true.
Proof.
  destruct q as [|a [|b [|c [|d [|e q]]]]]; simpl;
    repeat rewrite andb_false_r; try discriminate; auto.
Qed.

Lemma matchModelAt_None (s : str) :
  Js.startsWith "model" s = false -> matchModelAt s = None.
Proof. unfold matchModelAt. now intros ->. Qed.

Lemma execAll_LF (s : str) : execAll 0 (LF :: s) = execAll 0 s.
Proof. reflexivity. Qed.

Lemma execAll_skip_preamble (p rest : str) :
  strIncludes "model" p = false ->
  execAll 0 (p ++ LF :: rest) = execAll 0 rest.
Proof.
  induction p as [|c p IH]; intros H; [apply execAll_LF|].
  simpl in H. apply orb_false_iff in H as [Hs Hp].
  change (execAll 0 ((c :: p) ++ LF :: rest))
    with (match matchModelAt ((c :: p) ++ LF :: rest) with
          | Some (modelName, modelBody, len) =>
              (modelName, modelBody)
              :: execAll (len - 1) (p ++ LF :: rest)
          | None => execAll 0 (p ++ LF :: rest)
          end).
  rewrite matchModelAt_None; [now apply IH|].
  destruct (Js.startsWith "model" ((c :: p) ++ LF :: rest)) eqn:E;
    [|reflexivity].
  apply startsWith_model_before_LF in E. simpl in E. congruence.
Qed.

Lemma execAll_skip_matched (a rest : str) :
  execAll (length a) (a ++ rest) = execAll 0 rest.
Proof. induction a as [|c a IH]; [reflexivity|exact IH]. Qed.

Lemma matchModelAt_block (n body rest : str) :
  isNonEmpty n = true -> forallb Js.isWord n = true ->
  isNonEmpty body = true -> forallb (notChar "}"%char) body = true ->
  matchModelAt ("model " ++ n ++ " {" ++ body ++ "}" ++ rest)
  = Some (n, body, length ("model " ++ n ++ " {" ++ body ++ "}")).
Proof.
  intros Hn Hw Hb Hs.
  unfold matchModelAt.
  change (Js.startsWith "model" ("model " ++ n ++ " {" ++ body ++ "}" ++ rest))
    with true.
  cbv iota.
  change (skipn 5 ("model " ++ n ++ " {" ++ body ++ "}" ++ rest))
    with (" " ++ n ++ " {" ++ body ++ "}" ++ rest).
  destruct n as [|c n]; [discriminate|].
  assert (Hc : Js.isSpace c = false).
  { apply isWord_not_space. simpl in Hw. now apply andb_true_iff in Hw. }
  change (span Js.isSpace (" " ++ (c :: n) ++ " {" ++ body ++ "}" ++ rest))
    with (let '(a, b) := span Js.isSpace
                           ((c :: n) ++ " {" ++ body ++ "}" ++ rest) in
          (" "%char :: a, b)).
  change (span Js.isSpace ((c :: n) ++ " {" ++ body ++ "}" ++ rest))
    with (if Js.isSpace c
          then let '(a, b) := span Js.isSpace
                                (n ++ " {" ++ body ++ "}" ++ rest) in
               (c :: a, b)
          else ([], (c :: n) ++ " {" ++ body ++ "}" ++ rest)).
  rewrite Hc. cbv iota beta.
  change ((c :: n) ++ " {" ++ body ++ "}" ++ rest)
    with ((c :: n) ++ " "%char :: ("{" ++ body ++ "}" ++ rest)).
  rewrite (span_app Js.isWord (c :: n) " "%char _ Hw eq_refl).
  cbv iota beta.
  change (span Js.isSpace (" "%char :: "{" ++ body ++ "}" ++ rest))
    with (" ", "{" ++ body ++ "}" ++ rest).
  cbv iota beta.
  change ("{" ++ body ++ "}" ++ rest) with ("{"%char :: (body ++ "}" ++ rest)).
  cbv iota beta. rewrite Ascii.eqb_refl.
  change (body ++ "}" ++ rest) with (body ++ "}"%char :: rest).
  rewrite (span_app (notChar "}"%char) body "}"%char rest Hs eq_refl).
  cbv iota beta.
  destruct body as [|b body]; [discriminate|].
  cbv iota beta. f_equal. f_equal.
  simpl. rewrite !length_app. simpl. rewrite !length_app. simpl. lia.
Qed.

(** ** Round trip: the lines of a block *)

Lemma splitOn_line (l s : str) :
  forallb (fun c => negb (isLF c)) l = true ->
  Js.splitOn isLF (l ++ LF :: s) = l :: Js.splitOn isLF s.
Proof.
  induction l as [|c l IH]; intros H; [reflexivity|].
  simpl in H. apply andb_true_iff in H as [Hc Hl].
  apply negb_true_iff in Hc.
  simpl. rewrite Hc. now rewrite (IH Hl).
Qed.

Lemma splitOn_lines (ls : list str) :
  forallb (forallb (fun c => negb (isLF c))) ls = true ->
  Js.splitOn isLF (concat (map (fun l => l ++ [LF]) ls)) = ls ++ [[]].
Proof.
  induction ls as [|l ls IH]; intros H; [reflexivity|].
  simpl in H. apply andb_true_iff in H as [Hl Hls].
  cbn [map concat]. rewrite <- app_assoc. simpl app.
  rewrite splitOn_line by exact Hl. now rewrite (IH Hls).
Qed.

Lemma safeChar_not_LF (c : ascii) :
  safeChar c = true -> negb (isLF c) = true.
Proof. unfold safeChar, isLF. intros H. now apply andb_true_iff in H. Qed.

Lemma safeChar_not_brace (c : ascii) :
  safeChar c = true -> notChar "}"%char c = true.
Proof. unfold safeChar, notChar. intros H. now apply andb_true_iff in H. Qed.

Lemma forallb_impl A (p q : A -> bool) (l : list A) :
  (forall x, p x = true -> q x = true) ->
  forallb p l = true -> forallb q l = true.
Proof.
  intros Hpq. induction l as [|x l IH]; [reflexivity|].
  simpl. intros H. apply andb_true_iff in H as [Hx Hl].
  now rewrite (Hpq x Hx), (IH Hl).
Qed.

Lemma bodyLines_bodyOf (m : PrismaModel) :
  forallb safeText (innerLines m) = true ->
  bodyLines (bodyOf m) = filter isNonEmpty (map Js.trim (innerLines m)).
Proof.
  intros H. unfold bodyLines, bodyOf.
  change (Js.splitOn isLF (LF :: ?s)) with ([] :: Js.splitOn isLF s).
  rewrite splitOn_lines.
  - rewrite map_cons, map_app. cbn [filter].
    change (isNonEmpty (Js.trim [])) with false. cbv iota.
    rewrite filter_app. simpl. now rewrite app_nil_r.
  - revert H. apply forallb_impl. intros l. unfold safeText.
    apply forallb_impl. exact safeChar_not_LF.
Qed.

Lemma forallb_concat_lines (p : ascii -> bool) (ls : list str) :
  p LF = true ->
  forallb (forallb p) ls = true ->
  forallb p (concat (map (fun l => l ++ [LF]) ls)) = true.
Proof.
  intros HLF. induction ls as [|l ls IH]; [reflexivity|].
  simpl. intros H. apply andb_true_iff in H as [Hl Hls].
  rewrite !forallb_app. simpl. now rewrite Hl, HLF, (IH Hls).
Qed.

Lemma bodyOf_no_brace (m : PrismaModel) :
  forallb safeText (innerLines m) = true ->
  forallb (notChar "}"%char) (bodyOf m) = true.
Proof.
  intros H. unfold bodyOf.
  change (forallb (notChar "}"%char) (LF :: ?s))
    with (forallb (notChar "}"%char) s).
  apply forallb_concat_lines; [reflexivity|].
  revert H. apply forallb_impl. intros l. unfold safeText.
  apply forallb_impl. exact safeChar_not_brace.
Qed.

(** The conditions of [wfColumn], one by one. *)
Lemma wfColumn_elim (f : PrismaField) :
  wfColumn f = true ->
  isToken (name f) = true /\ startsColumn (name f) = true
  /\ isToken (type f) = true
  /\ Js.endsWith "?" (type f) = false /\ Js.endsWith "[]" (type f) = false
  /\ safeText (fieldTrailer f) = true
  /\ match buildZodComment (validation f) with
     | Some c => safeText c = true
     | None => True
     end.
Proof.
  unfold wfColumn. intros H.
  do 6 (apply andb_true_iff in H as [H ?H]).
  apply negb_true_iff in H2, H3.
  repeat split; try assumption.
  destruct (buildZodComment (validation f)); [assumption|exact I].
Qed.

Lemma isToken_elim (s : str) :
  isToken s = true ->
  exists c t, s = c :: t /\ Js.isSpace c = false
              /\ forallb tokenChar (c :: t) = true.
Proof.
  unfold isToken. intros H. apply andb_true_iff in H as [Hn Ht].
  destruct s as [|c t]; [discriminate|].
  exists c, t. split; [reflexivity|]. split; [|assumption].
  simpl in Ht. apply andb_true_iff in Ht as [Hc _].
  unfold tokenChar in Hc. apply andb_true_iff in Hc as [Hc _].
  now apply negb_true_iff in Hc.
Qed.

Lemma formatFieldType_token (f : PrismaField) :
  isToken (type f) = true ->
  isToken (formatFieldType f) = true.
Proof.
  unfold isToken, formatFieldType. intros H.
  apply andb_true_iff in H as [Hn Ht].
  destruct (type f) as [|c t]; [discriminate|].
  destruct (list_ f); [|destruct (optional f)];
    simpl app; cbn [isNonEmpty andb]; try assumption;
    change (c :: t ++ ?x) with ((c :: t) ++ x);
    rewrite forallb_app, Ht; reflexivity.
Qed.

Lemma safeText_app (a b : str) :
  safeText (a ++ b) = safeText a && safeText b.
Proof. apply forallb_app. Qed.

Lemma writeFieldAligned_safe (f : PrismaField) (nw tw : nat) :
  wfColumn f = true -> safeText (writeFieldAligned f nw tw) = true.
Proof.
  intros H. destruct (wfColumn_elim f H) as [Hn [_ [Ht [_ [_ [Htr _]]]]]].
  apply formatFieldType_token in Ht.
  unfold isToken in Hn, Ht.
  apply andb_true_iff in Hn as [_ Hn]. apply andb_true_iff in Ht as [_ Ht].
  unfold writeFieldAligned, Js.padEnd. apply safeText_trimEnd.
  rewrite !safeText_app, !safeText_repeat_space, Htr.
  rewrite (token_safe _ Hn), (token_safe _ Ht). reflexivity.
Qed.

Lemma innerLines_safe (m : PrismaModel) :
  wfTable m = true -> forallb safeText (innerLines m) = true.
Proof.
  unfold wfTable, innerLines. intros H.
  do 3 (apply andb_true_iff in H as [H ?H]).
  rewrite forallb_app, H0, andb_true_r.
  generalize (maxWidth (fun f => length (name f)) (pm_fields m) + 2).
  generalize (maxWidth (fun f => length (formatFieldType f)) (pm_fields m) + 2).
  intros tw nw.
  induction (pm_fields m) as [|f fs IH]; [reflexivity|].
  simpl in H1. apply andb_true_iff in H1 as [Hf Hfs].
  simpl flat_map. rewrite forallb_app, (IH Hfs), andb_true_r.
  unfold fieldLines. rewrite forallb_app. simpl.
  rewrite (writeFieldAligned_safe f nw tw Hf).
  destruct (wfColumn_elim f Hf) as [_ [_ [_ [_ [_ [_ Hz]]]]]].
  destruct (buildZodComment (validation f)); [|reflexivity].
  simpl. unfold safeText in *. simpl. now rewrite Hz.
Qed.

(** ** Round trip: reading one line back *)

Lemma splitWs_token_cons (b : bool) (c : ascii) (s : str) :
  Js.isSpace c = false ->
  splitWs b (c :: s)
  = match splitWs false s with
    | seg :: segs => (c :: seg) :: segs
    | [] => [[c]]
    end.
Proof. intros H. simpl. now rewrite H. Qed.

Lemma splitWs_token (tok s h : str) (t : list str) :
  forallb (fun c => negb (Js.isSpace c)) tok = true ->
  splitWs false s = h :: t ->
  splitWs false (tok ++ s) = (tok ++ h) :: t.
Proof.
  intros Htok Hs. induction tok as [|c tok IH]; [exact Hs|].
  simpl in Htok. apply andb_true_iff in Htok as [Hc Htok].
  apply negb_true_iff in Hc.
  simpl app. rewrite splitWs_token_cons by exact Hc.
  now rewrite (IH Htok).
Qed.

Lemma splitWs_spaces (sp s : str) :
  forallb Js.isSpace sp = true ->
  splitWs true (sp ++ s) = splitWs true s.
Proof.
  induction sp as [|c sp IH]; intros H; [reflexivity|].
  simpl in H. apply andb_true_iff in H as [Hc Hsp].
  simpl. rewrite Hc. now apply IH.
Qed.

Lemma tokenChar_not_space (s : str) :
  forallb tokenChar s = true ->
  forallb (fun c => negb (Js.isSpace c)) s = true.
Proof.
  apply forallb_impl. intros c H. unfold tokenChar in H.
  now apply andb_true_iff in H.
Qed.

(** A line made of a name, blanks, a type and what follows after a
    blank splits into the name, the type and further parts. *)
Lemma splitWs_name_type (n pad t z : str) :
  isToken n = true -> isToken t = true ->
  isNonEmpty pad = true -> forallb Js.isSpace pad = true ->
  (z = [] \/ exists c z', z = c :: z' /\ Js.isSpace c = true) ->
  exists more, splitWs false (n ++ pad ++ t ++ z) = n :: t :: more.
Proof.
  intros Hn Ht Hp Hsp Hz.
  unfold isToken in Hn, Ht.
  apply andb_true_iff in Hn as [_ Hn]. apply andb_true_iff in Ht as [Ht0 Ht].
  apply tokenChar_not_space in Hn. apply tokenChar_not_space in Ht.
  assert (Hzs : exists more, splitWs false z = [] :: more).
  { destruct Hz as [->|[c [z' [-> Hc]]]].
    - now exists [].
    - simpl. rewrite Hc. now eexists. }
  destruct Hzs as [more Hmore].
  exists more.
  destruct pad as [|sp pad]; [discriminate|].
  simpl in Hsp. apply andb_true_iff in Hsp as [Hsp0 Hsp].
  assert (Hrest : splitWs false ((sp :: pad) ++ t ++ z) = [] :: t :: more).
  { simpl. rewrite Hsp0. f_equal.
    rewrite splitWs_spaces by exact Hsp.
    destruct t as [|c t]; [discriminate|].
    simpl in Ht. apply andb_true_iff in Ht as [Hc Ht].
    apply negb_true_iff in Hc.
    simpl app. rewrite splitWs_token_cons by exact Hc.
    rewrite (splitWs_token t z Ht Hmore). now rewrite app_nil_r. }
  rewrite (splitWs_token n _ Hn Hrest). now rewrite app_nil_r.
Qed.

Lemma trimEnd_token (a tok b : str) :
  isToken tok = true ->
  Js.trimEnd (a ++ tok ++ b) = a ++ tok ++ Js.trimEnd b.
Proof.
  intros H. unfold isToken in H. apply andb_true_iff in H as [Hn Ht].
  destruct (exists_last (l := tok)) as [tok' [c E]];
    [now destruct tok|].
  subst tok. rewrite forallb_app in Ht.
  apply andb_true_iff in Ht as [_ Hc]. simpl in Hc.
  rewrite andb_true_r in Hc. unfold tokenChar in Hc.
  apply andb_true_iff in Hc as [Hc _]. apply negb_true_iff in Hc.
  rewrite <- !app_assoc. simpl app.
  rewrite (app_assoc a tok' (c :: b)).
  rewrite trimEnd_app by exact Hc.
  now rewrite <- app_assoc.
Qed.

Lemma trimEnd_nil : Js.trimEnd [] = [].
Proof. reflexivity. Qed.

Lemma forallb_repeat_space n : forallb Js.isSpace (repeat " "%char n) = true.
Proof. induction n; [reflexivity|exact IHn]. Qed.

Lemma trimStart_indent (c : ascii) (t r : str) :
  Js.isSpace c = false ->
  Js.trimStart ("  " ++ (c :: t) ++ r) = (c :: t) ++ r.
Proof. intros H. simpl. now rewrite H. Qed.

(** The shape of a field line once trimmed. *)
Lemma field_line_shape (f : PrismaField) (nw tw : nat) :
  wfColumn f = true -> length (formatFieldType f) < tw ->
  exists pad z,
    Js.trim (writeFieldAligned f nw tw)
    = name f ++ pad ++ formatFieldType f ++ z
    /\ isNonEmpty pad = true /\ forallb Js.isSpace pad = true
    /\ (z = [] \/ exists c z', z = c :: z' /\ Js.isSpace c = true).
Proof.
  intros Hwf Htw.
  destruct (wfColumn_elim f Hwf) as [Hn [_ [Ht _]]].
  pose proof (formatFieldType_token f Ht) as Hft.
  unfold writeFieldAligned, Js.padEnd.
  set (ft := formatFieldType f) in *.
  set (k1 := nw - length (name f)).
  destruct (tw - length ft) as [|k2] eqn:Ek; [lia|].
  set (y := (repeat " "%char (S k2)) ++ fieldTrailer f).
  exists (repeat " "%char k1 ++ "  "), (Js.trimEnd (Js.trimEnd y)).
  split; [|split; [|split]].
  - replace ("  " ++ (name f ++ repeat " "%char k1) ++ "  "
             ++ (ft ++ repeat " "%char (S k2)) ++ fieldTrailer f)
      with (("  " ++ name f ++ repeat " "%char k1 ++ "  ") ++ ft ++ y)
      by (unfold y; now rewrite <- !app_assoc).
    rewrite trimEnd_token by exact Hft.
    unfold Js.trim.
    destruct (isToken_elim (name f) Hn) as [c [t [E [Hc _]]]].
    rewrite E in *. rewrite <- !app_assoc.
    rewrite trimStart_indent by exact Hc.
    replace ((c :: t) ++ repeat " "%char k1 ++ "  " ++ ft ++ Js.trimEnd y)
      with (((c :: t) ++ repeat " "%char k1 ++ "  ") ++ ft ++ Js.trimEnd y)
      by (now rewrite <- !app_assoc).
    rewrite trimEnd_token by exact Hft.
    now rewrite <- !app_assoc.
  - now destruct k1.
  - rewrite forallb_app, forallb_repeat_space. reflexivity.
  - unfold y. simpl repeat. simpl app.
    destruct (trimEnd_head " "%char (repeat " "%char k2 ++ fieldTrailer f))
      as [->|[z1 ->]]; [now left|].
    destruct (trimEnd_head " "%char z1) as [->|[z2 ->]]; [now left|].
    right. now exists " "%char, z2.
Qed.

Lemma dropEnd_app (s p : str) : Js.dropEnd (length p) (s ++ p) = s.
Proof.
  unfold Js.dropEnd. rewrite length_app.
  replace (length s + length p - length p) with (length s) by lia.
  rewrite firstn_app, firstn_all, Nat.sub_diag. simpl. apply app_nil_r.
Qed.

(** The name and the flags read off a rendered type. *)
Lemma parseFieldLine_name_type (f : PrismaField) (line : str)
    (more : list str) :
  wfColumn f = true ->
  splitWs false line = name f :: formatFieldType f :: more ->
  exists parsed,
    parseFieldLine line = Some parsed /\ sameColumn f parsed.
Proof.
  intros Hwf Hsplit.
  destruct (wfColumn_elim f Hwf) as [Hn [_ [Ht [Hq [Hl _]]]]].
  destruct (isToken_elim (name f) Hn) as [c [n [En _]]].
  destruct (isToken_elim (type f) Ht) as [d [t [Et _]]].
  unfold parseFieldLine. rewrite Hsplit, En.
  assert (Hft : exists e ft, formatFieldType f = e :: ft).
  { unfold formatFieldType. rewrite Et.
    destruct (list_ f); [|destruct (optional f)]; simpl; eauto. }
  destruct Hft as [e [ft Eft]]. rewrite Eft, <- Eft, <- En.
  eexists. split; [reflexivity|].
  unfold sameColumn. cbn [name type list_ optional].
  unfold formatFieldType.
  destruct (list_ f) eqn:El.
  - assert (E1 : Js.endsWith "?" (type f ++ "[]") = false).
    { unfold Js.endsWith. now rewrite rev_app_distr. }
    rewrite E1. rewrite endsWith_app.
    change 2 with (length ("[]" : str)). rewrite dropEnd_app.
    repeat split; try reflexivity. now destruct (optional f).
  - destruct (optional f) eqn:Eo.
    + rewrite endsWith_app.
      change 1 with (length ("?" : str)). rewrite dropEnd_app.
      rewrite Hl. repeat split; reflexivity.
    + rewrite Hq, Hl. repeat split; reflexivity.
Qed.

Lemma parseLine_comment (m : PrismaModel) (line : str) :
  Js.startsWith "//" line = true -> parseLine m line = m.
Proof. unfold parseLine. now intros ->. Qed.

Lemma parseLine_directive (m : PrismaModel) (line : str) :
  Js.startsWith "@@index" line = true
  \/ Js.startsWith "@@unique" line = true
  \/ Js.startsWith "@@map" line = true ->
  keeps m (parseLine m line).
Proof.
  unfold parseLine, keeps. intros H.
  destruct (Js.startsWith "//" line); [auto|].
  destruct (Js.startsWith "@@index" line).
  { destruct (capture _ _ _ line); simpl; auto. }
  destruct (Js.startsWith "@@unique" line).
  { destruct (capture _ _ _ line); simpl; auto. }
  destruct (Js.startsWith "@@map" line).
  { destruct (capture _ _ _ line); simpl; auto. }
  destruct H as [H|[H|H]]; discriminate.
Qed.

Lemma parseLine_column (m : PrismaModel) (c : ascii) (line : str) :
  startsColumn (c :: line) = true ->
  parseLine m (c :: line)
  = match parseFieldLine (c :: line) with
    | Some f =>
        {| pm_name := pm_name m; pm_fields := pm_fields m ++ [f];
           pm_indexes := pm_indexes m; pm_unique := pm_unique m;
           pm_map := pm_map m |}
    | None => m
    end.
Proof.
  unfold startsColumn, parseLine. intros H.
  apply andb_true_iff in H as [H1 H2].
  apply negb_true_iff in H1, H2.
  assert (E1 : Ascii.eqb "/" c = false) by (now rewrite Ascii.eqb_sym).
  assert (E2 : Ascii.eqb "@" c = false) by (now rewrite Ascii.eqb_sym).
  cbn [Js.startsWith]. now rewrite E1, E2.
Qed.

(** ** Round trip: a whole block *)

Lemma buildZodComment_prefix (v : option FieldValidation) (c : str) :
  buildZodComment v = Some c -> exists t, c = "/// @zod." ++ t.
Proof.
  unfold buildZodComment. destruct v as [v|]; [|discriminate].
  destruct (zodParts v); [discriminate|].
  intros H. injection H as <-. now eexists.
Qed.

Lemma comment_line_skipped (m : PrismaModel) (t : str) :
  parseLine m (Js.trim ("  " ++ "/// @zod." ++ t)) = m.
Proof.
  apply parseLine_comment. unfold Js.trim.
  change ("  " ++ "/// @zod." ++ t)
    with ("  " ++ ("/"%char :: "// @zod.") ++ t).
  rewrite trimStart_indent by reflexivity.
  change (("/"%char :: "// @zod.") ++ t)
    with ("//" ++ "/"%char :: (" @zod." ++ t)).
  rewrite trimEnd_app by reflexivity. reflexivity.
Qed.

Lemma directive_line_trim (d : str) (c : ascii) (r : str) :
  Js.isSpace c = false ->
  Js.trim ("  " ++ ("@"%char :: d) ++ c :: r)
  = ("@"%char :: d) ++ c :: Js.trimEnd r.
Proof.
  intros Hc. unfold Js.trim.
  rewrite trimStart_indent by reflexivity.
  now rewrite trimEnd_app by exact Hc.
Qed.

(** The lines written after the columns are blank or block
    attributes. *)
Lemma blockAttributes_lines (m : PrismaModel) (l : str) :
  In l (blockAttributes m) ->
  l = []
  \/ (exists r, l = "  " ++ "@@index" ++ "("%char :: r)
  \/ (exists r, l = "  " ++ "@@unique" ++ "("%char :: r)
  \/ (exists r, l = "  " ++ "@@map" ++ "("%char :: r).
Proof.
  unfold blockAttributes. intros H.
  apply in_app_or in H as [H|H]; [|apply in_app_or in H as [H|H]].
  - destruct (nonEmptyRows (pm_indexes m)) as [|ix ixs]; [contradiction|].
    apply in_app_or in H as [[<-|[]]|H]; [now left|].
    apply in_map_iff in H as [x [<- _]]. right. left. eexists; reflexivity.
  - destruct (nonEmptyRows (pm_unique m)) as [|u us]; [contradiction|].
    apply in_app_or in H as [H|H].
    + destruct (isEmptyRows (pm_indexes m)); [|contradiction].
      destruct H as [<-|[]]. now left.
    + apply in_map_iff in H as [x [<- _]]. right. right. left. eexists; reflexivity.
  - destruct (pm_map m) as [[|c n]|]; try contradiction.
    apply in_app_or in H as [H|H].
    + destruct (isEmptyRows (pm_indexes m) && isEmptyRows (pm_unique m));
        [|contradiction].
      destruct H as [<-|[]]. now left.
    + destruct H as [<-|[]]. right. right. right. eexists; reflexivity.
Qed.

Lemma keeps_refl (m : PrismaModel) : keeps m m.
Proof. now split. Qed.

Lemma keeps_trans (a b c : PrismaModel) : keeps a b -> keeps b c -> keeps a c.
Proof. unfold keeps. intros [H1 H2] [H3 H4]. split; congruence. Qed.

Lemma blockAttributes_kept (m : PrismaModel) (lines : list str) :
  (forall l, In l lines -> In l (blockAttributes m)) ->
  forall m0,
    keeps m0 (fold_left parseLine
                (filter isNonEmpty (map Js.trim lines)) m0).
Proof.
  induction lines as [|l lines IH]; intros Hin m0; [apply keeps_refl|].
  assert (Hrest : forall x, In x lines -> In x (blockAttributes m))
    by (intros x Hx; apply Hin; now right).
  assert (Hl : In l (blockAttributes m)) by (apply Hin; now left).
  simpl map. simpl filter.
  destruct (@blockAttributes_lines m l Hl) as [->|[[r ->]|[[r ->]|[r ->]]]].
  - simpl. now apply IH.
  - rewrite directive_line_trim by reflexivity. simpl isNonEmpty. cbv iota.
    simpl fold_left. eapply keeps_trans; [|apply IH; exact Hrest].
    apply parseLine_directive. left. reflexivity.
  - rewrite directive_line_trim by reflexivity. simpl isNonEmpty. cbv iota.
    simpl fold_left. eapply keeps_trans; [|apply IH; exact Hrest].
    apply parseLine_directive. right. left. reflexivity.
  - rewrite directive_line_trim by reflexivity. simpl isNonEmpty. cbv iota.
    simpl fold_left. eapply keeps_trans; [|apply IH; exact Hrest].
    apply parseLine_directive. right. right. reflexivity.
Qed.

Lemma maxWidth_acc (measure : PrismaField -> nat) fields : forall w,
  w <= fold_left (fun w f => Nat.max w (measure f)) fields w
  /\ forall f, In f fields ->
       measure f <= fold_left (fun w f => Nat.max w (measure f)) fields w.
Proof.
  induction fields as [|g fields IH]; intros w;
    [simpl; split; [lia|intros f []]|].
  simpl. destruct (IH (Nat.max w (measure g))) as [H1 H2].
  split; [lia|]. intros f [->|Hf]; [lia|auto].
Qed.

Lemma maxWidth_ge (measure : PrismaField -> nat) fields f :
  In f fields -> measure f <= maxWidth measure fields.
Proof. intros H. now apply (@maxWidth_acc measure fields 0). Qed.

Lemma fold_line (l : str) (ls : list str) (m : PrismaModel) :
  fold_left parseLine (filter isNonEmpty (map Js.trim (l :: ls))) m
  = fold_left parseLine (filter isNonEmpty (map Js.trim ls))
      (if isNonEmpty (Js.trim l) then parseLine m (Js.trim l) else m).
Proof.
  cbn [map filter]. now destruct (isNonEmpty (Js.trim l)).
Qed.

(** The column lines are read back in order, one column each. *)
Lemma fieldLines_read (nw tw : nat) (fields : list PrismaField) :
  (forall f, In f fields ->
     wfColumn f = true /\ length (formatFieldType f) < tw) ->
  forall m0, exists parsed,
    let m' := fold_left parseLine
                (filter isNonEmpty
                        (map Js.trim (flat_map (fieldLines nw tw) fields)))
                m0 in
    pm_name m' = pm_name m0
    /\ pm_fields m' = pm_fields m0 ++ parsed
    /\ Forall2 sameColumn fields parsed.
Proof.
  induction fields as [|f fields IH]; intros Hall m0.
  - exists []. simpl. now rewrite app_nil_r.
  - destruct (Hall f (or_introl eq_refl)) as [Hwf Htw].
    assert (Hrest : forall g, In g fields ->
              wfColumn g = true /\ length (formatFieldType g) < tw)
      by (intros g Hg; apply Hall; now right).
    destruct (@field_line_shape f nw tw Hwf Htw)
      as [pad [z [Eline [Hpad [Hsp Hz]]]]].
    destruct (wfColumn_elim f Hwf) as [Hn [Hstart [Ht _]]].
    destruct (@splitWs_name_type (name f) pad (formatFieldType f) z Hn
                (formatFieldType_token f Ht) Hpad Hsp Hz) as [more Hsplit].
    rewrite <- Eline in Hsplit.
    destruct (@parseFieldLine_name_type f _ more Hwf Hsplit) as [p [Hp Hsame]].
    destruct (isToken_elim (name f) Hn) as [c [n [En _]]].
    assert (Eline' : exists rest,
              Js.trim (writeFieldAligned f nw tw) = c :: rest).
    { rewrite Eline, En. now eexists. }
    destruct Eline' as [rest Erest].
    assert (Hcol : forall m,
              parseLine m (Js.trim (writeFieldAligned f nw tw))
              = {| pm_name := pm_name m; pm_fields := pm_fields m ++ [p];
                   pm_indexes := pm_indexes m; pm_unique := pm_unique m;
                   pm_map := pm_map m |}).
    { intros m. rewrite Erest in *. rewrite parseLine_column.
      - now rewrite Hp.
      - rewrite En in Hstart. exact Hstart. }
    assert (Hstep : forall m,
              fold_left parseLine
                (filter isNonEmpty (map Js.trim (fieldLines nw tw f))) m
              = {| pm_name := pm_name m; pm_fields := pm_fields m ++ [p];
                   pm_indexes := pm_indexes m; pm_unique := pm_unique m;
                   pm_map := pm_map m |}).
    { intros m. unfold fieldLines.
      assert (Hne : isNonEmpty (Js.trim (writeFieldAligned f nw tw)) = true)
        by (now rewrite Erest).
      destruct (buildZodComment (validation f)) as [cm|] eqn:Ec.
      - destruct (@buildZodComment_prefix _ _ Ec) as [t ->].
        change (["  " ++ "/// @zod." ++ t] ++ [writeFieldAligned f nw tw])
          with ["  " ++ "/// @zod." ++ t; writeFieldAligned f nw tw].
        rewrite !fold_line, Hne, comment_line_skipped.
        cbn [map filter fold_left].
        destruct (isNonEmpty (Js.trim ("  " ++ "/// @zod." ++ t)));
          apply Hcol.
      - change ([] ++ [writeFieldAligned f nw tw])
          with [writeFieldAligned f nw tw].
        rewrite fold_line, Hne. cbn [map filter fold_left]. apply Hcol. }
    simpl flat_map. rewrite map_app, filter_app, fold_left_app, Hstep.
    destruct (IH Hrest
                {| pm_name := pm_name m0; pm_fields := pm_fields m0 ++ [p];
                   pm_indexes := pm_indexes m0; pm_unique := pm_unique m0;
                   pm_map := pm_map m0 |}) as [ps [Hname [Hfields Hsames]]].
    exists (p :: ps). cbv zeta in *. simpl pm_name in Hname.
    simpl pm_fields in Hfields.
    split; [exact Hname|]. split.
    + rewrite Hfields, <- app_assoc. reflexivity.
    + now constructor.
Qed.

Lemma parseModel_bodyOf (m : PrismaModel) :
  wfTable m = true -> sameTable m (parseModel (pm_name m) (bodyOf m)).
Proof.
  intros Hwf. unfold parseModel.
  rewrite bodyLines_bodyOf by (now apply innerLines_safe).
  unfold innerLines. rewrite map_app, filter_app, fold_left_app.
  set (nw := maxWidth (fun f => length (name f)) (pm_fields m) + 2).
  set (tw := maxWidth (fun f => length (formatFieldType f)) (pm_fields m) + 2).
  assert (Hall : forall f, In f (pm_fields m) ->
            wfColumn f = true /\ length (formatFieldType f) < tw).
  { intros f Hf. split.
    - unfold wfTable in Hwf. do 3 (apply andb_true_iff in Hwf as [Hwf ?H]).
      rewrite forallb_forall in H0. now apply H0.
    - pose proof (@maxWidth_ge (fun f => length (formatFieldType f))
                    (pm_fields m) f Hf). unfold tw. simpl in *. lia. }
  destruct (@fieldLines_read nw tw (pm_fields m) Hall
              {| pm_name := pm_name m; pm_fields := [];
                 pm_indexes := None; pm_unique := None; pm_map := None |})
    as [parsed [Hname [Hfields Hsame]]].
  cbv zeta in *.
  match goal with
  | |- sameTable m (fold_left parseLine ?ls ?m1) =>
      destruct (@blockAttributes_kept m (blockAttributes m)
                  (fun l H => H) m1) as [Kn Kf]
  end.
  split.
  - rewrite Kn, Hname. reflexivity.
  - rewrite Kf, Hfields. exact Hsame.
Qed.

(** ** Round trip: the whole schema *)

Lemma scan_block (m : PrismaModel) (rest : str) :
  wfTable m = true ->
  execAll 0 (writeModel m ++ rest)
  = (pm_name m, bodyOf m) :: execAll 0 rest.
Proof.
  intros Hwf. rewrite writeModel_block.
  pose proof (innerLines_safe m Hwf) as Hsafe.
  unfold wfTable in Hwf. do 3 (apply andb_true_iff in Hwf as [Hwf ?H]).
  pose proof (@matchModelAt_block (pm_name m) (bodyOf m) rest Hwf H1
                eq_refl (bodyOf_no_brace m Hsafe)) as Hmatch.
  replace (("model " ++ pm_name m ++ " {" ++ bodyOf m ++ "}") ++ rest)
    with ("model " ++ pm_name m ++ " {" ++ bodyOf m ++ "}" ++ rest)
    by (now rewrite <- !app_assoc).
  change ("model " ++ pm_name m ++ " {" ++ bodyOf m ++ "}" ++ rest)
    with ("m"%char
          :: ("odel " ++ pm_name m ++ " {" ++ bodyOf m ++ "}" ++ rest))
    in *.
  cbn [execAll]. rewrite Hmatch. f_equal.
  change (length ("model " ++ pm_name m ++ " {" ++ bodyOf m ++ "}") - 1)
    with (length ("odel " ++ pm_name m ++ " {" ++ bodyOf m ++ "}") - 0).
  rewrite Nat.sub_0_r.
  replace ("odel " ++ pm_name m ++ " {" ++ bodyOf m ++ "}" ++ rest)
    with (("odel " ++ pm_name m ++ " {" ++ bodyOf m ++ "}") ++ rest)
    by (now rewrite <- !app_assoc).
  apply execAll_skip_matched.
Qed.

Lemma scan_blocks (ms : list PrismaModel) :
  forallb wfTable ms = true ->
  execAll 0 (Js.join [LF; LF] (map writeModel ms) ++ [LF])
  = map (fun m => (pm_name m, bodyOf m)) ms.
Proof.
  induction ms as [|m ms IH]; intros H; [reflexivity|].
  simpl in H. apply andb_true_iff in H as [Hm Hms].
  destruct ms as [|m2 ms].
  - cbn [map Js.join]. rewrite scan_block by exact Hm. reflexivity.
  - change (map writeModel (m :: m2 :: ms))
      with (writeModel m :: writeModel m2 :: map writeModel ms).
    rewrite join_cons2, <- !app_assoc.
    rewrite scan_block by exact Hm.
    change ([LF; LF] ++ ?s) with (LF :: LF :: s).
    rewrite !execAll_LF.
    change (writeModel m2 :: map writeModel ms)
      with (map writeModel (m2 :: ms)).
    rewrite (IH Hms). reflexivity.
Qed.

Lemma join_app (sep : str) (bs : list str) : forall (l : list str) (a : str),
  bs <> [] ->
  Js.join sep ((a :: l) ++ bs) = Js.join sep (a :: l) ++ sep ++ Js.join sep bs.
Proof.
  induction l as [|b l IH]; intros a Hbs.
  - destruct bs as [|b bs]; [contradiction|]. reflexivity.
  - change ((a :: b :: l) ++ bs) with (a :: (b :: l) ++ bs).
    change (a :: (b :: l) ++ bs) with (a :: b :: (l ++ bs)).
    rewrite !join_cons2.
    change (b :: l ++ bs) with ((b :: l) ++ bs).
    rewrite (IH b Hbs). now rewrite <- !app_assoc.
Qed.

Lemma scan_schema (schema : PrismaSchema) :
  wfSchema schema = true ->
  execAll 0 (writeSchemaSync schema)
  = map (fun m => (pm_name m, bodyOf m)) (models schema).
Proof.
  unfold wfSchema. intros H. apply andb_true_iff in H as [Hp Hms].
  apply negb_true_iff in Hp.
  unfold writeSchemaSync.
  change ([writeDatasource (datasource schema)]
          ++ map writeGenerator (generators schema)
          ++ map writeModel (models schema))
    with ((writeDatasource (datasource schema)
           :: map writeGenerator (generators schema))
          ++ map writeModel (models schema)).
  destruct (models schema) as [|m ms] eqn:E.
  - cbn [map]. rewrite app_nil_r. fold (preamble schema).
    change (preamble schema ++ [LF]) with (preamble schema ++ LF :: []).
    now rewrite execAll_skip_preamble.
  - rewrite join_app by discriminate. fold (preamble schema).
    rewrite <- !app_assoc.
    change ([LF; LF] ++ ?s) with (LF :: LF :: s).
    rewrite execAll_skip_preamble by exact Hp.
    rewrite execAll_LF.
    now apply scan_blocks.
Qed.

(** C7 (as amended).  For a schema whose tables have word names and
    columns made of a name and a type without blanks, braces or suffix
    characters at the end of the type, whose remaining text holds no
    closing brace or line break, and whose datasource and generator
    blocks do not hold the word [model], re-extracting the written text
    gives back the tables in order, each with its name and, column by
    column, the name, the type, the list flag and the optional flag of
    the rendered type, which is the column's optional flag except that a
    list column is read back as not optional. *)
Theorem roundtrip_names_and_flags (schema : PrismaSchema) :
  wfSchema schema = true ->
  Forall2 sameTable (models schema)
          (extractModelsFromString (writeSchemaSync schema)).
Proof.
  intros Hwf. unfold extractModelsFromString.
  rewrite scan_schema by exact Hwf. rewrite map_map. cbn [fst snd].
  unfold wfSchema in Hwf. apply andb_true_iff in Hwf as [_ Hms].
  induction (models schema) as [|m ms IH]; [constructor|].
  simpl in Hms. apply andb_true_iff in Hms as [Hm Hms].
  cbn [map]. constructor; [now apply parseModel_bodyOf|now apply IH].
Qed.

Lemma roundtrip_names_and_flags_witness :
  Forall2 sameTable (models Samples.scenarioB)
          (extractModelsFromString (writeSchemaSync Samples.scenarioB)).
Proof.
  apply (roundtrip_names_and_flags Samples.scenarioB).
  vm_compute. reflexivity.
Defined.

(** The original C7 fails on the optional flag: the [categories] column
    of Scenario B is a list marked optional in memory, and is read back
    as not optional. *)
Lemma roundtrip_loses_optional_of_list :
  map (fun m => (pm_name m,
                 map (fun f => (name f, optional f, list_ f)) (pm_fields m)))
      (firstn 1 (models Samples.scenarioB))
  = [("Post", [("id", false, false); ("title", false, false);
               ("categories", true, true); ("created_at", false, false);
               ("updated_at", false, false)])]
  /\ map (fun m => (pm_name m,
                    map (fun f => (name f, optional f, list_ f))
                        (pm_fields m)))
         (firstn 1 (extractModelsFromString
                      (writeSchemaSync Samples.scenarioB)))
     = [("Post", [("id", false, false); ("title", false, false);
                  ("categories", false, true); ("created_at", false, false);
                  ("updated_at", false, false)])].
Proof. split; vm_compute; reflexivity. Qed.

(** The condition on annotation comments is needed: a validation
    pattern with a closing brace ends the block early for the parser,
    and the columns written after it are not read back. *)
Lemma roundtrip_brace_in_annotation :
  wfSchema (Samples.schemaOf
              (Samples.generatedTables Samples.plain [Samples.address]))
  = false
  /\ map (fun m => (pm_name m, map name (pm_fields m)))
         (Samples.generatedTables Samples.plain [Samples.address])
     = [("Address", ["id"; "zip"; "city"; "created_at"; "updated_at"])]
  /\ map (fun m => (pm_name m, map name (pm_fields m)))
         (extractModelsFromString
            (writeSchemaSync
               (Samples.schemaOf
                  (Samples.generatedTables Samples.plain [Samples.address]))))
     = [("Address", ["id"])].
Proof. repeat split; vm_compute; reflexivity. Qed.

(** ** Names *)

Ltac ascii_cases c :=
  destruct c as [[|] [|] [|] [|] [|] [|] [|] [|]];
  try reflexivity; try discriminate.

Lemma upperChar_lower (c : ascii) :
  Js.isLower c = true -> Js.isUpper (Js.upperChar c) = true.
Proof. ascii_cases c. Qed.

Lemma upperChar_digit (c : ascii) :
  Js.isDigit c = true -> Js.upperChar c = c.
Proof. ascii_cases c. Qed.

Lemma lowerChar_not_upper (c : ascii) : Js.isUpper (Js.lowerChar c) = false.
Proof. ascii_cases c. Qed.

Lemma lowerChar_fixed (c : ascii) :
  Js.isUpper c = false -> Js.lowerChar c = c.
Proof. unfold Js.lowerChar. now intros ->. Qed.

Lemma lowerChar_alnum (c : ascii) :
  isAlnum c = true -> isAlnum (Js.lowerChar c) = true.
Proof. ascii_cases c. Qed.

Lemma upperChar_alnum (c : ascii) :
  isAlnum c = true -> isAlnum (Js.upperChar c) = true.
Proof. ascii_cases c. Qed.

Lemma lowerChar_upper_letter (c : ascii) :
  Js.isUpper c = true -> notUnderscore (Js.lowerChar c) = true.
Proof. ascii_cases c. Qed.

Lemma slugTail_split (c : ascii) :
  Zod.isSlugTail c = true ->
  Naming.isDashOrUnderscore c = true
  \/ (Naming.isDashOrUnderscore c = false /\ isAlnum c = true).
Proof.
  ascii_cases c; intros _; (now left) || (right; split; reflexivity).
Qed.

Lemma alnum_word (c : ascii) :
  isAlnum c = true ->
  Js.isWord c = true /\ Naming.isDashOrUnderscore c = false.
Proof. ascii_cases c; intros _; split; reflexivity. Qed.

Lemma join_empty_sep (parts : list str) : Js.join "" parts = concat parts.
Proof.
  induction parts as [|p [|q l] IH]; [reflexivity|simpl; now rewrite app_nil_r|].
  change (Js.join "" (p :: q :: l)) with (p ++ "" ++ Js.join "" (q :: l)).
  rewrite IH. reflexivity.
Qed.

Lemma splitOn_nonempty (isSep : ascii -> bool) (s : str) :
  exists seg segs, Js.splitOn isSep s = seg :: segs.
Proof.
  induction s as [|c s (seg & segs & E)]; simpl; [now eexists _, _|].
  destruct (isSep c); [now eexists _, _|]. rewrite E. now eexists _, _.
Qed.

(** The segments of a split hold the characters that are no separator. *)
Lemma splitOn_segments (isSep p : ascii -> bool) (s : str) :
  forallb (fun c => isSep c || p c) s = true ->
  forallb (forallb p) (Js.splitOn isSep s) = true.
Proof.
  intros H. induction s as [|c s IH]; [reflexivity|].
  simpl in H. apply andb_true_iff in H as [Hc Hs]. specialize (IH Hs).
  simpl. destruct (isSep c) eqn:E; [exact IH|].
  simpl in Hc.
  destruct (Js.splitOn isSep s) as [|seg segs]; simpl in *.
  - now rewrite Hc.
  - now rewrite Hc.
Qed.

Lemma capitalize_alnum (w : str) :
  forallb isAlnum w = true -> forallb isAlnum (Naming.capitalize w) = true.
Proof.
  intros H. unfold Naming.capitalize, Js.toUpperCase, Js.toLowerCase,
    Js.charAt0, Js.slice1.
  destruct w as [|c w]; [reflexivity|].
  simpl in H. apply andb_true_iff in H as [Hc Hw].
  simpl. rewrite (upperChar_alnum _ Hc). simpl.
  induction w as [|d w IH]; [reflexivity|].
  simpl in Hw. apply andb_true_iff in Hw as [Hd Hw].
  simpl. now rewrite (lowerChar_alnum _ Hd), (IH Hw).
Qed.

Lemma forallb_concat A (p : A -> bool) (ls : list (list A)) :
  forallb (forallb p) ls = true -> forallb p (concat ls) = true.
Proof.
  induction ls as [|l ls IH]; [reflexivity|]. simpl.
  intros H. apply andb_true_iff in H as [Hl Hls].
  now rewrite forallb_app, Hl, (IH Hls).
Qed.

Lemma forallb_map A B (f : A -> B) (p : B -> bool) (l : list A) :
  forallb p (map f l) = forallb (fun x => p (f x)) l.
Proof. induction l as [|x l IH]; [reflexivity|]. simpl. now rewrite IH. Qed.

Lemma toPascalCase_alnum (s : str) :
  forallb Zod.isSlugTail s = true ->
  forallb isAlnum (Naming.toPascalCase s) = true.
Proof.
  intros H. unfold Naming.toPascalCase. rewrite join_empty_sep.
  apply forallb_concat. rewrite forallb_map.
  assert (Hseg : forallb (forallb isAlnum)
                   (Js.splitOn Naming.isDashOrUnderscore s) = true).
  { apply splitOn_segments.
    eapply forallb_impl; [|exact H]. intros c Hc.
    destruct (slugTail_split _ Hc) as [-> | [_ ->]];
      [reflexivity | apply orb_true_r]. }
  eapply forallb_impl; [|exact Hseg]. intros w. apply capitalize_alnum.
Qed.

Lemma toPascalCase_head (s : str) :
  Zod.SLUG s = true ->
  exists c rest, Naming.toPascalCase s = c :: rest /\ Js.isUpper c = true.
Proof.
  intros H. destruct s as [|c rest]; [discriminate|].
  simpl in H. apply andb_true_iff in H as [Hc Hrest].
  unfold Naming.toPascalCase. rewrite join_empty_sep.
  assert (Hsep : Naming.isDashOrUnderscore c = false)
    by (revert Hc; clear; ascii_cases c).
  simpl. rewrite Hsep.
  destruct (Js.splitOn Naming.isDashOrUnderscore rest) as [|seg segs];
    simpl; eexists _, _; (split; [reflexivity|]);
    now apply upperChar_lower.
Qed.

Lemma slug_chars (s : str) :
  Zod.SLUG s = true -> forallb Zod.isSlugTail s = true.
Proof.
  destruct s as [|c rest]; [discriminate|]. simpl. intros H.
  apply andb_true_iff in H as [Hc Hrest]. rewrite Hrest, andb_true_r.
  revert Hc. clear. ascii_cases c.
Qed.

(** X1: a slug is turned into a table name made of letters and digits that
    starts with a capital: the separators are dropped. *)
Theorem toPascalCase_slug (s : str) :
  Zod.SLUG s = true ->
  (exists c rest,
     Naming.toPascalCase s = c :: rest /\ Js.isUpper c = true)
  /\ forallb isAlnum (Naming.toPascalCase s) = true
  /\ forallb Js.isWord (Naming.toPascalCase s) = true
  /\ forallb (fun c => negb (Naming.isDashOrUnderscore c))
             (Naming.toPascalCase s) = true.
Proof.
  intros H. pose proof (toPascalCase_alnum _ (slug_chars _ H)) as Hal.
  split; [now apply toPascalCase_head|]. split; [exact Hal|]. split.
  - eapply forallb_impl; [|exact Hal]. intros x Hx. now apply alnum_word.
  - eapply forallb_impl; [|exact Hal]. intros x Hx.
    now rewrite (proj2 (alnum_word _ Hx)).
Qed.

Lemma toPascalCase_slug_witness :
  Zod.SLUG "blog-post" = true
  /\ Naming.toPascalCase "blog-post" = "BlogPost"
  /\ forallb Js.isWord (Naming.toPascalCase "blog-post") = true.
Proof.
  split; [reflexivity|]. split; [reflexivity|].
  exact (proj1 (proj2 (proj2 (@toPascalCase_slug "blog-post" eq_refl)))).
Defined.

Lemma splitOn_hyphensToUnderscores (s : str) :
  Js.splitOn Naming.isDashOrUnderscore (hyphensToUnderscores s)
  = Js.splitOn Naming.isDashOrUnderscore s.
Proof.
  induction s as [|c s IH]; [reflexivity|].
  unfold hyphensToUnderscores in *. simpl. rewrite IH.
  unfold isHyphen, Naming.isDashOrUnderscore.
  destruct (Ascii.eqb c "-") eqn:E; [reflexivity|].
  now rewrite E.
Qed.

(** X2: the separator a slug uses does not reach the table name: slugs
    that differ only in [-] against [_] get one name. *)
Theorem toPascalCase_separator_blind (s : str) :
  Naming.toPascalCase (hyphensToUnderscores s) = Naming.toPascalCase s.
Proof.
  unfold Naming.toPascalCase. now rewrite splitOn_hyphensToUnderscores.
Qed.

Lemma flat_map_forallb A B (f : A -> list B) (p : B -> bool) (l : list A) :
  (forall x, forallb p (f x) = true) -> forallb p (flat_map f l) = true.
Proof.
  intros H. induction l as [|x l IH]; [reflexivity|].
  simpl. now rewrite forallb_app, H, IH.
Qed.

Lemma filter_flat_map A B (f : A -> list B) (p : B -> bool) (l : list A) :
  filter p (flat_map f l) = flat_map (fun x => filter p (f x)) l.
Proof.
  induction l as [|x l IH]; [reflexivity|].
  simpl. now rewrite filter_app, IH.
Qed.

(** The text [toSnakeCase] works on before it drops a leading
    underscore. *)
Lemma toSnakeCase_chars (p : ascii -> bool) (s : str) :
  p "_"%char = true ->
  (forall c, Js.isUpper c = true -> p (Js.lowerChar c) = true) ->
  forallb (fun c => Js.isUpper c || p c) s = true ->
  forallb p (Naming.toSnakeCase s) = true.
Proof.
  intros Hu Hl H. unfold Naming.toSnakeCase.
  set (step := fun c => if Js.isUpper c then ["_"%char; Js.lowerChar c]
                        else [c]).
  assert (Hall : forallb p (flat_map step s) = true).
  { induction s as [|c s IH]; [reflexivity|]. simpl in H.
    apply andb_true_iff in H as [Hc Hs]. cbn [flat_map].
    rewrite forallb_app, (IH Hs), andb_true_r. unfold step.
    destruct (Js.isUpper c) eqn:E; simpl.
    - now rewrite Hu, (Hl c E).
    - simpl in Hc. now rewrite Hc. }
  destruct (flat_map step s) as [|c rest]; [reflexivity|].
  destruct (Ascii.eqb c "_"); [|exact Hall].
  simpl in Hall. now apply andb_true_iff in Hall as [_ Hall].
Qed.

(** X3: [toSnakeCase] leaves none of the letters A to Z, and changes
    its argument only by lowering these letters and by placing or
    dropping underscores: without the underscores, the result is the
    argument with its letters A to Z lowered. *)
Theorem toSnakeCase_lowercase (s : str) :
  forallb (fun c => negb (Js.isUpper c)) (Naming.toSnakeCase s) = true
  /\ filter notUnderscore (Naming.toSnakeCase s)
     = filter notUnderscore (lowerCapitals s).
Proof.
  split.
  - apply toSnakeCase_chars; [reflexivity| |].
    + intros c Hc. now rewrite lowerChar_not_upper.
    + clear. induction s as [|c s IH]; [reflexivity|]. simpl.
      rewrite IH, andb_true_r. now destruct (Js.isUpper c).
  - unfold Naming.toSnakeCase.
    set (step := fun c => if Js.isUpper c then ["_"%char; Js.lowerChar c]
                          else [c]).
    assert (Hfl : filter notUnderscore (flat_map step s)
                  = filter notUnderscore (lowerCapitals s)).
    { rewrite filter_flat_map. unfold lowerCapitals.
      induction s as [|c s IH]; [reflexivity|].
      cbn [flat_map map filter]. rewrite <- IH. unfold step at 1.
      destruct (Js.isUpper c) eqn:E.
      - cbn [filter]. rewrite (lowerChar_upper_letter _ E). reflexivity.
      - cbn [filter]. destruct (notUnderscore c); reflexivity. }
    revert Hfl. destruct (flat_map step s) as [|c rest]; intros Hfl;
      [exact Hfl|].
    destruct (Ascii.eqb c "_") eqn:Ec; [|exact Hfl].
    apply Ascii.eqb_eq in Ec. subst c. exact Hfl.
Qed.

Lemma endsWith_single (c : ascii) (s : str) :
  Js.endsWith [c] (s ++ [c]) = true.
Proof. apply (endsWith_app [c] s). Qed.

Lemma singularize_plural (k : str) :
  singularize (k ++ "s") = k.
Proof.
  unfold singularize. rewrite (endsWith_app "s" k).
  exact (dropEnd_app k "s").
Qed.

(** X4: a field key and its plural name one component table: the table
    of [k ++ "s"] is the table of [k]. *)
Theorem buildComponentTableName_plural (parentModel k : str)
    (config : SchemaBuilderConfig) :
  Js.endsWith "s" k = false ->
  buildComponentTableName parentModel (k ++ "s") config
  = buildComponentTableName parentModel k config.
Proof.
  intros H. unfold buildComponentTableName.
  rewrite singularize_plural. unfold singularize. now rewrite H.
Qed.

Lemma buildComponentTableName_plural_witness :
  Js.endsWith "s" "block" = false
  /\ buildComponentTableName "Page" ("block" ++ "s") Samples.plain
     = buildComponentTableName "Page" "block" Samples.plain.
Proof.
  split; [reflexivity|].
  apply buildComponentTableName_plural. reflexivity.
Defined.

(** ** Layout of the tables of a model *)

Lemma flatMapR_app A B (f : A -> result (list B)) xs1 xs2 ys :
  flatMapR f (xs1 ++ xs2) = Ok ys ->
  exists ys1 ys2,
    ys = ys1 ++ ys2 /\ flatMapR f xs1 = Ok ys1 /\ flatMapR f xs2 = Ok ys2.
Proof.
  revert ys. induction xs1 as [|x xs1 IH]; intros ys H.
  - exists [], ys. auto.
  - simpl in H. destruct (f x) as [cols|] eqn:Ex; [|discriminate].
    simpl in H.
    destruct (flatMapR f (xs1 ++ xs2)) as [zs|] eqn:Ez; [|discriminate].
    simpl in H. injection H as <-.
    destruct (IH zs eq_refl) as (ys1 & ys2 & -> & E1 & E2).
    exists (cols ++ ys1), ys2. simpl. rewrite Ex, E1. simpl.
    now rewrite app_assoc.
Qed.

(** The fields [buildModel] translates for the base table. *)
Lemma buildModel_base (model : ModelConfig) (config : SchemaBuilderConfig)
    (tables : list PrismaModel) :
  buildModel model config = Ok tables ->
  exists rest mapped,
    flatMapR (fun f => mapFieldToPrisma f config)
      (if i18nEnabled config
       then filter staysOnBase (m_fields model)
       else filter staysOnBase (m_fields model)
            ++ filter isTranslatableContent (m_fields model))
    = Ok mapped
    /\ tables
       = {| pm_name := buildModelName (m_slug model) config;
            pm_fields :=
              [buildIdField] ++ mapped ++ buildTimestampFields
              ++ flat_map (componentReference
                             (buildModelName (m_slug model) config) config)
                          (filter isComponentType (m_fields model))
              ++ (if i18nEnabled config
                     && existsb isTranslatableContent (m_fields model)
                  then [buildTranslationRelation
                          (buildModelName (m_slug model) config)]
                  else []);
            pm_indexes :=
              Some (buildIndexes (m_fields model) (m_settings model));
            pm_unique := None;
            pm_map := None |} :: rest.
Proof.
  unfold buildModel. intros H.
  pose proof (hasTranslation_spec config (m_fields model)) as Hh.
  rewrite Hh in H. clear Hh.
  rewrite separateFields_components in H.
  rewrite separateFields_nonTranslatable, separateFields_translatable in H.
  fold staysOnBase in H.
  destruct (flatMapR (fun f => mapFieldToPrisma f config) _)
    as [mapped|] eqn:Em; [|discriminate].
  cbn [bind] in H.
  destruct (i18nEnabled config
            && existsb isTranslatableContent (m_fields model)) eqn:Et.
  - destruct (buildTranslationModel _ _ config) as [tr|]; [|discriminate].
    cbn [bind] in H. injection H as <-.
    eexists _, mapped. split; reflexivity.
  - injection H as <-.
    eexists _, mapped. split; reflexivity.
Qed.

(** X5: the columns of the base table, in order: the identifier, the
    fields that are no translatable content in declaration order, then
    (without i18n) the translatable ones, the two timestamps, one
    reference per component field and, with a translation table, the
    link to it. *)
Theorem buildModel_base_layout (model : ModelConfig)
    (config : SchemaBuilderConfig) (tables : list PrismaModel) :
  buildModel model config = Ok tables ->
  exists base rest kept moved,
    tables = base :: rest
    /\ pm_name base = buildModelName (m_slug model) config
    /\ pm_fields base
       = [buildIdField] ++ kept ++ moved ++ buildTimestampFields
         ++ flat_map (componentReference (pm_name base) config)
                     (filter isComponentType (m_fields model))
         ++ (if i18nEnabled config
                && existsb isTranslatableContent (m_fields model)
             then [buildTranslationRelation (pm_name base)] else [])
    /\ Forall2 (columnOf config) (filter staysOnBase (m_fields model)) kept
    /\ Forall2 (columnOf config)
         (if i18nEnabled config then []
          else filter isTranslatableContent (m_fields model)) moved
    /\ pm_unique base = None /\ pm_map base = None.
Proof.
  intros H. destruct (buildModel_base _ _ H) as (rest & mapped & Em & ->).
  assert (Hsplit : exists kept moved,
             mapped = kept ++ moved
             /\ Forall2 (columnOf config)
                  (filter staysOnBase (m_fields model)) kept
             /\ Forall2 (columnOf config)
                  (if i18nEnabled config then []
                   else filter isTranslatableContent (m_fields model))
                  moved).
  { destruct (i18nEnabled config).
    - exists mapped, []. rewrite app_nil_r.
      split; [reflexivity|]. split; [now apply flatMapR_columns|constructor].
    - apply flatMapR_app in Em as (k & mv & -> & Ek & Emv).
      exists k, mv. split; [reflexivity|].
      split; now apply flatMapR_columns. }
  destruct Hsplit as (kept & moved & -> & Hk & Hm).
  eexists _, rest, kept, moved. split; [reflexivity|].
  cbn [pm_name pm_fields pm_unique pm_map].
  rewrite <- !app_assoc. repeat split; auto.
Qed.

Lemma buildModel_base_layout_witness :
  exists base rest,
    buildModel Samples.article Samples.plain = Ok (base :: rest)
    /\ map name (pm_fields base)
       = ["id"; "views"; "title"; "created_at"; "updated_at"].
Proof.
  destruct (@buildModel_base_layout Samples.article Samples.plain _ eq_refl)
    as (base & rest & kept & moved & E & _).
  exists base, rest. injection E as <- <-. split; reflexivity.
Defined.

(** A replacement without dollar sign is inserted as it is. *)
Lemma substitute_plain (matched before after rep : str) :
  forallb (notChar "$"%char) rep = true ->
  substitute matched before after rep = rep.
Proof.
  induction rep as [|c rep IH]; [reflexivity|]. cbn [forallb].
  intros H. apply andb_true_iff in H as [Hc Hrep].
  unfold notChar in Hc. apply negb_true_iff in Hc.
  cbn [substitute]. rewrite Hc. now rewrite (IH Hrep).
Qed.

Lemma replaceFirst_identifier (rep : str) :
  forallb (notChar "$"%char) rep = true ->
  replaceFirst "${identifier}" rep "${identifier}_translation"
  = rep ++ "_translation".
Proof.
  intros H. unfold replaceFirst.
  cbn [replaceFrom Js.startsWith Ascii.eqb Bool.eqb andb length skipn].
  now rewrite substitute_plain.
Qed.

(** X6: the translation table of a model: identifier, foreign key to the
    base table, language, one column per translatable field in
    declaration order, and the relation to the base table, deleted with
    it; one row per (base row, language).  Its physical name is the
    naming pattern with the first [${identifier}] replaced by the
    snake-cased name of the base table, read as a replacement text (a
    dollar sign in it is a pattern of [String.replace]); for the default
    pattern and a name without dollar sign that is the snake-cased name
    followed by [_translation]. *)
Theorem buildModel_translation_layout (model : ModelConfig)
    (config : SchemaBuilderConfig) (base tr : PrismaModel)
    (rest : list PrismaModel) :
  buildModel model config = Ok (base :: tr :: rest) ->
  let fk := Naming.toSnakeCase (pm_name base) ++ "_id" in
  rest = []
  /\ pm_name tr = pm_name base ++ "Translation"
  /\ (exists cols,
        pm_fields tr
        = [buildIdField; field fk "String"; field "lang" "String"]
          ++ cols
          ++ [withRelation (fkRelation fk "Cascade")
                (field (Naming.toSnakeCase (pm_name base)) (pm_name base))]
        /\ Forall2 (columnOf config)
             (filter isTranslatableContent (m_fields model)) cols)
  /\ pm_unique tr = Some [[fk; "lang"]]
  /\ pm_indexes tr = None
  /\ pm_map tr
     = Some (replaceFirst "${identifier}" (Naming.toSnakeCase (pm_name base))
                          (i18nTableNaming config))
  /\ (i18nTableNaming config = "${identifier}_translation" ->
      forallb (notChar "$"%char) (Naming.toSnakeCase (pm_name base)) = true ->
      pm_map tr
      = Some (Naming.toSnakeCase (pm_name base) ++ "_translation")).
Proof.
  unfold buildModel. intros H.
  destruct (flatMapR _ _) as [mapped|]; [|discriminate].
  cbn [bind] in H.
  destruct (hasTranslation config (separateFields (m_fields model)));
    [|discriminate].
  unfold buildTranslationModel in H.
  rewrite separateFields_translatable in H.
  destruct (flatMapR (fun f => mapFieldToPrisma f config)
              (filter isTranslatableContent (m_fields model)))
    as [cols|] eqn:Ec; [|discriminate].
  cbn [bind] in H. injection H as <- <- <-.
  cbn [pm_name pm_fields pm_unique pm_indexes pm_map].
  repeat split; auto.
  - exists cols. split; [reflexivity | now apply flatMapR_columns].
  - intros -> Hplain. now rewrite replaceFirst_identifier.
Qed.

Lemma buildModel_translation_layout_witness :
  (exists base tr,
     buildModel Samples.article Samples.withI18n = Ok [base; tr]
     /\ pm_unique tr = Some [["article_id"; "lang"]]
     /\ pm_map tr = Some "article_translation")
  /\ (exists base tr,
        buildModel Samples.article Cases.dollars = Ok [base; tr]
        /\ pm_name base = "$$Article"
        /\ pm_map tr = Some "$_article_translation").
Proof.
  split.
  - eexists _, _. split; [reflexivity|].
    destruct (@buildModel_translation_layout Samples.article
                Samples.withI18n _ _ _ eq_refl)
      as (_ & _ & _ & Hu & _ & _ & Hm).
    split; [exact Hu | exact (Hm eq_refl eq_refl)].
  - eexists _, _. split; [reflexivity|]. split; [reflexivity|].
    destruct (@buildModel_translation_layout Samples.article Cases.dollars
                _ _ _ eq_refl) as (_ & _ & _ & _ & _ & Hm & _).
    exact Hm.
Defined.

(** X7: the reference column a component field gets on the base table
    names the table the generator builds for that field. *)
Theorem component_reference_resolves (model : ModelConfig)
    (config : SchemaBuilderConfig) (base : PrismaModel)
    (rest : list PrismaModel) (f : FieldDefinition) (slug : str)
    (repeatable : bool) (context : option ComponentContext)
    (component : ComponentEntity) (table : PrismaModel) :
  buildModel model config = Ok (base :: rest) ->
  In f (m_fields model) -> isComponentType f = true ->
  fd_config f = Some (ComponentConfig slug repeatable context) ->
  buildComponentTable (ownerName (base :: rest)) (fd_key f) component
                      repeatable config context = Ok table ->
  In (withOptional true
        (withList repeatable (field (fd_key f) (pm_name table))))
     (pm_fields base).
Proof.
  intros Hb Hin Hc Hcfg Ht.
  assert (Hn : pm_name table
               = buildComponentTableName (pm_name base) (fd_key f) config).
  { unfold buildComponentTable in Ht. cbn [ownerName] in Ht.
    destruct (separateComponentFields (c_fields component)) as [t n].
    destruct (flatMapR _ _); [|discriminate].
    cbn [bind] in Ht. now injection Ht as <-. }
  destruct (buildModel_base _ _ Hb) as (r & mapped & _ & E).
  injection E as Eb _. subst base. cbn [pm_name] in Hn. rewrite Hn.
  cbn [pm_fields app]. right. apply in_or_app. right. right. right.
  apply in_or_app. left.
  apply in_flat_map. exists f. split.
  - apply filter_In. now split.
  - unfold componentReference. rewrite Hcfg. now left.
Qed.

Lemma component_reference_resolves_witness :
  exists base table,
    buildModel Cases.page Samples.plain = Ok [base]
    /\ buildComponentTable "Page" "seo" Samples.seo false Samples.plain None
       = Ok table
    /\ In (withOptional true (withList false (field "seo" (pm_name table))))
          (pm_fields base).
Proof.
  eexists _, _. split; [reflexivity|]. split; [reflexivity|].
  refine (@component_reference_resolves Cases.page Samples.plain _ []
            Cases.seoField "seo" false None Samples.seo _ eq_refl _ eq_refl
            eq_refl eq_refl).
  now left.
Defined.

(** ** Indexes of the base table *)

(** X8: the indexes [buildIndexes] declares: one on the sort field when
    the settings name one, and the pair (status, published_at) when the
    model has fields with both keys; the sort field is not looked up
    among the fields. *)
Theorem buildIndexes_spec (fields : list FieldDefinition)
    (settings : option ModelSettings) (ix : list str) :
  In ix (buildIndexes fields settings) <->
  (exists st c s,
     settings = Some st /\ sortField st = Some (c :: s) /\ ix = [c :: s])
  \/ (ix = ["status"; "published_at"]
      /\ hasKey "status" fields = true
      /\ hasKey "published_at" fields = true).
Proof.
  unfold buildIndexes.
  set (bySort := match settings with
                 | Some {| sortField := Some (c :: s) |} => [[c :: s]]
                 | _ => []
                 end).
  assert (Hsort : In ix bySort <->
                  exists st c s, settings = Some st
                                 /\ sortField st = Some (c :: s)
                                 /\ ix = [c :: s]).
  { unfold bySort. destruct settings as [[i [[|c s]|]]|]; simpl; split;
      try (intros []; fail);
      try (intros (st & c' & s' & E & Es & _); try discriminate;
           injection E as <-; discriminate).
    - intros [<-|[]]. now eexists _, c, s.
    - intros (st & c' & s' & E & Es & ->). injection E as <-.
      simpl in Es. injection Es as <- <-. now left. }
  destruct (hasKey "status" fields && hasKey "published_at" fields) eqn:E.
  - apply andb_true_iff in E as [E1 E2]. rewrite in_app_iff, Hsort.
    split; (intros [H|H]; [now left|right]).
    + destruct H as [<-|[]]. auto.
    + destruct H as (-> & _). now left.
  - rewrite Hsort. split; [now left|]. intros [H|(_ & E1 & E2)]; [exact H|].
    rewrite E1, E2 in E. discriminate.
Qed.

Lemma hasKey_In (k : str) (fields : list FieldDefinition) :
  hasKey k fields = true -> exists f, In f fields /\ fd_key f = k.
Proof.
  unfold hasKey. intros H. apply existsb_exists in H as (f & Hin & E).
  apply eqb_eq in E. now exists f.
Qed.

Lemma mapFieldToPrisma_plain f config :
  Js.includes (fd_type f) plainKinds = true ->
  exists col,
    mapFieldToPrisma f config = Ok [col]
    /\ name col = fd_key f /\ list_ col = false
    /\ optional col = negb (fd_required f)
    /\ isComponentType f = false /\ isRelationType f = false.
Proof.
  intros H. apply includes_In in H. unfold isComponentType, isRelationType.
  simpl in H.
  destruct H as [E|[E|[E|[E|[E|[E|[E|[]]]]]]]]; rewrite <- E;
    unfold mapFieldToPrisma; rewrite <- E; cbn [Js.eqb Ascii.eqb Bool.eqb andb];
    eexists; (split; [reflexivity|]); repeat split;
    try reflexivity.
  unfold mapSelectField. now destruct (fd_config f) as [[| | | |[]| | | | |]|].
  unfold mapSelectField. now destruct (fd_config f) as [[| | | |[]| | | | |]|].
  unfold mapSelectField. now destruct (fd_config f) as [[| | | |[]| | | | |]|].
Qed.

(** X9: without i18n, when the sort field is the key of a field and the
    indexed fields are of plain kinds, every column an index of the base
    table names is a column of that table. *)
Theorem buildModel_index_columns (model : ModelConfig)
    (config : SchemaBuilderConfig) (base : PrismaModel)
    (rest : list PrismaModel) (ix : list str) (column : str) :
  buildModel model config = Ok (base :: rest) ->
  i18nEnabled config = false ->
  sortFieldDeclared model = true ->
  indexedFieldsPlain model = true ->
  In ix (nonEmptyRows (pm_indexes base)) -> In column ix ->
  exists col, In col (pm_fields base) /\ name col = column.
Proof.
  intros Hb Hi Hs Hp Hix Hcol.
  destruct (buildModel_base _ _ Hb) as (r & mapped & Em & E).
  injection E as Eb _. subst base. cbn [pm_indexes nonEmptyRows] in Hix.
  rewrite Hi in Em. cbn [pm_fields].
  assert (Hkey : hasKey column (m_fields model) = true).
  { apply buildIndexes_spec in Hix
      as [(st & c & s & Est & Es & ->)|(-> & H1 & H2)].
    - destruct Hcol as [<-|[]]. unfold sortFieldDeclared in Hs.
      rewrite Est in Hs. destruct st as [i sf]. simpl in Es. subst sf.
      exact Hs.
    - destruct Hcol as [<-|[<-|[]]]; assumption. }
  apply hasKey_In in Hkey as (f & Hf & Ek).
  assert (Hplain : Js.includes (fd_type f) plainKinds = true).
  { unfold indexedFieldsPlain in Hp. rewrite forallb_forall in Hp.
    specialize (Hp f Hf). apply orb_true_iff in Hp as [Hn|Hn]; [|exact Hn].
    apply negb_true_iff in Hn.
    assert (Hc : Js.includes (fd_key f) (indexedColumns model) = true).
    { apply includes_In. unfold indexedColumns. apply in_concat.
      exists ix. split; [exact Hix | now rewrite Ek]. }
    rewrite Hc in Hn. discriminate. }
  destruct (mapFieldToPrisma_plain f config Hplain)
    as (col & Ecol & En & _ & _ & Hnc & Hnr).
  assert (Hinc : In f (filter staysOnBase (m_fields model)
                       ++ filter isTranslatableContent (m_fields model))).
  { apply in_or_app. unfold staysOnBase.
    destruct (isTranslatableContent f) eqn:Et.
    - right. apply filter_In. now split.
    - left. apply filter_In. split; [exact Hf|]. cbv beta.
      now rewrite Hnc, Et. }
  destruct (flatMapR_Ok_In _ _ Em f Hinc) as (cols & Ec & Hincl).
  rewrite Ecol in Ec. injection Ec as <-.
  exists col. split; [|now rewrite En].
  right. apply in_or_app. left. apply Hincl. now left.
Qed.

Lemma buildModel_index_columns_witness :
  exists base,
    buildModel Cases.newsItem Samples.plain = Ok [base]
    /\ pm_indexes base
       = Some [["published_at"]; ["status"; "published_at"]]
    /\ exists col, In col (pm_fields base) /\ name col = "status".
Proof.
  eexists. split; [reflexivity|]. split; [reflexivity|].
  refine (@buildModel_index_columns Cases.newsItem Samples.plain _ []
            ["status"; "published_at"] "status" eq_refl eq_refl eq_refl
            eq_refl _ _).
  - right. now left.
  - now left.
Defined.

(** ** Relation columns and junction tables *)

(** X10: the column of a relation field: a scalar foreign key [<key>_id],
    unique for a one-to-one relation, or a list of the target model for
    the to-many relations, which is always optional; no [@relation]
    attribute is attached. *)
Theorem mapRelationField_column (f : FieldDefinition)
    (config : SchemaBuilderConfig) (relationType targetModel cascade : str)
    (cols : list PrismaField) :
  fd_config f = Some (RelationConfig relationType targetModel cascade) ->
  mapRelationField f config = Ok cols ->
  exists col,
    cols = [col]
    /\ relation col = None /\ default col = None
    /\ (list_ col = true
        <-> relationType = "oneToMany" \/ relationType = "manyToMany")
    /\ (list_ col = true ->
        name col = fd_key f /\ type col = toModelName targetModel config
        /\ optional col = true)
    /\ (list_ col = false ->
        name col = fd_key f ++ "_id" /\ type col = "String"
        /\ optional col = negb (fd_required f))
    /\ (attributes col = Some ["@unique"] <-> relationType = "oneToOne").
Proof.
  intros Hc. unfold mapRelationField. rewrite Hc.
  destruct (Js.eqb relationType "oneToOne") eqn:E1.
  { apply eqb_eq in E1. subst. intros H. injection H as <-.
    eexists. split; [reflexivity|]. simpl.
    repeat split; auto; try discriminate.
    intros [H|H]; discriminate. }
  destruct (Js.eqb relationType "manyToOne") eqn:E2.
  { apply eqb_eq in E2. subst. intros H. injection H as <-.
    eexists. split; [reflexivity|]. simpl.
    repeat split; auto; try discriminate.
    intros [H|H]; discriminate. }
  apply eqb_neq in E1.
  destruct (Js.eqb relationType "oneToMany") eqn:E3.
  { apply eqb_eq in E3. subst. intros H. injection H as <-.
    eexists. split; [reflexivity|]. simpl.
    repeat split; auto; try discriminate. }
  destruct (Js.eqb relationType "manyToMany") eqn:E4; [|discriminate].
  apply eqb_eq in E4. subst. intros H. injection H as <-.
  eexists. split; [reflexivity|]. simpl.
  repeat split; auto; try discriminate.
Qed.

Lemma mapRelationField_column_witness :
  exists col,
    mapRelationField (Samples.manyToMany "categories" "category")
                     Samples.plain = Ok [col]
    /\ name col = "categories" /\ type col = "Category"
    /\ optional col = true.
Proof.
  destruct (@mapRelationField_column
              (Samples.manyToMany "categories" "category") Samples.plain
              "manyToMany" "category" "restrict" _ eq_refl eq_refl)
    as (col & E & _ & _ & Hl & Hcol & _).
  exists col. injection E as <-. split; [reflexivity|].
  apply Hcol. reflexivity.
Defined.

(** X11: a junction table is built for every field with a relation config,
    whatever its relation type; its rows go with the target row, and
    with the owner row only when the field says [cascade]: every other
    policy, [setNull] too, restricts the deletion of the owner. *)
Theorem buildJunctionTable_policy (fromModel : str) (f : FieldDefinition)
    (config : SchemaBuilderConfig) :
  (isOk (buildJunctionTable fromModel f config) = true
   <-> exists relationType targetModel cascade,
         fd_config f = Some (RelationConfig relationType targetModel cascade))
  /\ forall relationType targetModel cascade,
       fd_config f = Some (RelationConfig relationType targetModel cascade) ->
       exists table ownerSide targetSide ownerEdge targetEdge,
         buildJunctionTable fromModel f config = Ok table
         /\ length (pm_fields table) = 7
         /\ nth_error (pm_fields table) 5 = Some ownerSide
         /\ nth_error (pm_fields table) 6 = Some targetSide
         /\ type ownerSide = fromModel
         /\ type targetSide = Naming.toPascalCase targetModel
         /\ relation ownerSide = Some ownerEdge
         /\ relation targetSide = Some targetEdge
         /\ r_onDelete targetEdge = Some "Cascade"
         /\ (r_onDelete ownerEdge = Some "Cascade" <-> cascade = "cascade")
         /\ (cascade <> "cascade" -> r_onDelete ownerEdge = Some "Restrict")
         /\ pm_indexes table
            = Some [[Naming.toSnakeCase fromModel ++ "_id"];
                    [Naming.toSnakeCase (Naming.toPascalCase targetModel)
                     ++ "_id"]].
Proof.
  split.
  - unfold buildJunctionTable.
    destruct (fd_config f) as [[| | | | | | |rt tm c| |]|]; simpl;
      split; try discriminate;
      try (intros (rt' & tm' & c' & E); discriminate); try reflexivity.
    intros _. now eexists _, _, _.
  - intros rt tm c Hc. unfold buildJunctionTable. rewrite Hc.
    do 5 eexists. split; [reflexivity|]. cbn.
    repeat split; try reflexivity.
    + destruct (Js.eqb c "cascade") eqn:E; [intros _; now apply eqb_eq|].
      discriminate.
    + intros ->. reflexivity.
    + intros Hn. apply eqb_neq in Hn. now rewrite Hn.
Qed.

Lemma buildJunctionTable_policy_witness :
  exists table ownerSide ownerEdge,
    buildJunctionTable "Post"
      (Samples.mkField "tags" "relation"
         (Some (RelationConfig "manyToMany" "tag" "setNull")) false None)
      Samples.plain = Ok table
    /\ nth_error (pm_fields table) 5 = Some ownerSide
    /\ relation ownerSide = Some ownerEdge
    /\ r_onDelete ownerEdge = Some "Restrict".
Proof.
  destruct (proj2 (@buildJunctionTable_policy "Post"
              (Samples.mkField "tags" "relation"
                 (Some (RelationConfig "manyToMany" "tag" "setNull"))
                 false None) Samples.plain)
              "manyToMany" "tag" "setNull" eq_refl)
    as (table & o & t & oe & te & E & _ & Ho & _ & _ & _ & Hr & _ & _ & _
        & Hres & _).
  exists table, o, oe. repeat split; auto. apply Hres. discriminate.
Defined.

(** ** The run as a whole *)

Lemma emitTables_app seen a : forall b,
  emitTables seen (a ++ b)
  = (fst (emitTables seen a)
     ++ fst (emitTables (snd (emitTables seen a)) b),
     snd (emitTables (snd (emitTables seen a)) b)).
Proof.
  revert seen. induction a as [|[o t] a IH]; intros seen b.
  - simpl. now destruct (emitTables seen b).
  - simpl. destruct (isJunctionOrigin o).
    + destruct (Js.includes (pm_name t) seen); [apply IH|].
      rewrite IH. destruct (emitTables (seen ++ [pm_name t]) a). reflexivity.
    + rewrite IH. destruct (emitTables seen a). reflexivity.
Qed.

Lemma advances_refl st : advances st [] [] st.
Proof. unfold advances. simpl. now rewrite !app_nil_r. Qed.

Lemma advances_trans st r1 w1 st1 r2 w2 st2 :
  advances st r1 w1 st1 -> advances st1 r2 w2 st2 ->
  advances st (r1 ++ r2) (w1 ++ w2) st2.
Proof.
  unfold advances. intros (Hp1 & Hj1 & Hw1) (Hp2 & Hj2 & Hw2).
  rewrite emitTables_app. simpl. rewrite Hp2, Hj2, Hw2, Hp1, Hj1, Hw1.
  now rewrite !app_assoc.
Qed.

Lemma advances_pushModel o t st :
  isJunctionOrigin o = false -> advances st [(o, t)] [] (pushModel o t st).
Proof.
  intros H. unfold advances. simpl. rewrite H. simpl.
  now rewrite app_nil_r.
Qed.

Lemma advances_pushWarning w st : advances st [] [w] (pushWarning w st).
Proof. unfold advances. simpl. now rewrite app_nil_r. Qed.

Lemma advances_emitJunction owner config f st st' :
  emitJunction owner config f st = Ok st' ->
  advances st (map (pair FromJunction) (junctionRequest owner config f))
           [] st'.
Proof.
  unfold emitJunction, junctionRequest.
  destruct (needsJunctionTable f);
    [|intros H; injection H as <-; apply advances_refl].
  destruct (buildJunctionTable owner f config) as [t|]; [|discriminate].
  cbn [bind map]. unfold advances. simpl.
  destruct (Js.includes (pm_name t) (junctionTables st)); simpl;
    intros H; injection H as <-; simpl; now rewrite ?app_nil_r.
Qed.

Lemma junctionRequest_noConfig f owner config :
  (forall rt tm c, fd_config f <> Some (RelationConfig rt tm c)) ->
  junctionRequest owner config f = [].
Proof.
  intros H. unfold junctionRequest, needsJunctionTable.
  destruct (fd_config f) as [[| | | | | | |rt tm c| |]|]; try reflexivity.
  now destruct (H rt tm c).
Qed.

Lemma advances_processField owner slug comps config f st st' :
  processField owner slug comps config f st = Ok st' ->
  advances st (fieldRequests owner comps config f)
           (missingComponentWarning comps slug f) st'.
Proof.
  unfold processField, fieldRequests, componentRequests,
    missingComponentWarning.
  destruct (isComponentType f) eqn:Ec.
  2:{ intros H. apply advances_emitJunction in H.
      now destruct (fd_config f) as [[]|]. }
  destruct (fd_config f) as [[| | | | | | | |cslug repeatable context|]|]
    eqn:Ecfg;
    try (intros H; now apply advances_emitJunction in H).
  rewrite (@junctionRequest_component f owner config cslug repeatable context
             Ecfg).
  cbn [map]. rewrite app_nil_r.
  destruct (Map_get comps cslug) as [component|].
  2:{ intros H. injection H as <-. apply advances_pushWarning. }
  destruct (buildComponentTable owner (fd_key f) component repeatable config
                                context) as [t|]; [|discriminate].
  cbn [bind].
  pose proof (@advances_pushModel FromComponent t st eq_refl) as H1.
  destruct (i18nEnabled config).
  - destruct (buildComponentTranslationTable owner (fd_key f) component
                                             config) as [[tr|]|];
      [| |discriminate]; cbn [bind]; intros H;
      apply advances_emitJunction in H;
      rewrite (@junctionRequest_component f owner config cslug repeatable
                 context Ecfg) in H; cbn [map] in H.
    + pose proof (@advances_pushModel FromComponentTranslation tr
                    (pushModel FromComponent t st) eq_refl) as H2.
      pose proof (advances_trans (advances_trans H1 H2) H) as H3.
      now rewrite !app_nil_r in H3.
    + pose proof (advances_trans H1 H) as H3.
      now rewrite !app_nil_r in H3.
  - cbn [bind]. intros H. apply advances_emitJunction in H.
    rewrite (@junctionRequest_component f owner config cslug repeatable
               context Ecfg) in H. cbn [map] in H.
    pose proof (advances_trans H1 H) as H3.
    now rewrite !app_nil_r in H3.
Qed.

Lemma advances_processFields owner slug comps config fields : forall st st',
  processFields owner slug comps config fields st = Ok st' ->
  advances st (flat_map (fieldRequests owner comps config) fields)
           (flat_map (missingComponentWarning comps slug) fields) st'.
Proof.
  induction fields as [|f fields IH]; intros st st' H.
  - injection H as <-. apply advances_refl.
  - simpl in H.
    destruct (processField owner slug comps config f st) as [st1|] eqn:E1;
      [|discriminate].
    simpl in H. apply advances_processField in E1.
    exact (advances_trans E1 (IH _ _ H)).
Qed.

Lemma dropDerived_spec slug fields : forall st,
  fst (dropDerived slug fields st)
  = filter (fun f => negb (fd_derived f)) fields
  /\ advances st [] (map (derivedWarning slug) (filter fd_derived fields))
              (snd (dropDerived slug fields st)).
Proof.
  induction fields as [|f fields IH]; intros st.
  - split; [reflexivity | apply advances_refl].
  - cbn [dropDerived filter]. destruct (fd_derived f); cbn [negb].
    + destruct (IH (pushWarning
                      ("Skipped derived field " ++ dq ++ fd_key f ++ dq
                       ++ " in model " ++ dq ++ slug ++ dq) st))
        as [Hk Ha].
      split; [exact Hk|].
      exact (advances_trans (advances_pushWarning _ st) Ha).
    + destruct (IH st) as [Hk Ha].
      destruct (dropDerived slug fields st) as [kept st1].
      simpl in *. split; [now rewrite Hk | exact Ha].
Qed.

Lemma advances_pushGenerated generated : forall st,
  advances st (map (pair FromModel) generated) []
           (fold_left (fun st t => pushModel FromModel t st) generated st).
Proof.
  induction generated as [|t generated IH]; intros st.
  - apply advances_refl.
  - exact (advances_trans (@advances_pushModel FromModel t st eq_refl)
                          (IH _)).
Qed.

Lemma advances_processModel comps config model st st' :
  processModel comps config model st = Ok st' ->
  advances st (modelRequests comps config model) (modelWarnings comps model)
           st'.
Proof.
  unfold processModel, modelRequests, modelWarnings.
  destruct (dropDerived_spec (m_slug model) (m_fields model) st) as [Hk Hd].
  destruct (dropDerived (m_slug model) (m_fields model) st) as [kept st1].
  simpl in Hk, Hd. subst kept. fold (withoutDerived model).
  destruct (buildModel (withoutDerived model) config) as [generated|] eqn:Eg;
    [|discriminate].
  cbn [bind]. intros H.
  rewrite (buildModel_ownerName _ _ Eg) in H.
  change (m_slug (withoutDerived model)) with (m_slug model) in H.
  apply advances_processFields in H.
  pose proof (advances_trans Hd
                (advances_trans (advances_pushGenerated generated st1) H))
    as H3.
  exact H3.
Qed.

Lemma advances_compileModels comps config models : forall st st',
  compileModels comps config models st = Ok st' ->
  advances st (flat_map (modelRequests comps config) models)
           (flat_map (modelWarnings comps) models) st'.
Proof.
  induction models as [|m models IH]; intros st st' H.
  - injection H as <-. apply advances_refl.
  - simpl in H.
    destruct (processModel comps config m st) as [st1|] eqn:E1;
      [|discriminate].
    simpl in H. apply advances_processModel in E1.
    exact (advances_trans E1 (IH _ _ H)).
Qed.

(** X12: the tables of a run, in output order: model by model the base
    table and its translation table, built from the fields that are not
    derived, then field by field (derived ones too) the component table,
    its translation table and the junction table; only junction tables
    are skipped when their name was emitted before. *)
Theorem generate_tables (comps : ComponentMap) (config : SchemaBuilderConfig)
    (models : list ModelConfig) (st : GenState) :
  compileModels comps config models initialState = Ok st ->
  prismaModels st
  = fst (emitTables [] (flat_map (modelRequests comps config) models))
  /\ junctionTables st
     = snd (emitTables [] (flat_map (modelRequests comps config) models)).
Proof.
  intros H. apply advances_compileModels in H as (Hp & Hj & _).
  split; assumption.
Qed.

Lemma generate_tables_witness :
  exists st,
    compileModels [("seo", Samples.seo)] Samples.withI18n [Cases.page]
                  initialState = Ok st
    /\ map (fun p => pm_name (snd p)) (prismaModels st)
       = ["Page"; "PageSeo"; "PageSeoTranslation"].
Proof.
  destruct (compileModels [("seo", Samples.seo)] Samples.withI18n
              [Cases.page] initialState) as [st|] eqn:E;
    [|vm_compute in E; discriminate].
  exists st. split; [reflexivity|].
  rewrite (proj1 (generate_tables _ _ _ E)). reflexivity.
Defined.

(** X13: the warnings of a run, in order: model by model one warning per
    derived field, then one per component field whose component is not
    among the components read. *)
Theorem generate_warnings (comps : ComponentMap)
    (config : SchemaBuilderConfig) (models : list ModelConfig)
    (st : GenState) :
  compileModels comps config models initialState = Ok st ->
  warnings st = flat_map (modelWarnings comps) models.
Proof.
  intros H. now apply advances_compileModels in H as (_ & _ & Hw).
Qed.

Lemma generate_warnings_witness :
  exists st,
    compileModels [] Samples.plain [Cases.page] initialState = Ok st
    /\ warnings st
       = ["Component " ++ dq ++ "seo" ++ dq ++ " not found for field " ++ dq
          ++ "seo" ++ dq ++ " in model " ++ dq ++ "page" ++ dq]
    /\ map (fun p => pm_name (snd p)) (prismaModels st) = ["Page"].
Proof.
  destruct (compileModels [] Samples.plain [Cases.page] initialState)
    as [st|] eqn:E; [|vm_compute in E; discriminate].
  exists st. split; [reflexivity|].
  rewrite (generate_warnings _ _ _ E).
  split; [reflexivity|]. vm_compute in E. injection E as <-. reflexivity.
Defined.

(** ** Runs that return *)

Lemma translates_isOk f config :
  translates f = true -> isOk (mapFieldToPrisma f config) = true.
Proof.
  unfold translates. intros H.
  apply andb_true_iff in H as [H Hc]. apply andb_true_iff in H as [Hv Hr].
  destruct (isComponentType f) eqn:Ec.
  - unfold componentConfigured in Hc. rewrite Ec in Hc.
    unfold isComponentType in Ec. apply eqb_eq in Ec.
    rewrite (mapFieldToPrisma_component _ config Ec).
    apply mapComponentField_isOk.
    destruct (fd_config f) as [[| | | | | | | |s r c|]|]; try discriminate.
    now eexists _, _, _.
  - now apply fieldValid_translates.
Qed.

Lemma buildModel_returns model config :
  (forall f, In f (m_fields model) -> isComponentType f = false ->
             isOk (mapFieldToPrisma f config) = true) ->
  exists tables, buildModel model config = Ok tables.
Proof.
  intros H. unfold buildModel.
  rewrite separateFields_nonTranslatable, separateFields_translatable.
  assert (Hn : forall f,
             In f (filter (fun f => negb (isComponentType f)
                                    && negb (isTranslatableContent f))
                          (m_fields model)) ->
             isOk (mapFieldToPrisma f config) = true).
  { intros f Hf. apply filter_In in Hf as [Hin Hp].
    apply andb_true_iff in Hp as [Hp _]. apply negb_true_iff in Hp. auto. }
  assert (Ht : forall f,
             In f (filter isTranslatableContent (m_fields model)) ->
             isOk (mapFieldToPrisma f config) = true).
  { intros f Hf. apply filter_In in Hf as [Hin Hp].
    apply isTranslatableContent_scalar in Hp as [Hp _]. auto. }
  assert (Hall : exists mapped,
             flatMapR (fun f => mapFieldToPrisma f config)
               (if i18nEnabled config
                then filter (fun f => negb (isComponentType f)
                                      && negb (isTranslatableContent f))
                            (m_fields model)
                else filter (fun f => negb (isComponentType f)
                                      && negb (isTranslatableContent f))
                            (m_fields model)
                     ++ filter isTranslatableContent (m_fields model))
             = Ok mapped).
  { apply flatMapR_total. intros f Hf. destruct (i18nEnabled config); auto.
    apply in_app_or in Hf as [Hf|Hf]; auto. }
  destruct Hall as [mapped ->]. cbn [bind].
  destruct (hasTranslation config _); [|now eexists].
  unfold buildTranslationModel.
  destruct (flatMapR_total (fun f => mapFieldToPrisma f config) _ Ht)
    as [cols ->].
  cbn [bind]. now eexists.
Qed.

Lemma buildComponentTable_returns parentModel fieldKey component repeatable
    config context :
  (forall f, In f (c_fields component) ->
             isOk (mapFieldToPrisma f config) = true) ->
  exists table,
    buildComponentTable parentModel fieldKey component repeatable config
                        context = Ok table.
Proof.
  intros H. unfold buildComponentTable.
  pose proof (separateComponentFields_In (c_fields component)) as Hin.
  destruct (separateComponentFields (c_fields component)) as [tr non].
  simpl in Hin.
  destruct (@flatMapR_total _ _ (fun f => mapFieldToPrisma f config)
              (if i18nEnabled config then non else non ++ tr)) as [m ->].
  { intros f Hf. apply H, Hin. destruct (i18nEnabled config); auto.
    apply in_app_or in Hf as [Hf|Hf]; auto. }
  cbn [bind]. now eexists.
Qed.

Lemma buildComponentTranslationTable_returns parentModel fieldKey component
    config :
  (forall f, In f (c_fields component) ->
             isOk (mapFieldToPrisma f config) = true) ->
  exists table,
    buildComponentTranslationTable parentModel fieldKey component config
    = Ok table.
Proof.
  intros H. unfold buildComponentTranslationTable.
  pose proof (separateComponentFields_In (c_fields component)) as Hin.
  destruct (separateComponentFields (c_fields component)) as [tr non].
  simpl in Hin. destruct (length tr =? 0); [now eexists|].
  destruct (@flatMapR_total _ _ (fun f => mapFieldToPrisma f config) tr)
    as [m ->].
  { intros f Hf. apply H, Hin. auto. }
  cbn [bind]. now eexists.
Qed.

Lemma emitJunction_returns owner config f st :
  exists st', emitJunction owner config f st = Ok st'.
Proof.
  unfold emitJunction. destruct (needsJunctionTable f) eqn:E; [|now eexists].
  apply needsJunctionTable_config in E as (tm & c & Ec & _).
  unfold buildJunctionTable. rewrite Ec. cbn [bind].
  destruct (negb _); now eexists.
Qed.

Lemma Map_get_In comps slug component :
  Map_get comps slug = Some component ->
  exists k, In (k, component) comps.
Proof.
  induction comps as [|[k v] comps IH]; [discriminate|]. simpl.
  destruct (Js.eqb slug k).
  - intros H. injection H as <-. exists k. now left.
  - intros H. destruct (IH H) as [k' Hk]. exists k'. now right.
Qed.

Lemma processField_returns owner slug comps config f st :
  forallb componentTranslates comps = true ->
  exists st', processField owner slug comps config f st = Ok st'.
Proof.
  intros Hc. unfold processField.
  destruct (isComponentType f); [|apply emitJunction_returns].
  destruct (fd_config f) as [[| | | | | | | |cslug repeatable context|]|];
    try apply emitJunction_returns.
  destruct (Map_get comps cslug) as [component|] eqn:Eg; [|now eexists].
  apply Map_get_In in Eg as [k Hk].
  rewrite forallb_forall in Hc. specialize (Hc _ Hk).
  unfold componentTranslates in Hc. simpl in Hc.
  rewrite forallb_forall in Hc.
  assert (Hf : forall g, In g (c_fields component) ->
                         isOk (mapFieldToPrisma g config) = true)
    by (intros g Hg; apply translates_isOk; auto).
  destruct (@buildComponentTable_returns owner (fd_key f) component
              repeatable config context Hf) as [t ->].
  cbn [bind]. destruct (i18nEnabled config).
  - destruct (@buildComponentTranslationTable_returns owner (fd_key f)
                component config Hf) as [[tr|] ->];
      cbn [bind]; apply emitJunction_returns.
  - cbn [bind]. apply emitJunction_returns.
Qed.

Lemma processFields_returns owner slug comps config fields : forall st,
  forallb componentTranslates comps = true ->
  exists st', processFields owner slug comps config fields st = Ok st'.
Proof.
  induction fields as [|f fields IH]; intros st Hc; [now eexists|].
  simpl. destruct (@processField_returns owner slug comps config f st Hc)
    as [st1 ->].
  cbn [bind]. now apply IH.
Qed.

Lemma processModel_returns comps config model st :
  modelTranslates model = true ->
  forallb componentTranslates comps = true ->
  exists st', processModel comps config model st = Ok st'.
Proof.
  intros Hm Hc. unfold processModel.
  destruct (dropDerived_spec (m_slug model) (m_fields model) st) as [Hk _].
  destruct (dropDerived (m_slug model) (m_fields model) st) as [kept st1].
  simpl in Hk. subst kept. fold (withoutDerived model).
  destruct (@buildModel_returns (withoutDerived model) config)
    as [generated ->].
  { intros f Hf Hcomp. simpl in Hf. apply filter_In in Hf as [Hin Hd].
    apply negb_true_iff in Hd.
    unfold modelTranslates in Hm. rewrite forallb_forall in Hm.
    specialize (Hm f Hin). rewrite Hd, Hcomp in Hm. simpl in Hm.
    now apply translates_isOk. }
  cbn [bind]. now apply processFields_returns.
Qed.

Lemma compileModels_returns comps config models : forall st,
  forallb modelTranslates models = true ->
  forallb componentTranslates comps = true ->
  exists st', compileModels comps config models st = Ok st'.
Proof.
  induction models as [|m models IH]; intros st Hm Hc; [now eexists|].
  simpl in Hm. apply andb_true_iff in Hm as [Hm Hms].
  simpl. destruct (@processModel_returns comps config m st Hm Hc) as [st1 ->].
  cbn [bind]. now apply IH.
Qed.

(** X14: a run returns when the fields it translates are valid and carry
    the config of their kind: the fields of the models that are neither
    derived nor components, and all fields of the components. *)
Theorem generate_returns (comps : ComponentMap)
    (config : SchemaBuilderConfig) (models : list ModelConfig) :
  forallb modelTranslates models = true ->
  forallb componentTranslates comps = true ->
  exists st, compileModels comps config models initialState = Ok st.
Proof. apply compileModels_returns. Qed.

Lemma generate_returns_witness :
  exists st,
    compileModels [("seo", Samples.seo)] Samples.withI18n
                  [Cases.page; Samples.post; Samples.category] initialState
    = Ok st.
Proof.
  exact (@generate_returns [("seo", Samples.seo)] Samples.withI18n
           [Cases.page; Samples.post; Samples.category] eq_refl eq_refl).
Defined.

(** ** References between the tables of a run *)

Lemma emitTables_keeps (o : Origin) (t : PrismaModel) requests : forall seen,
  In (o, t) requests -> isJunctionOrigin o = false ->
  In (o, t) (fst (emitTables seen requests)).
Proof.
  induction requests as [|[o' t'] requests IH]; intros seen Hin Ho; [easy|].
  simpl. destruct Hin as [E|Hin].
  - injection E as -> ->. rewrite Ho.
    destruct (emitTables seen requests). now left.
  - destruct (isJunctionOrigin o').
    + destruct (Js.includes (pm_name t') seen); [now apply IH|].
      specialize (IH (seen ++ [pm_name t']) Hin Ho).
      destruct (emitTables (seen ++ [pm_name t']) requests). now right.
    + specialize (IH seen Hin Ho).
      destruct (emitTables seen requests). now right.
Qed.

Lemma compileModels_builds comps config models : forall st st' m,
  compileModels comps config models st = Ok st' -> In m models ->
  exists generated, buildModel (withoutDerived m) config = Ok generated.
Proof.
  induction models as [|m0 models IH]; intros st st' m H Hin; [easy|].
  simpl in H.
  destruct (processModel comps config m0 st) as [st1|] eqn:E1;
    [|discriminate].
  simpl in H. destruct Hin as [<-|Hin]; [|now apply (IH _ _ _ H)].
  unfold processModel in E1.
  destruct (dropDerived_spec (m_slug m0) (m_fields m0) st) as [Hk _].
  destruct (dropDerived (m_slug m0) (m_fields m0) st) as [kept st2].
  simpl in Hk. subst kept. fold (withoutDerived m0) in E1.
  destruct (buildModel (withoutDerived m0) config) as [g|]; [|discriminate].
  now exists g.
Qed.

Lemma base_table_emitted comps config models st m tables :
  compileModels comps config models initialState = Ok st ->
  In m models -> buildModel (withoutDerived m) config = Ok tables ->
  forall t, In t tables -> In (FromModel, t) (prismaModels st).
Proof.
  intros H Hin Hb t Ht.
  apply advances_compileModels in H as (Hp & _). rewrite Hp. simpl.
  apply emitTables_keeps; [|reflexivity].
  apply in_flat_map. exists m. split; [exact Hin|].
  unfold modelRequests. rewrite Hb. apply in_or_app. left.
  now apply in_map.
Qed.

Lemma buildModelName_plain slug config :
  truthy (prefix config) = false ->
  buildModelName slug config = Naming.toPascalCase slug.
Proof.
  unfold buildModelName. now destruct (prefix config) as [[|c p]|].
Qed.

(** X15: under the PascalCase convention and without a prefix, the list
    column of a to-many relation whose target is a model of the run has
    as its type the name of the base table of that model, and both
    tables are in the output. *)
Theorem relation_target_exists (comps : ComponentMap)
    (config : SchemaBuilderConfig) (models : list ModelConfig)
    (st : GenState) (m target : ModelConfig) (f : FieldDefinition)
    (relationType cascade : str) :
  compileModels comps config models initialState = Ok st ->
  convention config = PascalCase -> truthy (prefix config) = false ->
  In m models -> In target models ->
  In f (m_fields m) -> fd_derived f = false -> isRelationType f = true ->
  fd_config f = Some (RelationConfig relationType (m_slug target) cascade) ->
  Js.includes relationType ["oneToMany"; "manyToMany"] = true ->
  exists base col table,
    In (FromModel, base) (prismaModels st)
    /\ pm_name base = buildModelName (m_slug m) config
    /\ In col (pm_fields base)
    /\ name col = fd_key f /\ list_ col = true
    /\ In (FromModel, table) (prismaModels st)
    /\ pm_name table = buildModelName (m_slug target) config
    /\ type col = pm_name table.
Proof.
  intros H Hconv Hpre Hm Ht Hf Hd Hr Hcfg Hrt.
  destruct (@compileModels_builds _ _ _ _ _ _ H Hm) as [gm Egm].
  destruct (@compileModels_builds _ _ _ _ _ _ H Ht) as [gt Egt].
  destruct (buildModel_base _ _ Egm) as (rm & mapped & Emap & Em).
  destruct (buildModel_base _ _ Egt) as (rt & mappedt & _ & Et).
  pose proof (@base_table_emitted _ _ _ _ _ _ H Hm Egm) as Hbm.
  pose proof (@base_table_emitted _ _ _ _ _ _ H Ht Egt) as Hbt.
  rewrite Em in Hbm. rewrite Et in Hbt.
  specialize (Hbm _ (or_introl eq_refl)).
  specialize (Hbt _ (or_introl eq_refl)).
  assert (Etype : fd_type f = "relation") by (now apply eqb_eq).
  assert (Hin : In f (filter staysOnBase (m_fields (withoutDerived m)))).
  { apply filter_In. split.
    - simpl. apply filter_In. split; [exact Hf | now rewrite Hd].
    - unfold staysOnBase, isTranslatableContent, isComponentType.
      rewrite Hr, Etype. reflexivity. }
  assert (Hin' : In f (if i18nEnabled config
                       then filter staysOnBase (m_fields (withoutDerived m))
                       else filter staysOnBase (m_fields (withoutDerived m))
                            ++ filter isTranslatableContent
                                 (m_fields (withoutDerived m)))).
  { destruct (i18nEnabled config); [exact Hin|].
    apply in_or_app. now left. }
  destruct (@flatMapR_Ok_In _ _ _ _ _ Emap f Hin') as (cols & Ecols & Hincl).
  rewrite (mapFieldToPrisma_relation _ config Etype) in Ecols.
  unfold mapRelationField in Ecols. rewrite Hcfg in Ecols.
  unfold toModelName in Ecols. rewrite Hconv in Ecols.
  eexists _, (withOptional true
                (withList true
                   (field (fd_key f) (Naming.toPascalCase (m_slug target))))),
    _.
  split; [exact Hbm|]. split; [reflexivity|]. cbn [pm_fields pm_name app].
  split.
  - right. apply in_or_app. left. apply Hincl.
    apply includes_In in Hrt. destruct Hrt as [<-|[<-|[]]];
      simpl in Ecols; injection Ecols as <-; now left.
  - split; [reflexivity|]. split; [reflexivity|].
    split; [exact Hbt|]. split; [reflexivity|].
    simpl. now rewrite (buildModelName_plain (m_slug target) config Hpre).
Qed.

Lemma relation_target_exists_witness :
  exists st base col table,
    compileModels [] Samples.plain [Samples.post; Samples.category]
                  initialState = Ok st
    /\ In (FromModel, base) (prismaModels st) /\ pm_name base = "Post"
    /\ In col (pm_fields base) /\ name col = "categories"
    /\ In (FromModel, table) (prismaModels st) /\ type col = pm_name table.
Proof.
  destruct (compileModels [] Samples.plain [Samples.post; Samples.category]
              initialState) as [st|] eqn:E; [|vm_compute in E; discriminate].
  destruct (@relation_target_exists [] Samples.plain
              [Samples.post; Samples.category] st Samples.post
              Samples.category (Samples.manyToMany "categories" "category")
              "manyToMany" "restrict" E eq_refl eq_refl
              (or_introl eq_refl) (or_intror (or_introl eq_refl))
              (or_intror (or_introl eq_refl)) eq_refl eq_refl eq_refl eq_refl)
    as (base & col & table & H1 & H2 & H3 & H4 & _ & H6 & _ & H8).
  exists st, base, col, table. repeat split; auto.
Defined.

(** ** External models and components *)

(** X16: what [filterExternalModels] keeps: with the detailed form, the
    models named by [include] (all when it is absent, none when it is
    empty) that [exclude] does not name, in their order; with a path or
    a list of paths, every model. *)
Theorem filterExternalModels_spec (externalModels : option ExternalModels)
    (models : list PrismaModel) :
  (forall path include exclude m,
     externalModels = Some (ExternalDetailed path include exclude) ->
     (In m (filterExternalModels externalModels models)
      <-> In m models
          /\ (forall names, include = Some names ->
                Js.includes (pm_name m) names = true)
          /\ (forall names, exclude = Some names ->
                Js.includes (pm_name m) names = false)))
  /\ (forall path include exclude,
        externalModels = Some (ExternalDetailed path include exclude) ->
        exists keep,
          filterExternalModels externalModels models = filter keep models)
  /\ ((forall path include exclude,
         externalModels <> Some (ExternalDetailed path include exclude)) ->
      filterExternalModels externalModels models = models).
Proof.
  split; [|split].
  - intros path include exclude m ->. unfold filterExternalModels.
    destruct include as [inc|], exclude as [exc|];
      rewrite ?filter_In; split.
    + intros [[Hin Hi] He]. apply negb_true_iff in He.
      split; [exact Hin|]. split; intros names E; now injection E as <-.
    + intros (Hin & Hi & He). specialize (Hi _ eq_refl).
      specialize (He _ eq_refl). rewrite He. auto.
    + intros [Hin Hi]. split; [exact Hin|].
      split; intros names E; [now injection E as <- | discriminate].
    + intros (Hin & Hi & _). auto.
    + intros [Hin He]. apply negb_true_iff in He. split; [exact Hin|].
      split; intros names E; [discriminate | now injection E as <-].
    + intros (Hin & _ & He). rewrite (He _ eq_refl). auto.
    + intros Hin. split; [exact Hin|]. split; intros names E; discriminate.
    + now intros (Hin & _).
  - intros path include exclude ->. unfold filterExternalModels.
    destruct include as [inc|], exclude as [exc|].
    + eexists (fun m => Js.includes (pm_name m) inc
                        && negb (Js.includes (pm_name m) exc)).
      induction models as [|m models IH]; [reflexivity|]. simpl.
      destruct (Js.includes (pm_name m) inc); simpl; [|exact IH].
      destruct (Js.includes (pm_name m) exc); simpl; now rewrite IH.
    + now eexists.
    + now eexists.
    + exists (fun _ => true). induction models as [|m models IH];
        [reflexivity|]. simpl. now rewrite <- IH.
  - intros H. unfold filterExternalModels.
    destruct externalModels as [[p|ps|path include exclude]|];
      try reflexivity.
    now destruct (H path include exclude).
Qed.

Lemma filterExternalModels_spec_witness :
  map pm_name
    (filterExternalModels
       (Some (ExternalDetailed (inl "auth.prisma") (Some ["User"; "Session"])
                               (Some ["Session"])))
       (extractModelsFromString Cases.authSchema))
  = ["User"]
  /\ filterExternalModels (Some (ExternalPath "auth.prisma"))
       (extractModelsFromString Cases.authSchema)
     = extractModelsFromString Cases.authSchema.
Proof.
  split; [reflexivity|].
  apply (@filterExternalModels_spec (Some (ExternalPath "auth.prisma"))).
  discriminate.
Defined.

Section ExternalFilesFacts.

Variable readFileSync : str -> result str.

Lemma loadPaths_spec externalModels paths : forall acc,
  fold_left (loadPath readFileSync externalModels) paths acc
  = (fst acc
     ++ flat_map (fun p => match readFileSync p with
                           | Ok schema =>
                               filterExternalModels externalModels
                                 (extractModelsFromString schema)
                           | Throw _ => []
                           end) paths,
     snd acc
     ++ flat_map (fun p => match readFileSync p with
                           | Ok _ => []
                           | Throw m =>
                               ["Failed to load external models from " ++ dq
                                ++ p ++ dq ++ ": " ++ m]
                           end) paths).
Proof.
  induction paths as [|p paths IH]; intros [ms ws].
  - simpl. now rewrite !app_nil_r.
  - cbn [fold_left flat_map]. rewrite IH.
    unfold loadPath, extractModelsFromPrismaFile.
    destruct (readFileSync p) as [schema|m]; cbn [bind fst snd];
      now rewrite ?app_nil_r, <- ?app_assoc.
Qed.

(** X17: loading the external models never fails: the files are read in
    the order of the configured paths, each readable file gives its
    filtered models, each unreadable one a warning and nothing else. *)
Theorem loadExternalModels_spec (externalModels : option ExternalModels)
    (warnings : list str) :
  loadExternalModels readFileSync externalModels warnings
  = (flat_map (fun p => match readFileSync p with
                        | Ok schema =>
                            filterExternalModels externalModels
                              (extractModelsFromString schema)
                        | Throw _ => []
                        end) (resolveExternalPaths externalModels),
     warnings
     ++ flat_map (fun p => match readFileSync p with
                           | Ok _ => []
                           | Throw m =>
                               ["Failed to load external models from " ++ dq
                                ++ p ++ dq ++ ": " ++ m]
                           end) (resolveExternalPaths externalModels)).
Proof.
  unfold loadExternalModels.
  destruct (externalConfigured externalModels) eqn:E.
  - now rewrite loadPaths_spec.
  - unfold resolveExternalPaths. rewrite E. simpl. now rewrite app_nil_r.
Qed.

End ExternalFilesFacts.

Lemma Map_get_set (m : ComponentMap) (k k' : str) (v : ComponentEntity) :
  Map_get (Map_set m k v) k'
  = if Js.eqb k' k then Some v else Map_get m k'.
Proof.
  induction m as [|[k0 v0] m IH]; simpl.
  - reflexivity.
  - destruct (Js.eqb k k0) eqn:E; simpl.
    + apply eqb_eq in E. subst k0.
      now destruct (Js.eqb k' k).
    + rewrite IH. destruct (Js.eqb k' k0) eqn:E0; [|reflexivity].
      apply eqb_eq in E0. subst k0.
      rewrite (eqb_sym k' k), E. reflexivity.
Qed.

Lemma find_app A (p : A -> bool) (a b : list A) :
  find p (a ++ b) = match find p a with
                    | Some x => Some x
                    | None => find p b
                    end.
Proof.
  induction a as [|x a IH]; [reflexivity|]. simpl.
  now destruct (p x).
Qed.

Lemma readComponents_fold input slug : forall m,
  Map_get (fold_left (fun m comp => Map_set m (c_slug comp) comp) input m)
          slug
  = match find (fun c => Js.eqb slug (c_slug c)) (rev input) with
    | Some c => Some c
    | None => Map_get m slug
    end.
Proof.
  induction input as [|c input IH]; intros m; [reflexivity|].
  cbn [fold_left rev]. rewrite IH, find_app, Map_get_set. simpl.
  destruct (find _ (rev input)); [reflexivity|].
  now destruct (Js.eqb slug (c_slug c)).
Qed.

(** X18: of several components with one slug, the last read is the one
    the fields of that slug refer to. *)
Theorem readComponents_last_wins (input : list ComponentEntity) (slug : str) :
  Map_get (readComponents input) slug
  = find (fun c => Js.eqb slug (c_slug c)) (rev input).
Proof.
  unfold readComponents. rewrite readComponents_fold.
  now destruct (find _ (rev input)).
Qed.

(** ** The lines of a model block *)

Lemma not_In_map_prefixed (f : list str -> str) (rows : list (list str)) :
  (forall r, f r <> "") -> ~ In "" (map f rows).
Proof.
  intros H Hin. apply in_map_iff in Hin as (r & E & _). now apply (H r).
Qed.

(** No line of [Hin : In "" lines] is empty. *)
Ltac no_empty_line Hin :=
  cbn [app map] in Hin;
  repeat match type of Hin with
  | In _ (_ ++ _) => apply in_app_or in Hin as [Hin|Hin]
  | In _ (map _ _) =>
      solve [revert Hin; apply not_In_map_prefixed; discriminate]
  | In _ (_ :: _) => destruct Hin as [Hin|Hin]; [discriminate|]
  | In _ [] => destruct Hin
  end.

(** X19: the block attributes of a model are set off from the columns by
    one empty line, however many of the index, unique and map sections
    are present, and by none when there is no section. *)
Theorem blockAttributes_separator (m : PrismaModel) :
  (blockAttributes m = []
   <-> isEmptyRows (pm_indexes m) = true
       /\ isEmptyRows (pm_unique m) = true
       /\ truthy (pm_map m) = false)
  /\ (blockAttributes m <> [] ->
      exists rest, blockAttributes m = "" :: rest /\ ~ In "" rest).
Proof.
  unfold blockAttributes, isEmptyRows.
  destruct (nonEmptyRows (pm_indexes m)) as [|ix ixs];
    destruct (nonEmptyRows (pm_unique m)) as [|u us];
    destruct (pm_map m) as [[|c n]|]; cbn [andb app truthy]; split;
    try (split; [discriminate | intros (H1 & H2 & H3); discriminate]);
    try (split; auto; fail);
    try (intros H; now destruct H);
    intros _; eexists; (split; [reflexivity|]); intros Hin;
    no_empty_line Hin.
Qed.

Lemma blockAttributes_separator_witness :
  exists rest,
    blockAttributes Cases.linkTable = "" :: rest
    /\ length rest = 4 /\ ~ In "" rest.
Proof.
  destruct (proj2 (blockAttributes_separator Cases.linkTable))
    as (rest & E & Hn); [discriminate|].
  exists rest. injection E as <-. split; [reflexivity|].
  split; [reflexivity | exact Hn].
Defined.

(** ** Words of a field line *)

Lemma splitWs_prev (s : str) :
  filter isNonEmpty (splitWs true s) = words s.
Proof.
  unfold words. destruct s as [|c s]; [reflexivity|]. simpl.
  now destruct (Js.isSpace c).
Qed.

Lemma words_space (c : ascii) (s : str) :
  Js.isSpace c = true -> words (c :: s) = words s.
Proof.
  intros H. unfold words at 1. simpl. rewrite H. simpl.
  apply splitWs_prev.
Qed.

Lemma words_spaces (sp s : str) :
  forallb Js.isSpace sp = true -> words (sp ++ s) = words s.
Proof.
  induction sp as [|c sp IH]; [reflexivity|]. simpl.
  intros H. apply andb_true_iff in H as [Hc Hsp].
  now rewrite (@words_space c _ Hc), IH.
Qed.

(** White space between two texts separates their words. *)
Lemma splitWs_gap (u sp v : str) :
  isNonEmpty sp = true -> forallb Js.isSpace sp = true ->
  exists seg segs segs0,
    splitWs false (u ++ sp ++ v) = seg :: segs
    /\ splitWs false u = seg :: segs0
    /\ filter isNonEmpty segs = filter isNonEmpty segs0 ++ words v.
Proof.
  intros Hne Hsp. induction u as [|c u (seg & segs & segs0 & E & E0 & Ef)].
  - destruct sp as [|s0 sp]; [discriminate|].
    simpl in Hsp. apply andb_true_iff in Hsp as [Hs0 Hsp].
    exists [], (splitWs true (sp ++ v)), [].
    simpl. rewrite Hs0. repeat split.
    rewrite splitWs_prev. now apply words_spaces.
  - simpl. destruct (Js.isSpace c).
    + exists [], (splitWs true (u ++ sp ++ v)), (splitWs true u).
      repeat split. rewrite !splitWs_prev. unfold words.
      rewrite E, E0. simpl. destruct (isNonEmpty seg); simpl; now rewrite Ef.
    + rewrite E, E0. now exists (c :: seg), segs, segs0.
Qed.

Lemma words_gap (u sp v : str) :
  isNonEmpty sp = true -> forallb Js.isSpace sp = true ->
  words (u ++ sp ++ v) = words u ++ words v.
Proof.
  intros Hne Hsp.
  destruct (@splitWs_gap u sp v Hne Hsp) as (seg & segs & segs0 & E & E0 & Ef).
  unfold words at 1 2. rewrite E, E0. simpl.
  destruct (isNonEmpty seg); simpl; now rewrite Ef.
Qed.

Lemma trimStart_spaces (s : str) :
  exists t, s = t ++ Js.trimStart s /\ forallb Js.isSpace t = true.
Proof.
  induction s as [|c s (t & E & Ht)]; [now exists []|]. simpl.
  destruct (Js.isSpace c) eqn:Ec.
  - exists (c :: t). simpl. rewrite Ec, Ht. now rewrite <- E.
  - now exists [].
Qed.

Lemma forallb_rev A (p : A -> bool) (l : list A) :
  forallb p (rev l) = forallb p l.
Proof.
  induction l as [|x l IH]; [reflexivity|]. simpl.
  rewrite forallb_app, IH. simpl. rewrite andb_true_r. apply andb_comm.
Qed.

Lemma trimEnd_spaces (s : str) :
  exists t, s = Js.trimEnd s ++ t /\ forallb Js.isSpace t = true.
Proof.
  unfold Js.trimEnd. destruct (trimStart_spaces (rev s)) as (t & E & Ht).
  exists (rev t). split; [|now rewrite forallb_rev].
  rewrite <- rev_app_distr, <- E. now rewrite rev_involutive.
Qed.

Lemma words_nil : words [] = [].
Proof. reflexivity. Qed.

Lemma words_trimEnd (s : str) : words (Js.trimEnd s) = words s.
Proof.
  destruct (trimEnd_spaces s) as (t & E & Ht).
  rewrite E at 2. destruct t as [|c t]; [now rewrite app_nil_r|].
  rewrite <- (app_nil_r (c :: t)).
  rewrite (@words_gap (Js.trimEnd s) (c :: t) [] eq_refl Ht).
  now rewrite words_nil, app_nil_r.
Qed.

(** What follows the type on both renderings of a field line starts a
    new word. *)
Lemma words_after_type (t rest : str) :
  rest = [] \/ (exists r, rest = " " ++ r) ->
  words (t ++ rest) = words t ++ words rest.
Proof.
  intros [->|[r ->]].
  - now rewrite app_nil_r, words_nil, app_nil_r.
  - rewrite (@words_gap t " " r eq_refl eq_refl).
    now rewrite (@words_spaces " " r eq_refl).
Qed.

(** X20: the aligned line and the plain line of a field hold the same
    words: the alignment only adds white space, as long as the type
    column is wider than the type. *)
Theorem writeFieldAligned_words (f : PrismaField) (nameWidth typeWidth : nat) :
  length (formatFieldType f) < typeWidth ->
  words (writeFieldAligned f nameWidth typeWidth) = words (writeField f).
Proof.
  intros Hw. unfold writeFieldAligned, writeField, fieldTrailer, Js.padEnd.
  rewrite words_trimEnd.
  set (t := formatFieldType f).
  set (tail := (match relation f with
                | Some r => " " ++ formatRelation r
                | None => []
                end)
               ++ (match map_ f with
                   | Some (c :: m) => " @map(" ++ quoted (c :: m) ++ ")"
                   | _ => []
                   end)).
  assert (Htail : tail = [] \/ exists r, tail = " " ++ r).
  { unfold tail. destruct (relation f) as [r|].
    - right. now eexists.
    - destruct (map_ f) as [[|c m]|]; [now left| |now left].
      right. now eexists. }
  (* the aligned line *)
  rewrite (@words_spaces "  " _ eq_refl).
  rewrite <- !app_assoc.
  rewrite (app_assoc (repeat " "%char (nameWidth - length (name f))) "  ").
  rewrite (@words_gap (name f)
             (repeat " "%char (nameWidth - length (name f)) ++ "  ")).
  2:{ now destruct (nameWidth - length (name f)). }
  2:{ rewrite forallb_app, forallb_repeat_space. reflexivity. }
  rewrite (@words_gap t (repeat " "%char (typeWidth - length t))).
  2:{ destruct (typeWidth - length t) eqn:E; [|reflexivity]. subst t. lia. }
  2:{ apply forallb_repeat_space. }
  (* the plain line *)
  rewrite (@words_gap (name f) " " _ eq_refl eq_refl).
  f_equal.
  destruct (attributes f) as [[|a l]|].
  - cbn [app]. now rewrite words_after_type.
  - rewrite <- app_assoc.
    now rewrite (@words_gap t " " _ eq_refl eq_refl).
  - cbn [app]. now rewrite words_after_type.
Qed.

Lemma writeFieldAligned_words_witness :
  words (writeFieldAligned Cases.ownerColumn 12 8)
  = ["post"; "Post?"; "@unique";
     "@relation(fields:"; "[post_id],"; "references:"; "[id],"; "onDelete:";
     "Cascade)"; "@map(" ++ dq ++ "owner" ++ dq ++ ")"].
Proof.
  rewrite (@writeFieldAligned_words Cases.ownerColumn 12 8);
    [reflexivity | simpl; lia].
Defined.

(** ** Text without models *)

(** X21: a text in which the word [model] does not occur holds no model
    block. *)
Theorem extractModelsFromString_no_model (schema : str) :
  strIncludes "model" schema = false ->
  extractModelsFromString schema = [].
Proof.
  intros H. unfold extractModelsFromString.
  enough (E : execAll 0 schema = []) by now rewrite E.
  induction schema as [|c s IH]; [reflexivity|].
  cbn [strIncludes] in H. apply orb_false_iff in H as [H1 H2].
  cbn [execAll]. rewrite (matchModelAt_None _ H1). now apply IH.
Qed.

Lemma extractModelsFromString_no_model_witness :
  extractModelsFromString
    (writeDatasource (datasource Samples.scenarioB)) = [].
Proof.
  apply extractModelsFromString_no_model. reflexivity.
Defined.

(** ** Round trip: the block attributes *)

Lemma startsWith_app (p s : str) : Js.startsWith p (p ++ s) = true.
Proof.
  induction p as [|c p IH]; [reflexivity|]. simpl.
  now rewrite Ascii.eqb_refl, IH.
Qed.

Lemma skipn_length_app A (p s : list A) : skipn (length p) (p ++ s) = s.
Proof. induction p as [|c p IH]; [reflexivity | exact IH]. Qed.

Lemma capture_here (open close : str) (stop : ascii) (run rest : str) :
  isNonEmpty run = true ->
  forallb (notChar stop) run = true ->
  Js.startsWith close rest = true ->
  (rest = [] \/ exists r, rest = stop :: r) ->
  capture open stop close (open ++ run ++ rest) = Some run.
Proof.
  intros Hne Hrun Hclose Hrest.
  assert (Hspan : span (notChar stop) (run ++ rest) = (run, rest)).
  { destruct Hrest as [->|[r ->]].
    - rewrite app_nil_r. clear Hne. induction run as [|c run IH];
        [reflexivity|]. simpl in *.
      apply andb_true_iff in Hrun as [Hc Hr]. now rewrite Hc, (IH Hr).
    - apply span_app; [exact Hrun|]. unfold notChar.
      now rewrite Ascii.eqb_refl. }
  destruct (open ++ run ++ rest) as [|c s] eqn:E.
  - destruct open; [destruct run; discriminate|discriminate].
  - rewrite <- E. clear E.
    assert (Hhere :
      (if Js.startsWith open (open ++ run ++ rest)
       then let '(run0, rest0) :=
              span (notChar stop)
                   (skipn (length open) (open ++ run ++ rest)) in
            match run0 with
            | _ :: _ => if Js.startsWith close rest0 then Some run0 else None
            | [] => None
            end
       else None) = Some run).
    { rewrite startsWith_app, skipn_length_app, Hspan.
      destruct run; [discriminate|]. now rewrite Hclose. }
    destruct (open ++ run ++ rest); simpl; now rewrite Hhere.
Qed.

Lemma splitOn_none (isSep : ascii -> bool) (s : str) :
  forallb (fun c => negb (isSep c)) s = true -> Js.splitOn isSep s = [s].
Proof.
  induction s as [|c s IH]; [reflexivity|]. simpl.
  intros H. apply andb_true_iff in H as [Hc Hs].
  apply negb_true_iff in Hc. now rewrite Hc, (IH Hs).
Qed.

Lemma splitOn_sep (isSep : ascii -> bool) (a : str) (c : ascii) (s : str) :
  forallb (fun c => negb (isSep c)) a = true -> isSep c = true ->
  Js.splitOn isSep (a ++ c :: s) = a :: Js.splitOn isSep s.
Proof.
  intros Ha Hc. induction a as [|x a IH]; simpl.
  - now rewrite Hc.
  - simpl in Ha. apply andb_true_iff in Ha as [Hx Ha].
    apply negb_true_iff in Hx. now rewrite Hx, (IH Ha).
Qed.

Lemma word_not_comma (s : str) :
  forallb Js.isWord s = true ->
  forallb (fun c => negb (isComma c)) s = true.
Proof.
  apply forallb_impl. intros c. unfold isComma. revert c.
  intros c. ascii_cases c.
Qed.

Lemma word_not_bracket (s : str) :
  forallb Js.isWord s = true -> forallb (notChar "]"%char) s = true.
Proof. apply forallb_impl. intros c. ascii_cases c. Qed.

Lemma word_not_quote (s : str) :
  forallb Js.isWord s = true -> forallb (notChar "034"%char) s = true.
Proof. apply forallb_impl. intros c. ascii_cases c. Qed.

Lemma trimStart_word (s : str) :
  forallb Js.isWord s = true -> Js.trimStart s = s.
Proof.
  destruct s as [|c s]; [reflexivity|]. simpl. intros H.
  apply andb_true_iff in H as [Hc _].
  now rewrite (isWord_not_space _ Hc).
Qed.

Lemma trim_word (s : str) : forallb Js.isWord s = true -> Js.trim s = s.
Proof.
  intros H. unfold Js.trim. rewrite (trimStart_word _ H).
  unfold Js.trimEnd. rewrite trimStart_word; [apply rev_involutive|].
  now rewrite forallb_rev.
Qed.

Lemma columnList_space (s : str) : columnList (" " ++ s) = columnList s.
Proof.
  unfold columnList. cbn [app Js.splitOn]. cbn [isComma Ascii.eqb Bool.eqb].
  destruct (splitOn_nonempty isComma s) as (seg & segs & ->).
  reflexivity.
Qed.

Lemma columnList_join (row : list str) :
  forallb isColumnName row = true ->
  row <> [] -> columnList (Js.join ", " row) = row.
Proof.
  induction row as [|n [|n2 rest] IH]; intros H Hne; [easy| |].
  - simpl in H. rewrite andb_true_r in H.
    apply andb_true_iff in H as [_ Hw]. unfold columnList. simpl.
    rewrite (@splitOn_none isComma n (word_not_comma _ Hw)). simpl.
    now rewrite (trim_word _ Hw).
  - cbn [forallb] in H. apply andb_true_iff in H as [Hn Hrest].
    apply andb_true_iff in Hn as [_ Hw].
    rewrite join_cons2.
    change (n ++ ", " ++ Js.join ", " (n2 :: rest))
      with (n ++ ","%char :: (" " ++ Js.join ", " (n2 :: rest))).
    unfold columnList.
    rewrite (@splitOn_sep isComma n ","%char _ (word_not_comma _ Hw) eq_refl).
    cbn [map]. rewrite (trim_word _ Hw). f_equal.
    fold (columnList (" " ++ Js.join ", " (n2 :: rest))).
    rewrite columnList_space. apply IH; [exact Hrest | discriminate].
Qed.

Lemma join_forallb (p : ascii -> bool) (sep : str) (row : list str) :
  forallb (forallb p) row = true -> forallb p sep = true ->
  forallb p (Js.join sep row) = true.
Proof.
  intros H Hsep. induction row as [|n [|n2 rest] IH]; [reflexivity| |].
  - simpl in *. now rewrite andb_true_r in H.
  - cbn [forallb] in H. apply andb_true_iff in H as [Hn Hrest].
    rewrite join_cons2, !forallb_app, Hn, Hsep. now apply IH.
Qed.

Lemma row_text (row : list str) :
  wfRow row = true ->
  row <> [] /\ forallb isColumnName row = true
  /\ (exists c r, Js.join ", " row = c :: r /\ Js.isSpace c = false)
  /\ forallb (notChar "]"%char) (Js.join ", " row) = true.
Proof.
  unfold wfRow. intros H. apply andb_true_iff in H as [Hne Hall].
  assert (Hr : row <> []) by (intros ->; discriminate).
  split; [exact Hr|]. split; [exact Hall|]. split.
  - destruct row as [|n rest]; [easy|].
    simpl in Hall. apply andb_true_iff in Hall as [Hn _].
    apply andb_true_iff in Hn as [Hn Hw].
    destruct n as [|c n]; [discriminate|].
    simpl in Hw. apply andb_true_iff in Hw as [Hc _].
    destruct rest; simpl; eexists _, _;
      (split; [reflexivity | now apply isWord_not_space]).
  - apply join_forallb; [|reflexivity].
    eapply forallb_impl; [|exact Hall]. intros s Hs.
    apply andb_true_iff in Hs as [_ Hs]. now apply word_not_bracket.
Qed.

(** A directive line, trimmed, is the directive. *)
Lemma directive_trim (d : str) (body close : str) (c : ascii) (r : str)
    (last : ascii) :
  body = c :: r -> Js.isSpace c = false -> Js.isSpace last = false ->
  Js.trim ("  " ++ ("@"%char :: d) ++ body ++ close ++ [last])
  = ("@"%char :: d) ++ body ++ close ++ [last].
Proof.
  intros -> Hc Hl.
  change ("  " ++ ("@"%char :: d) ++ (c :: r) ++ close ++ [last])
    with ("  " ++ ("@"%char :: d) ++ c :: (r ++ close ++ [last])).
  rewrite directive_line_trim by exact Hc.
  replace (r ++ close ++ [last]) with ((r ++ close) ++ last :: [])
    by (now rewrite <- app_assoc).
  rewrite trimEnd_app by exact Hl. rewrite trimEnd_nil.
  now rewrite <- !app_assoc.
Qed.

Lemma index_line_read (m : PrismaModel) (row : list str) :
  wfRow row = true ->
  parseLine m (Js.trim ("  @@index([" ++ Js.join ", " row ++ "])"))
  = {| pm_name := pm_name m; pm_fields := pm_fields m;
       pm_indexes := pushRow (pm_indexes m) row;
       pm_unique := pm_unique m; pm_map := pm_map m |}.
Proof.
  intros H. destruct (row_text _ H) as (Hne & Hall & (c & r & E & Hc) & Hb).
  change ("  @@index([" ++ Js.join ", " row ++ "])")
    with ("  " ++ ("@"%char :: "@index([") ++ Js.join ", " row ++ "]"
          ++ [")"%char]).
  rewrite (@directive_trim "@index([" _ "]" c r ")"%char E Hc eq_refl).
  unfold parseLine. cbn [Js.startsWith app Ascii.eqb Bool.eqb andb].
  change ("@"%char :: "@"%char :: "i"%char :: "n"%char :: "d"%char
          :: "e"%char :: "x"%char :: "("%char :: "["%char
          :: Js.join ", " row ++ "]"%char :: [")"%char])
    with ("@@index([" ++ Js.join ", " row ++ "])").
  rewrite (@capture_here "@@index([" "])" "]"%char (Js.join ", " row) "])").
  - now rewrite (@columnList_join row Hall Hne).
  - now rewrite E.
  - exact Hb.
  - reflexivity.
  - right. now eexists.
Qed.

Lemma unique_line_read (m : PrismaModel) (row : list str) :
  wfRow row = true ->
  parseLine m (Js.trim ("  @@unique([" ++ Js.join ", " row ++ "])"))
  = {| pm_name := pm_name m; pm_fields := pm_fields m;
       pm_indexes := pm_indexes m;
       pm_unique := pushRow (pm_unique m) row; pm_map := pm_map m |}.
Proof.
  intros H. destruct (row_text _ H) as (Hne & Hall & (c & r & E & Hc) & Hb).
  change ("  @@unique([" ++ Js.join ", " row ++ "])")
    with ("  " ++ ("@"%char :: "@unique([") ++ Js.join ", " row ++ "]"
          ++ [")"%char]).
  rewrite (@directive_trim "@unique([" _ "]" c r ")"%char E Hc eq_refl).
  unfold parseLine. cbn [Js.startsWith app Ascii.eqb Bool.eqb andb].
  change ("@"%char :: "@"%char :: "u"%char :: "n"%char :: "i"%char
          :: "q"%char :: "u"%char :: "e"%char :: "("%char :: "["%char
          :: Js.join ", " row ++ "]"%char :: [")"%char])
    with ("@@unique([" ++ Js.join ", " row ++ "])").
  rewrite (@capture_here "@@unique([" "])" "]"%char (Js.join ", " row) "])").
  - now rewrite (@columnList_join row Hall Hne).
  - now rewrite E.
  - exact Hb.
  - reflexivity.
  - right. now eexists.
Qed.

Lemma map_line_read (m : PrismaModel) (c : ascii) (n : str) :
  forallb Js.isWord (c :: n) = true ->
  parseLine m (Js.trim ("  @@map(" ++ quoted (c :: n) ++ ")"))
  = {| pm_name := pm_name m; pm_fields := pm_fields m;
       pm_indexes := pm_indexes m; pm_unique := pm_unique m;
       pm_map := Some (c :: n) |}.
Proof.
  intros Hw. unfold quoted.
  change ("  @@map(" ++ (dq ++ (c :: n) ++ dq) ++ ")")
    with ("  " ++ ("@"%char :: "@map(") ++ dq ++ ((c :: n) ++ dq)
          ++ [")"%char]).
  rewrite (@directive_trim "@map(" dq ((c :: n) ++ dq) "034"%char []
             ")"%char eq_refl eq_refl eq_refl).
  rewrite <- (app_assoc (c :: n) dq [")"%char]).
  set (line := ("@"%char :: "@map(") ++ dq ++ (c :: n) ++ dq ++ [")"%char]).
  assert (E1 : Js.startsWith "//" line = false) by reflexivity.
  assert (E2 : Js.startsWith "@@index" line = false) by reflexivity.
  assert (E3 : Js.startsWith "@@unique" line = false) by reflexivity.
  assert (E4 : Js.startsWith "@@map" line = true) by reflexivity.
  unfold parseLine. rewrite E1, E2, E3, E4. subst line.
  change (("@"%char :: "@map(") ++ dq ++ (c :: n) ++ dq ++ [")"%char])
    with (("@@map(" ++ dq) ++ (c :: n) ++ (dq ++ ")")).
  rewrite (@capture_here ("@@map(" ++ dq) (dq ++ ")") "034"%char (c :: n)
             (dq ++ ")")); try reflexivity.
  - now apply word_not_quote.
  - right. now eexists.
Qed.

Lemma fold_trimmed (t : str) (rest : list str) (m : PrismaModel) :
  isNonEmpty t = true ->
  fold_left parseLine (filter isNonEmpty (t :: rest)) m
  = fold_left parseLine (filter isNonEmpty rest) (parseLine m t).
Proof. intros H. cbn [filter]. now rewrite H. Qed.

Lemma directive_nonempty (d rest : str) :
  isNonEmpty (Js.trim ("  " ++ ("@"%char :: d) ++ rest)) = true.
Proof.
  unfold Js.trim. rewrite trimStart_indent by reflexivity.
  destruct (trimEnd_head "@"%char (d ++ rest)) as [E|[z E]].
  - exfalso.
    destruct (trimEnd_spaces ("@"%char :: d ++ rest)) as (t' & Et' & Hsp).
    rewrite E in Et'. simpl in Et'. subst t'. discriminate.
  - change (("@"%char :: d) ++ rest) with ("@"%char :: d ++ rest).
    now rewrite E.
Qed.

Lemma index_lines_read (rows : list (list str)) : forall m,
  forallb wfRow rows = true ->
  fold_left parseLine
    (filter isNonEmpty
       (map Js.trim
          (map (fun ix => "  @@index([" ++ Js.join ", " ix ++ "])") rows))) m
  = {| pm_name := pm_name m; pm_fields := pm_fields m;
       pm_indexes := (match rows with
                      | [] => pm_indexes m
                      | _ => Some (nonEmptyRows (pm_indexes m) ++ rows)
                      end);
       pm_unique := pm_unique m; pm_map := pm_map m |}.
Proof.
  induction rows as [|row rows IH]; intros m H.
  - now destruct m.
  - simpl in H. apply andb_true_iff in H as [Hrow Hrows].
    cbn [map]. rewrite fold_trimmed by apply (directive_nonempty "@index([").
    rewrite (@index_line_read m row Hrow), (IH _ Hrows).
    cbn [pm_name pm_fields pm_indexes pm_unique pm_map pushRow nonEmptyRows].
    destruct rows; [reflexivity|]. now rewrite <- app_assoc.
Qed.

Lemma unique_lines_read (rows : list (list str)) : forall m,
  forallb wfRow rows = true ->
  fold_left parseLine
    (filter isNonEmpty
       (map Js.trim
          (map (fun u => "  @@unique([" ++ Js.join ", " u ++ "])") rows))) m
  = {| pm_name := pm_name m; pm_fields := pm_fields m;
       pm_indexes := pm_indexes m;
       pm_unique := (match rows with
                     | [] => pm_unique m
                     | _ => Some (nonEmptyRows (pm_unique m) ++ rows)
                     end);
       pm_map := pm_map m |}.
Proof.
  induction rows as [|row rows IH]; intros m H.
  - now destruct m.
  - simpl in H. apply andb_true_iff in H as [Hrow Hrows].
    cbn [map]. rewrite fold_trimmed by apply (directive_nonempty "@unique([").
    rewrite (@unique_line_read m row Hrow), (IH _ Hrows).
    cbn [pm_name pm_fields pm_indexes pm_unique pm_map pushRow nonEmptyRows].
    destruct rows; [reflexivity|]. now rewrite <- app_assoc.
Qed.

Lemma blockAttributes_trimmed (m : PrismaModel) :
  filter isNonEmpty (map Js.trim (blockAttributes m))
  = filter isNonEmpty
      (map Js.trim
         (map (fun ix => "  @@index([" ++ Js.join ", " ix ++ "])")
              (nonEmptyRows (pm_indexes m))))
    ++ filter isNonEmpty
         (map Js.trim
            (map (fun u => "  @@unique([" ++ Js.join ", " u ++ "])")
                 (nonEmptyRows (pm_unique m))))
    ++ filter isNonEmpty
         (map Js.trim
            (match pm_map m with
             | Some (c :: n) => ["  @@map(" ++ quoted (c :: n) ++ ")"]
             | _ => []
             end)).
Proof.
  unfold blockAttributes, isEmptyRows.
  assert (Hblank : forall ls,
            filter isNonEmpty (map Js.trim ([""] ++ ls))
            = filter isNonEmpty (map Js.trim ls)) by reflexivity.
  destruct (nonEmptyRows (pm_indexes m)) as [|ix ixs];
    destruct (nonEmptyRows (pm_unique m)) as [|u us];
    destruct (pm_map m) as [[|c n]|]; cbn [andb];
    rewrite ?app_nil_l, ?app_nil_r, ?map_app, ?filter_app, ?Hblank,
      ?map_app, ?filter_app, ?Hblank;
    rewrite ?app_nil_r; try reflexivity;
    rewrite <- ?map_app, <- ?filter_app, ?Hblank, ?map_app, ?filter_app;
    try reflexivity.
Qed.

Lemma blockAttributes_read (m : PrismaModel) :
  wfBlock m = true ->
  forall m0,
    fold_left parseLine (filter isNonEmpty (map Js.trim (blockAttributes m)))
              m0
    = {| pm_name := pm_name m0; pm_fields := pm_fields m0;
         pm_indexes := (match nonEmptyRows (pm_indexes m) with
                        | [] => pm_indexes m0
                        | rows => Some (nonEmptyRows (pm_indexes m0) ++ rows)
                        end);
         pm_unique := (match nonEmptyRows (pm_unique m) with
                       | [] => pm_unique m0
                       | rows => Some (nonEmptyRows (pm_unique m0) ++ rows)
                       end);
         pm_map := (match pm_map m with
                    | Some (c :: n) => Some (c :: n)
                    | _ => pm_map m0
                    end) |}.
Proof.
  unfold wfBlock. intros H m0.
  apply andb_true_iff in H as [H Hmap]. apply andb_true_iff in H as [Hi Hu].
  rewrite blockAttributes_trimmed, !fold_left_app.
  rewrite (index_lines_read _ _ Hi), (unique_lines_read _ _ Hu).
  cbn [pm_name pm_fields pm_indexes pm_unique pm_map].
  destruct (nonEmptyRows (pm_indexes m)), (nonEmptyRows (pm_unique m));
    (destruct (pm_map m) as [[|c n]|]; try reflexivity);
    cbn [map]; rewrite fold_trimmed by apply (directive_nonempty "@map(");
    rewrite (@map_line_read _ c n Hmap); reflexivity.
Qed.

(** A column line or a comment leaves the block attributes read so far
    as they are. *)
Lemma fieldLines_keep (nw tw : nat) (fields : list PrismaField) :
  (forall f, In f fields ->
     wfColumn f = true /\ length (formatFieldType f) < tw) ->
  forall m0,
    blockOf (fold_left parseLine
               (filter isNonEmpty
                  (map Js.trim (flat_map (fieldLines nw tw) fields))) m0)
    = blockOf m0.
Proof.
  induction fields as [|f fields IH]; intros Hall m0; [reflexivity|].
  destruct (Hall f (or_introl eq_refl)) as [Hwf Htw].
  assert (Hrest : forall g, In g fields ->
            wfColumn g = true /\ length (formatFieldType g) < tw)
    by (intros g Hg; apply Hall; now right).
  destruct (@field_line_shape f nw tw Hwf Htw)
    as [pad [z [Eline [Hpad [Hsp Hz]]]]].
  destruct (wfColumn_elim f Hwf) as [Hn [Hstart _]].
  destruct (isToken_elim (name f) Hn) as [c [n [En _]]].
  assert (Hcol : forall m,
            blockOf (parseLine m (Js.trim (writeFieldAligned f nw tw)))
            = blockOf m).
  { intros m. rewrite Eline, En. cbn [app]. rewrite En in Hstart.
    rewrite parseLine_column by exact Hstart.
    now destruct (parseFieldLine _). }
  assert (Hstep : forall m,
            blockOf (fold_left parseLine
                       (filter isNonEmpty (map Js.trim (fieldLines nw tw f)))
                       m)
            = blockOf m).
  { intros m. unfold fieldLines.
    destruct (buildZodComment (validation f)) as [cm|] eqn:Ec.
    - destruct (@buildZodComment_prefix _ _ Ec) as [t ->].
      change (["  " ++ "/// @zod." ++ t] ++ [writeFieldAligned f nw tw])
        with ["  " ++ "/// @zod." ++ t; writeFieldAligned f nw tw].
      rewrite !fold_line, comment_line_skipped. cbn [map filter fold_left].
      destruct (isNonEmpty (Js.trim ("  " ++ "/// @zod." ++ t)));
        destruct (isNonEmpty (Js.trim (writeFieldAligned f nw tw)));
        auto.
    - change ([] ++ [writeFieldAligned f nw tw])
        with [writeFieldAligned f nw tw].
      rewrite fold_line. cbn [map filter fold_left].
      destruct (isNonEmpty (Js.trim (writeFieldAligned f nw tw))); auto. }
  simpl flat_map. rewrite map_app, filter_app, fold_left_app.
  now rewrite (IH Hrest), Hstep.
Qed.

Lemma parseModel_block (m : PrismaModel) :
  wfTable m = true -> wfBlock m = true ->
  sameBlock m (parseModel (pm_name m) (bodyOf m)).
Proof.
  intros Hwf Hb. unfold parseModel.
  rewrite bodyLines_bodyOf by (now apply innerLines_safe).
  unfold innerLines. rewrite map_app, filter_app, fold_left_app.
  set (nw := maxWidth (fun f => length (name f)) (pm_fields m) + 2).
  set (tw := maxWidth (fun f => length (formatFieldType f)) (pm_fields m) + 2).
  assert (Hall : forall f, In f (pm_fields m) ->
            wfColumn f = true /\ length (formatFieldType f) < tw).
  { intros f Hf. split.
    - unfold wfTable in Hwf. do 3 (apply andb_true_iff in Hwf as [Hwf ?H]).
      rewrite forallb_forall in H0. now apply H0.
    - pose proof (@maxWidth_ge (fun f => length (formatFieldType f))
                    (pm_fields m) f Hf). unfold tw. simpl in *. lia. }
  pose proof (@fieldLines_keep nw tw (pm_fields m) Hall
                {| pm_name := pm_name m; pm_fields := [];
                   pm_indexes := None; pm_unique := None; pm_map := None |})
    as Hkeep.
  rewrite (blockAttributes_read m Hb).
  unfold blockOf in Hkeep. cbn [pm_indexes pm_unique pm_map] in Hkeep.
  injection Hkeep as Ei Eu Em.
  unfold sameBlock. cbn [pm_indexes pm_unique pm_map].
  rewrite Ei, Eu, Em. cbn [nonEmptyRows app].
  split; [|split].
  - now destruct (nonEmptyRows (pm_indexes m)).
  - now destruct (nonEmptyRows (pm_unique m)).
  - now destruct (pm_map m) as [[|c n]|].
Qed.

(** X22: the text written for a schema is read back with the indexes, the
    unique constraints and the physical names of its tables, when the
    columns they list are plain names. *)
Theorem roundtrip_block_attributes (schema : PrismaSchema) :
  wfSchema schema = true ->
  forallb wfBlock (models schema) = true ->
  Forall2 sameBlock (models schema)
          (extractModelsFromString (writeSchemaSync schema)).
Proof.
  intros Hwf Hb. unfold extractModelsFromString.
  rewrite (scan_schema schema Hwf), map_map. cbn [fst snd].
  unfold wfSchema in Hwf. apply andb_true_iff in Hwf as [_ Hwf].
  induction (models schema) as [|m ms IH]; [constructor|].
  simpl in Hwf, Hb.
  apply andb_true_iff in Hwf as [Hm Hms].
  apply andb_true_iff in Hb as [Hbm Hbs].
  constructor; [now apply parseModel_block | now apply IH].
Qed.

Lemma roundtrip_block_attributes_witness :
  Forall2 sameBlock [Cases.linkTable]
    (extractModelsFromString
       (writeSchemaSync (Samples.schemaOf [Cases.linkTable]))).
Proof.
  exact (@roundtrip_block_attributes (Samples.schemaOf [Cases.linkTable])
           eq_refl eq_refl).
Defined.

(** ** Round trip: the relation of a foreign key *)

Lemma startsWith_blocked (key a : str) (d c : ascii) (rest : str) :
  In d key -> forallb (fun x => negb (Ascii.eqb d x)) a = true ->
  existsb (Ascii.eqb c) key = false ->
  Js.startsWith key (a ++ c :: rest) = false.
Proof.
  revert a. induction key as [|k key IH]; intros a Hd Ha Hc; [easy|].
  simpl in Hc. apply orb_false_iff in Hc as [Hk Hc].
  destruct a as [|x a]; simpl.
  - now rewrite Ascii.eqb_sym, Hk.
  - simpl in Ha. apply andb_true_iff in Ha as [Hx Ha].
    destruct Hd as [->|Hd].
    + apply negb_true_iff in Hx. now rewrite Hx.
    + rewrite (IH a Hd Ha Hc). apply andb_false_r.
Qed.

Lemma captureSpaced_skip (key open close : str) (stop c : ascii) (s : str) :
  Js.startsWith key (c :: s) = false ->
  captureSpaced key open stop close (c :: s)
  = captureSpaced key open stop close s.
Proof. intros H. cbn [captureSpaced]. now rewrite H. Qed.

Lemma captureSpaced_skip_run (key open close : str) (stop d c : ascii)
    (a rest : str) :
  In d key -> forallb (fun x => negb (Ascii.eqb d x)) a = true ->
  existsb (Ascii.eqb c) key = false ->
  captureSpaced key open stop close (a ++ c :: rest)
  = captureSpaced key open stop close (c :: rest).
Proof.
  intros Hd Ha Hc. induction a as [|x a IH]; [reflexivity|].
  change ((x :: a) ++ c :: rest) with (x :: (a ++ c :: rest)).
  rewrite captureSpaced_skip.
  - simpl in Ha. apply andb_true_iff in Ha as [_ Ha]. now apply IH.
  - exact (@startsWith_blocked key (x :: a) d c rest Hd Ha Hc).
Qed.

Lemma captureSpaced_here (key sp open close : str) (stop o : ascii)
    (open' run rest : str) :
  forallb Js.isSpace sp = true ->
  open = o :: open' -> Js.isSpace o = false ->
  isNonEmpty run = true ->
  forallb (notChar stop) run = true ->
  Js.startsWith close (stop :: rest) = true ->
  captureSpaced key open stop close
                (key ++ sp ++ open ++ run ++ stop :: rest)
  = Some run.
Proof.
  intros Hsp Eo Ho Hne Hrun Hclose.
  assert (Hhere :
    (if Js.startsWith key (key ++ sp ++ open ++ run ++ stop :: rest)
     then
       let rest0 :=
         snd (span Js.isSpace
                (skipn (length key)
                       (key ++ sp ++ open ++ run ++ stop :: rest))) in
       if Js.startsWith open rest0 then
         let '(run0, rest') :=
           span (notChar stop) (skipn (length open) rest0) in
         match run0 with
         | _ :: _ => if Js.startsWith close rest' then Some run0 else None
         | [] => None
         end
       else None
     else None) = Some run).
  { rewrite startsWith_app, skipn_length_app.
    assert (Es : span Js.isSpace (sp ++ open ++ run ++ stop :: rest)
                 = (sp, open ++ run ++ stop :: rest)).
    { rewrite Eo. now apply span_app. }
    rewrite Es. cbn [snd]. rewrite startsWith_app, skipn_length_app.
    rewrite (@span_app (notChar stop) run stop rest Hrun)
      by (unfold notChar; now rewrite Ascii.eqb_refl).
    destruct run; [discriminate|]. now rewrite Hclose. }
  destruct (key ++ sp ++ open ++ run ++ stop :: rest);
    simpl; simpl in Hhere; now rewrite Hhere.
Qed.

Lemma captureWord_skip (key : str) (c : ascii) (s : str) :
  Js.startsWith key (c :: s) = false ->
  captureWord key (c :: s) = captureWord key s.
Proof. intros H. cbn [captureWord]. now rewrite H. Qed.

Lemma captureWord_skip_run (key : str) (d c : ascii) (a rest : str) :
  In d key -> forallb (fun x => negb (Ascii.eqb d x)) a = true ->
  existsb (Ascii.eqb c) key = false ->
  captureWord key (a ++ c :: rest) = captureWord key (c :: rest).
Proof.
  intros Hd Ha Hc. induction a as [|x a IH]; [reflexivity|].
  change ((x :: a) ++ c :: rest) with (x :: (a ++ c :: rest)).
  rewrite captureWord_skip.
  - simpl in Ha. apply andb_true_iff in Ha as [_ Ha]. now apply IH.
  - exact (@startsWith_blocked key (x :: a) d c rest Hd Ha Hc).
Qed.

Lemma word_not_colon (s : str) :
  forallb Js.isWord s = true ->
  forallb (fun x => negb (Ascii.eqb ":" x)) s = true.
Proof. apply forallb_impl. intros c. ascii_cases c. Qed.

Lemma formatRelation_fk (fk action : str) :
  isNonEmpty action = true ->
  formatRelation (fkRelation fk action)
  = "@relation(fields: [" ++ fk ++ "], references: [id], onDelete: "
    ++ action ++ ")".
Proof.
  destruct action as [|c a]; [discriminate|]. intros _.
  unfold formatRelation, fkRelation. cbn [r_name r_fields r_references
    r_onDelete r_onUpdate app Js.join].
  rewrite <- !app_assoc. reflexivity.
Qed.

(** X23: the relation of a foreign key, as the generator writes it, is
    read back by [parseRelation]: the key column, the referenced
    column and the action on delete. *)
Theorem parseRelation_formatRelation (fk action : str) :
  isColumnName fk = true ->
  Js.includes action referentialActions = true ->
  parseRelation (formatRelation (fkRelation fk action))
  = fkRelation fk action.
Proof.
  intros Hfk Ha. apply andb_true_iff in Hfk as [Hne Hw].
  pose proof (word_not_colon _ Hw) as Hcolon.
  pose proof (word_not_bracket _ Hw) as Hbr.
  assert (Hcols : columnList fk = [fk]).
  { unfold columnList. rewrite (@splitOn_none isComma fk (word_not_comma _ Hw)).
    simpl. now rewrite (trim_word _ Hw). }
  assert (Hfields : forall tail,
            parseColumns "fields:"
              ("@relation(fields: [" ++ fk ++ "]"%char :: tail) = [fk]).
  { intros tail. unfold parseColumns. cbn [app].
    do 10 (rewrite captureSpaced_skip by reflexivity).
    change ("f"%char :: "i"%char :: "e"%char :: "l"%char :: "d"%char
            :: "s"%char :: ":"%char :: " "%char :: "["%char
            :: fk ++ "]"%char :: tail)
      with ("fields:" ++ " " ++ "[" ++ fk ++ "]"%char :: tail).
    rewrite (@captureSpaced_here "fields:" " " "[" "]" "]"%char "["%char []
               fk tail eq_refl eq_refl eq_refl Hne Hbr eq_refl).
    exact Hcols. }
  assert (Hskip : forall key tail,
            In ":"%char key -> existsb (Ascii.eqb "]"%char) key = false ->
            captureSpaced key "[" "]"%char "]" (fk ++ "]"%char :: tail)
            = captureSpaced key "[" "]"%char "]" ("]"%char :: tail)).
  { intros key tail Hk Hc.
    exact (@captureSpaced_skip_run key "[" "]" "]"%char ":"%char "]"%char
             fk tail Hk Hcolon Hc). }
  assert (Hskipw : forall key tail,
            In ":"%char key -> existsb (Ascii.eqb "]"%char) key = false ->
            captureWord key (fk ++ "]"%char :: tail)
            = captureWord key ("]"%char :: tail)).
  { intros key tail Hk Hc.
    exact (@captureWord_skip_run key ":"%char "]"%char fk tail Hk Hcolon
             Hc). }
  assert (Hcolon_ref : In ":"%char "references:")
    by (simpl; intuition).
  assert (Hcolon_del : In ":"%char "onDelete:") by (simpl; intuition).
  assert (Hcolon_upd : In ":"%char "onUpdate:") by (simpl; intuition).
  rewrite formatRelation_fk
    by (apply includes_In in Ha;
        destruct Ha as [<-|[<-|[<-|[<-|[]]]]]; reflexivity).
  unfold parseRelation, fkRelation. cbn [app] in Hfields |- *. f_equal.
  - now rewrite Hfields.
  - unfold parseColumns. cbn [app].
    do 19 (rewrite captureSpaced_skip by reflexivity).
    rewrite (Hskip "references:" _ Hcolon_ref eq_refl).
    apply includes_In in Ha.
    destruct Ha as [<-|[<-|[<-|[<-|[]]]]]; reflexivity.
  - unfold parseAction. cbn [app].
    do 19 (rewrite captureWord_skip by reflexivity).
    rewrite (Hskipw "onDelete:" _ Hcolon_del eq_refl).
    apply includes_In in Ha.
    destruct Ha as [<-|[<-|[<-|[<-|[]]]]]; reflexivity.
  - unfold parseAction. cbn [app].
    do 19 (rewrite captureWord_skip by reflexivity).
    rewrite (Hskipw "onUpdate:" _ Hcolon_upd eq_refl).
    apply includes_In in Ha.
    destruct Ha as [<-|[<-|[<-|[<-|[]]]]]; reflexivity.
Qed.

Lemma parseRelation_formatRelation_witness :
  parseRelation "@relation(fields: [post_id], references: [id], onDelete: Cascade)"
  = fkRelation "post_id" "Cascade".
Proof.
  exact (@parseRelation_formatRelation "post_id" "Cascade" eq_refl eq_refl).
Defined.

(** ** What validation guarantees *)

Lemma runChecks_nil e cks input sofar :
  Zod.runChecks e cks input sofar = [] -> sofar = [].
Proof.
  intros H. destruct (runChecks_extends e cks input sofar) as [extra E].
  rewrite H in E. symmetry in E. now apply app_eq_nil in E as [-> _].
Qed.

Lemma parse_checked_nil e inner cks input :
  Zod.parseWith e (Zod.ZChecked inner cks) input = [] ->
  Zod.parseWith e inner input = [] /\ Zod.runChecks e cks input [] = [].
Proof.
  rewrite parse_checked. intros H.
  pose proof (runChecks_nil _ _ _ _ H) as E. rewrite E in H. now split.
Qed.

Lemma prefixIssues_nil seg l : Zod.prefixIssues seg l = [] -> l = [].
Proof. now destruct l. Qed.

Lemma parse_object_nil e shape input :
  Zod.parseWith e (Zod.ZObject shape) input = [] ->
  exists props,
    input = Zod.JObj props
    /\ forall key el, In (key, el) shape ->
         Zod.parseWith e el (Zod.lookup key props) = [].
Proof.
  destruct input as [| | | | | |props]; try discriminate.
  rewrite parse_object. intros H. exists props. split; [reflexivity|].
  intros key el Hin. induction shape as [|[k s] shape IH]; [easy|].
  cbn [flat_map fst snd] in H. apply app_eq_nil in H as [H1 H2].
  destruct Hin as [E|Hin]; [|now apply IH].
  injection E as -> ->. now apply prefixIssues_nil in H1.
Qed.

Lemma parseItems_nil (pe : Zod.json -> list Zod.issue) items : forall i,
  Zod.parseItems pe i items = [] -> Forall (fun item => pe item = []) items.
Proof.
  induction items as [|item items IH]; intros i H; [constructor|].
  cbn [Zod.parseItems] in H. apply app_eq_nil in H as [H1 H2].
  constructor; [now apply prefixIssues_nil in H1 | now apply (IH (S i))].
Qed.

Lemma parse_string_nil e input :
  Zod.parseWith e Zod.ZString input = [] -> exists s, input = Zod.JStr s.
Proof. destruct input; try discriminate. now eexists. Qed.

Lemma nonEmptyString_accepts input :
  Zod.parse Zod.nonEmptyString input = [] ->
  exists s, input = Zod.JStr s /\ s <> [].
Proof.
  unfold Zod.parse, Zod.nonEmptyString. intros H.
  apply parse_checked_nil in H as [Hs Hc].
  apply parse_string_nil in Hs as [s ->]. exists s. split; [reflexivity|].
  intros ->. discriminate.
Qed.

Lemma slugString_accepts input :
  Zod.parse Zod.slugString input = [] ->
  exists s, input = Zod.JStr s /\ Zod.SLUG s = true.
Proof.
  unfold Zod.parse, Zod.slugString. intros H.
  apply parse_checked_nil in H as [Hs Hc].
  apply parse_string_nil in Hs as [s ->]. exists s. split; [reflexivity|].
  simpl in Hc. destruct (length s <? 1); [discriminate|].
  simpl in Hc. now destruct (Zod.SLUG s).
Qed.

Lemma fieldKey_accepts e input :
  Zod.parseWith e
    (Zod.ZChecked Zod.ZString
       [Zod.MinLength 1; Zod.Regex Zod.SLUG_SOURCE Zod.SLUG;
        Zod.Refine Zod.notReserved Zod.RESERVED_FIELD_KEY []]) input = []
  <-> exists key,
        input = Zod.JStr key /\ Zod.SLUG key = true
        /\ Js.includes key Zod.RESERVED_SYSTEM = false.
Proof.
  rewrite parse_checked. split.
  - intros H. pose proof (runChecks_nil _ _ _ _ H) as Hs.
    apply parse_string_nil in Hs as [key ->]. exists key.
    split; [reflexivity|]. simpl in H.
    destruct (length key <? 1); [discriminate|]. simpl in H.
    rewrite andb_false_r in H.
    destruct (Zod.SLUG key); [|discriminate]. simpl in H.
    rewrite andb_false_r in H. split; [reflexivity|].
    change (Js.eqb key "id"
            || (Js.eqb key "created_at" || (Js.eqb key "updated_at" || false)))
      with (Js.includes key Zod.RESERVED_SYSTEM) in H.
    now destruct (Js.includes key Zod.RESERVED_SYSTEM).
  - intros (key & -> & Hslug & Hres).
    destruct key as [|c key]; [discriminate|].
    cbn [Zod.parseWith Zod.runChecks Zod.runCheck Zod.lengthOf app length
         Nat.ltb Nat.leb Zod.aborted existsb andb negb].
    rewrite andb_false_r, Hslug.
    cbn [Zod.aborted existsb andb negb app Zod.notReserved].
    rewrite andb_false_r, Hres. reflexivity.
Qed.

Lemma enum_accepts e values input :
  Zod.parseWith e (Zod.ZEnum values) input = [] ->
  exists v, input = Zod.JStr v /\ Js.includes v values = true.
Proof.
  destruct input as [| | | |v| |]; try discriminate. simpl.
  destruct (Js.includes v values) eqn:E; [|discriminate].
  intros _. now exists v.
Qed.

Lemma field_accepts item :
  Zod.parse Zod.FieldDefinitionSchema item = [] -> acceptedField item.
Proof.
  unfold Zod.parse, Zod.FieldDefinitionSchema. intros H.
  apply parse_object_nil in H as (props & -> & Hp).
  pose proof (Hp "key" _ (or_introl eq_refl)) as Hkey.
  pose proof (Hp "label" _ (or_intror (or_introl eq_refl))) as Hlabel.
  pose proof (Hp "type" _ (or_intror (or_intror (or_introl eq_refl))))
    as Htype.
  apply fieldKey_accepts in Hkey as (key & Ek & Hslug & Hres).
  apply nonEmptyString_accepts in Hlabel as (label & El & Hl).
  apply enum_accepts in Htype as (kind & Et & Hk).
  exists props, key, label, kind. repeat split; auto.
  apply includes_In in Hk. apply includes_In. simpl in Hk. simpl.
  intuition.
Qed.

(** X24: what an accepted model definition is: an object with a slug, a
    non-empty name and at least one field; every field an object with a
    slug-shaped key that is not reserved, a non-empty label and one of
    the ten kinds; no key twice. *)
Theorem accepted_model (raw : Zod.json) :
  Zod.accepts Zod.ModelConfigSchema raw = true ->
  exists props slug name items,
    raw = Zod.JObj props
    /\ Zod.lookup "slug" props = Zod.JStr slug /\ Zod.SLUG slug = true
    /\ Zod.lookup "name" props = Zod.JStr name /\ name <> []
    /\ Zod.lookup "fields" props = Zod.JArr items /\ items <> []
    /\ Forall acceptedField items
    /\ Zod.distinct (Zod.fieldKeys raw) = true.
Proof.
  unfold Zod.accepts, Zod.parse, Zod.ModelConfigSchema. intros H.
  destruct (Zod.parseWith false _ raw) eqn:E; [clear H|discriminate].
  apply parse_checked_nil in E as [Hbase Hunique].
  unfold Zod.ModelConfigSchemaBase in Hbase.
  apply parse_object_nil in Hbase as (props & -> & Hp).
  pose proof (Hp "slug" _ (or_introl eq_refl)) as Hslug.
  pose proof (Hp "name" _ (or_intror (or_introl eq_refl))) as Hname.
  pose proof (Hp "fields" _ (or_intror (or_intror (or_introl eq_refl))))
    as Hfields.
  apply slugString_accepts in Hslug as (slug & Es & Hs).
  apply nonEmptyString_accepts in Hname as (name & En & Hn).
  apply parse_checked_nil in Hfields as [Harr Hmin].
  destruct (Zod.lookup "fields" props) as [| | | | |items|] eqn:Ef;
    try discriminate.
  cbn [Zod.parseWith] in Harr. apply parseItems_nil in Harr.
  exists props, slug, name, items. repeat split; auto.
  - intros ->. discriminate.
  - eapply Forall_impl; [|exact Harr]. intros item. apply field_accepts.
  - cbn [Zod.runChecks Zod.runCheck Zod.aborted existsb andb app] in Hunique.
    unfold Zod.uniqueKeys in Hunique.
    now destruct (Zod.distinct (Zod.fieldKeys (Zod.JObj props))).
Qed.

Lemma accepted_model_witness :
  exists props items,
    Samples.rawArticleWithAuthor = Zod.JObj props
    /\ Zod.lookup "fields" props = Zod.JArr items
    /\ Forall acceptedField items.
Proof.
  destruct (@accepted_model Samples.rawArticleWithAuthor eq_refl)
    as (props & slug & name & items & E & _ & _ & _ & _ & Ef & _ & Hall & _).
  now exists props, items.
Defined.

(** ** The key helpers *)

(** X25: [validateFieldKey] in the model context decides what the schema
    of a field key decides; in the component context it also refuses
    the A/B keys, and every refused reserved key, a system key too, is
    reported with the A/B message. *)
Theorem validateFieldKey_schema (key : str) :
  (exists keySchema,
     propertySchema "key" Zod.FieldDefinitionSchema = Some keySchema
     /\ (valid (validateFieldKey key ModelKey) = true
         <-> Zod.accepts keySchema (Zod.JStr key) = true))
  /\ (valid (validateFieldKey key ComponentKey) = true
      <-> valid (validateFieldKey key ModelKey) = true
          /\ Js.includes key Zod.RESERVED_COMPONENT_AB_TESTING = false)
  /\ (Zod.SLUG key = true ->
      isReservedFieldKey key ComponentKey = true ->
      error (validateFieldKey key ComponentKey) = Some Zod.RESERVED_AB_FIELD)
  /\ (forall context,
        error (validateFieldKey key context) = None
        <-> valid (validateFieldKey key context) = true).
Proof.
  split; [|split; [|split]].
  - exists (Zod.ZChecked Zod.ZString
              [Zod.MinLength 1; Zod.Regex Zod.SLUG_SOURCE Zod.SLUG;
               Zod.Refine Zod.notReserved Zod.RESERVED_FIELD_KEY []]).
    split; [reflexivity|]. unfold Zod.accepts, Zod.parse.
    unfold validateFieldKey, isReservedFieldKey.
    split.
    + intros H.
      destruct (Zod.SLUG key) eqn:Es; [|discriminate]. cbn [negb] in H.
      destruct (Js.includes key Zod.RESERVED_SYSTEM) eqn:Er; [discriminate|].
      assert (E : Zod.parseWith false
                    (Zod.ZChecked Zod.ZString
                       [Zod.MinLength 1; Zod.Regex Zod.SLUG_SOURCE Zod.SLUG;
                        Zod.Refine Zod.notReserved Zod.RESERVED_FIELD_KEY []])
                    (Zod.JStr key) = [])
        by (apply fieldKey_accepts; now exists key).
      now rewrite E.
    + intros H.
      destruct (Zod.parseWith false _ (Zod.JStr key)) eqn:E; [|discriminate].
      apply fieldKey_accepts in E as (k & Ek & Hs & Hr).
      injection Ek as <-. now rewrite Hs, Hr.
  - unfold validateFieldKey, isReservedFieldKey.
    destruct (Zod.SLUG key); cbn [negb valid];
      [|split; [discriminate | now intros [H _]]].
    destruct (Js.includes key Zod.RESERVED_SYSTEM); cbn [orb valid];
      [split; [discriminate | now intros [H _]]|].
    destruct (Js.includes key Zod.RESERVED_COMPONENT_AB_TESTING);
      cbn [valid]; split; auto; try discriminate. now intros [_ H].
  - intros Hs Hr. unfold validateFieldKey. now rewrite Hs, Hr.
  - intros context. unfold validateFieldKey.
    destruct (negb (Zod.SLUG key)); [split; discriminate|].
    destruct (isReservedFieldKey key context); split; auto; discriminate.
Qed.

Lemma validateFieldKey_schema_witness :
  error (validateFieldKey "id" ComponentKey) = Some Zod.RESERVED_AB_FIELD
  /\ valid (validateFieldKey "variant_id" ModelKey) = true.
Proof.
  split.
  - exact (proj1 (proj2 (proj2 (validateFieldKey_schema "id")))
                 eq_refl eq_refl).
  - reflexivity.
Defined.

(** ** Reading the rows *)

Lemma readRow_Ok locale parsed row model :
  readRow locale parsed row = Ok model
  <-> exists raw,
        row_definition row = Ok raw
        /\ Zod.accepts Zod.ModelConfigSchema raw = true
        /\ model = parsed raw.
Proof.
  unfold readRow, Zod.accepts. destruct (row_definition row) as [t|m].
  - destruct (Zod.parse Zod.ModelConfigSchema t) eqn:E; split.
    + intros H. injection H as <-. exists t. now rewrite E.
    + intros (raw & H & _ & ->). now injection H as ->.
    + discriminate.
    + intros (raw & H & Ha & _). injection H as ->. now rewrite E in Ha.
  - split; [discriminate | now intros (raw & H & _)].
Qed.

(** X26: [readRows] gives all definitions or none: it returns what
    [ModelConfigSchema.parse] returns for the definitions of the rows,
    in order, exactly when every row parses and is accepted; otherwise
    it throws what the first such row throws. *)
Theorem readRows_all_or_nothing (locale : Zod.IssueKind -> str)
    (parsed : Zod.json -> Zod.json) (rows : list EAVDatabaseRow) :
  (forall models,
     readRows locale parsed rows = Ok models
     <-> exists raws,
           Forall2 (fun row raw =>
                      row_definition row = Ok raw
                      /\ Zod.accepts Zod.ModelConfigSchema raw = true)
                   rows raws
           /\ models = map parsed raws)
  /\ (forall failure,
        readRows locale parsed rows = Throw failure ->
        exists before row after,
          rows = before ++ row :: after
          /\ forallb rowValid before = true
          /\ rowValid row = false
          /\ readRow locale parsed row = Throw failure).
Proof.
  split.
  - induction rows as [|row rows IH]; intros models.
    + simpl. split.
      * intros H. injection H as <-. exists []. split; constructor.
      * intros (raws & H & ->). now inversion H.
    + cbn [readRows]. split.
      * intros H. destruct (readRow locale parsed row) as [m|] eqn:Er;
          [|discriminate].
        cbn [bind] in H.
        destruct (readRows locale parsed rows) as [ms|] eqn:Ers;
          [|discriminate].
        cbn [bind] in H. injection H as <-.
        apply readRow_Ok in Er as (raw & Ed & Ha & ->).
        destruct (proj1 (IH ms) eq_refl) as (raws & Hraws & ->).
        exists (raw :: raws). split; [now constructor | reflexivity].
      * intros (raws & H & ->).
        inversion H as [|r raw rs ms [Hd Ha] Hrs]; subst.
        rewrite (proj2 (readRow_Ok locale parsed row (parsed raw)))
          by (now exists raw).
        cbn [bind].
        rewrite (proj2 (IH (map parsed ms))) by (now exists ms).
        reflexivity.
  - induction rows as [|row rows IH]; intros failure H; [discriminate|].
    cbn [readRows] in H.
    destruct (readRow locale parsed row) as [m0|m] eqn:Er.
    + cbn [bind] in H.
      destruct (readRows locale parsed rows) as [ms|m] eqn:Ers;
        [discriminate|].
      cbn [bind] in H. injection H as <-.
      destruct (IH m eq_refl) as (before & r & after & -> & Hb & Hr & E).
      exists (row :: before), r, after. repeat split; auto.
      simpl. rewrite Hb, andb_true_r.
      apply readRow_Ok in Er as (raw & Ed & Ha & _).
      unfold rowValid. now rewrite Ed.
    + cbn [bind] in H. injection H as <-.
      exists [], row, rows. repeat split; auto.
      unfold rowValid. destruct (row_definition row) as [t|] eqn:Ed;
        [|reflexivity].
      destruct (Zod.accepts Zod.ModelConfigSchema t) eqn:Ea; [|reflexivity].
      assert (Hok : readRow locale parsed row = Ok (parsed t))
        by (apply readRow_Ok; now exists t).
      rewrite Hok in Er. discriminate.
Qed.

Lemma readRows_all_or_nothing_witness :
  exists before row after,
    [Samples.rowOf Samples.rawArticleWithAuthor;
     Samples.rowOf Zod.rawReservedKey;
     Samples.rowOf Zod.rawBadKeyTwice]
    = before ++ row :: after
    /\ forallb rowValid before = true
    /\ row = Samples.rowOf Zod.rawReservedKey.
Proof.
  destruct (readRows Zod.sampleLocale (fun raw => raw)
              [Samples.rowOf Samples.rawArticleWithAuthor;
               Samples.rowOf Zod.rawReservedKey;
               Samples.rowOf Zod.rawBadKeyTwice]) as [ms|failure] eqn:E;
    [vm_compute in E; discriminate|].
  destruct (proj2 (readRows_all_or_nothing Zod.sampleLocale
                     (fun raw => raw) _) failure E)
    as (before & row & after & Erows & Hb & Hr & _).
  exists before, row, after. split; [exact Erows|]. split; [exact Hb|].
  destruct before as [|b0 [|b1 before]].
  - injection Erows as <- _. discriminate.
  - now injection Erows as _ <- _.
  - injection Erows as <- <- _. discriminate.
Defined.

(** ** Validation comments *)

Lemma string_of_uint_digits (d : Decimal.uint) :
  forallb isNumberChar
    (String.list_ascii_of_string (DecimalString.NilEmpty.string_of_uint d))
  = true.
Proof. induction d; simpl; auto. Qed.

Lemma ofNat_digits (n : nat) : forallb isNumberChar (Js.ofNat n) = true.
Proof.
  unfold Js.ofNat, DecimalString.NilZero.string_of_uint.
  pose proof (string_of_uint_digits (Nat.to_uint n)) as H.
  now destruct (Nat.to_uint n).
Qed.

Lemma ofZ_digits (z : Z) : forallb isNumberChar (Js.ofZ z) = true.
Proof.
  destruct z; unfold Js.ofZ; apply ofNat_digits.
Qed.

Lemma numberChar_safe (s : str) :
  forallb isNumberChar s = true -> safeText s = true.
Proof. apply forallb_impl. intros c. ascii_cases c. Qed.

Lemma whenSet_safe (o : option Z) (pre : str) :
  safeText pre = true ->
  forallb safeText (whenSet o (fun z => pre ++ Js.ofZ z ++ ")")) = true.
Proof.
  intros H. destruct o as [z|]; [|reflexivity]. simpl.
  rewrite !safeText_app, H, (numberChar_safe _ (ofZ_digits z)).
  reflexivity.
Qed.

Lemma zodParts_safe (v : FieldValidation) :
  (forall p, v_pattern v = Some p -> safeText p = true) ->
  (forall p, v_custom v = Some p -> safeText p = true) ->
  forallb safeText (zodParts v) = true.
Proof.
  intros Hp Hc. unfold zodParts. rewrite !forallb_app.
  repeat match goal with
         | |- _ && _ = true => apply andb_true_iff; split
         end;
    try (apply whenSet_safe; reflexivity);
    try match goal with
        | |- forallb safeText (if ?b then _ else _) = true =>
            destruct b; reflexivity
        end.
  - destruct (v_pattern v) as [[|x p]|] eqn:E; try reflexivity.
    cbn [forallb]. rewrite !safeText_app, (Hp _ eq_refl). reflexivity.
  - destruct (v_custom v) as [[|x p]|] eqn:E; try reflexivity.
    cbn [forallb]. rewrite (Hc _ eq_refl). reflexivity.
Qed.

Lemma buildZodComment_safeText (v : FieldValidation) (c : str) :
  buildZodComment (Some v) = Some c ->
  forallb safeText (zodParts v) = true -> safeText c = true.
Proof.
  unfold buildZodComment. intros H Hparts.
  destruct (zodParts v) as [|p ps]; [discriminate|].
  injection H as <-.
  change (safeText ("/// @zod." ++ Js.join "." (p :: ps)) = true).
  rewrite safeText_app.
  change (safeText "/// @zod.") with true. cbn [andb].
  apply join_forallb; [exact Hparts | reflexivity].
Qed.

(** X27: for a validation whose numbers are integers in the safe range,
    which are printed by their decimal digits, the validation comment of
    a column is one line that starts with [/// @zod.] and stays inside
    its model block, unless the pattern or the custom rule of the
    validation holds a closing brace or a line break. *)
Theorem buildZodComment_safe (v : FieldValidation) (c : str) :
  buildZodComment (Some v) = Some c ->
  forallb isSafeInteger (numbersOf v) = true ->
  (forall p, v_pattern v = Some p -> safeText p = true) ->
  (forall p, v_custom v = Some p -> safeText p = true) ->
  safeText c = true /\ exists t, c = "/// @zod." ++ t.
Proof.
  intros H _ Hp Hc. split; [|exact (@buildZodComment_prefix _ _ H)].
  exact (buildZodComment_safeText _ H (zodParts_safe _ Hp Hc)).
Qed.

Lemma buildZodComment_safe_witness :
  buildZodComment (Some Cases.emailRule)
  = Some "/// @zod.email().min(5).max(100)"
  /\ safeText "/// @zod.email().min(5).max(100)" = true.
Proof.
  split; [reflexivity|].
  refine (proj1 (@buildZodComment_safe Cases.emailRule _ eq_refl eq_refl
                   _ _));
    discriminate.
Defined.

(** ** Defaults *)

Lemma maxWidth_map (measure : PrismaField -> nat)
    (h : PrismaField -> PrismaField) (fields : list PrismaField) :
  (forall f, measure (h f) = measure f) ->
  maxWidth measure (map h fields) = maxWidth measure fields.
Proof.
  intros H. unfold maxWidth. generalize 0.
  induction fields as [|f fields IH]; intros w; [reflexivity|].
  simpl. rewrite H. apply IH.
Qed.

Lemma flat_map_map A B C (h : A -> B) (g : B -> list C) (l : list A) :
  flat_map g (map h l) = flat_map (fun x => g (h x)) l.
Proof.
  induction l as [|x l IH]; [reflexivity|]. simpl. now rewrite IH.
Qed.

(** X28: the text of a model does not depend on the default values of its
    columns: the writer never reads them, so a default taken from a
    number or boolean config, or the [true] of the A/B column [enabled],
    does not reach the schema. *)
Theorem writeModel_ignores_defaults (d : PrismaField -> option DefaultValue)
    (m : PrismaModel) :
  writeModel (withDefaults d m) = writeModel m.
Proof.
  unfold writeModel, withDefaults, blockAttributes.
  cbn [pm_name pm_fields pm_indexes pm_unique pm_map].
  rewrite !maxWidth_map by reflexivity.
  rewrite flat_map_map. reflexivity.
Qed.

(** ** The tables of a run are well formed *)

Lemma slugTail_safe (c : ascii) :
  Zod.isSlugTail c = true -> tokenChar c = true.
Proof. ascii_cases c. Qed.

Lemma word_tokenChar (c : ascii) : Js.isWord c = true -> tokenChar c = true.
Proof. ascii_cases c. Qed.

Lemma lower_startsColumn (c : ascii) (s : str) :
  Js.isLower c = true -> startsColumn (c :: s) = true.
Proof. unfold startsColumn. ascii_cases c. Qed.

Lemma word_startsColumn (c : ascii) (s : str) :
  Js.isWord c = true -> startsColumn (c :: s) = true.
Proof. unfold startsColumn. ascii_cases c. Qed.

(** A key and its foreign-key column are column names. *)
Lemma slug_column (s suffix : str) :
  Zod.SLUG s = true -> forallb Js.isWord suffix = true ->
  isToken (s ++ suffix) = true /\ startsColumn (s ++ suffix) = true.
Proof.
  intros H Hs. pose proof (slug_chars _ H) as Hc.
  destruct s as [|c s]; [discriminate|]. simpl in H.
  apply andb_true_iff in H as [Hl _].
  split; [|now apply lower_startsColumn].
  unfold isToken. cbn [app isNonEmpty andb].
  change (c :: s ++ suffix) with ((c :: s) ++ suffix).
  rewrite forallb_app.
  rewrite (forallb_impl _ _ _ slugTail_safe Hc).
  exact (forallb_impl _ _ _ word_tokenChar Hs).
Qed.

Lemma word_column (s : str) :
  isNonEmpty s = true -> forallb Js.isWord s = true ->
  isToken s = true /\ startsColumn s = true.
Proof.
  intros Hne Hw. destruct s as [|c s]; [discriminate|].
  split.
  - unfold isToken. cbn [isNonEmpty andb].
    exact (forallb_impl _ _ _ word_tokenChar Hw).
  - simpl in Hw. apply andb_true_iff in Hw as [Hc _].
    now apply word_startsColumn.
Qed.

Lemma word_safe (s : str) : forallb Js.isWord s = true -> safeText s = true.
Proof.
  intros H. apply token_safe. exact (forallb_impl _ _ _ word_tokenChar H).
Qed.

(** A type made of word characters has no marker at its end. *)
Lemma word_type (s : str) :
  isNonEmpty s = true -> forallb Js.isWord s = true ->
  isToken s = true /\ Js.endsWith "?" s = false
  /\ Js.endsWith "[]" s = false.
Proof.
  intros Hne Hw. split; [exact (proj1 (word_column _ Hne Hw))|].
  unfold Js.endsWith. rewrite <- forallb_rev in Hw.
  destruct (rev s) as [|c r]; [split; reflexivity|].
  simpl in Hw. apply andb_true_iff in Hw as [Hc _].
  cbn [rev app Js.startsWith]. revert Hc. clear.
  ascii_cases c; intros _; split; reflexivity.
Qed.

(** *** Names *)

Lemma alnum_words (s : str) :
  forallb isAlnum s = true -> forallb Js.isWord s = true.
Proof. apply forallb_impl. intros c Hc. now apply alnum_word. Qed.

Lemma toPascalCase_word (s : str) :
  Zod.SLUG s = true ->
  forallb Js.isWord (Naming.toPascalCase s) = true
  /\ existsb Js.isUpper (Naming.toPascalCase s) = true.
Proof.
  intros H. split.
  - apply alnum_words, toPascalCase_alnum. now apply slug_chars.
  - destruct (toPascalCase_head _ H) as (c & rest & -> & Hc).
    simpl. now rewrite Hc.
Qed.

Lemma isTableName_elim (s : str) :
  isTableName s = true ->
  forallb Js.isWord s = true /\ existsb Js.isUpper s = true
  /\ isNonEmpty s = true.
Proof.
  unfold isTableName. intros H. apply andb_true_iff in H as [Hw Hu].
  repeat split; auto. now destruct s.
Qed.

Lemma isTableName_app (a b : str) :
  forallb Js.isWord a = true -> forallb Js.isWord b = true ->
  existsb Js.isUpper a = true \/ existsb Js.isUpper b = true ->
  isTableName (a ++ b) = true.
Proof.
  intros Ha Hb Hu. unfold isTableName.
  rewrite forallb_app, Ha, Hb, existsb_app. simpl.
  destruct Hu as [->| ->]; [reflexivity | apply orb_true_r].
Qed.

Lemma buildModelName_table (slug : str) (config : SchemaBuilderConfig) :
  Zod.SLUG slug = true -> namingSafe config = true ->
  isTableName (buildModelName slug config) = true.
Proof.
  intros Hs Hn. unfold namingSafe in Hn. apply andb_true_iff in Hn as [Hp _].
  destruct (toPascalCase_word _ Hs) as [Hw Hu].
  unfold buildModelName. destruct (prefix config) as [[|c p]|].
  - unfold isTableName. now rewrite Hw, Hu.
  - apply isTableName_app; auto.
  - unfold isTableName. now rewrite Hw, Hu.
Qed.

Lemma toSnakeCase_word (s : str) :
  forallb Js.isWord s = true -> forallb Js.isWord (Naming.toSnakeCase s) = true.
Proof.
  intros H. apply toSnakeCase_chars; [reflexivity| |].
  - intros c. ascii_cases c.
  - eapply forallb_impl; [|exact H]. intros c Hc. rewrite Hc.
    apply orb_true_r.
Qed.

Lemma flat_map_length_ge A B (f : A -> list B) (l : list A) :
  (forall x, 1 <= length (f x)) -> length l <= length (flat_map f l).
Proof.
  intros H. induction l as [|x l IH]; [reflexivity|].
  simpl. rewrite length_app. specialize (H x). lia.
Qed.

Lemma toSnakeCase_nonempty (s : str) :
  existsb Js.isUpper s = true \/ 2 <= length s ->
  isNonEmpty (Naming.toSnakeCase s) = true.
Proof.
  intros H. unfold Naming.toSnakeCase.
  set (step := fun c => if Js.isUpper c then ["_"%char; Js.lowerChar c]
                        else [c]).
  assert (Hstep : forall c, 1 <= length (step c))
    by (intros c; unfold step; destruct (Js.isUpper c); simpl; lia).
  assert (Hlen : 2 <= length (flat_map step s)).
  { destruct H as [H|H].
    - induction s as [|c s IH]; [discriminate|]. simpl in H.
      cbn [flat_map]. rewrite length_app.
      destruct (Js.isUpper c) eqn:E.
      + unfold step at 1. rewrite E. simpl. lia.
      + simpl in H. specialize (IH H). specialize (Hstep c). lia.
    - pose proof (flat_map_length_ge step s Hstep). lia. }
  destruct (flat_map step s) as [|c [|d rest]]; simpl in Hlen; try lia.
  now destruct (Ascii.eqb c "_").
Qed.

Lemma snake_name (s : str) :
  isTableName s = true ->
  forallb Js.isWord (Naming.toSnakeCase s) = true
  /\ isNonEmpty (Naming.toSnakeCase s) = true.
Proof.
  intros H. destruct (isTableName_elim _ H) as (Hw & Hu & _).
  split; [now apply toSnakeCase_word | apply toSnakeCase_nonempty; now left].
Qed.

Lemma forallb_firstn A (p : A -> bool) (n : nat) (l : list A) :
  forallb p l = true -> forallb p (firstn n l) = true.
Proof.
  revert n. induction l as [|x l IH]; intros [|n] H; try reflexivity.
  simpl in *. apply andb_true_iff in H as [Hx Hl].
  now rewrite Hx, (IH n Hl).
Qed.

Lemma singularize_chars (p : ascii -> bool) (key : str) :
  forallb p key = true -> forallb p (singularize key) = true.
Proof.
  intros H. unfold singularize, Js.dropEnd.
  destruct (Js.endsWith "s" key); [now apply forallb_firstn | exact H].
Qed.

Lemma toPascalCase_words (s : str) :
  forallb Zod.isSlugTail s = true ->
  forallb Js.isWord (Naming.toPascalCase s) = true.
Proof. intros H. now apply alnum_words, toPascalCase_alnum. Qed.

Lemma buildComponentTableName_table (parent key : str)
    (config : SchemaBuilderConfig) :
  isTableName parent = true -> Zod.SLUG key = true ->
  match convention config with
  | snake_case => forallb Js.isWord key
  | _ => true
  end = true ->
  let n := buildComponentTableName parent key config in
  forallb Js.isWord n = true /\ isNonEmpty n = true
  /\ isNonEmpty (Naming.toSnakeCase n) = true.
Proof.
  intros Hp Hk Hs. destruct (isTableName_elim _ Hp) as (Hw & Hu & Hne).
  pose proof (slug_chars _ Hk) as Hc.
  unfold buildComponentTableName.
  destruct (convention config).
  - destruct (snake_name _ Hp) as [Hsw Hsn]. cbv zeta.
    repeat split.
    + rewrite !forallb_app, Hsw. simpl. now apply singularize_chars.
    + now destruct (Naming.toSnakeCase parent).
    + apply toSnakeCase_nonempty. right. rewrite length_app.
      destruct (Naming.toSnakeCase parent); [discriminate|]. simpl. lia.
  - cbv zeta.
    assert (Ht : isTableName
                   (parent ++ Naming.toPascalCase (singularize key)) = true).
    { apply isTableName_app; auto.
      apply toPascalCase_words. now apply singularize_chars. }
    destruct (isTableName_elim _ Ht) as (H1 & H2 & H3).
    repeat split; auto. exact (proj2 (snake_name _ Ht)).
  - cbv zeta.
    assert (Ht : isTableName
                   (parent ++ Naming.toPascalCase (singularize key)) = true).
    { apply isTableName_app; auto.
      apply toPascalCase_words. now apply singularize_chars. }
    destruct (isTableName_elim _ Ht) as (H1 & H2 & H3).
    repeat split; auto. exact (proj2 (snake_name _ Ht)).
Qed.

Lemma hyphensToUnderscores_word (s : str) :
  forallb Zod.isSlugTail s = true ->
  forallb Js.isWord (hyphensToUnderscores s) = true.
Proof.
  intros H. unfold hyphensToUnderscores. rewrite forallb_map.
  eapply forallb_impl; [|exact H]. intros c. unfold isHyphen.
  ascii_cases c.
Qed.

Lemma toModelName_word (slug : str) (config : SchemaBuilderConfig) :
  Zod.SLUG slug = true ->
  forallb Js.isWord (toModelName slug config) = true
  /\ isNonEmpty (toModelName slug config) = true.
Proof.
  intros H. destruct (toPascalCase_word _ H) as [Hw _].
  destruct (toPascalCase_head _ H) as (c & rest & E & Hc).
  unfold toModelName. destruct (convention config).
  - split; [apply hyphensToUnderscores_word; now apply slug_chars|].
    now destruct slug.
  - unfold Naming.toCamelCase. rewrite E in *. cbn [Js.charAt0 Js.slice1
      firstn skipn Js.toLowerCase map app]. split; [|reflexivity].
    simpl in Hw. apply andb_true_iff in Hw as [_ Hr].
    cbn [forallb]. rewrite Hr, andb_true_r. revert Hc. clear.
    ascii_cases c.
  - rewrite E in *. now split.
Qed.

(** *** Columns *)

Lemma validationSafe_comment (v : option FieldValidation) :
  validationSafe v = true ->
  match buildZodComment v with
  | Some c => safeText c
  | None => true
  end = true.
Proof.
  intros H. destruct (buildZodComment v) as [c|] eqn:E; [|reflexivity].
  destruct v as [v|]; [|discriminate].
  simpl in H. apply andb_true_iff in H as [Hp Hc].
  apply (buildZodComment_safeText _ E). apply zodParts_safe.
  - intros p Ep. now rewrite Ep in Hp.
  - intros p Ep. now rewrite Ep in Hc.
Qed.

Lemma wfColumn_intro (f : PrismaField) :
  isToken (name f) = true -> startsColumn (name f) = true ->
  isNonEmpty (type f) = true -> forallb Js.isWord (type f) = true ->
  safeText (fieldTrailer f) = true ->
  validationSafe (validation f) = true ->
  wfColumn f = true.
Proof.
  intros Hn Hs Hne Hw Ht Hv. unfold wfColumn.
  destruct (word_type _ Hne Hw) as (H1 & H2 & H3).
  rewrite Hn, Hs, H1, H2, H3, Ht. simpl.
  now apply validationSafe_comment.
Qed.

(** A column without attributes: a name, a type, flags, maybe a
    validation. *)
Lemma wfColumn_plain (n t : str) (o l : bool) (d : option DefaultValue)
    (v : option FieldValidation) :
  isToken n = true -> startsColumn n = true ->
  isNonEmpty t = true -> forallb Js.isWord t = true ->
  validationSafe v = true ->
  wfColumn (withValidation v
              (withDefault d (withOptional o (withList l (field n t)))))
  = true.
Proof. intros. now apply wfColumn_intro. Qed.

Lemma fk_relation_safe (fk action : str) :
  isNonEmpty action = true ->
  safeText fk = true -> safeText action = true ->
  safeText (" " ++ formatRelation (fkRelation fk action)) = true.
Proof.
  intros Hne Hf Ha. rewrite formatRelation_fk by exact Hne.
  now rewrite !safeText_app, Hf, Ha.
Qed.

(** The relation column to the parent table. *)
Lemma wfColumn_parent (parent : str) :
  isTableName parent = true ->
  wfColumn (withRelation
              (fkRelation (Naming.toSnakeCase parent ++ "_id") "Cascade")
              (field (Naming.toSnakeCase parent) parent)) = true.
Proof.
  intros H. destruct (isTableName_elim _ H) as (Hw & _ & Hne).
  destruct (snake_name _ H) as [Hsw Hsn].
  destruct (word_column _ Hsn Hsw) as [Ht Hs].
  apply wfColumn_intro; auto.
  unfold fieldTrailer. cbn [attributes relation map_ withRelation field app].
  rewrite app_nil_r. apply fk_relation_safe; [reflexivity| |reflexivity].
  rewrite safeText_app. now rewrite (word_safe _ Hsw).
Qed.

Lemma wfColumn_fk (n : str) (attrs : list str) :
  isNonEmpty n = true -> forallb Js.isWord n = true ->
  forallb safeText attrs = true ->
  wfColumn (withAttributes attrs (field (n ++ "_id") "String")) = true.
Proof.
  intros Hne Hw Ha.
  assert (Hw' : forallb Js.isWord (n ++ "_id") = true)
    by (now rewrite forallb_app, Hw).
  assert (Hne' : isNonEmpty (n ++ "_id") = true) by (now destruct n).
  destruct (word_column _ Hne' Hw') as [Ht Hs].
  apply wfColumn_intro; auto.
  unfold fieldTrailer. cbn [attributes relation map_ withAttributes field].
  rewrite !app_nil_r. destruct attrs as [|a l]; [reflexivity|].
  apply join_forallb; [exact Ha | reflexivity].
Qed.

Lemma fieldNamesSafe_elim config f :
  fieldNamesSafe config f = true ->
  Zod.SLUG (fd_key f) = true /\ validationSafe (fd_validation f) = true
  /\ match fd_config f with
     | Some (RelationConfig _ targetModel _) => Zod.SLUG targetModel
     | Some (ComponentConfig slug _ _) => Zod.SLUG slug
     | _ => true
     end = true
  /\ match isComponentType f, convention config with
     | true, snake_case => forallb Js.isWord (fd_key f)
     | _, _ => true
     end = true.
Proof.
  unfold fieldNamesSafe. intros H.
  apply andb_true_iff in H as [H H4]. apply andb_true_iff in H as [H H3].
  apply andb_true_iff in H as [H1 H2]. auto.
Qed.

(** One column, whose name and type are at hand. *)
Ltac column_wf :=
  cbn [forallb]; rewrite andb_true_r; apply wfColumn_intro;
  first [assumption | reflexivity].

Lemma mapFieldToPrisma_wf f config cols :
  mapFieldToPrisma f config = Ok cols ->
  fieldNamesSafe config f = true ->
  forallb wfColumn cols = true.
Proof.
  intros H Hsafe.
  destruct (fieldNamesSafe_elim _ _ Hsafe) as (Hk & Hv & Hc & _).
  destruct (@slug_column (fd_key f) [] Hk eq_refl) as [Hn Hs].
  rewrite app_nil_r in Hn, Hs.
  destruct (@slug_column (fd_key f) "_id" Hk eq_refl) as [Hn' Hs'].
  revert H. kind_cases f; intros H; try discriminate;
    try (injection H as <-).
  - column_wf.
  - column_wf.
  - unfold mapNumberField.
    destruct (fd_config f) as [[| |[fmt|] dflt| | | | | | |]|];
      try column_wf.
    destruct (Js.eqb fmt "integer"); column_wf.
  - column_wf.
  - column_wf.
  - unfold mapSelectField.
    destruct (fd_config f) as [[| | | |[]| | | | |]|]; column_wf.
  - column_wf.
  - unfold mapMediaField.
    destruct (mediaIsMultiple f && hasMediaModel config);
      [|destruct (hasMediaModel config)]; column_wf.
  - unfold mapRelationField in H.
    destruct (fd_config f) as [[| | | | | | |rt tm c| |]|]; try discriminate.
    destruct (toModelName_word tm config Hc) as [Hw Hne].
    destruct (Js.eqb rt "oneToOne");
      [|destruct (Js.eqb rt "manyToOne");
        [|destruct (Js.eqb rt "oneToMany");
          [|destruct (Js.eqb rt "manyToMany"); [|discriminate]]]];
      injection H as <-; column_wf.
  - unfold mapComponentField in H.
    destruct (fd_config f) as [[| | | | | | | |slug rep ctx|]|];
      try discriminate.
    destruct (toModelName_word slug config Hc) as [Hw Hne].
    destruct rep; injection H as <-; column_wf.
Qed.

Lemma mapped_wf config fields cols :
  flatMapR (fun f => mapFieldToPrisma f config) fields = Ok cols ->
  (forall f, In f fields -> fieldNamesSafe config f = true) ->
  forallb wfColumn cols = true.
Proof.
  intros H Hall. apply forallb_forall. intros col Hcol.
  destruct (flatMapR_Ok_elim _ _ H col Hcol) as (f & cs & Hf & Ef & Hin).
  pose proof (mapFieldToPrisma_wf _ _ Ef (Hall f Hf)) as Hwf.
  rewrite forallb_forall in Hwf. now apply Hwf.
Qed.

(** *** Tables *)

Lemma blockAttributes_safe (m : PrismaModel) :
  forallb (forallb safeText) (nonEmptyRows (pm_indexes m)) = true ->
  forallb (forallb safeText) (nonEmptyRows (pm_unique m)) = true ->
  match pm_map m with Some n => safeText n | None => true end = true ->
  forallb safeText (blockAttributes m) = true.
Proof.
  intros Hi Hu Hm. unfold blockAttributes.
  assert (Hrow : forall (pre : str) rows,
            safeText pre = true ->
            forallb (forallb safeText) rows = true ->
            forallb safeText
              (map (fun r => pre ++ Js.join ", " r ++ "])") rows) = true).
  { intros pre rows Hpre Hrows. rewrite forallb_map.
    eapply forallb_impl; [|exact Hrows]. intros r Hr.
    rewrite !safeText_app, Hpre. cbn [andb].
    unfold safeText at 1.
    rewrite (@join_forallb safeChar ", " r Hr eq_refl). reflexivity. }
  rewrite !forallb_app. repeat (apply andb_true_iff; split).
  - destruct (nonEmptyRows (pm_indexes m)) as [|ix ixs]; [reflexivity|].
    change ([""] ++ ?l) with ("" :: l). cbn [app forallb safeText].
    exact (Hrow "  @@index([" (ix :: ixs) eq_refl Hi).
  - destruct (nonEmptyRows (pm_unique m)) as [|u us]; [reflexivity|].
    rewrite forallb_app. apply andb_true_iff. split.
    + now destruct (isEmptyRows (pm_indexes m)).
    + exact (Hrow "  @@unique([" (u :: us) eq_refl Hu).
  - destruct (pm_map m) as [[|c n]|]; try reflexivity.
    rewrite forallb_app. apply andb_true_iff. split.
    + now destruct (isEmptyRows (pm_indexes m) && isEmptyRows (pm_unique m)).
    + cbn [forallb]. unfold quoted. rewrite !safeText_app, Hm. reflexivity.
Qed.

Lemma wfTable_intro (m : PrismaModel) :
  isNonEmpty (pm_name m) = true -> forallb Js.isWord (pm_name m) = true ->
  forallb wfColumn (pm_fields m) = true ->
  forallb (forallb safeText) (nonEmptyRows (pm_indexes m)) = true ->
  forallb (forallb safeText) (nonEmptyRows (pm_unique m)) = true ->
  match pm_map m with Some n => safeText n | None => true end = true ->
  wfTable m = true.
Proof.
  intros Hne Hw Hc Hi Hu Hm. unfold wfTable.
  now rewrite Hne, Hw, Hc, (blockAttributes_safe m Hi Hu Hm).
Qed.

Lemma buildIndexes_safe fields settings :
  match settings with
  | Some {| sortField := Some s |} => safeText s
  | _ => true
  end = true ->
  forallb (forallb safeText) (buildIndexes fields settings) = true.
Proof.
  intros H. unfold buildIndexes.
  destruct settings as [[i [[|c s]|]]|];
    destruct (hasKey "status" fields && hasKey "published_at" fields);
    cbn [app forallb]; rewrite ?H; reflexivity.
Qed.

Lemma word_not_dollar (c : ascii) :
  Js.isWord c = true -> notChar "$"%char c = true.
Proof. ascii_cases c. Qed.

Lemma replaceFrom_safe (pat rep s : str) :
  forallb Js.isWord rep = true ->
  forall before,
    safeText (replaceFrom pat "" before s) = true ->
    safeText (replaceFrom pat rep before s) = true.
Proof.
  intros Hr.
  pose proof (forallb_impl _ _ _ word_not_dollar Hr) as Hplain.
  induction s as [|c s IH]; intros before; cbn [replaceFrom].
  - destruct (Js.startsWith pat []); [|auto].
    rewrite (@substitute_plain pat before (skipn (length pat) []) rep
               Hplain).
    cbn [substitute app].
    intros H. now rewrite safeText_app, (word_safe _ Hr).
  - destruct (Js.startsWith pat (c :: s)).
    + rewrite (@substitute_plain pat before (skipn (length pat) (c :: s))
                 rep Hplain).
      cbn [substitute app].
      intros H. now rewrite safeText_app, (word_safe _ Hr).
    + intros H. change (safeText (c :: ?x)) with (safeChar c && safeText x)
        in H |- *.
      apply andb_true_iff in H as [Hc Hs].
      now rewrite Hc, (IH _ Hs).
Qed.

Lemma replaceFirst_safe (pat rep s : str) :
  forallb Js.isWord rep = true ->
  safeText (replaceFirst pat "" s) = true ->
  safeText (replaceFirst pat rep s) = true.
Proof. intros Hr. apply replaceFrom_safe. exact Hr. Qed.

Lemma componentReference_wf (parent : str) (config : SchemaBuilderConfig)
    (f : FieldDefinition) :
  isTableName parent = true -> fieldNamesSafe config f = true ->
  isComponentType f = true ->
  forallb wfColumn (componentReference parent config f) = true.
Proof.
  intros Hp Hsafe Hcomp.
  destruct (fieldNamesSafe_elim _ _ Hsafe) as (Hk & _ & _ & Hsn).
  rewrite Hcomp in Hsn.
  destruct (@slug_column (fd_key f) [] Hk eq_refl) as [Hn Hs].
  rewrite app_nil_r in Hn, Hs.
  unfold componentReference.
  destruct (fd_config f) as [[| | | | | | | |slug rep ctx|]|];
    try reflexivity.
  destruct (@buildComponentTableName_table parent (fd_key f) config Hp Hk)
    as (Hw & Hne & _).
  { now destruct (convention config). }
  column_wf.
Qed.

Lemma translation_name (n : str) :
  isTableName n = true -> isTableName (n ++ "Translation") = true.
Proof.
  intros H. destruct (isTableName_elim _ H) as (Hw & Hu & _).
  apply isTableName_app; auto.
Qed.

(** The translation table of a table. *)
Lemma translationTable_wf (n : str) (mapName : str)
    (cols : list PrismaField) :
  isTableName n = true -> safeText mapName = true ->
  forallb wfColumn cols = true ->
  wfTable
    {| pm_name := n ++ "Translation";
       pm_map := Some mapName;
       pm_fields :=
         [buildIdField; field (Naming.toSnakeCase n ++ "_id") "String";
          field "lang" "String"]
         ++ cols
         ++ [withRelation
               (fkRelation (Naming.toSnakeCase n ++ "_id") "Cascade")
               (field (Naming.toSnakeCase n) n)];
       pm_unique := Some [[Naming.toSnakeCase n ++ "_id"; "lang"]];
       pm_indexes := None |} = true.
Proof.
  intros Hn Hm Hcols.
  destruct (isTableName_elim _ (translation_name _ Hn)) as (Hw & _ & Hne).
  destruct (snake_name _ Hn) as [Hsw Hsn].
  assert (Hfk : forallb Js.isWord (Naming.toSnakeCase n ++ "_id") = true)
    by (now rewrite forallb_app, Hsw).
  apply wfTable_intro; cbn [pm_name pm_fields pm_indexes pm_unique pm_map
                            nonEmptyRows]; auto.
  - rewrite !forallb_app, Hcols. cbn [forallb].
    rewrite (wfColumn_parent _ Hn).
    pose proof (@wfColumn_fk (Naming.toSnakeCase n) [] Hsn Hsw eq_refl) as H.
    unfold wfColumn in *. cbn in H |- *. now rewrite H.
  - cbn [forallb]. now rewrite (word_safe _ Hfk).
Qed.

Lemma flat_map_forallb_In A B (f : A -> list B) (p : B -> bool)
    (l : list A) :
  (forall x, In x l -> forallb p (f x) = true) ->
  forallb p (flat_map f l) = true.
Proof.
  intros H. induction l as [|x l IH]; [reflexivity|].
  simpl. rewrite forallb_app, (H x (or_introl eq_refl)).
  apply IH. intros y Hy. apply H. now right.
Qed.

Lemma translations_link_wf (n : str) (l : bool) (o : bool) :
  isTableName n = true ->
  wfColumn (withOptional o
              (withList l (field "translations" (n ++ "Translation"))))
  = true.
Proof.
  intros H.
  destruct (isTableName_elim _ (translation_name _ H)) as (Hw & _ & Hne).
  now apply wfColumn_intro.
Qed.

Lemma buildModel_wf model config tables :
  buildModel model config = Ok tables ->
  namingSafe config = true -> modelNamesSafe config model = true ->
  forallb wfTable tables = true.
Proof.
  intros H Hn Hm. pose proof Hn as Hn'. unfold namingSafe in Hn'.
  apply andb_true_iff in Hn' as [_ Hpat].
  unfold modelNamesSafe in Hm.
  apply andb_true_iff in Hm as [Hm Hsort].
  apply andb_true_iff in Hm as [Hslug Hfields].
  rewrite forallb_forall in Hfields.
  pose proof (buildModelName_table _ _ Hslug Hn) as Hname.
  destruct (isTableName_elim _ Hname) as (Hw & _ & Hne).
  unfold buildModel in H.
  rewrite separateFields_components in H.
  rewrite separateFields_nonTranslatable, separateFields_translatable in H.
  destruct (flatMapR (fun f => mapFieldToPrisma f config) _)
    as [mapped|] eqn:Em; [|discriminate].
  cbn [bind] in H.
  assert (Hmapped : forallb wfColumn mapped = true).
  { apply (mapped_wf _ _ Em). intros f Hf. apply Hfields.
    destruct (i18nEnabled config);
      [|apply in_app_or in Hf as [Hf|Hf]];
      now apply filter_In in Hf as [Hf _]. }
  assert (Hbase : forall link,
            forallb wfColumn link = true ->
            wfTable
              {| pm_name := buildModelName (m_slug model) config;
                 pm_fields :=
                   [buildIdField] ++ mapped ++ buildTimestampFields
                   ++ flat_map
                        (componentReference
                           (buildModelName (m_slug model) config) config)
                        (filter isComponentType (m_fields model))
                   ++ link;
                 pm_indexes :=
                   Some (buildIndexes (m_fields model) (m_settings model));
                 pm_unique := None; pm_map := None |} = true).
  { intros link Hlink.
    apply wfTable_intro; cbn [pm_name pm_fields pm_indexes pm_unique pm_map
                              nonEmptyRows]; auto.
    - rewrite !forallb_app, Hmapped, Hlink.
      change (forallb wfColumn [buildIdField]) with true.
      change (forallb wfColumn buildTimestampFields) with true.
      cbn [andb]. rewrite andb_true_r.
      apply flat_map_forallb_In. intros f Hf.
      apply filter_In in Hf as [Hf Hc].
      apply componentReference_wf; auto.
    - now apply buildIndexes_safe. }
  destruct (hasTranslation config (separateFields (m_fields model))).
  - unfold buildTranslationModel in H.
    destruct (flatMapR (fun f => mapFieldToPrisma f config)
                (filter isTranslatableContent (m_fields model)))
      as [cols|] eqn:Ec; [|discriminate].
    cbn [bind] in H. injection H as <-. cbn [forallb].
    rewrite andb_true_r. apply andb_true_iff. split.
    { apply Hbase. cbn [forallb]. rewrite andb_true_r.
      now apply translations_link_wf. }
    apply translationTable_wf; auto.
    + apply replaceFirst_safe; [|exact Hpat].
      exact (proj1 (snake_name _ Hname)).
    + apply (mapped_wf _ _ Ec). intros f Hf. apply Hfields.
      now apply filter_In in Hf as [Hf _].
  - injection H as <-. cbn [forallb]. rewrite andb_true_r.
    now apply Hbase.
Qed.

Lemma buildComponentTable_wf parent key component repeatable config context
    table :
  buildComponentTable parent key component repeatable config context
  = Ok table ->
  isTableName parent = true -> Zod.SLUG key = true ->
  match convention config with
  | snake_case => forallb Js.isWord key
  | _ => true
  end = true ->
  forallb (fieldNamesSafe config) (c_fields component) = true ->
  wfTable table = true.
Proof.
  intros H Hp Hk Hs Hfields. rewrite forallb_forall in Hfields.
  destruct (@buildComponentTableName_table parent key config Hp Hk Hs)
    as (Hw & Hne & Hsn).
  destruct (snake_name _ Hp) as [Hpw Hpn].
  unfold buildComponentTable in H.
  pose proof (separateComponentFields_In (c_fields component)) as Hin.
  destruct (separateComponentFields (c_fields component)) as [tr non].
  simpl in Hin.
  destruct (flatMapR _ _) as [mapped|] eqn:Em; [|discriminate].
  cbn [bind] in H. injection H as <-.
  assert (Hmapped : forallb wfColumn mapped = true).
  { apply (mapped_wf _ _ Em). intros f Hf. apply Hfields, Hin.
    destruct (i18nEnabled config); auto.
    apply in_app_or in Hf as [Hf|Hf]; auto. }
  assert (Hfk : forallb Js.isWord (Naming.toSnakeCase parent ++ "_id") = true)
    by (now rewrite forallb_app, Hpw).
  apply wfTable_intro; cbn [pm_name pm_fields pm_indexes pm_unique pm_map];
    auto.
  - cbn [forallb]. rewrite !forallb_app. cbn [forallb].
    rewrite Hmapped, (wfColumn_parent _ Hp).
    rewrite (@wfColumn_fk (Naming.toSnakeCase parent)
               (if repeatable then [] else ["@unique"]) Hpn Hpw)
      by (now destruct repeatable).
    change (wfColumn buildIdField) with true.
    change (wfColumn (withAttributes ["@default(now())"]
                        (field "created_at" "DateTime"))) with true.
    change (wfColumn (withAttributes ["@updatedAt"]
                        (field "updated_at" "DateTime"))) with true.
    cbn [andb]. repeat (apply andb_true_iff; split); try reflexivity.
    + now destruct repeatable.
    + now destruct (abTestingEnabled context).
    + destruct (i18nEnabled config && (0 <? length tr)); [|reflexivity].
      cbn [forallb]. rewrite andb_true_r.
      assert (Hn2 : isNonEmpty
                      (buildComponentTableName parent key config
                       ++ "Translation") = true)
        by (now destruct (buildComponentTableName parent key config)).
      apply wfColumn_intro; auto.
      cbn [type withList field]. now rewrite forallb_app, Hw.
  - destruct repeatable; cbn [nonEmptyRows forallb]; [|reflexivity].
    now rewrite (word_safe _ Hfk).
Qed.

Lemma buildComponentTranslationTable_wf parent key component config table :
  buildComponentTranslationTable parent key component config
  = Ok (Some table) ->
  isTableName parent = true -> Zod.SLUG key = true ->
  match convention config with
  | snake_case => forallb Js.isWord key
  | _ => true
  end = true ->
  forallb (fieldNamesSafe config) (c_fields component) = true ->
  wfTable table = true.
Proof.
  intros H Hp Hk Hs Hfields. rewrite forallb_forall in Hfields.
  destruct (@buildComponentTableName_table parent key config Hp Hk Hs)
    as (Hw & Hne & Hsn).
  set (base := buildComponentTableName parent key config) in *.
  pose proof (toSnakeCase_word _ Hw) as Hsw.
  unfold buildComponentTranslationTable in H.
  pose proof (separateComponentFields_In (c_fields component)) as Hin.
  destruct (separateComponentFields (c_fields component)) as [tr non].
  simpl in Hin. destruct (length tr =? 0); [discriminate|].
  destruct (flatMapR _ _) as [mapped|] eqn:Em; [|discriminate].
  cbn [bind] in H. injection H as <-. fold base.
  assert (Hmapped : forallb wfColumn mapped = true).
  { apply (mapped_wf _ _ Em). intros f Hf. apply Hfields, Hin. auto. }
  assert (Hfk : forallb Js.isWord (Naming.toSnakeCase base ++ "_id") = true)
    by (now rewrite forallb_app, Hsw).
  assert (Hname : forallb Js.isWord (base ++ "Translation") = true)
    by (now rewrite forallb_app, Hw).
  apply wfTable_intro; cbn [pm_name pm_fields pm_indexes pm_unique pm_map
                            nonEmptyRows]; auto.
  - now destruct base.
  - cbn [forallb]. rewrite forallb_app, Hmapped. cbn [forallb].
    change (wfColumn buildIdField) with true.
    change (wfColumn (field "lang" "String")) with true.
    pose proof (@wfColumn_fk (Naming.toSnakeCase base) [] Hsn Hsw eq_refl)
      as Hc1.
    assert (Hc1' : wfColumn (field (Naming.toSnakeCase base ++ "_id")
                                   "String") = true)
      by (unfold wfColumn in *; cbn in Hc1 |- *; exact Hc1).
    rewrite Hc1'. cbn [andb]. rewrite andb_true_r.
    destruct (word_column _ Hsn Hsw) as [Ht Hst].
    apply wfColumn_intro; auto.
    unfold fieldTrailer. cbn [attributes relation map_ withRelation field app].
    rewrite app_nil_r. apply fk_relation_safe; [reflexivity| |reflexivity].
    now apply word_safe.
  - cbn [forallb]. now rewrite (word_safe _ Hfk).
  - apply word_safe, toSnakeCase_word. exact Hname.
Qed.

Lemma buildJunctionTable_wf owner f config table :
  buildJunctionTable owner f config = Ok table ->
  isTableName owner = true -> fieldNamesSafe config f = true ->
  wfTable table = true.
Proof.
  intros H Ho Hsafe.
  destruct (fieldNamesSafe_elim _ _ Hsafe) as (_ & _ & Hc & _).
  unfold buildJunctionTable in H.
  destruct (fd_config f) as [[| | | | | | |rt tm c| |]|]; try discriminate.
  injection H as <-.
  destruct (toPascalCase_word _ Hc) as [Htw Htu].
  assert (Ht : isTableName (Naming.toPascalCase tm) = true)
    by (unfold isTableName; now rewrite Htw, Htu).
  destruct (isTableName_elim _ Ho) as (How & Hou & Hone).
  destruct (snake_name _ Ho) as [Hosw Hosn].
  destruct (snake_name _ Ht) as [Htsw Htsn].
  assert (Hfrom : forallb Js.isWord (Naming.toSnakeCase owner ++ "_id") = true)
    by (now rewrite forallb_app, Hosw).
  assert (Hto : forallb Js.isWord
                  (Naming.toSnakeCase (Naming.toPascalCase tm) ++ "_id")
                = true)
    by (now rewrite forallb_app, Htsw).
  apply wfTable_intro; cbn [pm_name pm_fields pm_indexes pm_unique pm_map
                            nonEmptyRows].
  - unfold buildJunctionTableName. destruct (convention config).
    + now destruct (Naming.toSnakeCase owner).
    + now destruct owner.
    + now destruct owner.
  - unfold buildJunctionTableName. destruct (convention config);
      rewrite ?forallb_app; now rewrite ?Hosw, ?Htsw, ?How, ?Htw.
  - cbn [forallb].
    change (wfColumn buildIdField) with true.
    change (wfColumn (withOptional true (field "order" "Int"))) with true.
    change (wfColumn (withAttributes ["@default(now())"]
                        (field "created_at" "DateTime"))) with true.
    pose proof (@wfColumn_fk (Naming.toSnakeCase owner) [] Hosn Hosw eq_refl)
      as H1.
    pose proof (@wfColumn_fk (Naming.toSnakeCase (Naming.toPascalCase tm)) []
                  Htsn Htsw eq_refl) as H2.
    assert (H1' : wfColumn (field (Naming.toSnakeCase owner ++ "_id")
                                  "String") = true)
      by (unfold wfColumn in *; cbn in H1 |- *; exact H1).
    assert (H2' : wfColumn
                    (field (Naming.toSnakeCase (Naming.toPascalCase tm)
                            ++ "_id") "String") = true)
      by (unfold wfColumn in *; cbn in H2 |- *; exact H2).
    rewrite H1', H2', (wfColumn_parent _ Ht). cbn [andb].
    rewrite andb_true_r.
    destruct (word_column _ Hosn Hosw) as [Hn Hs].
    apply wfColumn_intro; auto.
    unfold fieldTrailer. cbn [attributes relation map_ withRelation field app].
    rewrite app_nil_r.
    apply fk_relation_safe; [now destruct (Js.eqb c "cascade")| |].
    + now apply word_safe.
    + now destruct (Js.eqb c "cascade").
  - cbn [forallb]. now rewrite (word_safe _ Hfrom), (word_safe _ Hto).
  - cbn [forallb]. now rewrite (word_safe _ Hfrom), (word_safe _ Hto).
  - reflexivity.
Qed.

(* ----------------------------------------------------------------- *)
(** *** Every emitted table, and the schema that holds them *)

Lemma emitTables_In (x : Origin * PrismaModel) requests : forall seen,
  In x (fst (emitTables seen requests)) -> In x requests.
Proof.
  induction requests as [|[o t] rest IH]; intros seen H; [contradiction|].
  cbn [emitTables] in H.
  destruct (isJunctionOrigin o).
  - destruct (Js.includes (pm_name t) seen).
    + right. exact (IH _ H).
    + destruct (emitTables (seen ++ [pm_name t]) rest) as [out seen'] eqn:E.
      cbn [fst] in H. destruct H as [H|H]; [now left|].
      right. apply (IH (seen ++ [pm_name t])). now rewrite E.
  - destruct (emitTables seen rest) as [out seen'] eqn:E.
    cbn [fst] in H. destruct H as [H|H]; [now left|].
    right. apply (IH seen). now rewrite E.
Qed.

Lemma forallb_filter A (p q : A -> bool) (l : list A) :
  forallb p l = true -> forallb p (filter q l) = true.
Proof.
  rewrite !forallb_forall. intros H x Hx.
  apply filter_In in Hx as [Hx _]. now apply H.
Qed.

Lemma withoutDerived_safe config model :
  modelNamesSafe config model = true ->
  modelNamesSafe config (withoutDerived model) = true.
Proof.
  unfold modelNamesSafe, withoutDerived.
  cbn [m_slug m_fields m_settings]. intros H.
  apply andb_true_iff in H as [H Hs]. apply andb_true_iff in H as [Hk Hf].
  now rewrite Hk, Hs, (forallb_filter _ _ _ Hf).
Qed.

Lemma componentRequests_wf owner comps config f x :
  isTableName owner = true -> fieldNamesSafe config f = true ->
  forallb (componentNamesSafe config) comps = true ->
  In x (componentRequests owner comps config f) -> wfTable (snd x) = true.
Proof.
  intros Ho Hf Hc Hx.
  destruct (fieldNamesSafe_elim _ _ Hf) as (Hk & _ & _ & Hs).
  unfold componentRequests in Hx.
  destruct (isComponentType f); [|contradiction].
  destruct (fd_config f) as [[| | | | | | | |slug repeatable context|]|];
    try contradiction.
  destruct (Map_get comps slug) as [component|] eqn:Eg; [|contradiction].
  destruct (Map_get_In _ _ Eg) as [k Hin].
  rewrite forallb_forall in Hc. pose proof (Hc _ Hin) as Hcomp.
  unfold componentNamesSafe in Hcomp. cbn [snd] in Hcomp.
  apply in_app_or in Hx as [Hx|Hx].
  - destruct (buildComponentTable owner (fd_key f) component repeatable
                config context) as [t|] eqn:Et; [|contradiction].
    destruct Hx as [<-|[]]. cbn [snd].
    exact (buildComponentTable_wf _ _ _ _ _ _ Et Ho Hk Hs Hcomp).
  - destruct (i18nEnabled config); [|contradiction].
    destruct (buildComponentTranslationTable owner (fd_key f) component
                config) as [[t|]|] eqn:Et; try contradiction.
    destruct Hx as [<-|[]]. cbn [snd].
    exact (buildComponentTranslationTable_wf _ _ _ _ Et Ho Hk Hs Hcomp).
Qed.

Lemma fieldRequests_wf owner comps config f x :
  isTableName owner = true -> fieldNamesSafe config f = true ->
  forallb (componentNamesSafe config) comps = true ->
  In x (fieldRequests owner comps config f) -> wfTable (snd x) = true.
Proof.
  intros Ho Hf Hc Hx. unfold fieldRequests in Hx.
  apply in_app_or in Hx as [Hx|Hx].
  - exact (componentRequests_wf _ _ _ _ _ Ho Hf Hc Hx).
  - apply in_map_iff in Hx as (t & <- & Ht). cbn [snd].
    unfold junctionRequest in Ht.
    destruct (needsJunctionTable f); [|contradiction].
    destruct (buildJunctionTable owner f config) as [j|] eqn:Ej;
      [|contradiction].
    destruct Ht as [<-|[]].
    exact (buildJunctionTable_wf _ _ _ Ej Ho Hf).
Qed.

Lemma modelRequests_wf comps config model x :
  namingSafe config = true -> modelNamesSafe config model = true ->
  forallb (componentNamesSafe config) comps = true ->
  In x (modelRequests comps config model) -> wfTable (snd x) = true.
Proof.
  intros Hn Hm Hc Hx. unfold modelRequests in Hx.
  apply in_app_or in Hx as [Hx|Hx].
  - destruct (buildModel (withoutDerived model) config) as [generated|] eqn:Eb;
      [|contradiction].
    apply in_map_iff in Hx as (t & <- & Ht). cbn [snd].
    pose proof (buildModel_wf _ _ Eb Hn (withoutDerived_safe _ _ Hm)) as Hwf.
    rewrite forallb_forall in Hwf. now apply Hwf.
  - apply in_flat_map in Hx as (f & Hf & Hx).
    unfold modelNamesSafe in Hm.
    apply andb_true_iff in Hm as [Hm _]. apply andb_true_iff in Hm as [Hk Hfs].
    rewrite forallb_forall in Hfs.
    exact (fieldRequests_wf _ _ _ _ _ (buildModelName_table _ _ Hk Hn)
             (Hfs _ Hf) Hc Hx).
Qed.

Lemma compileModels_wf (comps : ComponentMap)
    (config : SchemaBuilderConfig) (defs : list ModelConfig)
    (st : GenState) :
  compileModels comps config defs initialState = Ok st ->
  namingSafe config = true ->
  forallb (modelNamesSafe config) defs = true ->
  forallb (componentNamesSafe config) comps = true ->
  forallb wfTable (map snd (prismaModels st)) = true.
Proof.
  intros H Hn Hm Hc.
  apply advances_compileModels in H as (Hp & _ & _).
  cbn [prismaModels initialState app] in Hp. rewrite Hp.
  apply forallb_forall. intros t Ht.
  apply in_map_iff in Ht as (x & <- & Hx).
  apply emitTables_In in Hx.
  apply in_flat_map in Hx as (m & Hin & Hx).
  rewrite forallb_forall in Hm.
  exact (modelRequests_wf _ _ _ _ Hn (Hm _ Hin) Hc Hx).
Qed.

(** X29: the tables of a run survive writing and re-reading when the
    names that enter them are safe.  When the model slugs, the field
    keys, the relation targets and the component slugs match the slug
    pattern, the prefix is made of word characters, and the free texts
    (validation pattern and custom rule, sort field, translation table
    pattern) hold no line break and no closing brace, every table a run
    emits is well formed; and for a schema that holds the tables of the
    run and whose datasource and generator blocks do not hold the word
    [model], re-extracting the written text gives back the tables in
    order, each with its name and its columns.  Under snake_case the key
    of a component field must be made of word characters as well, since
    it enters the table name as it is. *)
Theorem generated_schema_roundtrip (comps : ComponentMap)
    (config : SchemaBuilderConfig) (defs : list ModelConfig)
    (st : GenState) (schema : PrismaSchema) :
  compileModels comps config defs initialState = Ok st ->
  namingSafe config = true ->
  forallb (modelNamesSafe config) defs = true ->
  forallb (componentNamesSafe config) comps = true ->
  models schema = map snd (prismaModels st) ->
  strIncludes "model" (preamble schema) = false ->
  forallb wfTable (models schema) = true
  /\ Forall2 sameTable (models schema)
             (extractModelsFromString (writeSchemaSync schema)).
Proof.
  intros H Hn Hm Hc Hs Hp.
  assert (Hwf : forallb wfTable (models schema) = true)
    by (rewrite Hs; exact (@compileModels_wf comps config defs st H Hn Hm Hc)).
  split; [exact Hwf|].
  assert (Hschema : wfSchema schema = true)
    by (unfold wfSchema; now rewrite Hp, Hwf).
  unfold extractModelsFromString.
  rewrite scan_schema by exact Hschema. rewrite map_map. cbn [fst snd].
  clear Hs Hschema. induction (models schema) as [|m ms IH]; [constructor|].
  simpl in Hwf. apply andb_true_iff in Hwf as [H1 H2].
  cbn [map]. constructor; [now apply parseModel_bodyOf|now apply IH].
Qed.

Lemma generated_schema_roundtrip_witness :
  exists st,
    compileModels [("seo", Samples.seo)] Samples.withI18n
                  [Cases.page; Cases.newsItem] initialState = Ok st
    /\ map pm_name (models (Samples.schemaOf (map snd (prismaModels st))))
       = ["Page"; "PageSeo"; "PageSeoTranslation"; "NewsItem"]
    /\ Forall2 sameTable
         (models (Samples.schemaOf (map snd (prismaModels st))))
         (extractModelsFromString
            (writeSchemaSync (Samples.schemaOf (map snd (prismaModels st))))).
Proof.
  destruct (compileModels [("seo", Samples.seo)] Samples.withI18n
              [Cases.page; Cases.newsItem] initialState) as [st|] eqn:E;
    [|vm_compute in E; discriminate].
  exists st. split; [reflexivity|]. split.
  - pose proof E as E'. apply advances_compileModels in E' as (Hp & _ & _).
    cbn [Samples.schemaOf models]. rewrite Hp. reflexivity.
  - apply (@generated_schema_roundtrip [("seo", Samples.seo)]
             Samples.withI18n [Cases.page; Cases.newsItem] st
             (Samples.schemaOf (map snd (prismaModels st))) E);
      vm_compute; reflexivity.
Defined.
